(* ===== verification/_CoqProject ===== *)
-Q . S2P
Prelude.v
Interleave.v
Errors.v
GoStrings.v
Flags.v
Version.v
Constants.v
MessageId.v
Stream.v
Pipe.v
Header.v
Corpus.v
Vectors.v
Codec.v
WireErrors.v
Writer.v
SharedWriter.v
Rmt.v
Status.v
Transaction.v
Policy.v
Locks.v
LockWait.v
Config.v
Device.v
TestDevice.v
Instrument.v
InstrumentLog.v
Session.v
Server.v
Initialize.v
Handler.v
Dispatch.v
Data.v
Clear.v
Async.v
Reader.v
Serve.v
Programs.v
ClearRace.v
Frame.v
Types.v
Guarantee.v
Framing.v
Query.v
Connect.v
Goroutines.v
DeviceUse.v
Worlds.v
Ownership.v
LateGrant.v
Listener.v
System.v
Example.v
Process.v
