(* ===== verification/Prelude.v ===== *)
(** * HiSLIP server: a verified model

    This library models the Go code of this repository: the packages [protocol] and
    [server], a server for HiSLIP (IVI-6.1), the protocol by which an instrument is
    driven over two network connections; the listener of the root package; the test
    support of [internal]; and the example server with its simulated instrument. It
    proves that they do what they promise.

    ** The program

    A client opens two connections. The first message of each says which channel it
    is: Initialize opens a session on the synchronous channel, AsyncInitialize
    attaches the asynchronous channel to it. Program messages (Data and DataEnd),
    triggers and the end of a Device Clear travel on the synchronous channel;
    status queries, locks, remote/local control, the maximum message size and the
    start of a Device Clear on the asynchronous one. The codec frames messages
    ([src/protocol]); a reader per connection reads ahead by one message
    ([reader.go]); the loops of [serve.go] pass each message to a handler, which
    consults the session ([session.go]) and its trackers (transaction, RMT, status,
    response policy), the lock manager the sessions share ([locks.go]) and the
    instrument behind the [Device] interface, and answers through the channel's
    writer ([writer.go]). The listener ([listen.go]) accepts the connections, runs a
    goroutine for each and shuts the server down.

    ** Files

    - [Prelude]: machine integers, byte strings, the state monad, bounded loops,
      tactics and hint databases.
    - [Interleave]: programs of atomic actions, run alone, in pairs or in pools of any
      number, with a rely-guarantee condition; [GoStrings]: what the code uses of Go's strings,
      runes and number formatting; [Flags]: what it uses of package [flag].
    - [Errors]: sentinel errors and [errors.Is] ([protocol/errors.go],
      [server/errors.go]); [WireErrors]: their codes on the wire.
    - [Version], [Constants], [MessageId], [Header], [Codec]: [protocol/*.go].
    - [Stream]: the [Stream] interface of [server/stream.go] as a class of
      operations with the guarantee of [io.Reader], the class [StreamModel] of what
      a live transport promises, [io.ReadFull], and the canned stream of
      [internal/teststream] as an instance; [Pipe]: its in-memory pipe, with the
      goroutines that block in [Read], as a step system.
    - [Corpus], [Vectors]: the conformance vectors and their loader
      ([internal/vectors]).
    - [Device]: the [Device] interface of [server/device.go] as a class, and the
      remote/local modes, and the optional capabilities; [TestDevice]: the recording
      instrument of [internal/testdevice] as an instance; [Instrument]: the simulated
      one of [examples/server]; [InstrumentLog]: what it logs.
    - [SharedWriter]: a [Write] of the message writer in atomic actions.
    - [Writer], [Rmt], [Status], [Transaction], [Policy], [Config]: the files of
      these names in [server/].
    - [Locks]: the lock manager and the lock table of the standard it implements;
      [LockWait]: [Request] as the steps of a goroutine among others.
    - [Session]: [session.go]; [Server]: [server.go], with the heap of session
      objects and the world invariant; [Initialize]: [initialize.go].
    - [Handler]: the state a handler works on, and the paired sessions ([live]) the
      handlers' theorems are about; [Dispatch], [Data], [Clear], [Async]: the files
      of these names in [server/].
    - [Reader]: [reader.go], reading one message and the read-ahead as a step system.
    - [Serve]: the handlers and loops of [serve.go]; [Frame]: what no handler
      changes; [Query]: a query from the loop to the wire; [Connect]: connections,
      from their first message to the end of their loop.
    - [Programs]: the handlers and the loops again, as programs of atomic actions;
      [ClearRace]: a response beside a Device Clear; [Types]: the widths of the integers
      a session and a server hold; [Guarantee]: what every action of every handler
      keeps to; [Framing]: what the two loops of a session put on the wire.
    - [Goroutines]: the connections, the removal of a session and the shutdown as
      programs over the world; [Worlds]: any number of them; [Ownership]: which of them
      removes a session; [LateGrant]: a lock granted after its session was removed.
    - [DeviceUse]: each action of the goroutines makes at most one call of the instrument.
    - [Listener]: the state and the steps of [listen.go]; [System]: these steps together
      with the goroutines of [Goroutines], the whole server in atomic actions.
    - [Example]: a query to the simulated instrument from end to end, and
      [cmd/tinygocheck]; [Process]: [main] of [examples/server] over [System], from its
      arguments to its exit code, with all it logs.

    ** How the code is represented

    A Go unsigned integer is a [Z] with its conversions written out; a byte slice or
    string is a list of such bytes. A method that changes its receiver returns the
    new value; the handlers, which share the server, a session and its streams, are
    written in a state monad over [HState] and return Go's errors as values, so a
    failed call still shows the state it leaves. Sessions are objects of a heap,
    because two goroutines and the session table refer to one object. A context is
    the chain of cancellable contexts it derives from. The transport and the
    instrument are parameters: every theorem holds for each of their instances.

    The handlers of [Data], [Clear], [Async], [Serve] and [Connect] are functions: a call
    runs to its end. What goroutines do to each other is modelled again, at the
    granularity of what is shared. A waiting lock request ([LockWait]), the read-ahead
    ([Reader]), the pipe ([Pipe]) and the listener ([Listener]) are cut into their
    critical sections. All the handlers of the two channels ([Programs]) and all the
    goroutines of the server ([Goroutines]) are programs whose actions are calls of the
    instrument, critical sections of the session, of the lock manager and of the server,
    methods of the trackers, writes and counts. Run alone, these programs are proved to
    be the handlers and the operations of [Serve], [Connect] and [Server]
    ([Programs.goroutines_alone], [Goroutines.Serve_alone]). [System] runs them under the
    listener: a connection's goroutine returns when its program has, and [Close] returns
    when its [CloseAll] has, session by session.

    In these programs the write of a message, its header and payload with the header
    buffer of the writer and its count, is one action, and so is the end of a session,
    [Session.close]. Of the synchronous channel that loses nothing, for only its own
    loop writes to it. The writer of the asynchronous channel has two users, and has no
    lock: the synchronous loop sends AsyncInterrupted through it. [Framing] therefore
    proves the framing of the asynchronous channel for writes that do not overlap,
    together with the fact that an overlap needs an AsyncInterrupted; [SharedWriter] cuts
    a write into encoding and stream writes and shows what an overlap does.

    The promise of a component to its clients is a class: [Stream] and [StreamModel] of
    the transport, [Device] of the instrument, [Guarantee.TypedDevice] of an instrument
    that returns bytes, with the recording instrument as its instance.

    ** Bounds and fuel

    - [Codec.ReadPayload] runs at most [n + 1] rounds for [n] declared bytes; each
      round of a non-empty scratch buffer takes at least one byte.
    - [io.ReadFull] runs at most as many reads as bytes are wanted; a read without an
      error returns at least one ([stream_Read_progress]).
    - [SCPIQueryPolicy.Feed] runs [2 * len + 1] rounds: a byte is looked at twice at
      most ([Policy.Feed_loop]).
    - [allocateIDLocked] runs the [2^16] rounds of the source.
    - [SendResponse] runs as long as the instrument keeps answering. Its fuel is the
      number of reads; the theorems show that it returns when there is fuel for the
      reads the instrument answers. [None] is a call that has not returned.
    - a lock request takes its turns from a list of choices (which branch of its
      [select] is taken, what is left of the timer), followed by [LockWait.expiry], in
      which the timer runs out: however it is woken before, it returns.
    - [GoStrings.runes] runs one round for each byte; a rune takes at least one.
    - [Flags.Parse_rounds] runs one round for each argument; a flag takes at least one.
    - the goroutines of [Listener], [System] and [Pipe] need no fuel: their steps are
      relations, and that they end is a theorem. In [System] the goroutine of a
      synchronous channel whose instrument has answered for as many reads as the fuel
      allows stands for one that has not returned, and the theorem says what then becomes
      of [Serve]; an asynchronous channel always returns ([Guarantee.returns_runAsync]).

    ** What is shown

    - the codec: encodings are inverse to decodings, framing survives any
      fragmentation, and a reader never loses its place;
    - the trackers: transactions keep their attribution, the RMT state accuses no
      conforming client, service requests coalesce, the SCPI lexer finds exactly the
      queries however a message is cut up;
    - locks: the manager refines the table of the standard, a blocked request is
      woken by every change, and a session that goes away leaves no lock behind unless
      a request of its own is still waiting;
    - sessions: identifiers are unique and never run out early, initialization and
      pairing succeed exactly under their conditions, and removal and shutdown do what
      is stated of them, for every world;
    - concurrency: in every interleaving of the actions of any number of connections
      and shutdowns the session table, the sessions and all integers stay in order, the
      locks move as the table of the standard does, one operation of a session at a
      time, every session in the table has a goroutine that will remove it, and the two
      loops of a session put only whole, legal messages on their channels, with the
      reservation on overlapping writes above;
    - operations: a query is answered on the wire with exactly the messages the
      standard asks for on every branch (complete, truncated, absent, interrupted),
      commands are delivered, Device Clear restores a fresh session, also when it
      arrives during a response, and status and lock transactions answer as
      specified;
    - the whole server: when [Close] returns, every connection tracked in time and every
      session it found in the table is closed; once the context is cancelled the server
      comes to an end, and when [Serve] returns nil no session and no goroutine of a
      connection is left;
    - the example: a query to the simulated instrument is answered with what it
      queued, and the instrument and the server agree on what is a query where the
      text has no strings or blocks; logging changes nothing; the flags parse back, and
      the process exits with code 0 after a signal, its log being what [main], its
      callback and, with -v, the instrument have written;
    - test support: the pipe delivers in order and loses no reader, the loader reads
      back what is written, and the codec agrees with every vector of the corpus.

    Theorems on behaviour that differs from what the comments in the code say:
    [Data.failed_write_refuses_whole_messages], [Clear.device_clear_keeps_the_policy],
    [LockWait.request_can_miss_a_release],
    [Transaction.clearing_is_not_always_reachable],
    [System.close_can_miss_a_connection], [Instrument.string_is_not_honoured],
    [ClearRace.clear_can_miss_the_operation], [SharedWriter.shared_writer_corrupts] and
    [LateGrant.removed_session_is_granted_a_lock].

    ** Not modelled

    [client] and [extension/gotmc] hold only documentation. The sockets of package [net]
    are represented by what is open: a closed socket accepts nothing, and a goroutine
    whose connection is closed is not held up by its client. Of packages [flag] and [log] the usage text
    and the time stamps are left out. Mutexes as such, and the data races of the fields
    that have none, are not modelled, each access being one action; nor is the memory
    model of Go. The optional device capabilities are interfaces that no code of the
    server calls. What a reader delivers to a loop is a list that is fixed when the
    connection is served, so a client that reacts to what it is sent is one of the
    clients the theorems quantify over, but its reactions are not a program. *)

From Stdlib Require Export ZArith Lia Bool Btauto.
From stdpp Require Export base tactics numbers list gmap sets strings.

Open Scope Z_scope.

(** ** Machine integers

    A Go unsigned integer of width [w] is a [Z]; a conversion such as
    [uint8(x)] is reduction modulo [2^w]. *)

Definition uint8 (z : Z) : Z := z mod 2 ^ 8.
Definition uint16 (z : Z) : Z := z mod 2 ^ 16.
Definition uint32 (z : Z) : Z := z mod 2 ^ 32.
Definition uint64 (z : Z) : Z := z mod 2 ^ 64.

Definition is_u8 (z : Z) : Prop := 0 <= z < 2 ^ 8.
Definition is_u16 (z : Z) : Prop := 0 <= z < 2 ^ 16.
Definition is_u32 (z : Z) : Prop := 0 <= z < 2 ^ 32.
Definition is_u64 (z : Z) : Prop := 0 <= z < 2 ^ 64.

(** A byte slice is a list of bytes; [len] is Go's [len] as an integer. *)
Abbreviation bytes := (list Z).
Definition wf_bytes (b : bytes) : Prop := Forall is_u8 b.
Definition len {A} (l : list A) : Z := Z.of_nat (length l).

(** A Go string is the sequence of its bytes; [str] reads a literal. *)
Definition str (s : string) : bytes :=
  map (fun c => Z.of_N (Ascii.N_of_ascii c)) (String.list_ascii_of_string s).

(** ** A state monad

    Stateful code is written with stdpp's bind notation over
    [M S A := S -> A * S]; a Go error is an ordinary component of the result,
    so a failing call still returns the state it left behind. *)
Definition M (S A : Type) : Type := S -> A * S.
#[export] Instance M_ret {S} : MRet (M S) := fun A a s => (a, s).
#[export] Instance M_bind {S} : MBind (M S) :=
  fun A B k m s => let (a, s') := m s in k a s'.

Definition gets {S A} (f : S -> A) : M S A := fun s => (f s, s).
Definition modify {S} (f : S -> S) : M S unit := fun s => (tt, f s).

(** ** Hint databases and tactics *)
Create HintDb hislip.
Create Rewrite HintDb hislip_rw.

(** Split a goal about nested [if]/[match] on its head scrutinee and close
    the contradictory branches. *)
Ltac split_matches :=
  repeat (case_match; simplify_eq/=; try done).

(** Unfold the width predicates and finish with linear arithmetic. *)
Ltac u_lia :=
  unfold is_u8, is_u16, is_u32, is_u64, uint8, uint16, uint32, uint64, len in *; lia.

(** Decide a closed conjunction of range conditions by evaluation. *)
Ltac solve_range :=
  repeat match goal with |- _ /\ _ => split end;
  vm_compute; repeat split; intros; discriminate.

(** Evaluate every [bool_decide] whose proposition, or its negation, is in the
    context, whatever decision instance it carries. *)
Ltac bd_known :=
  repeat (match goal with
  | H : ?P |- context [@bool_decide ?P ?d] => rewrite (@bool_decide_eq_true_2 P d H)
  | H : ~ ?P |- context [@bool_decide ?P ?d] => rewrite (@bool_decide_eq_false_2 P d H)
  | H : ?P |- context [@bool_decide (~ ?P) ?d] =>
      rewrite (@bool_decide_eq_false_2 (~ P) d (fun n => n H))
  end; simpl).

(** ** Lemmas on machine integers *)

Lemma uint8_range z : is_u8 (uint8 z).
Proof. apply Z.mod_pos_bound. lia. Qed.
Lemma uint16_range z : is_u16 (uint16 z).
Proof. apply Z.mod_pos_bound. lia. Qed.
Lemma uint32_range z : is_u32 (uint32 z).
Proof. apply Z.mod_pos_bound. lia. Qed.
Lemma uint64_range z : is_u64 (uint64 z).
Proof. apply Z.mod_pos_bound. lia. Qed.

Lemma uint8_id z : is_u8 z -> uint8 z = z.
Proof. apply Z.mod_small. Qed.
Lemma uint16_id z : is_u16 z -> uint16 z = z.
Proof. apply Z.mod_small. Qed.
Lemma uint32_id z : is_u32 z -> uint32 z = z.
Proof. apply Z.mod_small. Qed.
Lemma uint64_id z : is_u64 z -> uint64 z = z.
Proof. apply Z.mod_small. Qed.

#[export] Hint Resolve uint8_range uint16_range uint32_range uint64_range : hislip.
#[export] Hint Rewrite uint8_id uint16_id uint32_id uint64_id using (by auto with hislip) : hislip_rw.

(** A number below [2^n] has no bit at or above [n]. *)
Lemma testbit_above n z i : 0 <= z < 2 ^ n -> n <= i -> Z.testbit z i = false.
Proof.
  intros Hz Hi. destruct (Z.lt_ge_cases n 0) as [Hn | Hn].
  - rewrite Z.pow_neg_r in Hz by done. lia.
  - rewrite <- (Z.mod_small z (2 ^ n)) by done.
    by apply Z.mod_pow2_bits_high.
Qed.

(** Disjoint halves: or-ing a shifted value with one that fits below the
    shift is addition. *)
Lemma lor_shiftl_add a b n :
  0 <= n -> 0 <= b < 2 ^ n -> Z.lor (Z.shiftl a n) b = a * 2 ^ n + b.
Proof.
  intros Hn Hb. rewrite <- Z.shiftl_mul_pow2 by done.
  symmetry. apply Z.add_nocarry_lor.
  apply Z.bits_inj'; intros i Hi. rewrite Z.land_spec, Z.bits_0.
  destruct (Z.lt_ge_cases i n).
  - by rewrite Z.shiftl_spec_low by lia.
  - rewrite (testbit_above n b) by lia. btauto.
Qed.

(** ** Lemmas on lists *)

Lemma len_nonneg {A} (l : list A) : 0 <= len l.
Proof. unfold len. lia. Qed.
Lemma len_app {A} (l k : list A) : len (l ++ k) = len l + len k.
Proof. unfold len. rewrite length_app. lia. Qed.
Lemma len_nil_iff {A} (l : list A) : len l = 0 <-> l = [].
Proof. unfold len. destruct l; simpl; split; intros; try done; lia. Qed.

#[export] Hint Resolve len_nonneg : hislip.
#[export] Hint Rewrite @len_app : hislip_rw.

Lemma wf_bytes_app a b : wf_bytes (a ++ b) <-> wf_bytes a /\ wf_bytes b.
Proof. apply Forall_app. Qed.
Lemma wf_bytes_take n b : wf_bytes b -> wf_bytes (take n b).
Proof. apply Forall_take. Qed.
Lemma wf_bytes_drop n b : wf_bytes b -> wf_bytes (drop n b).
Proof. apply Forall_drop. Qed.
#[export] Hint Resolve wf_bytes_take wf_bytes_drop : hislip.

(** A decidable fact about every byte is checked on the 256 values. *)
Lemma u8_forall (P : Z -> bool) :
  forallb P (seqZ 0 256) = true -> forall t, is_u8 t -> P t = true.
Proof.
  intros H t Ht. rewrite forallb_forall in H. apply H.
  apply list_elem_of_In, elem_of_seqZ. u_lia.
Qed.

(** ** Big-endian integers

    [binary.BigEndian] reads a slice most significant byte first and writes the
    low [n] bytes of a value in the same order. *)
Definition be_read (b : bytes) : Z :=
  fold_left (fun acc x => Z.lor (Z.shiftl acc 8) x) b 0.

Fixpoint be_write (n : nat) (v : Z) : bytes :=
  match n with
  | O => []
  | S n => uint8 (Z.shiftr v (8 * Z.of_nat n)) :: be_write n v
  end.

Lemma length_be_write n v : length (be_write n v) = n.
Proof. induction n; simpl; auto. Qed.

Lemma wf_be_write n v : wf_bytes (be_write n v).
Proof. induction n; constructor; auto with hislip. Qed.
#[export] Hint Resolve wf_be_write : hislip.

(** Folding from an accumulator shifts it past the slice. *)
Lemma be_fold_acc b acc :
  wf_bytes b ->
  fold_left (fun acc x => Z.lor (Z.shiftl acc 8) x) b acc
    = acc * 2 ^ (8 * len b) + be_read b.
Proof.
  unfold be_read. revert acc. induction b as [|x b IH]; intros acc Hb; cbn [fold_left].
  { unfold len; simpl. lia. }
  apply Forall_cons in Hb as [Hx Hb]. rewrite !(IH (Z.lor _ _)) by done.
  rewrite !lor_shiftl_add by (done || lia).
  replace (len (x :: b)) with (len b + 1) by (unfold len; simpl; lia).
  replace (8 * (len b + 1)) with (8 * len b + 8) by lia.
  rewrite Z.pow_add_r by (pose proof (len_nonneg b); lia). lia.
Qed.

Lemma be_read_cons x b :
  wf_bytes (x :: b) -> be_read (x :: b) = x * 2 ^ (8 * len b) + be_read b.
Proof.
  intros H. apply Forall_cons in H as [Hx Hb]. unfold be_read at 1. simpl.
  by rewrite be_fold_acc.
Qed.

Lemma be_read_range b : wf_bytes b -> 0 <= be_read b < 2 ^ (8 * len b).
Proof.
  induction b as [|x b IH]; intros H; [done |].
  rewrite be_read_cons by done. apply Forall_cons in H as [Hx Hb].
  specialize (IH Hb). replace (len (x :: b)) with (len b + 1) by (unfold len; simpl; lia).
  pose proof (len_nonneg b).
  replace (8 * (len b + 1)) with (8 + 8 * len b) by lia. rewrite Z.pow_add_r by lia.
  unfold is_u8 in *. nia.
Qed.

(** Reading what was written gives the value modulo the width. *)
Lemma be_read_write n v : be_read (be_write n v) = v mod 2 ^ (8 * Z.of_nat n).
Proof.
  induction n as [|n IH]; [by rewrite Z.mod_1_r |].
  cbn [be_write]. rewrite be_read_cons by apply (wf_be_write (S n) v).
  rewrite IH. unfold len. rewrite length_be_write. unfold uint8.
  rewrite Z.shiftr_div_pow2 by lia.
  replace (8 * Z.of_nat (S n)) with (8 * Z.of_nat n + 8) by lia.
  rewrite Z.pow_add_r, Z.rem_mul_r by lia. lia.
Qed.

(** Writing what was read gives the slice back. *)
Lemma be_write_read b : wf_bytes b -> be_write (length b) (be_read b) = b.
Proof.
  assert (G : forall b k, wf_bytes b ->
    be_write (length b) (k * 2 ^ (8 * len b) + be_read b) = b).
  { clear b. induction b as [|x b IH]; intros k H; [done |].
    rewrite be_read_cons by done. apply Forall_cons in H as [Hx Hb].
    cbn [length be_write]. fold (len b). pose proof (be_read_range b Hb) as Hr.
    pose proof (len_nonneg b).
    assert (E : k * 2 ^ (8 * len (x :: b)) + (x * 2 ^ (8 * len b) + be_read b)
      = (k * 2 ^ 8 + x) * 2 ^ (8 * len b) + be_read b).
    { replace (len (x :: b)) with (len b + 1) by (unfold len; simpl; lia).
      replace (8 * (len b + 1)) with (8 + 8 * len b) by lia.
      rewrite Z.pow_add_r by lia. lia. }
    rewrite E. f_equal; [| by apply IH].
    rewrite Z.shiftr_div_pow2, Z.div_add_l, (Z.div_small (be_read b)) by lia.
    unfold uint8. rewrite Z.add_0_r, Z.add_comm, Z.mod_add by lia. by apply uint8_id. }
  intros H. rewrite <- (G b 0 H) at 3. by rewrite Z.mul_0_l, Z.add_0_l.
Qed.

Lemma be_write_read' n b : length b = n -> wf_bytes b -> be_write n (be_read b) = b.
Proof. intros <-. apply be_write_read. Qed.

(** ** Bounded loops

    [loop p f a] runs a loop body at most [p] times; the body returns [inl] to
    go round again and [inr] to leave. The bound is binary, so that a large one
    costs nothing when the loop leaves early. *)
Section Loop.
Context {A B : Type}.

Definition loop_bind (r : A + B) (k : A -> A + B) : A + B :=
  match r with inl a => k a | inr b => inr b end.

Fixpoint loop (p : positive) (f : A -> A + B) (a : A) : A + B :=
  match p with
  | xH => f a
  | xO p => loop_bind (loop p f a) (loop p f)
  | xI p => loop_bind (f a) (fun a => loop_bind (loop p f a) (loop p f))
  end.

(** The unary reading of the same loop. *)
Fixpoint loop_nat (n : nat) (f : A -> A + B) (a : A) : A + B :=
  match n with
  | O => inl a
  | S n => loop_bind (f a) (loop_nat n f)
  end.

Lemma loop_bind_assoc r k h :
  loop_bind (loop_bind r k) h = loop_bind r (fun a => loop_bind (k a) h).
Proof. by destruct r. Qed.

Lemma loop_bind_ext r k h : (forall a, k a = h a) -> loop_bind r k = loop_bind r h.
Proof. destruct r; simpl; auto. Qed.

Lemma loop_nat_add m n f a :
  loop_nat (m + n) f a = loop_bind (loop_nat m f a) (loop_nat n f).
Proof.
  revert a. induction m as [|m IH]; intros a; [done |]. simpl.
  rewrite loop_bind_assoc. by apply loop_bind_ext.
Qed.

Lemma loop_loop_nat p f a : loop p f a = loop_nat (Pos.to_nat p) f a.
Proof.
  revert a. induction p as [p IH | p IH |]; intros a; cbn [loop].
  - rewrite Pos2Nat.inj_xI. simpl. apply loop_bind_ext. intros b.
    rewrite Nat.add_0_r, loop_nat_add, IH. by apply loop_bind_ext.
  - rewrite Pos2Nat.inj_xO. simpl. rewrite Nat.add_0_r, loop_nat_add, IH.
    by apply loop_bind_ext.
  - simpl. by destruct (f a).
Qed.

(** Once a loop has left, a larger bound gives the same result. *)
Lemma loop_nat_enough m n f a b :
  (m <= n)%nat -> loop_nat m f a = inr b -> loop_nat n f a = inr b.
Proof.
  intros Hmn H. replace n with (m + (n - m))%nat by lia.
  by rewrite loop_nat_add, H.
Qed.
End Loop.
