(* ===== verification/Interleave.v ===== *)
(** * Goroutines that interleave

    Code that two goroutines run at the same time, at the granularity of the actions
    on the shared state: a program is a tree of atomic actions, each an operation of
    the state monad. Run alone it is an operation of the monad itself; run beside
    another program, the actions of the two alternate in any order.

    [wp] is the rely-guarantee condition of a program: whatever the environment does
    within its rely, every action stays within the guarantee and the result satisfies
    the postcondition. *)

From S2P Require Import Prelude.

Inductive prog (X A : Type) : Type :=
| Ret (a : A)
| Act (B : Type) (m : M X B) (k : B -> prog X A).
Arguments Ret {X A}.
Arguments Act {X A B}.

Section Prog.
Context {X : Type}.

Fixpoint prog_bind {A B} (f : A -> prog X B) (p : prog X A) : prog X B :=
  match p with
  | Ret a => f a
  | Act m k => Act m (fun b => prog_bind f (k b))
  end.
#[export] Instance prog_MRet : MRet (prog X) := fun A a => Ret a.
#[export] Instance prog_MBind : MBind (prog X) := fun A B f p => prog_bind f p.

(** One atomic action. *)
Definition act {A} (m : M X A) : prog X A := Act m Ret.

(** A program run alone. *)
Fixpoint run {A} (p : prog X A) : M X A :=
  match p with
  | Ret a => mret a
  | Act m k => b ← m; run (k b)
  end.

Lemma run_act {A} (m : M X A) x : run (act m) x = m x.
Proof. unfold act. simpl. unfold mbind, M_bind. by destruct (m x). Qed.

Lemma run_bind {A B} (p : prog X A) (f : A -> prog X B) x :
  run (p ≫= f) x = (run p ≫= fun a => run (f a)) x.
Proof.
  revert x. induction p as [a | C m k IH]; intros x; [done |].
  cbn. unfold mbind, M_bind. destruct (m x) as [c x']. apply IH.
Qed.

Lemma run_seq {A B} (p : prog X A) (f : A -> prog X B) x :
  run (p ≫= f) x = let (a, x') := run p x in run (f a) x'.
Proof. apply run_bind. Qed.

(** ** Two programs side by side *)

Inductive par_step {A B} : prog X A * prog X B * X -> prog X A * prog X B * X -> Prop :=
| par_left C (m : M X C) k q x : par_step (Act m k, q, x) (k (m x).1, q, (m x).2)
| par_right C p (m : M X C) k x : par_step (p, Act m k, x) (p, k (m x).1, (m x).2).

(** Take steps by a schedule: [true] is the first program. [None] is a step a
    program that has ended cannot take. *)
Fixpoint par_run {A B} (sched : list bool) (c : prog X A * prog X B * X)
  : option (prog X A * prog X B * X) :=
  match sched with
  | [] => Some c
  | b :: sched =>
      let '(p, q, x) := c in
      match (if b : bool then match p with Act m k => Some (k (m x).1, q, (m x).2) | Ret _ => None end
             else match q with Act m k => Some (p, k (m x).1, (m x).2) | Ret _ => None end) with
      | Some c => par_run sched c
      | None => None
      end
  end.

Lemma par_run_steps {A B} sched (c c' : prog X A * prog X B * X) :
  par_run sched c = Some c' -> rtc par_step c c'.
Proof.
  revert c. induction sched as [|b sched IH]; intros [[p q] x] E; cbn in E; [by simplify_eq |].
  destruct b; [destruct p as [a | C m k]; [done |] | destruct q as [a | C m k]; [done |]].
  - eapply rtc_l; [apply par_left | by apply IH].
  - eapply rtc_l; [apply par_right | by apply IH].
Qed.

Lemma left_step {A B C} (m : M X C) (k : C -> prog X A) (q : prog X B) x a x' c :
  m x = (a, x') -> rtc par_step (k a, q, x') c -> rtc par_step (Act m k, q, x) c.
Proof. intros E Hr. eapply rtc_l; [apply par_left |]. by rewrite E. Qed.
Lemma right_step {A B C} (p : prog X A) (m : M X C) (k : C -> prog X B) x a x' c :
  m x = (a, x') -> rtc par_step (p, k a, x') c -> rtc par_step (p, Act m k, x) c.
Proof. intros E Hr. eapply rtc_l; [apply par_right |]. by rewrite E. Qed.

(** Steps of one of the programs, while the other waits. *)
Inductive one_step {A} : prog X A * X -> prog X A * X -> Prop :=
| step_one C (m : M X C) k x : one_step (Act m k, x) (k (m x).1, (m x).2).

Lemma one_step_eq {A C} (m : M X C) (k : C -> prog X A) x a x' c :
  m x = (a, x') -> rtc one_step (k a, x') c -> rtc one_step (Act m k, x) c.
Proof. intros E Hr. eapply rtc_l; [apply step_one |]. by rewrite E. Qed.

Lemma lift_left {A B} (p p' : prog X A) (q : prog X B) x x' :
  rtc one_step (p, x) (p', x') -> rtc par_step (p, q, x) (p', q, x').
Proof.
  intros Hr. refine (rtc_congruence (fun c => (c.1, q, c.2)) _ (p, x) (p', x') _ Hr).
  intros _ _ [C m k y]. cbn [fst snd]. apply par_left.
Qed.
Lemma lift_right {A B} (p : prog X A) (q q' : prog X B) x x' :
  rtc one_step (q, x) (q', x') -> rtc par_step (p, q, x) (p, q', x').
Proof.
  intros Hr. refine (rtc_congruence (fun c => (p, c.1, c.2)) _ (q, x) (q', x') _ Hr).
  intros _ _ [C m k y]. cbn [fst snd]. apply par_right.
Qed.

(** A step is one of the two programs'. *)
Lemma par_step_inv {A B} (c c' : prog X A * prog X B * X) :
  par_step c c' ->
  match c.1.1 with Act m k => c' = (k (m c.2).1, c.1.2, (m c.2).2) | Ret _ => False end \/
  match c.1.2 with Act m k => c' = (c.1.1, k (m c.2).1, (m c.2).2) | Ret _ => False end.
Proof. destruct 1; [by left | by right]. Qed.

(** Every schedule ends. *)
Lemma par_terminates {A B} (p : prog X A) (q : prog X B) x : sn par_step (p, q, x).
Proof.
  revert q x. induction p as [a | C m k IHp]; intros q.
  - induction q as [b | C' m' k' IHq]; intros x; constructor; intros c' Hs;
      destruct (par_step_inv _ _ Hs) as [E | E]; simpl in E; [destruct E .. |].
    rewrite E. apply IHq.
  - induction q as [b | C' m' k' IHq]; intros x; constructor; intros c' Hs;
      destruct (par_step_inv _ _ Hs) as [E | E]; simpl in E; rewrite ?E; [apply IHp | destruct E | apply IHp |].
    apply IHq.
Qed.

(** It ends where both programs have returned. *)
Lemma par_nf {A B} (p : prog X A) (q : prog X B) x :
  nf par_step (p, q, x) -> exists a b, p = Ret a /\ q = Ret b.
Proof.
  intros Hn. destruct p as [a | C m k]; [| destruct Hn; eexists; apply par_left].
  destruct q as [b | C m k]; [by eauto | destruct Hn; eexists; apply par_right].
Qed.

(** ** Rely and guarantee *)

Fixpoint wp {A} (R G : X -> X -> Prop) (p : prog X A) (Q : A -> X -> Prop) (x : X) : Prop :=
  match p with
  | Ret a => forall x', rtc R x x' -> Q a x'
  | Act m k => forall x', rtc R x x' -> G x' (m x').2 /\ wp R G (k (m x').1) Q (m x').2
  end.

(** What the environment does within the rely does not invalidate the condition. *)
Lemma wp_stable {A} R G (p : prog X A) Q x x' : rtc R x x' -> wp R G p Q x -> wp R G p Q x'.
Proof. intros Hr. destruct p; cbn; intros Hp x'' Hr'; apply Hp; by etrans. Qed.

Lemma wp_mono {A} R G (p : prog X A) (Q Q' : A -> X -> Prop) x :
  (forall a x, Q a x -> Q' a x) -> wp R G p Q x -> wp R G p Q' x.
Proof.
  intros HQ. revert x. induction p as [a | C m k IH]; intros x; cbn; [by eauto |].
  intros Hp x' Hr. destruct (Hp x' Hr) as [HG Hk]. split; [done | by apply IH].
Qed.

Lemma wp_weaken {A} R (G G' : X -> X -> Prop) (p : prog X A) Q x :
  (forall x x', G x x' -> G' x x') -> wp R G p Q x -> wp R G' p Q x.
Proof.
  intros HG. revert x. induction p as [a | C m k IH]; intros x; cbn; [done |].
  intros Hp x' Hr. destruct (Hp x' Hr) as [Hm Hk]. split; [by apply HG | by apply IH].
Qed.

Lemma wp_bind {A B} R G (p : prog X A) (f : A -> prog X B) Q x :
  wp R G p (fun a x => wp R G (f a) Q x) x -> wp R G (p ≫= f) Q x.
Proof.
  revert x. induction p as [a | C m k IH]; intros x; cbn.
  - intros Hp. apply (Hp x). done.
  - intros Hp x' Hr. destruct (Hp x' Hr) as [HG Hk]. split; [done | by apply IH].
Qed.

(** An action under an invariant the rely keeps. *)
Lemma wp_act {A} R G (I : X -> Prop) (m : M X A) (Q : A -> X -> Prop) x :
  (forall x x', I x -> R x x' -> I x') -> I x ->
  (forall x, I x -> G x (m x).2 /\ forall x', rtc R (m x).2 x' -> Q (m x).1 x') ->
  wp R G (act m) Q x.
Proof.
  intros HR Hx Hm x' Hr. apply Hm. induction Hr; eauto.
Qed.

(** Two programs that keep to each other's rely both meet their postconditions in
    every interleaving. *)
Lemma wp_par {A B} R1 G1 R2 G2 (p : prog X A) (q : prog X B) Q1 Q2 x c' :
  (forall x x', G1 x x' -> R2 x x') -> (forall x x', G2 x x' -> R1 x x') ->
  wp R1 G1 p Q1 x -> wp R2 G2 q Q2 x -> rtc par_step (p, q, x) c' ->
  wp R1 G1 c'.1.1 Q1 c'.2 /\ wp R2 G2 c'.1.2 Q2 c'.2.
Proof.
  intros H12 H21 Hp Hq Hr.
  assert (Hc : forall c c' : prog X A * prog X B * X, rtc par_step c c' ->
    wp R1 G1 c.1.1 Q1 c.2 -> wp R2 G2 c.1.2 Q2 c.2 ->
    wp R1 G1 c'.1.1 Q1 c'.2 /\ wp R2 G2 c'.1.2 Q2 c'.2); [| by apply (Hc (p, q, x))].
  clear -H12 H21. intros c c' Hr. induction Hr as [c | c1 c2 c3 Hs _ IH]; [done |].
  destruct Hs as [C m k q x | C p m k x]; simpl in *; intros Hp Hq.
  - destruct (Hp x) as [HG Hk]; [done |]. apply IH; [done |].
    eapply wp_stable; [| exact Hq]. by apply rtc_once, H12.
  - destruct (Hq x) as [HG Hk]; [done |]. apply IH; [| done].
    eapply wp_stable; [| exact Hp]. by apply rtc_once, H21.
Qed.

(** ** Invariants of the shared state

    A program that keeps an invariant with each of its actions, whatever happens
    between them within the invariant, and returns what satisfies [Q]. *)
Fixpoint safe {A} (I : X -> Prop) (p : prog X A) (Q : A -> Prop) : Prop :=
  match p with
  | Ret a => Q a
  | Act m k => forall x, I x -> I (m x).2 /\ safe I (k (m x).1) Q
  end.

Lemma safe_mono {A} I (p : prog X A) (Q R : A -> Prop) :
  (forall a, Q a -> R a) -> safe I p Q -> safe I p R.
Proof.
  intros HQ. induction p as [a | C m k IH]; cbn; [auto |].
  intros Hp x Hx. destruct (Hp x Hx). auto.
Qed.

Lemma safe_bind {A B} I (p : prog X A) (f : A -> prog X B) Q R :
  safe I p Q -> (forall a, Q a -> safe I (f a) R) -> safe I (p ≫= f) R.
Proof.
  intros Hp Hf. induction p as [a | C m k IH]; [by apply Hf |].
  intros x Hx. destruct (Hp x Hx) as [Hm Hk]. split; [done | by apply IH].
Qed.

Lemma safe_act {A} I (m : M X A) (Q : A -> Prop) :
  (forall x, I x -> I (m x).2 /\ Q (m x).1) -> safe I (act m) Q.
Proof. exact id. Qed.

Lemma safe_run {A} I (p : prog X A) Q x : safe I p Q -> I x -> I (run p x).2 /\ Q (run p x).1.
Proof.
  revert x. induction p as [a | C m k IH]; intros x Hp Hx; [done |]. cbn. unfold mbind, M_bind.
  destruct (Hp x Hx) as [Hm Hk]. destruct (m x) as [b x']. by apply IH.
Qed.

Lemma safe_par {A B} I (p : prog X A) (q : prog X B) Q R x c :
  safe I p Q -> safe I q R -> I x -> rtc par_step (p, q, x) c ->
  safe I c.1.1 Q /\ safe I c.1.2 R /\ I c.2.
Proof.
  intros Hp Hq Hx Hr.
  assert (Hall : forall c c' : prog X A * prog X B * X, rtc par_step c c' ->
    safe I c.1.1 Q -> safe I c.1.2 R -> I c.2 -> safe I c'.1.1 Q /\ safe I c'.1.2 R /\ I c'.2);
    [| by apply (Hall _ _ Hr)].
  clear. intros c c' Hr. induction Hr as [c | c1 c2 c3 Hs _ IH]; [done |].
  destruct Hs as [C m k q x | C p m k x]; simpl in *; intros Hp Hq Hx.
  - destruct (Hp x Hx). by apply IH.
  - destruct (Hq x Hx). by apply IH.
Qed.

(** ** What every action does

    [steps R p]: in every state, every action of [p] is a step of [R]. *)
Fixpoint steps {A} (R : X -> X -> Prop) (p : prog X A) : Prop :=
  match p with
  | Ret _ => True
  | Act m k => forall x, R x (m x).2 /\ steps R (k (m x).1)
  end.

Lemma steps_bind {A B} R (p : prog X A) (f : A -> prog X B) :
  steps R p -> (forall a, steps R (f a)) -> steps R (p ≫= f).
Proof.
  intros Hp Hf. induction p as [a | C m k IH]; [apply Hf |].
  intros x. destruct (Hp x) as [Hm Hk]. split; [done | by apply IH].
Qed.
Lemma steps_act {A} (R : X -> X -> Prop) (m : M X A) : (forall x, R x (m x).2) -> steps R (act m).
Proof. intros Hm x. split; [apply Hm | done]. Qed.

(** ** Any number of programs

    A pool of goroutines: one of them takes a step, or another one is started. *)
Inductive pool_step {A} (start : prog X A -> Prop) : list (prog X A) * X -> list (prog X A) * X -> Prop :=
| pool_act C ps (m : M X C) k qs x :
    pool_step start (ps ++ Act m k :: qs, x) (ps ++ k (m x).1 :: qs, (m x).2)
| pool_start p ps x : start p -> pool_step start (ps, x) (p :: ps, x).

(** Take steps by a schedule of positions in the pool. *)
Fixpoint pool_run {A} (sched : list nat) (c : list (prog X A) * X) : option (list (prog X A) * X) :=
  match sched with
  | [] => Some c
  | i :: sched =>
      match c.1 !! i with
      | Some (Act m k) => pool_run sched (<[i := k (m c.2).1]> c.1, (m c.2).2)
      | _ => None
      end
  end.

Lemma pool_run_step {A} (start : prog X A -> Prop) i c c' :
  pool_run [i] c = Some c' -> pool_step start c c'.
Proof.
  destruct c as [ps x]. cbn. destruct (ps !! i) as [[a | C m k]|] eqn:Ei; [done | | done]. intros E.
  apply (inj Some) in E as <-. rewrite insert_take_drop by (by eapply lookup_lt_Some).
  rewrite <- (take_drop_middle ps i _ Ei) at 1. apply pool_act.
Qed.

Lemma pool_run_steps {A} (start : prog X A -> Prop) sched c c' :
  pool_run sched c = Some c' -> rtc (pool_step start) c c'.
Proof.
  revert c. induction sched as [|i sched IH]; intros c E; [cbn in E; by simplify_eq |].
  cbn in E. destruct (c.1 !! i) as [[a | C m k]|] eqn:Ei; [done | | done]. eapply rtc_l; [| by apply IH].
  apply (pool_run_step start i). cbn. by rewrite Ei.
Qed.

Lemma pool_start_all {A} (start : prog X A -> Prop) ps x :
  Forall start ps -> rtc (pool_step start) ([], x) (ps, x).
Proof. induction 1; [done |]. eapply rtc_r; [done | by apply pool_start]. Qed.

(** Programs whose guarantee is within what all of them rely on keep to it in every
    interleaving. *)
Section Pool.
Context {A : Type} (start : prog X A -> Prop) (R G : X -> X -> Prop) (Q : A -> X -> Prop) (I : X -> Prop).
Context (HGR : forall x x', G x x' -> R x x') (HI : forall x x', I x -> R x x' -> I x').
Context (Hstart : forall p x, start p -> I x -> wp R G p Q x).

Definition pool_ok (c : list (prog X A) * X) : Prop := I c.2 /\ Forall (fun p => wp R G p Q c.2) c.1.

Lemma pool_step_wp c c' : pool_step start c c' -> pool_ok c -> pool_ok c' /\ (c'.2 = c.2 \/ G c.2 c'.2).
Proof.
  unfold pool_ok. intros Hs. destruct Hs as [C ps m k qs x | p ps x Hp]; simpl in *; intros [Hx Hps].
  - apply Forall_app in Hps as [H1 H2]. apply Forall_cons in H2 as [H2 H3].
    destruct (H2 x) as [Hm Hk]; [done |]. assert (Hone : rtc R x (m x).2) by (by apply rtc_once, HGR).
    assert (Hall : forall l, Forall (fun p => wp R G p Q x) l -> Forall (fun p => wp R G p Q (m x).2) l).
    { intros l Hl. eapply Forall_impl; [exact Hl |]. intros p Hp. by eapply wp_stable. }
    split; [| by right]. split; [eauto |]. apply Forall_app. split; [auto |]. constructor; auto.
  - split; [| by left]. split; [done |]. constructor; auto.
Qed.

Lemma pool_wp c c' : rtc (pool_step start) c c' -> pool_ok c -> pool_ok c' /\ rtc R c.2 c'.2.
Proof.
  induction 1 as [c | c1 c2 c3 Hs _ IH]; [done |]. intros Hc.
  destruct (pool_step_wp _ _ Hs Hc) as [Hc2 Hg]. destruct (IH Hc2) as [? Hr]. split; [done |].
  destruct Hg as [<- | Hg]; [done | by eapply rtc_l; [apply HGR |]].
Qed.
End Pool.
End Prog.
