(* ===== verification/Errors.v ===== *)
(** * Go error values

    The sentinel errors of the [protocol] and [server] packages, the two [io]
    errors the standard library can return from [io.ReadFull], the error of a
    cancelled context, and errors that
    come from outside the repository (a transport or an instrument backend).

    A foreign error carries its text and the sentinels found in the tree that
    [errors.Is] walks, which is all any caller in this program can observe. *)

From S2P Require Import Prelude.

(** The sentinels of [src/protocol/errors.go]. *)
Inductive protocol_error : Type :=
| ErrShortBuffer
| ErrInvalidPrologue
| ErrUnknownMessageType
| ErrReservedMessageType
| ErrWrongChannel
| ErrProtocolVersion
| ErrMessageTooLarge
| ErrPayloadLength.

(** The sentinels of the [server] package: [errors.go] first, then the ones
    declared in [config.go], [transaction.go], [data.go] and [serve.go]. *)
Inductive server_error : Type :=
| ErrSessionNotReady
| ErrInvalidSession
| ErrInvalidInitSequence
| ErrInvalidSubAddress
| ErrMaxClients
| ErrLocked
| ErrUnsupportedMode
| ErrUnrecognizedControlCode
| ErrInvalidConfig
| ErrOverlapNotImplemented
| ErrInvalidTransition
| ErrInputQueuedRequired
| errClientFatal.

(** [io.EOF] and [io.ErrUnexpectedEOF]. *)
Inductive io_error : Type := EOF | ErrUnexpectedEOF.

(** The last one is [context.Canceled]. *)
Inductive sentinel : Type :=
| Proto (e : protocol_error)
| Srv (e : server_error)
| Io (e : io_error)
| Canceled.

Inductive error : Type :=
| Sentinel (s : sentinel)
| Foreign (text : bytes) (wraps : list sentinel).

#[export] Instance protocol_error_eq_dec : EqDecision protocol_error.
Proof. solve_decision. Defined.
#[export] Instance server_error_eq_dec : EqDecision server_error.
Proof. solve_decision. Defined.
#[export] Instance io_error_eq_dec : EqDecision io_error.
Proof. solve_decision. Defined.
#[export] Instance sentinel_eq_dec : EqDecision sentinel.
Proof. solve_decision. Defined.
#[export] Instance error_eq_dec : EqDecision error.
Proof. solve_decision. Defined.

(** Sentinels of either package stand for the error they are. *)
Definition perr (e : protocol_error) : error := Sentinel (Proto e).
Definition serr (e : server_error) : error := Sentinel (Srv e).
Definition ioerr (e : io_error) : error := Sentinel (Io e).

(** [errors.Is(err, target)] for a sentinel target. *)
Definition errors_Is (err : error) (target : sentinel) : bool :=
  match err with
  | Sentinel s => bool_decide (s = target)
  | Foreign _ ws => bool_decide (target ∈ ws)
  end.

Definition protocol_error_text (e : protocol_error) : bytes :=
  str match e with
  | ErrShortBuffer => "hislip: buffer too short"
  | ErrInvalidPrologue => "hislip: invalid message prologue"
  | ErrUnknownMessageType => "hislip: unknown message type"
  | ErrReservedMessageType => "hislip: reserved message type"
  | ErrWrongChannel => "hislip: message not legal on this channel"
  | ErrProtocolVersion => "hislip: unsupported protocol version"
  | ErrMessageTooLarge => "hislip: message exceeds maximum size"
  | ErrPayloadLength => "hislip: payload length does not match header"
  end.

Definition server_error_text (e : server_error) : bytes :=
  str match e with
  | ErrSessionNotReady => "hislip: session not ready, both channels required"
  | ErrInvalidSession => "hislip: unknown or already paired session ID"
  | ErrInvalidInitSequence => "hislip: invalid initialization sequence"
  | ErrInvalidSubAddress => "hislip: unknown sub-address"
  | ErrMaxClients => "hislip: maximum number of clients exceeded"
  | ErrLocked => "hislip: locked by another session"
  | ErrUnsupportedMode => "hislip: requested mode not supported"
  | ErrUnrecognizedControlCode => "hislip: unrecognized control code"
  | ErrInvalidConfig => "hislip: invalid server configuration"
  | ErrOverlapNotImplemented => "hislip: overlap mode is not implemented"
  | ErrInvalidTransition => "hislip: invalid transaction state transition"
  | ErrInputQueuedRequired =>
      "hislip: Response.InputQueued must be supplied to implement the interrupted check"
  | errClientFatal => "hislip: peer reported a fatal error"
  end.

(** [err.Error()]. *)
Definition error_text (err : error) : bytes :=
  match err with
  | Sentinel (Proto e) => protocol_error_text e
  | Sentinel (Srv e) => server_error_text e
  | Sentinel (Io EOF) => str "EOF"
  | Sentinel (Io ErrUnexpectedEOF) => str "unexpected EOF"
  | Sentinel Canceled => str "context canceled"
  | Foreign t _ => t
  end.

Lemma errors_Is_self s : errors_Is (Sentinel s) s = true.
Proof. simpl. by rewrite bool_decide_eq_true. Qed.

Lemma errors_Is_sentinel s t : errors_Is (Sentinel s) t = true <-> s = t.
Proof. simpl. apply bool_decide_eq_true. Qed.
