(* ===== verification/GoStrings.v ===== *)
(** * Go strings

    The functions of the standard packages [strings], [unicode], [unicode/utf8] and
    [strconv] that the vector loader ([src/internal/vectors]) and the example
    instrument ([src/examples/server]) use. A string is its bytes; the functions
    that look at characters decode UTF-8 as Go does, a byte that is not part of a
    valid encoding being the replacement character of width one.

    The case table of the characters above ASCII is a parameter of [ToUpper]. *)

From stdpp Require Import pretty.
From S2P Require Import Prelude.

(** ** UTF-8 *)

Definition RuneError : Z := 0xfffd.

Definition in_range (lo hi c : Z) : bool := bool_decide (lo <= c) && bool_decide (c <= hi).
Definition is_cont (c : Z) : bool := in_range 0x80 0xbf c.

(** [utf8.DecodeRuneInString] on a non-empty string: the rune and its width. *)
Definition DecodeRune (c0 : Z) (tl : bytes) : Z * nat :=
  if bool_decide (c0 < 0x80) then (c0, 1%nat)
  else match tl with
  | c1 :: tl2 =>
      if in_range 0xc2 0xdf c0 then
        if is_cont c1 then ((c0 - 0xc0) * 64 + (c1 - 0x80), 2%nat) else (RuneError, 1%nat)
      else
        let lo := if bool_decide (c0 = 0xe0) then 0xa0
                  else if bool_decide (c0 = 0xf0) then 0x90 else 0x80 in
        let hi := if bool_decide (c0 = 0xed) then 0x9f
                  else if bool_decide (c0 = 0xf4) then 0x8f else 0xbf in
        match tl2 with
        | c2 :: tl3 =>
            if in_range 0xe0 0xef c0 && in_range lo hi c1 && is_cont c2
            then ((c0 - 0xe0) * 4096 + (c1 - 0x80) * 64 + (c2 - 0x80), 3%nat)
            else match tl3 with
            | c3 :: _ =>
                if in_range 0xf0 0xf4 c0 && in_range lo hi c1 && is_cont c2 && is_cont c3
                then ((c0 - 0xf0) * 262144 + (c1 - 0x80) * 4096 + (c2 - 0x80) * 64 + (c3 - 0x80),
                      4%nat)
                else (RuneError, 1%nat)
            | [] => (RuneError, 1%nat)
            end
        | [] => (RuneError, 1%nat)
        end
  | [] => (RuneError, 1%nat)
  end.

(** The runes of a string in order, each with the bytes that encode it. Every rune
    takes a byte at least, so the length of the string is enough fuel. *)
Fixpoint runes_fuel (n : nat) (s : bytes) : list (Z * bytes) :=
  match n, s with
  | S n, c :: tl =>
      let '(r, w) := DecodeRune c tl in (r, take w s) :: runes_fuel n (drop w s)
  | _, _ => []
  end.
Definition runes (s : bytes) : list (Z * bytes) := runes_fuel (length s) s.

(** [utf8.AppendRune]. *)
Definition EncodeRune (r : Z) : bytes :=
  if bool_decide (0 <= r <= 0x7f) then [r]
  else if bool_decide (0 <= r <= 0x7ff) then [0xc0 + r / 64; 0x80 + r mod 64]
  else if bool_decide (r < 0 \/ 0x10ffff < r \/ 0xd800 <= r <= 0xdfff) then [0xef; 0xbf; 0xbd]
  else if bool_decide (r <= 0xffff)
  then [0xe0 + r / 4096; 0x80 + (r / 64) mod 64; 0x80 + r mod 64]
  else [0xf0 + r / 262144; 0x80 + (r / 4096) mod 64; 0x80 + (r / 64) mod 64; 0x80 + r mod 64].

(** [unicode.IsSpace]: the characters with property White_Space. *)
Definition IsSpace (r : Z) : bool :=
  in_range 9 13 r || bool_decide (r = 0x20) || bool_decide (r = 0x85) || bool_decide (r = 0xa0)
  || bool_decide (r = 0x1680) || in_range 0x2000 0x200a r || in_range 0x2028 0x2029 r
  || bool_decide (r = 0x202f) || bool_decide (r = 0x205f) || bool_decide (r = 0x3000).

(** ** [strings] *)

Fixpoint drop_while {A} (p : A -> bool) (l : list A) : list A :=
  match l with
  | [] => []
  | x :: l' => if p x then drop_while p l' else l
  end.

Definition drop_while_end {A} (p : A -> bool) (l : list A) : list A := rev (drop_while p (rev l)).

Definition unrunes (l : list (Z * bytes)) : bytes := concat (map snd l).
Definition rune_space (x : Z * bytes) : bool := IsSpace x.1.

Definition TrimSpace (s : bytes) : bytes :=
  unrunes (drop_while_end rune_space (drop_while rune_space (runes s))).

(** [strings.TrimRight] for a cutset of ASCII characters. *)
Definition TrimRight (s cutset : bytes) : bytes :=
  drop_while_end (fun c => bool_decide (c ∈ cutset)) s.

(** [strings.Split] and [strings.SplitSeq] for a separator of one byte. *)
Fixpoint Split (sep : Z) (s : bytes) : list bytes :=
  match s with
  | [] => [[]]
  | c :: s =>
      if bool_decide (c = sep) then [] :: Split sep s
      else match Split sep s with
           | [] => [[c]]
           | w :: ws => (c :: w) :: ws
           end
  end.

(** [strings.Fields]: the maximal runs of runes that are not white space. [cur] is
    the field being collected. *)
Fixpoint fields_go (cur : bytes) (l : list (Z * bytes)) : list bytes :=
  match l with
  | [] => if bool_decide (cur = []) then [] else [cur]
  | (r, b) :: l =>
      if IsSpace r
      then (if bool_decide (cur = []) then [] else [cur]) ++ fields_go [] l
      else fields_go (cur ++ b) l
  end.
Definition Fields (s : bytes) : list bytes := fields_go [] (runes s).

Definition HasPrefix (s prefix : bytes) : bool :=
  bool_decide (take (length prefix) s = prefix).

(** [unicode.ToUpper] with the table [up] above ASCII, and [strings.ToUpper]. *)
Definition upper_rune (up : Z -> Z) (r : Z) : Z :=
  if bool_decide (r <= 0x7f) then if in_range 97 122 r then r - 32 else r else up r.
Definition ToUpper (up : Z -> Z) (s : bytes) : bytes :=
  concat (map (fun x => EncodeRune (upper_rune up x.1)) (runes s)).

(** [strconv.Itoa]. *)
Definition Itoa (z : Z) : bytes := str (pretty z).

(** ** Lemmas *)

Lemma DecodeRune_width c tl : (1 <= (DecodeRune c tl).2)%nat.
Proof. unfold DecodeRune. repeat case_match; simpl; lia. Qed.

Lemma unrunes_fuel n s : (length s <= n)%nat -> unrunes (runes_fuel n s) = s.
Proof.
  unfold unrunes. revert s. induction n as [|n IH]; intros [|c tl] Hn; simpl in *; try done; [lia |].
  pose proof (DecodeRune_width c tl) as Hw. destruct (DecodeRune c tl) as [r w]. simpl in *.
  rewrite IH by (rewrite length_drop; simpl; lia). apply take_drop.
Qed.

(** Decoding loses nothing. *)
Lemma unrunes_runes s : unrunes (runes s) = s.
Proof. by apply unrunes_fuel. Qed.

Definition is_ascii (c : Z) : Prop := 0 <= c < 0x80.
Definition ascii (s : bytes) : Prop := Forall is_ascii s.

Definition is_asciib (c : Z) : bool := bool_decide (0 <= c < 0x80).
Lemma ascii_dec s : forallb is_asciib s = true -> ascii s.
Proof.
  intros Hs. apply List.Forall_forall. intros c Hc. rewrite forallb_forall in Hs.
  specialize (Hs c Hc). by apply bool_decide_eq_true in Hs.
Qed.

(** An ASCII string is its own sequence of runes. *)
Lemma runes_ascii s : ascii s -> runes s = map (fun c => (c, [c])) s.
Proof.
  intros Hs. unfold runes. induction Hs as [|c s Hc Hs IH]; [done |]. cbn [length runes_fuel map].
  assert (E : DecodeRune c s = (c, 1%nat)).
  { unfold DecodeRune. rewrite bool_decide_eq_true_2; [done |]. unfold is_ascii in Hc. lia. }
  rewrite E. cbn [take drop]. rewrite take_0, drop_0. by f_equal.
Qed.

Definition upper_ascii (c : Z) : Z := if in_range 97 122 c then c - 32 else c.

Lemma ToUpper_ascii up s : ascii s -> ToUpper up s = map upper_ascii s.
Proof.
  intros Hs. unfold ToUpper. rewrite runes_ascii by done.
  induction Hs as [|c s Hc Hs IH]; [done |]. cbn [map concat fst].
  rewrite IH. unfold upper_rune, is_ascii in *. rewrite bool_decide_eq_true_2 by lia.
  fold (upper_ascii c). unfold EncodeRune. rewrite bool_decide_eq_true_2; [done |].
  unfold upper_ascii, in_range. repeat case_bool_decide; simpl; lia.
Qed.

Lemma drop_while_suffix {A} (p : A -> bool) l : exists k, drop_while p l = drop k l.
Proof.
  induction l as [|x l [k Hk]]; [by exists O |]. simpl.
  destruct (p x); [by exists (S k) | by exists O].
Qed.

Lemma drop_while_incl {A} (p : A -> bool) l x : x ∈ drop_while p l -> x ∈ l.
Proof.
  destruct (drop_while_suffix p l) as [k ->]. rewrite <- (take_drop k l) at 2. set_solver.
Qed.

Lemma drop_while_end_incl {A} (p : A -> bool) l x : x ∈ drop_while_end p l -> x ∈ l.
Proof.
  unfold drop_while_end. rewrite list_elem_of_In, <- in_rev, <- list_elem_of_In.
  intros Hx%drop_while_incl. by rewrite list_elem_of_In, <- in_rev, <- list_elem_of_In in Hx.
Qed.

Lemma TrimSpace_incl s c : c ∈ TrimSpace s -> c ∈ s.
Proof.
  unfold TrimSpace. rewrite <- (unrunes_runes s) at 2. unfold unrunes.
  rewrite !list_elem_of_In, !in_concat. intros (b & Hb & Hc). exists b. split; [| done].
  rewrite in_map_iff in *. destruct Hb as (x & <- & Hx). exists x. split; [done |].
  rewrite <- list_elem_of_In in *. by eapply drop_while_incl, drop_while_end_incl.
Qed.

Lemma TrimRight_incl s cut c : c ∈ TrimRight s cut -> c ∈ s.
Proof. apply drop_while_end_incl. Qed.

Lemma Split_nonempty sep s : Split sep s <> [].
Proof. destruct s; simpl; [done |]. repeat case_match; done. Qed.

Lemma Split_incl sep s w c : w ∈ Split sep s -> c ∈ w -> c ∈ s.
Proof.
  revert w. induction s as [|x s IH]; intros w; simpl.
  { rewrite list_elem_of_singleton. by intros ->. }
  case_bool_decide.
  - rewrite elem_of_cons. intros [-> | Hw] Hc; [by apply not_elem_of_nil in Hc |]. set_solver.
  - destruct (Split sep s) as [|w0 ws] eqn:E; [by apply Split_nonempty in E |].
    rewrite elem_of_cons. intros [-> | Hw] Hc; [| set_solver].
    apply elem_of_cons in Hc as [-> | Hc]; set_solver.
Qed.

(** [strings.Split] is inverse to joining with the separator, and no part contains
    it. *)
Fixpoint Join (sep : Z) (ws : list bytes) : bytes :=
  match ws with
  | [] => []
  | [w] => w
  | w :: ws => w ++ sep :: Join sep ws
  end.

Lemma Split_cons_app sep w s :
  sep ∉ w -> Split sep (w ++ sep :: s) = w :: Split sep s.
Proof.
  induction w as [|c w IH]; intros Hw; simpl.
  - by rewrite bool_decide_eq_true_2.
  - rewrite bool_decide_eq_false_2 by set_solver. rewrite IH by set_solver. done.
Qed.

Lemma Split_single sep w : sep ∉ w -> Split sep w = [w].
Proof.
  induction w as [|c w IH]; intros Hw; simpl; [done |].
  rewrite bool_decide_eq_false_2 by set_solver. by rewrite IH by set_solver.
Qed.

Lemma Split_Join sep ws :
  ws <> [] -> Forall (fun w => sep ∉ w) ws -> Split sep (Join sep ws) = ws.
Proof.
  intros Hne Hws. induction Hws as [|w ws Hw Hws IH]; [done |].
  destruct ws as [|w' ws]; [by apply Split_single |].
  change (Join sep (w :: w' :: ws)) with (w ++ sep :: Join sep (w' :: ws)).
  rewrite Split_cons_app by done. by rewrite IH.
Qed.

(** Nothing is trimmed from a string whose ends are not white space. *)
Lemma drop_while_none {A} (p : A -> bool) x l : p x = false -> drop_while p (x :: l) = x :: l.
Proof. intros Hp. simpl. by rewrite Hp. Qed.

Lemma drop_while_end_snoc {A} (p : A -> bool) l x :
  drop_while_end p (l ++ [x]) = if p x then drop_while_end p l else l ++ [x].
Proof.
  unfold drop_while_end. rewrite rev_app_distr. simpl. destruct (p x); [done |].
  simpl. by rewrite rev_involutive.
Qed.

(** [TrimRight] takes everything of the cutset off the end and nothing else. *)
Lemma TrimRight_cut s tail cut :
  Forall (fun c => c ∈ cut) tail -> TrimRight (s ++ tail) cut = TrimRight s cut.
Proof.
  unfold TrimRight. induction tail as [|c tail IH] using rev_ind; intros Ht; [by rewrite app_nil_r |].
  apply Forall_app in Ht as [Ht Hc]. rewrite app_assoc, drop_while_end_snoc.
  rewrite bool_decide_eq_true_2 by (by inversion Hc). by apply IH.
Qed.

Lemma TrimRight_keep s c cut : c ∉ cut -> TrimRight (s ++ [c]) cut = s ++ [c].
Proof.
  intros Hc. unfold TrimRight. by rewrite drop_while_end_snoc, bool_decide_eq_false_2.
Qed.
