(* ===== verification/Flags.v ===== *)
(** * Command-line flags

    What [main] of [src/examples/server] uses of Go's package [flag]: a string flag and
    a boolean flag, parsed from the arguments of the process with [ExitOnError]. *)

From S2P Require Import Prelude GoStrings.

Definition ch_minus : Z := 45.
Definition ch_equals : Z := 61.

(** [strconv.ParseBool] *)
Definition ParseBool (s : bytes) : option bool :=
  if bool_decide (s ∈ map str ["1"; "t"; "T"; "TRUE"; "true"; "True"]) then Some true
  else if bool_decide (s ∈ map str ["0"; "f"; "F"; "FALSE"; "false"; "False"]) then Some false
  else None.

(** The flags of [main]. *)
Record options : Type := MkOptions {
  opt_addr : bytes;
  opt_verbose : bool;
}.

Definition default_options : options := MkOptions (str ":4880") false.

Inductive flag_error : Type :=
| BadSyntax (arg : bytes)
| NotDefined (name : bytes)
| NeedsArgument (name : bytes)
| InvalidBool (value name : bytes)
| ErrHelp.

(** [os.Exit] of [flag.Parse]. *)
Definition flag_exit (e : flag_error) : Z := match e with ErrHelp => 0 | _ => 2 end.

(** The name of a flag and its value: what is before and after the first equals sign,
    which is not the first character. *)
Fixpoint cut_value (s : bytes) : bytes * option bytes :=
  match s with
  | [] => ([], None)
  | c :: s => if bool_decide (c = ch_equals) then ([], Some s)
              else let (name, value) := cut_value s in (c :: name, value)
  end.
Definition cut_name (s : bytes) : bytes * option bytes :=
  match s with
  | [] => ([], None)
  | c :: s => let (name, value) := cut_value s in (c :: name, value)
  end.

Inductive parsed : Type :=
| Seen (o : options) (args : list bytes)
| Stopped (args : list bytes)
| Failed (e : flag_error).

(** The flag [name], with what follows it among the arguments. *)
Definition set_flag (o : options) (name : bytes) (value : option bytes) (args : list bytes) : parsed :=
  if bool_decide (name = str "addr") then
    match value, args with
    | Some v, _ => Seen (MkOptions v o.(opt_verbose)) args
    | None, v :: args => Seen (MkOptions v o.(opt_verbose)) args
    | None, [] => Failed (NeedsArgument name)
    end
  else if bool_decide (name = str "v") then
    match value with
    | None => Seen (MkOptions o.(opt_addr) true) args
    | Some v => match ParseBool v with
                | Some b => Seen (MkOptions o.(opt_addr) b) args
                | None => Failed (InvalidBool v name)
                end
    end
  else if bool_decide (name = str "help") || bool_decide (name = str "h") then Failed ErrHelp
  else Failed (NotDefined name).

(** [parseOne] *)
Definition parseOne (o : options) (args : list bytes) : parsed :=
  match args with
  | [] => Stopped []
  | s :: rest =>
      match s with
      | c0 :: c1 :: tl =>
          if bool_decide (c0 <> ch_minus) then Stopped args
          else if bool_decide (c1 = ch_minus) && bool_decide (tl = []) then Stopped rest
          else
            let name := if bool_decide (c1 = ch_minus) then tl else c1 :: tl in
            match name with
            | [] => Failed (BadSyntax s)
            | c :: _ =>
                if bool_decide (c = ch_minus) || bool_decide (c = ch_equals) then Failed (BadSyntax s)
                else let (name, value) := cut_name name in set_flag o name value rest
            end
      | _ => Stopped args
      end
  end.

(** [Parse]; a round takes at least one argument. *)
Fixpoint Parse_rounds (fuel : nat) (o : options) (args : list bytes) : flag_error + options * list bytes :=
  match fuel with
  | O => inr (o, args)
  | S fuel =>
      match parseOne o args with
      | Seen o args => Parse_rounds fuel o args
      | Stopped args => inr (o, args)
      | Failed e => inl e
      end
  end.
Definition flag_Parse (args : list bytes) : flag_error + options * list bytes :=
  Parse_rounds (S (length args)) default_options args.

(** ** What it accepts *)

(** A flag as a user writes it: with one dash or two, the value joined or apart. *)
Inductive setting : Type :=
| SetAddr (twice joined : bool) (v : bytes)
| SetVerbose (twice : bool) (text : option bytes).

Definition dashes (twice : bool) : bytes := if twice then [ch_minus; ch_minus] else [ch_minus].

Definition written (x : setting) : list bytes :=
  match x with
  | SetAddr t true v => [dashes t ++ str "addr" ++ ch_equals :: v]
  | SetAddr t false v => [dashes t ++ str "addr"; v]
  | SetVerbose t None => [dashes t ++ str "v"]
  | SetVerbose t (Some b) => [dashes t ++ str "v" ++ ch_equals :: b]
  end.

Definition proper_setting (x : setting) : Prop :=
  match x with SetVerbose _ (Some b) => is_Some (ParseBool b) | _ => True end.

Definition apply_setting (o : options) (x : setting) : options :=
  match x with
  | SetAddr _ _ v => MkOptions v o.(opt_verbose)
  | SetVerbose _ None => MkOptions o.(opt_addr) true
  | SetVerbose _ (Some b) => MkOptions o.(opt_addr) (default false (ParseBool b))
  end.

Lemma cut_value_app name v : ch_equals ∉ name -> cut_value (name ++ ch_equals :: v) = (name, Some v).
Proof.
  induction name as [|c name IH]; intros Hn; [done |]. apply not_elem_of_cons in Hn as [Hc Hn]. simpl.
  rewrite bool_decide_eq_false_2 by congruence. by rewrite IH.
Qed.

Lemma parseOne_setting o x rest :
  proper_setting x -> parseOne o (written x ++ rest) = Seen (apply_setting o x) rest.
Proof.
  intros Hp. destruct x as [t j v | t [b|]].
  - destruct t, j; reflexivity.
  - destruct Hp as [y Hb]. simpl apply_setting. rewrite Hb.
    assert (E : set_flag o (str "v") (Some b) rest = Seen (MkOptions (opt_addr o) y) rest)
      by (unfold set_flag; cbn -[ParseBool]; by rewrite Hb).
    destruct t; exact E.
  - destruct t; reflexivity.
Qed.

(** Every argument but the last of a setting makes a round at most. *)
Lemma length_written xs : (length xs <= length (concat (map written xs)))%nat.
Proof.
  induction xs as [|x xs IH]; [done |]. simpl. rewrite length_app.
  assert (1 <= length (written x))%nat by (by destruct x as [? [] | ? []]; simpl; lia). lia.
Qed.

(** Arguments that end the flags. *)
Definition ends_flags (rest rest' : list bytes) : Prop :=
  rest = [] /\ rest' = [] \/ rest = str "--" :: rest' \/
  rest' = rest /\ exists s tl, rest = s :: tl /\ (s = [] \/ s = str "-" \/ exists c s', s = c :: s' /\ c <> ch_minus).

Lemma parseOne_ends o rest rest' : ends_flags rest rest' -> parseOne o rest = Stopped rest'.
Proof.
  intros [[-> ->] | [-> | [-> (s & tl & -> & [-> | [-> | (c & s' & -> & Hc)]])]]]; try done.
  simpl. destruct s'; [done |]. by rewrite bool_decide_eq_true_2.
Qed.

Lemma Parse_rounds_settings fuel o xs rest rest' :
  Forall proper_setting xs -> ends_flags rest rest' -> (length xs < fuel)%nat ->
  Parse_rounds fuel o (concat (map written xs) ++ rest) = inr (fold_left apply_setting xs o, rest').
Proof.
  intros Hx Hr. revert fuel o. induction Hx as [|x xs Hp _ IH]; intros fuel o Hf;
    (destruct fuel as [|fuel]; [simpl in Hf; lia |]).
  - simpl. by rewrite (parseOne_ends o rest rest' Hr).
  - cbn [concat map fold_left]. rewrite <- app_assoc. cbn [Parse_rounds].
    rewrite parseOne_setting by done. apply IH. simpl in Hf. lia.
Qed.

(** Parsing undoes writing: settings written in any of the forms the flag package
    takes, one or two dashes, a value after an equals sign or as the next argument,
    followed by arguments that are not flags, parse to the settings applied in order
    and leave the other arguments. *)
Theorem flags_roundtrip xs rest rest' :
  Forall proper_setting xs -> ends_flags rest rest' ->
  flag_Parse (concat (map written xs) ++ rest)
    = inr (fold_left apply_setting xs default_options, rest').
Proof.
  intros Hx Hr. apply Parse_rounds_settings; [done | done |]. rewrite length_app.
  pose proof (length_written xs). lia.
Qed.

Lemma flags_roundtrip_witness :
  flag_Parse [str "-addr"; str ":4881"; str "--v"; str "-v=0"; str "--addr=:1"; str "--"; str "-x"]
    = inr (MkOptions (str ":1") false, [str "-x"]).
Proof.
  refine (flags_roundtrip [SetAddr false false (str ":4881"); SetVerbose true None;
    SetVerbose false (Some (str "0")); SetAddr true true (str ":1")] [str "--"; str "-x"] [str "-x"] _ _).
  - repeat constructor. by exists false.
  - right. by left.
Defined.
