(* ===== verification/Version.v ===== *)
(** * Protocol versions

    [src/protocol/version.go]: the ordering of versions, negotiation, and the
    packing of a version with a vendor or session ID into the 32-bit message
    parameter of the initialization messages. *)

From stdpp Require Import pretty.
From S2P Require Import Prelude.

Record Version : Type := MkVersion { Major : Z; Minor : Z }.

#[export] Instance Version_eq_dec : EqDecision Version.
Proof. solve_decision. Defined.

Definition wf_version (v : Version) : Prop := is_u8 v.(Major) /\ is_u8 v.(Minor).

Definition Version10 : Version := MkVersion 1 0.
Definition Version11 : Version := MkVersion 1 1.
Definition Version20 : Version := MkVersion 2 0.

Definition Version_Less (v other : Version) : bool :=
  if bool_decide (v.(Major) <> other.(Major)) then bool_decide (v.(Major) < other.(Major))
  else bool_decide (v.(Minor) < other.(Minor)).

Definition Version_AtLeast (v other : Version) : bool := negb (Version_Less v other).

Definition Version_String (v : Version) : bytes :=
  str (pretty v.(Major)) ++ str "." ++ str (pretty v.(Minor)).

Definition Negotiate (client server : Version) : Version :=
  if Version_Less client server then client else server.

Definition upperWord (v : Version) : Z :=
  Z.lor (uint32 (Z.shiftl v.(Major) 24)) (uint32 (Z.shiftl v.(Minor) 16)).

Definition versionFromParameter (p : Z) : Version :=
  MkVersion (uint8 (Z.shiftr p 24)) (uint8 (Z.shiftr p 16)).

Definition EncodeInitializeParameter (v : Version) (vendorID : Z * Z) : Z :=
  Z.lor (Z.lor (upperWord v) (uint32 (Z.shiftl vendorID.1 8))) vendorID.2.

Definition DecodeInitializeParameter (p : Z) : Version * (Z * Z) :=
  (versionFromParameter p, (uint8 (Z.shiftr p 8), uint8 p)).

Definition EncodeInitializeResponseParameter (v : Version) (sessionID : Z) : Z :=
  Z.lor (upperWord v) sessionID.

Definition DecodeInitializeResponseParameter (p : Z) : Version * Z :=
  (versionFromParameter p, uint16 p).

(** ** The order on versions *)

(** [version_le] is the lexicographic order; [Version_AtLeast] decides it. *)
Definition version_le (v w : Version) : Prop :=
  v.(Major) < w.(Major) \/ (v.(Major) = w.(Major) /\ v.(Minor) <= w.(Minor)).

Lemma Version_Less_spec v w :
  Version_Less v w = true <->
  v.(Major) < w.(Major) \/ (v.(Major) = w.(Major) /\ v.(Minor) < w.(Minor)).
Proof. unfold Version_Less. repeat case_bool_decide; split; intros; try done; try lia. Qed.

Lemma Version_AtLeast_spec v w : Version_AtLeast v w = true <-> version_le w v.
Proof.
  unfold Version_AtLeast, version_le. rewrite negb_true_iff, <- not_true_iff_false.
  rewrite Version_Less_spec. lia.
Qed.

#[export] Instance version_le_po : PreOrder version_le.
Proof. split; [intros v | intros u v w]; unfold version_le; lia. Qed.

#[export] Instance version_le_dec v w : Decision (version_le v w).
Proof. unfold version_le. solve_decision. Defined.

#[export] Instance version_le_antisym : AntiSymm eq version_le.
Proof. intros [] []; unfold version_le; simpl; intros; f_equal; lia. Qed.

(** ** Packing *)

Lemma upperWord_eq v :
  wf_version v -> upperWord v = v.(Major) * 2 ^ 24 + v.(Minor) * 2 ^ 16.
Proof.
  intros [Ha Hb]. unfold upperWord, uint32.
  rewrite !Z.mod_small by (rewrite Z.shiftl_mul_pow2 by lia; u_lia).
  rewrite (Z.shiftl_mul_pow2 (Minor v)) by lia.
  apply lor_shiftl_add; u_lia.
Qed.

(** The packed word read back field by field: [x] is the lower half. *)
Lemma versionFromParameter_pack v x :
  wf_version v -> is_u16 x ->
  versionFromParameter (v.(Major) * 2 ^ 24 + v.(Minor) * 2 ^ 16 + x) = v.
Proof.
  intros [Ha Hb] Hx. destruct v as [a b]. unfold versionFromParameter, uint8; simpl in *.
  rewrite !Z.shiftr_div_pow2 by lia. unfold is_u8, is_u16 in *.
  f_equal; Z.to_euclidean_division_equations; lia.
Qed.

Lemma upperWord_lor v x :
  wf_version v -> is_u16 x ->
  Z.lor (upperWord v) x = v.(Major) * 2 ^ 24 + v.(Minor) * 2 ^ 16 + x.
Proof.
  intros Hv Hx. rewrite upperWord_eq by done. destruct Hv.
  replace (Major v * 2 ^ 24 + Minor v * 2 ^ 16)
    with (Z.shiftl (Major v * 2 ^ 8 + Minor v) 16) at 1
    by (rewrite Z.shiftl_mul_pow2; lia).
  rewrite lor_shiftl_add by u_lia. lia.
Qed.

Lemma response_parameter_decode v sessionID :
  wf_version v -> is_u16 sessionID ->
  DecodeInitializeResponseParameter (EncodeInitializeResponseParameter v sessionID)
    = (v, sessionID) /\
  is_u32 (EncodeInitializeResponseParameter v sessionID).
Proof.
  intros Hv Hs. unfold DecodeInitializeResponseParameter, EncodeInitializeResponseParameter.
  rewrite upperWord_lor, versionFromParameter_pack by done.
  destruct Hv as [Ha Hb]. unfold uint16, is_u8, is_u16, is_u32 in *.
  split; [f_equal; Z.to_euclidean_division_equations; lia | lia].
Qed.

Lemma Negotiate_le client server :
  version_le (Negotiate client server) client /\ version_le (Negotiate client server) server.
Proof.
  unfold Negotiate. destruct (Version_Less client server) eqn:E.
  - apply Version_Less_spec in E. unfold version_le. lia.
  - apply not_true_iff_false in E. rewrite Version_Less_spec in E. unfold version_le. lia.
Qed.

Lemma wf_Negotiate client server :
  wf_version client -> wf_version server -> wf_version (Negotiate client server).
Proof. unfold Negotiate. by case_match. Qed.

Lemma wf_versionFromParameter p : wf_version (versionFromParameter p).
Proof. split; apply uint8_range. Qed.
#[export] Hint Resolve wf_Negotiate wf_versionFromParameter : hislip.

(** The negotiated version is the greatest version that neither side exceeds. *)
Theorem Negotiate_greatest_lower_bound client server :
  version_le (Negotiate client server) client /\
  version_le (Negotiate client server) server /\
  (forall v, version_le v client -> version_le v server ->
     version_le v (Negotiate client server)).
Proof.
  split; [apply Negotiate_le | split; [apply Negotiate_le |]].
  unfold Negotiate. by destruct (Version_Less client server).
Qed.

(** The parameters of Initialize and InitializeResponse are 32-bit values that decode
    to the version and the vendor ID, or session ID, that were encoded. *)
Theorem initialize_parameters_roundtrip v vendor sessionID :
  wf_version v -> is_u8 vendor.1 -> is_u8 vendor.2 -> is_u16 sessionID ->
  DecodeInitializeParameter (EncodeInitializeParameter v vendor) = (v, vendor) /\
  DecodeInitializeResponseParameter (EncodeInitializeResponseParameter v sessionID)
    = (v, sessionID) /\
  is_u32 (EncodeInitializeParameter v vendor) /\
  is_u32 (EncodeInitializeResponseParameter v sessionID).
Proof.
  intros Hv H1 H2 Hs. destruct vendor as [x y]; simpl in *.
  destruct (response_parameter_decode v sessionID Hv Hs) as [Hd Hr].
  assert (Hxy : Z.lor (uint32 (Z.shiftl x 8)) y = x * 2 ^ 8 + y).
  { unfold uint32. rewrite Z.mod_small by (rewrite Z.shiftl_mul_pow2; u_lia).
    apply lor_shiftl_add; u_lia. }
  unfold DecodeInitializeParameter, EncodeInitializeParameter; simpl.
  rewrite <- Z.lor_assoc, Hxy, !upperWord_lor by (done || u_lia).
  rewrite !versionFromParameter_pack by (done || u_lia).
  destruct Hv as [Ha Hb]. unfold uint8, is_u8, is_u16, is_u32 in *.
  rewrite !Z.shiftr_div_pow2 by lia.
  split_and!; try done; try lia. repeat f_equal; Z.to_euclidean_division_equations; lia.
Qed.

Lemma initialize_parameters_roundtrip_witness :
  DecodeInitializeParameter (EncodeInitializeParameter Version20 (75, 69))
    = (Version20, (75, 69)).
Proof.
  refine (proj1 (initialize_parameters_roundtrip Version20 (75, 69) 7 _ _ _ _));
    vm_compute; intuition discriminate.
Defined.
