(* ===== verification/Constants.v ===== *)
(** * Message types

    [src/protocol/constants.go]: the message type values of IVI-6.1 Table 4,
    the channel on which each type is legal, the capability and the minimum
    version it needs, and the predicates the session layer decides with.

    A [MessageType] is a byte, because a receiver has to be able to hold a type
    it does not know. *)

From S2P Require Import Prelude Version.

Abbreviation MessageType := Z (only parsing).

Definition Initialize : MessageType := 0.
Definition InitializeResponse : MessageType := 1.
Definition FatalError : MessageType := 2.
Definition Error : MessageType := 3.
Definition AsyncLock : MessageType := 4.
Definition AsyncLockResponse : MessageType := 5.
Definition Data : MessageType := 6.
Definition DataEnd : MessageType := 7.
Definition DeviceClearComplete : MessageType := 8.
Definition DeviceClearAcknowledge : MessageType := 9.
Definition AsyncRemoteLocalControl : MessageType := 10.
Definition AsyncRemoteLocalResponse : MessageType := 11.
Definition Trigger : MessageType := 12.
Definition Interrupted : MessageType := 13.
Definition AsyncInterrupted : MessageType := 14.
Definition AsyncMaximumMessageSize : MessageType := 15.
Definition AsyncMaximumMessageSizeResponse : MessageType := 16.
Definition AsyncInitialize : MessageType := 17.
Definition AsyncInitializeResponse : MessageType := 18.
Definition AsyncDeviceClear : MessageType := 19.
Definition AsyncServiceRequest : MessageType := 20.
Definition AsyncStatusQuery : MessageType := 21.
Definition AsyncStatusResponse : MessageType := 22.
Definition AsyncDeviceClearAcknowledge : MessageType := 23.
Definition AsyncLockInfo : MessageType := 24.
Definition AsyncLockInfoResponse : MessageType := 25.
Definition GetDescriptors : MessageType := 26.
Definition GetDescriptorsResponse : MessageType := 27.
Definition StartTLS : MessageType := 28.
Definition AsyncStartTLS : MessageType := 29.
Definition AsyncStartTLSResponse : MessageType := 30.
Definition EndTLS : MessageType := 31.
Definition AsyncEndTLS : MessageType := 32.
Definition AsyncEndTLSResponse : MessageType := 33.
Definition GetSaslMechanismList : MessageType := 34.
Definition GetSaslMechanismListResponse : MessageType := 35.
Definition AuthenticationStart : MessageType := 36.
Definition AuthenticationExchange : MessageType := 37.
Definition AuthenticationResult : MessageType := 38.

Definition ReservedMin : MessageType := 39.
Definition VendorSpecificMin : MessageType := 128.
Definition VendorSpecificMax : MessageType := 255.

Inductive Channel : Type :=
| ChannelNone
| ChannelSynchronous
| ChannelAsynchronous
| ChannelEither.
#[export] Instance Channel_eq_dec : EqDecision Channel.
Proof. solve_decision. Defined.

Inductive Capability : Type := CapabilityGeneral | CapabilitySecureConnection.
#[export] Instance Capability_eq_dec : EqDecision Capability.
Proof. solve_decision. Defined.

(** Control code and feature bitmap bits. *)
Definition ControlRMTDelivered : Z := 1.
Definition ControlPreferOverlap : Z := 1.
Definition FeatureOverlapped : Z := 1.
Definition FeatureEncryptionMandatory : Z := 2.
Definition FeatureInitialEncryption : Z := 4.

(** Fatal error codes, IVI-6.1 Table 14. *)
Definition FatalUnidentified : Z := 0.
Definition FatalPoorlyFormedHeader : Z := 1.
Definition FatalChannelsNotEstablished : Z := 2.
Definition FatalInvalidInitSequence : Z := 3.
Definition FatalMaxClientsExceeded : Z := 4.
Definition FatalSecureConnectionFailed : Z := 5.
Definition FatalReservedMin : Z := 6.
Definition FatalDeviceDefinedMin : Z := 128.

(** Non-fatal error codes, IVI-6.1 Table 16. *)
Definition NonFatalUnidentified : Z := 0.
Definition NonFatalUnrecognizedMessageType : Z := 1.
Definition NonFatalUnrecognizedControlCode : Z := 2.
Definition NonFatalUnrecognizedVendorMsg : Z := 3.
Definition NonFatalMessageTooLarge : Z := 4.
Definition NonFatalAuthenticationFailed : Z := 5.
Definition NonFatalReservedMin : Z := 6.
Definition NonFatalDeviceDefinedMin : Z := 128.

Definition DefaultPort : Z := 4880.
Definition DefaultSubAddress : bytes := str "hislip0".

Record messageInfo : Type := MkInfo {
  info_name : string;
  info_channel : Channel;
  info_capability : Capability;
  info_minVersion : Version;
}.

(** The table, indexed by message type. *)
Definition messages : list messageInfo := [
  MkInfo "Initialize" ChannelSynchronous CapabilityGeneral Version10;
  MkInfo "InitializeResponse" ChannelSynchronous CapabilityGeneral Version10;
  MkInfo "FatalError" ChannelEither CapabilityGeneral Version10;
  MkInfo "Error" ChannelEither CapabilityGeneral Version10;
  MkInfo "AsyncLock" ChannelAsynchronous CapabilityGeneral Version10;
  MkInfo "AsyncLockResponse" ChannelAsynchronous CapabilityGeneral Version10;
  MkInfo "Data" ChannelSynchronous CapabilityGeneral Version10;
  MkInfo "DataEnd" ChannelSynchronous CapabilityGeneral Version10;
  MkInfo "DeviceClearComplete" ChannelSynchronous CapabilityGeneral Version10;
  MkInfo "DeviceClearAcknowledge" ChannelSynchronous CapabilityGeneral Version10;
  MkInfo "AsyncRemoteLocalControl" ChannelAsynchronous CapabilityGeneral Version10;
  MkInfo "AsyncRemoteLocalResponse" ChannelAsynchronous CapabilityGeneral Version10;
  MkInfo "Trigger" ChannelSynchronous CapabilityGeneral Version10;
  MkInfo "Interrupted" ChannelSynchronous CapabilityGeneral Version10;
  MkInfo "AsyncInterrupted" ChannelAsynchronous CapabilityGeneral Version10;
  MkInfo "AsyncMaximumMessageSize" ChannelAsynchronous CapabilityGeneral Version10;
  MkInfo "AsyncMaximumMessageSizeResponse" ChannelAsynchronous CapabilityGeneral Version10;
  MkInfo "AsyncInitialize" ChannelAsynchronous CapabilityGeneral Version10;
  MkInfo "AsyncInitializeResponse" ChannelAsynchronous CapabilityGeneral Version10;
  MkInfo "AsyncDeviceClear" ChannelAsynchronous CapabilityGeneral Version10;
  MkInfo "AsyncServiceRequest" ChannelAsynchronous CapabilityGeneral Version10;
  MkInfo "AsyncStatusQuery" ChannelAsynchronous CapabilityGeneral Version10;
  MkInfo "AsyncStatusResponse" ChannelAsynchronous CapabilityGeneral Version10;
  MkInfo "AsyncDeviceClearAcknowledge" ChannelAsynchronous CapabilityGeneral Version10;
  MkInfo "AsyncLockInfo" ChannelAsynchronous CapabilityGeneral Version10;
  MkInfo "AsyncLockInfoResponse" ChannelAsynchronous CapabilityGeneral Version10;
  MkInfo "GetDescriptors" ChannelEither CapabilityGeneral Version20;
  MkInfo "GetDescriptorsResponse" ChannelEither CapabilityGeneral Version20;
  MkInfo "StartTLS" ChannelSynchronous CapabilitySecureConnection Version20;
  MkInfo "AsyncStartTLS" ChannelAsynchronous CapabilitySecureConnection Version20;
  MkInfo "AsyncStartTLSResponse" ChannelAsynchronous CapabilitySecureConnection Version20;
  MkInfo "EndTLS" ChannelSynchronous CapabilitySecureConnection Version20;
  MkInfo "AsyncEndTLS" ChannelAsynchronous CapabilitySecureConnection Version20;
  MkInfo "AsyncEndTLSResponse" ChannelAsynchronous CapabilitySecureConnection Version20;
  MkInfo "GetSaslMechanismList" ChannelSynchronous CapabilitySecureConnection Version20;
  MkInfo "GetSaslMechanismListResponse" ChannelSynchronous CapabilitySecureConnection Version20;
  MkInfo "AuthenticationStart" ChannelSynchronous CapabilitySecureConnection Version20;
  MkInfo "AuthenticationExchange" ChannelSynchronous CapabilitySecureConnection Version20;
  MkInfo "AuthenticationResult" ChannelSynchronous CapabilitySecureConnection Version20
].

(** [messages[t]] when [t] is in range. *)
Definition messages_at (t : MessageType) : option messageInfo :=
  messages !! Z.to_nat t.

Definition MessageType_Defined (t : MessageType) : bool :=
  match messages_at t with
  | Some i => bool_decide (t < len messages) && bool_decide (i.(info_channel) <> ChannelNone)
  | None => false
  end.

Definition MessageType_VendorSpecific (t : MessageType) : bool :=
  bool_decide (VendorSpecificMin <= t).

Definition MessageType_Reserved (t : MessageType) : bool :=
  bool_decide (ReservedMin <= t) && bool_decide (t < VendorSpecificMin).

Definition MessageType_Channel (t : MessageType) : Channel :=
  if MessageType_VendorSpecific t then ChannelEither
  else if negb (MessageType_Defined t) then ChannelNone
  else match messages_at t with Some i => i.(info_channel) | None => ChannelNone end.

Definition MessageType_LegalOn (t : MessageType) (c : Channel) : bool :=
  if bool_decide (c <> ChannelSynchronous) && bool_decide (c <> ChannelAsynchronous)
  then false
  else match MessageType_Channel t with
       | ChannelEither => true
       | ct => bool_decide (ct = c)
       end.

Definition MessageType_MinVersion (t : MessageType) : Version :=
  if negb (MessageType_Defined t) then MkVersion 0 0
  else match messages_at t with Some i => i.(info_minVersion) | None => MkVersion 0 0 end.

Definition MessageType_Capability (t : MessageType) : Capability :=
  if negb (MessageType_Defined t) then CapabilityGeneral
  else match messages_at t with Some i => i.(info_capability) | None => CapabilityGeneral end.

Definition MessageType_String (t : MessageType) : string :=
  if MessageType_Defined t
  then match messages_at t with Some i => i.(info_name) | None => "" end
  else if MessageType_VendorSpecific t then "VendorSpecific"
  else "Reserved".

(** ** Classification of a received type byte *)

(** The table agrees with [LegalOn] at a type byte. *)
Definition channel_consistent (t : MessageType) : bool :=
  let s := MessageType_LegalOn t ChannelSynchronous in
  let a := MessageType_LegalOn t ChannelAsynchronous in
  match MessageType_Channel t with
  | ChannelNone => negb s && negb a
  | ChannelSynchronous => s && negb a
  | ChannelAsynchronous => negb s && a
  | ChannelEither => s && a
  end && eqb (MessageType_Reserved t) (bool_decide (MessageType_Channel t = ChannelNone)).

(** Every message type byte is in exactly one of the defined, reserved and
    vendor-specific ranges. A type is legal on a channel only if that is one of the
    two real channels and the one the table gives, or either; and exactly the reserved
    types are legal on neither. *)
Theorem message_type_classification t :
  is_u8 t ->
  (MessageType_Defined t = true <-> t < ReservedMin) /\
  (MessageType_Reserved t = true <-> ReservedMin <= t < VendorSpecificMin) /\
  (MessageType_VendorSpecific t = true <-> VendorSpecificMin <= t) /\
  (forall c, MessageType_LegalOn t c = true ->
     (c = ChannelSynchronous \/ c = ChannelAsynchronous) /\
     (MessageType_Channel t = c \/ MessageType_Channel t = ChannelEither)) /\
  ((MessageType_LegalOn t ChannelSynchronous = false /\
    MessageType_LegalOn t ChannelAsynchronous = false) <-> MessageType_Reserved t = true).
Proof.
  intros Ht.
  pose proof (u8_forall (fun t => eqb (MessageType_Defined t) (bool_decide (t < ReservedMin)))
                ltac:(by vm_compute) t Ht) as Hd%eqb_prop.
  pose proof (u8_forall channel_consistent ltac:(by vm_compute) t Ht) as Hc.
  split_and!.
  - rewrite Hd. apply bool_decide_eq_true.
  - unfold MessageType_Reserved. rewrite andb_true_iff, !bool_decide_eq_true. lia.
  - unfold MessageType_VendorSpecific. apply bool_decide_eq_true.
  - intros c. unfold MessageType_LegalOn.
    destruct (MessageType_Channel t), c; vm_compute; intuition congruence.
  - unfold channel_consistent in Hc.
    destruct (MessageType_LegalOn t ChannelSynchronous),
      (MessageType_LegalOn t ChannelAsynchronous),
      (MessageType_Channel t), (MessageType_Reserved t); simpl in Hc;
      try done; intuition congruence.
Qed.

Lemma message_type_classification_witness :
  is_u8 200 /\ (MessageType_VendorSpecific 200 = true <-> VendorSpecificMin <= 200).
Proof.
  assert (H : is_u8 200) by u_lia. split; [done |].
  apply (message_type_classification 200 H).
Defined.
