(* ===== verification/MessageId.v ===== *)
(** * MessageID arithmetic

    [src/protocol/messageid.go]: the 32-bit MessageID sequence a client
    generates. A counter steps by two and wraps. *)

From S2P Require Import Prelude.

Abbreviation MessageID := Z (only parsing).

Definition InitialMessageID : MessageID := 0xffffff00.
Definition NoMessageID : MessageID := 0xffffffff.
Definition StatusQueryInitialMessageID : MessageID := 0xfffffefe.
Definition messageIDIncrement : MessageID := 2.

Definition MessageID_Next (m : MessageID) : MessageID := uint32 (m + messageIDIncrement).
Definition MessageID_Previous (m : MessageID) : MessageID := uint32 (m - messageIDIncrement).

Record Counter : Type := MkCounter { counter_current : MessageID; counter_started : bool }.

(** The zero value. *)
Definition Counter_zero : Counter := MkCounter 0 false.

Definition Counter_Reset (c : Counter) : Counter := MkCounter InitialMessageID true.

Definition NewCounter : Counter := Counter_Reset Counter_zero.

Definition Counter_Current : M Counter MessageID :=
  c ← gets id;
  _ ← (if negb c.(counter_started) then modify Counter_Reset else mret tt);
  gets counter_current.

Definition Counter_Take : M Counter MessageID :=
  id ← Counter_Current;
  _ ← modify (fun c => MkCounter (MessageID_Next id) c.(counter_started));
  mret id.

Definition Counter_Last : M Counter MessageID :=
  id ← Counter_Current;
  mret (MessageID_Previous id).

(** [n] successive calls of [Take], returning the last of them. *)
Fixpoint take_n (n : nat) (c : Counter) : list MessageID * Counter :=
  match n with
  | O => ([], c)
  | S n => let (id, c') := Counter_Take c in
           let (ids, c'') := take_n n c' in (id :: ids, c'')
  end.

(** The reference sequence. *)
Definition nth_id (i : Z) : MessageID := uint32 (InitialMessageID + 2 * i).

Lemma nth_id_range i : is_u32 (nth_id i).
Proof. apply uint32_range. Qed.

Lemma nth_id_next i : MessageID_Next (nth_id i) = nth_id (i + 1).
Proof.
  unfold MessageID_Next, nth_id, uint32, messageIDIncrement.
  rewrite Zplus_mod_idemp_l. f_equal. lia.
Qed.

Lemma Counter_Take_started i :
  Counter_Take (MkCounter (nth_id i) true) = (nth_id i, MkCounter (nth_id (i + 1)) true).
Proof. cbv -[nth_id MessageID_Next Z.add]. by rewrite nth_id_next. Qed.

Lemma take_n_started n i :
  take_n n (MkCounter (nth_id i) true) =
  ((fun k => nth_id (i + Z.of_nat k)) <$> seq 0 n, MkCounter (nth_id (i + Z.of_nat n)) true).
Proof.
  revert i. induction n as [|n IH]; intros i; [by rewrite Z.add_0_r |].
  cbn [take_n]. rewrite Counter_Take_started, IH. f_equal; [| do 2 f_equal; lia].
  rewrite <- cons_seq, fmap_cons, <- fmap_S_seq, <- list_fmap_compose.
  f_equal; [f_equal; lia |]. apply list_fmap_ext. intros. simpl. f_equal. lia.
Qed.

(** A zero counter behaves as a reset one. *)
Lemma take_n_zero n : (take_n (S n) Counter_zero) = take_n (S n) NewCounter.
Proof. done. Qed.

(** A new counter hands out 0xffffff00 and then every second 32-bit number, wrapping
    around; the last one handed out is remembered, the reserved NoMessageID never
    occurs, and no ID recurs within 2^31 messages. *)
Theorem Counter_sequence n :
  (forall i id, (take_n n NewCounter).1 !! i = Some id -> id = nth_id (Z.of_nat i)) /\
  length (take_n n NewCounter).1 = n /\
  (Counter_Last (take_n n NewCounter).2).1 = nth_id (Z.of_nat n - 1) /\
  (NoMessageID ∉ (take_n n NewCounter).1) /\
  (Z.of_nat n <= 2 ^ 31 -> NoDup (take_n n NewCounter).1).
Proof.
  assert (E : take_n n NewCounter =
    ((nth_id ∘ Z.of_nat) <$> seq 0 n, MkCounter (nth_id (Z.of_nat n)) true))
    by (apply (take_n_started n 0)).
  rewrite E. simpl. split_and!.
  - intros i id. rewrite list_lookup_fmap. intros (k & Hk & ->)%fmap_Some.
    apply lookup_seq in Hk as [-> _]. done.
  - by rewrite length_fmap, length_seq.
  - unfold nth_id, MessageID_Previous, uint32. simpl.
    unfold uint32. rewrite Zminus_mod_idemp_l. f_equal. unfold messageIDIncrement. lia.
  - intros (k & Hk & _)%list_elem_of_fmap. unfold nth_id, uint32, NoMessageID in Hk. simpl in Hk.
    Z.to_euclidean_division_equations. unfold InitialMessageID in *. lia.
  - intros Hn. apply NoDup_fmap_2_strong; [| apply NoDup_seq].
    intros x y Hx%elem_of_seq Hy%elem_of_seq Hxy. simpl in Hxy.
    unfold nth_id, uint32 in Hxy. Z.to_euclidean_division_equations. lia.
Qed.

Lemma Counter_sequence_witness :
  NoDup (take_n 200 NewCounter).1 /\ (Counter_Last (take_n 1 NewCounter).2).1 = InitialMessageID.
Proof.
  split.
  - apply (Counter_sequence 200). lia.
  - apply (Counter_sequence 1).
Defined.
