(* ===== verification/Stream.v ===== *)
(** * Streams

    The [Stream] interface of [src/server/stream.go], [io.ReadFull] of the
    standard library, and the in-memory stream [Canned] of
    [src/internal/teststream/teststream.go] as an instance.

    A transport is a parameter of the development. The class [Stream] holds the
    operations and the one documented guarantee of [io.Reader] the code relies
    on: a read into a non-empty buffer returns at least one byte or an error.
    The class [StreamModel] says what a live transport promises: reads deliver
    the peer's bytes in order in fragments of any size, and writes append. *)

From S2P Require Import Prelude Errors.

Class Stream (S : Type) := {
  (** [Read(p)] with [len(p) = n]: the bytes stored at the front of [p]. *)
  stream_Read : S -> Z -> bytes * option error * S;
  (** [Write(p)]; the byte count is ignored by every caller. *)
  stream_Write : S -> bytes -> option error * S;
  stream_Close : S -> option error * S;
  stream_Read_len : forall s n, 0 <= n -> len (stream_Read s n).1.1 <= n;
  stream_Read_progress : forall s n,
    0 < n -> (stream_Read s n).1.2 = None -> (stream_Read s n).1.1 <> [];
}.

(** A stream with I/O deadlines; the server core sets none. *)
Class DeadlineStream (S : Type) := {
  deadline_Stream :: Stream S;
  stream_SetDeadline : S -> Z -> option error * S;
}.

Class StreamModel (S : Type) `{Stream S} := {
  (** The bytes the peer has sent that have not been read. *)
  st_input : S -> bytes;
  (** The bytes written so far. *)
  st_output : S -> bytes;
  (** The connection is up in both directions. *)
  st_open : S -> Prop;
  st_read : forall s n, st_open s -> 0 < n -> exists k e s',
    stream_Read s n = (take k (st_input s), e, s') /\
    st_input s' = drop k (st_input s) /\ st_output s' = st_output s /\ st_open s' /\
    (k <= length (st_input s))%nat /\
    (e = None \/ e = Some (ioerr EOF) /\ k = length (st_input s));
  st_write : forall s b, st_open s -> exists s',
    stream_Write s b = (None, s') /\
    st_output s' = st_output s ++ b /\ st_input s' = st_input s /\ st_open s';
}.

(** ** [io.ReadFull]

    The loop of [io.ReadAtLeast]: read until the buffer is full or an error is
    returned. Every round makes progress, so [n] rounds are enough. *)
Fixpoint readfull_loop {S} `{Stream S} (fuel : nat) (s : S) (need : Z) (acc : bytes)
  : bytes * option error * S :=
  match fuel with
  | O => (acc, None, s)
  | Datatypes.S fuel =>
      if bool_decide (need <= 0) then (acc, None, s)
      else match stream_Read s need with
           | (b, Some e, s') => (acc ++ b, Some e, s')
           | (b, None, s') => readfull_loop fuel s' (need - len b) (acc ++ b)
           end
  end.

Definition io_ReadFull {S} `{Stream S} (s : S) (n : Z) : bytes * option error * S :=
  match readfull_loop (Z.to_nat n) s n [] with
  | (b, e, s') =>
      if bool_decide (n <= len b) then (b, None, s')
      else if bool_decide (0 < len b) && bool_decide (e = Some (ioerr EOF))
      then (b, Some (ioerr ErrUnexpectedEOF), s')
      else (b, e, s')
  end.

(** [copy(dst, src)] into the front of a buffer. *)
Definition overlay (dst src : bytes) : bytes := src ++ drop (length src) dst.

(** ** The canned stream *)

Record Canned : Type := MkCanned {
  canned_in : bytes;
  canned_out : bytes;
  canned_closed : bool;
  canned_ReadErr : option error;
  canned_WriteErr : option error;
  canned_MaxRead : Z;
}.

(** [teststream.ErrClosed]. *)
Definition ErrClosed : error := Foreign (str "teststream: stream is closed") [].

Definition NewCanned (input : bytes) : Canned := MkCanned input [] false None None 0.

(** [bytes.Reader.Read] into a buffer of [n] bytes. *)
Definition bytes_Reader_Read (b : bytes) (n : Z) : bytes * option error * bytes :=
  match b with
  | [] => ([], Some (ioerr EOF), [])
  | _ => (take (Z.to_nat n) b, None, drop (Z.to_nat n) b)
  end.

Definition Canned_Read (c : Canned) (n : Z) : bytes * option error * Canned :=
  if c.(canned_closed) then ([], Some ErrClosed, c)
  else match c.(canned_ReadErr) with
  | Some e => ([], Some e, c)
  | None =>
      let n := if bool_decide (0 < c.(canned_MaxRead)) && bool_decide (c.(canned_MaxRead) < n)
               then c.(canned_MaxRead) else n in
      let '(b, e, rest) := bytes_Reader_Read c.(canned_in) n in
      (b, e, MkCanned rest c.(canned_out) c.(canned_closed) c.(canned_ReadErr)
               c.(canned_WriteErr) c.(canned_MaxRead))
  end.

Definition Canned_Write (c : Canned) (p : bytes) : option error * Canned :=
  if c.(canned_closed) then (Some ErrClosed, c)
  else (c.(canned_WriteErr),
        MkCanned c.(canned_in) (c.(canned_out) ++ p) c.(canned_closed) c.(canned_ReadErr)
          c.(canned_WriteErr) c.(canned_MaxRead)).

Definition Canned_Close (c : Canned) : option error * Canned :=
  (None, MkCanned c.(canned_in) c.(canned_out) true c.(canned_ReadErr)
           c.(canned_WriteErr) c.(canned_MaxRead)).

Definition Canned_Closed (c : Canned) : bool := c.(canned_closed).
Definition Canned_Written (c : Canned) : bytes := c.(canned_out).
Definition Canned_Unread (c : Canned) : bytes := c.(canned_in).
Definition Canned_ResetOutput (c : Canned) : Canned :=
  MkCanned c.(canned_in) [] c.(canned_closed) c.(canned_ReadErr) c.(canned_WriteErr)
    c.(canned_MaxRead).

(** The effective buffer length of one canned read. *)
Definition canned_cap (c : Canned) (n : Z) : Z :=
  if bool_decide (0 < c.(canned_MaxRead)) && bool_decide (c.(canned_MaxRead) < n)
  then c.(canned_MaxRead) else n.

Lemma canned_cap_range c n : 0 < n -> 0 < canned_cap c n <= n.
Proof. unfold canned_cap. repeat case_bool_decide; simpl; lia. Qed.

Lemma Canned_Read_len c n : 0 <= n -> len (Canned_Read c n).1.1 <= n.
Proof.
  intros Hn. unfold Canned_Read. fold (canned_cap c n). unfold bytes_Reader_Read, len.
  destruct (canned_closed c), (canned_ReadErr c), (canned_in c) as [|x l];
    cbn [fst snd length]; try lia.
  rewrite length_take. unfold canned_cap. repeat case_bool_decide; cbn [andb]; lia.
Qed.

Lemma Canned_Read_progress c n :
  0 < n -> (Canned_Read c n).1.2 = None -> (Canned_Read c n).1.1 <> [].
Proof.
  intros Hn. unfold Canned_Read. fold (canned_cap c n). unfold bytes_Reader_Read.
  destruct (canned_closed c), (canned_ReadErr c), (canned_in c); simpl; try done.
  intros _. pose proof (canned_cap_range c n Hn).
  by destruct (Z.to_nat (canned_cap c n)) eqn:E; [lia |].
Qed.

#[export] Instance Canned_Stream : Stream Canned := {|
  stream_Read := Canned_Read;
  stream_Write := Canned_Write;
  stream_Close := Canned_Close;
  stream_Read_len := Canned_Read_len;
  stream_Read_progress := Canned_Read_progress;
|}.

Definition Canned_live (c : Canned) : Prop :=
  canned_closed c = false /\ canned_ReadErr c = None /\ canned_WriteErr c = None.

#[export] Program Instance Canned_StreamModel : StreamModel Canned := {|
  st_input := canned_in;
  st_output := canned_out;
  st_open := Canned_live;
|}.
Next Obligation.
  intros [inp out cl re we mr] n (Hcl & Hre & Hwe) Hn; simpl in *; subst.
  unfold Canned_Read, bytes_Reader_Read; simpl.
  set (m := if _ : bool then _ else _). destruct inp as [|x inp].
  - exists O, (Some (ioerr EOF)). eexists. repeat split; simpl; auto.
  - exists (Z.to_nat m `min` length (x :: inp))%nat, None. eexists. split_and!.
    + rewrite <- firstn_firstn, firstn_all. reflexivity.
    + simpl. destruct (Nat.min_spec (Z.to_nat m) (Datatypes.S (length inp))) as [[? ->]|[? ->]]; [done |].
      by rewrite !drop_ge by (simpl; lia).
    + done.
    + done.
    + simpl; lia.
    + by left.
Qed.
Next Obligation.
  intros [inp out cl re we mr] b (Hcl & Hre & Hwe); simpl in *; subst. unfold Canned_Write; simpl.
  eexists. repeat split.
Qed.

(** ** [io.ReadFull] on a live stream *)
Section ReadFull.
Context {S : Type} `{StreamModel S}.
Implicit Types s : S.

Lemma readfull_loop_spec fuel s need acc :
  st_open s -> 0 <= need <= Z.of_nat fuel -> exists e s',
  readfull_loop fuel s need acc = (acc ++ take (Z.to_nat need) (st_input s), e, s') /\
  st_input s' = drop (Z.to_nat need) (st_input s) /\
  st_output s' = st_output s /\ st_open s' /\
  (len (st_input s) < need -> e = Some (ioerr EOF)).
Proof.
  revert s need acc. induction fuel as [|fuel IH]; intros s need acc Ho Hn; simpl.
  { replace need with 0 by lia. exists None, s. simpl. rewrite app_nil_r, drop_0.
    split_and!; try done. pose proof (len_nonneg (st_input s)). lia. }
  case_bool_decide.
  { replace need with 0 by lia. exists None, s. simpl. rewrite app_nil_r, drop_0.
    split_and!; try done. pose proof (len_nonneg (st_input s)). lia. }
  destruct (st_read s need Ho) as (k & e & s' & E & Hi & Hout & Ho' & Hk & He); [lia |].
  pose proof (stream_Read_len s need ltac:(lia)) as Hlen.
  pose proof (stream_Read_progress s need ltac:(lia)) as Hprog.
  rewrite E in Hlen, Hprog. simpl in Hlen, Hprog. unfold len in Hlen.
  rewrite length_take, Nat.min_l in Hlen by done.
  rewrite E. destruct He as [-> | [-> Hall]].
  - assert (k <> O) by (intros ->; by apply Hprog).
    destruct (IH s' (need - len (take k (st_input s))) (acc ++ take k (st_input s)) Ho')
      as (e & s'' & -> & Hi' & Ho'' & Hop & Hee).
    { unfold len. rewrite length_take. lia. }
    unfold len in *. rewrite length_take, Nat.min_l in * by done.
    exists e, s''. rewrite Hi', Hi, drop_drop, <- app_assoc.
    replace (Z.to_nat need) with (k + Z.to_nat (need - Z.of_nat k))%nat by lia.
    rewrite <- take_take_drop. split_and!; try done; [congruence |].
    intros Hlt. apply Hee. rewrite Hi, length_drop. lia.
  - exists (Some (ioerr EOF)), s'. subst k. rewrite Hi. split_and!; try done.
    + by rewrite !take_ge by lia.
    + by rewrite !drop_ge by lia.
Qed.

(** Enough input: exactly the next [n] bytes are returned and consumed. *)
Lemma io_ReadFull_ok s n :
  st_open s -> 0 <= n <= len (st_input s) -> exists s',
  io_ReadFull s n = (take (Z.to_nat n) (st_input s), None, s') /\
  st_input s' = drop (Z.to_nat n) (st_input s) /\
  st_output s' = st_output s /\ st_open s'.
Proof.
  intros Ho Hn. unfold io_ReadFull.
  destruct (readfull_loop_spec (Z.to_nat n) s n [] Ho) as (e & s' & -> & Hi & Hout & Ho' & _);
    [lia |].
  exists s'. simpl. rewrite bool_decide_eq_true_2; [done |].
  unfold len in *. rewrite length_take. lia.
Qed.

(** Too little input: [io.EOF] on a boundary, [io.ErrUnexpectedEOF] inside. *)
Lemma io_ReadFull_short s n :
  st_open s -> len (st_input s) < n -> exists s',
  io_ReadFull s n = (st_input s,
    Some (ioerr (if bool_decide (st_input s = []) then EOF else ErrUnexpectedEOF)), s') /\
  st_input s' = [] /\ st_output s' = st_output s /\ st_open s'.
Proof.
  intros Ho Hn. pose proof (len_nonneg (st_input s)). unfold io_ReadFull.
  destruct (readfull_loop_spec (Z.to_nat n) s n [] Ho) as (e & s' & -> & Hi & Hout & Ho' & He);
    [lia |].
  rewrite (He Hn). exists s'. simpl. unfold len in *.
  rewrite take_ge, bool_decide_eq_false_2 by lia. rewrite drop_ge in Hi by lia.
  rewrite andb_true_r. destruct (st_input s) as [|x l] eqn:E; [done |].
  by rewrite bool_decide_eq_true_2 by (simpl; lia).
Qed.
End ReadFull.
