(* ===== verification/Pipe.v ===== *)
(** * The in-memory pipe

    [src/internal/teststream/teststream.go]: [buffer], a byte queue whose reads block,
    and [Pipe], two of them connected crosswise. The goroutines that read a buffer are
    threads of a step system at the granularity of the critical sections: a read runs
    its loop until it returns or waits on the condition variable, and a broadcast wakes
    every waiting thread.

    The histories of what was written and read are kept beside the state, so that the
    theorems can compare them. *)

From S2P Require Import Prelude Errors Stream.

(** A thread in [buffer.Read] with a slice of [n] bytes: about to take the lock and
    check, waiting for a broadcast, or returned. *)
Inductive reader : Type :=
| RTrying (n : Z)
| RWaiting (n : Z)
| RReturned (b : bytes) (err : option error).

(** [b_readers] holds the goroutines that read the buffer. *)
Record buffer : Type := MkBuffer {
  b_data : bytes;
  b_closed : bool;
  b_readers : gmap nat reader;
}.

Definition newBuffer : buffer := MkBuffer [] false ∅.

(** [cond.Broadcast]. *)
Definition wake (r : reader) : reader :=
  match r with RWaiting n => RTrying n | _ => r end.
Definition Broadcast (b : buffer) : buffer :=
  MkBuffer b.(b_data) b.(b_closed) (wake <$> b.(b_readers)).

Definition buffer_Write (b : buffer) (p : bytes) : Z * option error * buffer :=
  if b.(b_closed) then (0, Some ErrClosed, b)
  else (len p, None, Broadcast (MkBuffer (b.(b_data) ++ p) b.(b_closed) b.(b_readers))).

(** The rounds of the loop of [Read] up to the next wait: [None] is [cond.Wait]. *)
Definition buffer_Read (b : buffer) (n : Z) : option (bytes * option error * buffer) :=
  if bool_decide (len b.(b_data) = 0) then
    if b.(b_closed) then Some ([], Some (ioerr EOF), b) else None
  else
    Some (take (Z.to_nat n) b.(b_data), None,
          MkBuffer (drop (Z.to_nat n) b.(b_data)) b.(b_closed) b.(b_readers)).

Definition buffer_close (b : buffer) : buffer :=
  Broadcast (MkBuffer b.(b_data) true b.(b_readers)).

Definition set_reader (t : nat) (r : reader) (b : buffer) : buffer :=
  MkBuffer b.(b_data) b.(b_closed) (<[t := r]> b.(b_readers)).

(** A goroutine calls [Read]; a call must not be in progress. *)
Definition start_read (t : nat) (n : Z) (b : buffer) : option buffer :=
  match b.(b_readers) !! t with
  | Some (RTrying _) | Some (RWaiting _) => None
  | _ => Some (set_reader t (RTrying n) b)
  end.

(** A goroutine in [Read] runs until it returns or waits; the bytes it took. *)
Definition run_read (t : nat) (b : buffer) : option (bytes * buffer) :=
  match b.(b_readers) !! t with
  | Some (RTrying n) =>
      match buffer_Read b n with
      | None => Some ([], set_reader t (RWaiting n) b)
      | Some (p, err, b) => Some (p, set_reader t (RReturned p err) b)
      end
  | _ => None
  end.

(** ** Both directions *)

Inductive pipe_end : Type := EndA | EndB.
#[export] Instance pipe_end_eq_dec : EqDecision pipe_end.
Proof. solve_decision. Defined.
Definition peer (e : pipe_end) : pipe_end := match e with EndA => EndB | EndB => EndA end.

(** The progress of [once.Do] in [Close]: not begun, the write buffer closed, done. *)
Inductive closing : Type := CNot | CHalf | CDone.

(** [Pipe] and the two [Conn]s over it. The buffer [pp_buf e] carries what end [e]
    writes; its peer reads from it. *)
Record pipe : Type := MkPipe {
  pp_buf : pipe_end -> buffer;
  pp_once : pipe_end -> closing;
  pp_written : pipe_end -> bytes;
  pp_read : pipe_end -> bytes;
}.

Definition Pipe : pipe :=
  MkPipe (fun _ => newBuffer) (fun _ => CNot) (fun _ => []) (fun _ => []).

(** Update the component of one end. *)
Definition upd {A} (e : pipe_end) (v : A) (f : pipe_end -> A) : pipe_end -> A :=
  fun e' => if decide (e' = e) then v else f e'.

Definition set_buf (e : pipe_end) (b : buffer) (s : pipe) : pipe :=
  MkPipe (upd e b s.(pp_buf)) s.(pp_once) s.(pp_written) s.(pp_read).
Definition set_once (e : pipe_end) (c : closing) (s : pipe) : pipe :=
  MkPipe s.(pp_buf) (upd e c s.(pp_once)) s.(pp_written) s.(pp_read).

Definition Conn_Write (e : pipe_end) (p : bytes) (s : pipe) : Z * option error * pipe :=
  let '(n, err, b) := buffer_Write (s.(pp_buf) e) p in
  let s := set_buf e b s in
  (n, err,
   MkPipe s.(pp_buf) s.(pp_once)
     (upd e (s.(pp_written) e ++ take (Z.to_nat n) p) s.(pp_written)) s.(pp_read)).

(** [Read] on end [e] by goroutine [t]: the call, and its runs. *)
Definition Conn_Read_call (e : pipe_end) (t : nat) (n : Z) (s : pipe) : option pipe :=
  b ← start_read t n (s.(pp_buf) (peer e)); Some (set_buf (peer e) b s).
Definition Conn_Read_run (e : pipe_end) (t : nat) (s : pipe) : option pipe :=
  '(p, b) ← run_read t (s.(pp_buf) (peer e));
  let s := set_buf (peer e) b s in
  Some (MkPipe s.(pp_buf) s.(pp_once) s.(pp_written)
          (upd (peer e) (s.(pp_read) (peer e) ++ p) s.(pp_read))).

(** The two critical sections of [Close]; only the first call runs them. *)
Definition Conn_Close (e : pipe_end) (s : pipe) : option pipe :=
  match s.(pp_once) e with
  | CNot => Some (set_once e CHalf (set_buf e (buffer_close (s.(pp_buf) e)) s))
  | CHalf => Some (set_once e CDone (set_buf (peer e) (buffer_close (s.(pp_buf) (peer e))) s))
  | CDone => Some s
  end.

Definition Conn_SetDeadline (e : pipe_end) (s : pipe) : option error * pipe := (None, s).

Inductive pipe_action : Type :=
| AWrite (e : pipe_end) (p : bytes)
| ACall (e : pipe_end) (t : nat) (n : Z)
| ARun (e : pipe_end) (t : nat)
| AClose (e : pipe_end).

(** One step; [None] is a step the goroutine cannot take. *)
Definition pipe_step (s : pipe) (a : pipe_action) : option pipe :=
  match a with
  | AWrite e p => Some (Conn_Write e p s).2
  | ACall e t n => Conn_Read_call e t n s
  | ARun e t => Conn_Read_run e t s
  | AClose e => Conn_Close e s
  end.

Inductive pipe_reach : pipe -> Prop :=
| reach_Pipe : pipe_reach Pipe
| reach_step s a s' : pipe_reach s -> pipe_step s a = Some s' -> pipe_reach s'.

(** ** The invariant of a buffer *)

(** Given what was written and read so far: nothing is lost, duplicated or reordered;
    a thread waits only while there is nothing to return; end of file is reported only
    when the buffer is closed and drained. *)
Record buf_inv (w r : bytes) (b : buffer) : Prop := {
  bi_fifo : r ++ b.(b_data) = w;
  bi_waiting : forall t n, b.(b_readers) !! t = Some (RWaiting n) ->
    b.(b_data) = [] /\ b.(b_closed) = false;
  bi_eof : forall t p err, b.(b_readers) !! t = Some (RReturned p (Some err)) ->
    p = [] /\ err = ioerr EOF /\ b.(b_data) = [] /\ b.(b_closed) = true;
}.

Lemma buf_inv_new : buf_inv [] [] newBuffer.
Proof. split; [done | |]; intros t *; unfold newBuffer; simpl; by rewrite lookup_empty. Qed.

(** A broadcast leaves nobody waiting, and the threads that returned as they were. *)
Lemma Broadcast_waiting b t n : b_readers (Broadcast b) !! t <> Some (RWaiting n).
Proof. simpl. rewrite lookup_fmap. by destruct (b_readers b !! t) as [[]|]. Qed.

Lemma Broadcast_returned b t p err :
  b_readers (Broadcast b) !! t = Some (RReturned p err) ->
  b_readers b !! t = Some (RReturned p err).
Proof. simpl. rewrite lookup_fmap. destruct (b_readers b !! t) as [[]|]; simpl; congruence. Qed.

Lemma buf_inv_Write w r b p :
  buf_inv w r b ->
  let '(n, err, b') := buffer_Write b p in
  buf_inv (w ++ take (Z.to_nat n) p) r b' /\ b_closed b' = b_closed b /\
  err = (if b_closed b then Some ErrClosed else None) /\ n = (if b_closed b then 0 else len p).
Proof.
  intros Hi. unfold buffer_Write. destruct (b_closed b) eqn:Ec.
  { simpl. rewrite take_0, app_nil_r. by split_and!. }
  destruct Hi as [Hf Hw He].
  unfold len. rewrite Nat2Z.id, firstn_all. split_and!; [| done..]. split.
  - simpl. by rewrite app_assoc, Hf.
  - intros t n E. by apply Broadcast_waiting in E.
  - intros t q err E%Broadcast_returned. simpl in E. destruct (He _ _ _ E) as (_ & _ & _ & ?). congruence.
Qed.

Lemma buf_inv_close w r b : buf_inv w r b -> buf_inv w r (buffer_close b).
Proof.
  intros [Hf Hw He]. split; [done | |].
  - intros t n E. by apply Broadcast_waiting in E.
  - intros t q err E%Broadcast_returned. by destruct (He t q err E) as (? & ? & ? & _).
Qed.

(** The state a thread may be put in. *)
Definition reader_ok (b : buffer) (rd : reader) : Prop :=
  match rd with
  | RTrying _ => True
  | RWaiting _ => b.(b_data) = [] /\ b.(b_closed) = false
  | RReturned _ None => True
  | RReturned p (Some err) => p = [] /\ err = ioerr EOF /\ b.(b_data) = [] /\ b.(b_closed) = true
  end.

Lemma buf_inv_set w r b t rd :
  buf_inv w r b -> reader_ok b rd -> buf_inv w r (set_reader t rd b).
Proof.
  intros [Hf Hw He] Ho. split; [done | |]; intros t' *; simpl; rewrite lookup_insert;
    case_decide; eauto; intros [= ->]; exact Ho.
Qed.

(** Taking a prefix. *)
Lemma buf_inv_take w r b n :
  buf_inv w r b -> buf_inv w (r ++ take n b.(b_data)) (MkBuffer (drop n b.(b_data)) b.(b_closed) b.(b_readers)).
Proof.
  intros [Hf Hw He]. split; simpl.
  - by rewrite <- app_assoc, take_drop.
  - intros t m E. destruct (Hw t m E) as [-> ->]. by rewrite drop_nil.
  - intros t p err E. destruct (He t p err E) as (-> & -> & -> & ->). by rewrite drop_nil.
Qed.

Lemma buf_inv_start w r b t n b' :
  buf_inv w r b -> start_read t n b = Some b' -> buf_inv w r b' /\ b_closed b' = b_closed b.
Proof.
  intros Hi E.
  assert (E' : b' = set_reader t (RTrying n) b) by (unfold start_read in E; repeat case_match; congruence).
  subst b'. split; [by apply buf_inv_set | done].
Qed.

Lemma buf_inv_run w r b t p b' :
  buf_inv w r b -> run_read t b = Some (p, b') ->
  buf_inv w (r ++ p) b' /\ b_closed b' = b_closed b.
Proof.
  intros Hi E. unfold run_read in E. destruct (b_readers b !! t) as [[n| |]|]; try done.
  unfold buffer_Read in E. case_bool_decide as Hz; [apply len_nil_iff in Hz; destruct (b_closed b) eqn:Ec |];
    simplify_eq/=; rewrite ?app_nil_r; (split; [apply buf_inv_set |]); try done.
  by apply buf_inv_take.
Qed.

(** ** The invariant of the pipe *)

Definition has_begun (c : closing) : bool := match c with CNot => false | _ => true end.
Definition is_done (c : closing) : bool := match c with CDone => true | _ => false end.

Record pipe_inv (s : pipe) : Prop := {
  pi_buf : forall e, buf_inv (s.(pp_written) e) (s.(pp_read) e) (s.(pp_buf) e);
  pi_closed : forall e, b_closed (s.(pp_buf) e)
    = has_begun (s.(pp_once) e) || is_done (s.(pp_once) (peer e));
}.

Lemma upd_same {A} e (v : A) f : upd e v f e = v.
Proof. unfold upd. by rewrite decide_True. Qed.
Lemma upd_other {A} e e' (v : A) f : e' <> e -> upd e v f e' = f e'.
Proof. intros. unfold upd. by rewrite decide_False. Qed.
Lemma peer_peer e : peer (peer e) = e.
Proof. by destruct e. Qed.
Lemma peer_ne e : peer e <> e.
Proof. by destruct e. Qed.

(** A step that works on one buffer and does not close it. *)
Lemma pipe_inv_step_buf s s' e :
  pipe_inv s -> s'.(pp_once) = s.(pp_once) ->
  (forall e', e' <> e -> s'.(pp_buf) e' = s.(pp_buf) e' /\
     s'.(pp_written) e' = s.(pp_written) e' /\ s'.(pp_read) e' = s.(pp_read) e') ->
  buf_inv (s'.(pp_written) e) (s'.(pp_read) e) (s'.(pp_buf) e) ->
  b_closed (s'.(pp_buf) e) = b_closed (s.(pp_buf) e) -> pipe_inv s'.
Proof.
  intros [Hb Hc] Eo Hne Hn Ec. split; intros e'; rewrite ?Eo; (destruct (decide (e' = e)) as [-> | Hd];
    [| destruct (Hne e' Hd) as (E1 & E2 & E3); rewrite ?E1, ?E2, ?E3]); auto.
  by rewrite Ec.
Qed.

(** Closing the buffers of an end. *)
Lemma pipe_inv_close s e s' : pipe_inv s -> Conn_Close e s = Some s' -> pipe_inv s'.
Proof.
  intros Hi E. pose proof Hi as [Hb Hc]. unfold Conn_Close in E.
  pose proof (Hc EndA) as HA. pose proof (Hc EndB) as HB.
  destruct (pp_once s e) eqn:Eo; simplify_eq/=; [| | done]; destruct e; simpl in *; rewrite Eo in *;
    split; intros []; cbn; auto using buf_inv_close; rewrite ?HA, ?HB, ?Eo; try done;
    rewrite upd_same; auto using buf_inv_close; by rewrite orb_true_r.
Qed.

Lemma pipe_inv_step s a s' : pipe_inv s -> pipe_step s a = Some s' -> pipe_inv s'.
Proof.
  intros Hi E. destruct a as [e p | e t n | e t | e]; [| | | by eapply pipe_inv_close]; simpl in E.
  - pose proof (buf_inv_Write _ _ _ p (pi_buf s Hi e)) as Hw. unfold Conn_Write in E.
    destruct (buffer_Write (pp_buf s e) p) as [[n err] b]. simplify_eq/=. destruct Hw as (Hw & Ec & _ & _).
    apply (pipe_inv_step_buf s _ e); try done; simpl; rewrite ?upd_same; try done.
    intros e' He. by rewrite !upd_other.
  - unfold Conn_Read_call in E. destruct (start_read t n (pp_buf s (peer e))) as [b|] eqn:Es; simplify_eq/=.
    destruct (buf_inv_start _ _ _ _ _ _ (pi_buf s Hi (peer e)) Es) as [Hb Ec].
    apply (pipe_inv_step_buf s _ (peer e)); try done; simpl; rewrite ?upd_same; try done.
    intros e' He. by rewrite !upd_other.
  - unfold Conn_Read_run in E. destruct (run_read t (pp_buf s (peer e))) as [[p b]|] eqn:Es; simplify_eq/=.
    destruct (buf_inv_run _ _ _ _ _ _ (pi_buf s Hi (peer e)) Es) as [Hb Ec].
    apply (pipe_inv_step_buf s _ (peer e)); try done; simpl; rewrite ?upd_same; try done.
    intros e' He. by rewrite !upd_other.
Qed.

Lemma pipe_inv_Pipe : pipe_inv Pipe.
Proof. split; intros e; [apply buf_inv_new | done]. Qed.

Lemma pipe_inv_reach s : pipe_reach s -> pipe_inv s.
Proof. induction 1; eauto using pipe_inv_Pipe, pipe_inv_step. Qed.

(** ** Pending reads *)

(** A goroutine is inside [Read] on end [e]. *)
Definition pending (s : pipe) (e : pipe_end) (t : nat) : Prop :=
  exists n, b_readers (s.(pp_buf) (peer e)) !! t = Some (RTrying n) \/
            b_readers (s.(pp_buf) (peer e)) !! t = Some (RWaiting n).

(** There is something to return to a reader of end [e]. *)
Definition ready (s : pipe) (e : pipe_end) : Prop :=
  (s.(pp_buf) (peer e)).(b_data) <> [] \/ (s.(pp_buf) (peer e)).(b_closed) = true.

(** A reader of a ready buffer is not asleep, and its next run returns. *)
Lemma ready_returns s e t :
  pipe_inv s -> pending s e t -> ready s e ->
  exists n s' p err, b_readers (s.(pp_buf) (peer e)) !! t = Some (RTrying n) /\
    pipe_step s (ARun e t) = Some s' /\
    b_readers (s'.(pp_buf) (peer e)) !! t = Some (RReturned p err) /\
    s'.(pp_read) (peer e) = s.(pp_read) (peer e) ++ p /\
    p = take (Z.to_nat n) (s.(pp_buf) (peer e)).(b_data) /\
    err = (if bool_decide ((s.(pp_buf) (peer e)).(b_data) = []) then Some (ioerr EOF) else None).
Proof.
  intros [Hb _] [n [Ht | Ht]] Hr; unfold ready in Hr.
  2: { destruct (bi_waiting _ _ _ (Hb (peer e)) t n Ht) as [E1 E2]. rewrite E1, E2 in Hr. naive_solver. }
  exists n. simpl. unfold Conn_Read_run, run_read, buffer_Read. rewrite Ht.
  destruct (decide (b_data (pp_buf s (peer e)) = [])) as [E | E].
  - rewrite E in *. destruct Hr as [Hr | Hr]; [done |]. rewrite Hr. simpl.
    eexists _, [], _. split_and!; [done | done | | | by rewrite take_nil | done]; simpl;
      rewrite upd_same; simpl; [by rewrite lookup_insert_eq | done].
  - rewrite bool_decide_eq_false_2 by (by rewrite len_nil_iff). simpl.
    eexists _, _, None. split_and!; [done | done | | | done |]; simpl; rewrite ?upd_same.
    + simpl. by rewrite lookup_insert_eq.
    + done.
    + by rewrite bool_decide_eq_false_2.
Qed.

(** Once a direction is closed it stays closed, and a reader that is still inside
    [Read] stays pending until it runs. *)
Lemma closed_stays s a s' e :
  pipe_inv s -> pipe_step s a = Some s' ->
  (s.(pp_buf) e).(b_closed) = true -> (s'.(pp_buf) e).(b_closed) = true.
Proof.
  intros Hi E. rewrite (pi_closed _ (pipe_inv_step _ _ _ Hi E)), (pi_closed _ Hi).
  destruct a as [e' p | e' t n | e' t | e']; simpl in E.
  - unfold Conn_Write in E. destruct (buffer_Write _ _) as [[??]?]. by simplify_eq/=.
  - unfold Conn_Read_call in E. destruct (start_read _ _ _); by simplify_eq/=.
  - unfold Conn_Read_run in E. destruct (run_read _ _) as [[??]|]; by simplify_eq/=.
  - unfold Conn_Close in E. destruct (pp_once s e') eqn:Eo; simplify_eq/=; try done;
      destruct e, e'; cbn; rewrite ?Eo; try done; by rewrite ?orb_true_r.
Qed.

Lemma wake_pending r n : r = RTrying n \/ r = RWaiting n -> wake r = RTrying n.
Proof. by intros [-> | ->]. Qed.

Definition is_pending (r : option reader) : bool :=
  match r with Some (RTrying _) | Some (RWaiting _) => true | _ => false end.

Lemma pending_spec s e t :
  pending s e t <-> is_pending (b_readers (s.(pp_buf) (peer e)) !! t) = true.
Proof.
  unfold pending. destruct (b_readers _ !! t) as [[]|]; simpl; naive_solver.
Qed.

Lemma is_pending_wake (b : buffer) t :
  is_pending (b_readers (Broadcast b) !! t) = is_pending (b_readers b !! t).
Proof. simpl. rewrite lookup_fmap. by destruct (b_readers b !! t) as [[]|]. Qed.

Lemma pending_stays s a s' e t :
  pipe_step s a = Some s' -> a <> ARun e t -> pending s e t -> pending s' e t.
Proof.
  rewrite !pending_spec. intros E Ha Hp.
  destruct a as [e' p | e' t' n | e' t' | e']; simpl in E.
  - unfold Conn_Write, buffer_Write in E. destruct (b_closed _); simplify_eq/=; unfold upd;
      case_decide; subst; try done; by rewrite is_pending_wake.
  - unfold Conn_Read_call in E. destruct (start_read _ _ _) as [b|] eqn:Es; simplify_eq/=.
    unfold upd. case_decide as Hd; [| done]. rewrite Hd in Hp.
    unfold start_read in Es. simpl in Es.
    destruct (decide (t' = t)) as [-> | Hne].
    + by destruct (b_readers _ !! t) as [[]|].
    + assert (b = set_reader t' (RTrying n) (pp_buf s (peer e'))) as ->
        by (repeat case_match; congruence).
      simpl. by rewrite lookup_insert_ne.
  - unfold Conn_Read_run, run_read in E.
    destruct (b_readers (pp_buf s (peer e')) !! t') as [[n| |]|] eqn:Et; try done.
    assert (Hne : peer e = peer e' -> t' <> t) by (destruct e, e'; naive_solver).
    unfold buffer_Read in E. 
    destruct (bool_decide _); [destruct (b_closed _) |]; simplify_eq/=; unfold upd;
      (case_decide as Hd; [| done]); rewrite Hd in Hp; simpl; by rewrite lookup_insert_ne by auto.
  - unfold Conn_Close in E. destruct (pp_once s e'); simplify_eq/=; try done; unfold upd;
      (case_decide as Hd; [| done]); rewrite Hd in Hp; unfold buffer_close;
      by rewrite is_pending_wake.
Qed.

(** A run of the pipe by everybody but one reader. *)
Fixpoint pipe_run (s : pipe) (acts : list pipe_action) : option pipe :=
  match acts with
  | [] => Some s
  | a :: acts => s' ← pipe_step s a; pipe_run s' acts
  end.

Lemma pending_run acts s s' e t :
  pipe_inv s -> pending s e t -> Forall (fun a => a <> ARun e t) acts -> pipe_run s acts = Some s' ->
  pipe_inv s' /\ pending s' e t /\
  ((s.(pp_buf) (peer e)).(b_closed) = true -> (s'.(pp_buf) (peer e)).(b_closed) = true).
Proof.
  intros Hi Hp Ha. revert s Hi Hp. induction Ha as [|a acts Hn Ha IH]; intros s Hi Hp E; simpl in E.
  { by simplify_eq. }
  destruct (pipe_step s a) as [s1|] eqn:Es; [| done].
  destruct (IH s1) as (Hi' & Hp' & Hc'); eauto using pipe_inv_step, pending_stays.
  split_and!; eauto using closed_stays.
Qed.

(** C30: The pipe delivers what was written. In every reachable state, in each
    direction, what was read followed by what is buffered is what was written, in
    order and without loss or duplication; a read reports end of file only when the
    direction is closed and everything written has been read; a write is accepted
    whole while the direction is open and refused without effect afterwards; a
    direction is closed exactly when its writer has begun to close or its reader has
    closed. *)
Theorem pipe_delivers_in_order s e :
  pipe_reach s ->
  let b := s.(pp_buf) e in
  s.(pp_written) e = s.(pp_read) e ++ b.(b_data) /\
  (forall t p err, b.(b_readers) !! t = Some (RReturned p (Some err)) ->
     err = ioerr EOF /\ p = [] /\ b.(b_closed) = true /\ s.(pp_read) e = s.(pp_written) e) /\
  (forall p, let '(n, err, s') := Conn_Write e p s in
     (b.(b_closed) = true -> n = 0 /\ err = Some ErrClosed /\
        s'.(pp_written) e = s.(pp_written) e) /\
     (b.(b_closed) = false -> n = len p /\ err = None /\
        s'.(pp_written) e = s.(pp_written) e ++ p)) /\
  (b.(b_closed) = true <-> s.(pp_once) e <> CNot \/ s.(pp_once) (peer e) = CDone).
Proof.
  intros Hr%pipe_inv_reach b. pose proof (pi_buf s Hr e) as [Hf Hw He]. fold b in Hf, Hw, He.
  split_and!.
  - by rewrite Hf.
  - intros t p err E. destruct (He t p err E) as (-> & -> & Ed & Ec).
    rewrite Ed, app_nil_r in Hf. done.
  - intros p. unfold Conn_Write, buffer_Write. fold b. destruct (b_closed b); simpl; rewrite upd_same.
    + by rewrite take_0, app_nil_r.
    + unfold len. by rewrite Nat2Z.id, firstn_all.
  - subst b. rewrite (pi_closed s Hr e), orb_true_iff.
    destruct (pp_once s e), (pp_once s (peer e)); simpl; naive_solver.
Qed.

(** C29: A blocked read of the in-memory pipe is never lost. In any reachable state
    with a goroutine inside Read, whatever the others do, the goroutine stays inside
    Read until it runs; as soon as bytes are available or the direction is closed it
    is awake, and its next run returns the available bytes up to its buffer, or end of
    file if there are none; a closed direction stays ready. *)
Theorem pipe_reader_wakes_up s e t acts s1 :
  pipe_reach s -> pending s e t ->
  Forall (fun a => a <> ARun e t) acts -> pipe_run s acts = Some s1 ->
  let data := (s1.(pp_buf) (peer e)).(b_data) in
  pending s1 e t /\
  (ready s1 e -> exists n s' p err,
     b_readers (s1.(pp_buf) (peer e)) !! t = Some (RTrying n) /\
     pipe_step s1 (ARun e t) = Some s' /\
     b_readers (s'.(pp_buf) (peer e)) !! t = Some (RReturned p err) /\
     s'.(pp_read) (peer e) = s1.(pp_read) (peer e) ++ p /\ p = take (Z.to_nat n) data /\
     err = (if bool_decide (data = []) then Some (ioerr EOF) else None)) /\
  (ready s1 e <-> data <> [] \/ (s1.(pp_buf) (peer e)).(b_closed) = true) /\
  ((s.(pp_buf) (peer e)).(b_closed) = true -> ready s1 e).
Proof.
  intros Hi%pipe_inv_reach Hp Ha Er data.
  destruct (pending_run acts s s1 e t Hi Hp Ha Er) as (Hi1 & Hp1 & Hc1).
  split_and!; [done | by apply ready_returns | done |]. intros Hc. right. auto.
Qed.

(** ** Concrete runs *)

(** A reader of end A waits; the peer writes, closes, and the rest drains. *)
Definition pipe_waiting : pipe :=
  default Pipe (pipe_run Pipe [ACall EndA 7 3; ARun EndA 7]).

Lemma pipe_run_reach acts s s' : pipe_reach s -> pipe_run s acts = Some s' -> pipe_reach s'.
Proof.
  revert s. induction acts as [|a acts IH]; intros s Hr E; simpl in E; [by simplify_eq |].
  destruct (pipe_step s a) as [s1|] eqn:Es; [| done]. by apply (IH s1); [eapply reach_step |].
Qed.

Lemma pipe_waiting_reach : pipe_reach pipe_waiting.
Proof.
  by apply (pipe_run_reach [ACall EndA 7 3; ARun EndA 7] Pipe); [apply reach_Pipe |].
Qed.

Lemma pipe_delivers_in_order_witness :
  b_readers (pp_buf pipe_waiting EndB) !! 7%nat = Some (RWaiting 3) /\
  pp_written pipe_waiting EndB = pp_read pipe_waiting EndB ++ b_data (pp_buf pipe_waiting EndB).
Proof. split; [reflexivity |]. exact (proj1 (pipe_delivers_in_order _ EndB pipe_waiting_reach)). Defined.

Lemma pipe_reader_wakes_up_witness :
  exists s1 s' p, pipe_run pipe_waiting [AWrite EndB (str "hello"); AClose EndB] = Some s1 /\
    pipe_step s1 (ARun EndA 7) = Some s' /\
    b_readers (pp_buf s' EndB) !! 7%nat = Some (RReturned p None).
Proof.
  destruct (pipe_run pipe_waiting [AWrite EndB (str "hello"); AClose EndB]) as [s1|] eqn:E; [| done].
  destruct (pipe_reader_wakes_up pipe_waiting EndA 7 [AWrite EndB (str "hello"); AClose EndB] s1
    pipe_waiting_reach ltac:(exists 3; right; reflexivity)
    ltac:(repeat apply Forall_cons_2; done) E) as (_ & Hw & _).
  assert (Hd : b_data (pp_buf s1 EndB) = str "hello") by (revert E; vm_compute; by intros [= <-]).
  destruct (Hw ltac:(left; cbn [peer]; by rewrite Hd)) as (n & s' & p & err & _ & Es & Hr & _ & _ & He).
  cbn [peer] in He. rewrite Hd in He. exists s1, s', p. split; [reflexivity |]. split; [exact Es |].
  rewrite He in Hr. exact Hr.
Defined.
