(* ===== verification/Header.v ===== *)
(** * The message header

    [src/protocol/header.go]: the 16-byte header, its encoding and decoding,
    and reading and writing one over a stream. *)

From S2P Require Import Prelude Errors Version Constants MessageId Stream.

Definition HeaderSize : Z := 16.

(** The two bytes "HS". *)
Definition Prologue : Z * Z := (72, 83).

Record Header : Type := MkHeader {
  h_Type : MessageType;
  h_Control : Z;
  h_Parameter : Z;
  h_Length : Z;
}.

#[export] Instance Header_eq_dec : EqDecision Header.
Proof. solve_decision. Defined.

(** The zero value [Header{}]. *)
Definition Header_zero : Header := MkHeader 0 0 0 0.

(** The fields hold values of their Go types. *)
Definition wf_header (h : Header) : Prop :=
  is_u8 h.(h_Type) /\ is_u8 h.(h_Control) /\ is_u32 h.(h_Parameter) /\ is_u64 h.(h_Length).

(** [b[i]] for an index known to be in range. *)
Definition byte_at (b : bytes) (i : nat) : Z := nth i b 0.
(** [b[lo:hi]]. *)
Definition slice (b : bytes) (lo hi : nat) : bytes := take (hi - lo) (drop lo b).

Definition DecodeHeader (b : bytes) : Header * option error :=
  if bool_decide (len b < HeaderSize) then (Header_zero, Some (perr ErrShortBuffer))
  else if bool_decide (byte_at b 0 <> Prologue.1) || bool_decide (byte_at b 1 <> Prologue.2)
  then (Header_zero, Some (perr ErrInvalidPrologue))
  else (MkHeader (byte_at b 2) (byte_at b 3) (be_read (slice b 4 8)) (be_read (slice b 8 16)),
        None).

(** The sixteen bytes [Encode] stores. *)
Definition header_bytes (h : Header) : bytes :=
  [Prologue.1; Prologue.2; h.(h_Type); h.(h_Control)] ++
  be_write 4 h.(h_Parameter) ++ be_write 8 h.(h_Length).

(** [h.Encode(b)] returns the buffer it leaves behind. *)
Definition Header_Encode (h : Header) (b : bytes) : option error * bytes :=
  if bool_decide (len b < HeaderSize) then (Some (perr ErrShortBuffer), b)
  else (None, overlay b (header_bytes h)).

(** [ReadHeader(r, buf)] for a 16-byte [buf]. *)
Definition ReadHeader {S} `{Stream S} (r : S) : Header * option error * S :=
  match io_ReadFull r HeaderSize with
  | (_, Some err, r) => (Header_zero, Some err, r)
  | (buf, None, r) => (DecodeHeader buf, r)
  end.

Definition WriteHeader {S} `{Stream S} (w : S) (h : Header) (buf : bytes)
  : option error * bytes * S :=
  match Header_Encode h buf with
  | (Some err, buf) => (Some err, buf, w)
  | (None, buf) => let (err, w) := stream_Write w buf in (err, buf, w)
  end.

Definition Header_MessageID (h : Header) : MessageID := h.(h_Parameter).

Definition Header_RMTDelivered (h : Header) : bool :=
  bool_decide (Z.land h.(h_Control) ControlRMTDelivered <> 0).

(** ** Encoding and decoding *)

Lemma length_header_bytes h : length (header_bytes h) = 16%nat.
Proof. unfold header_bytes. by rewrite !length_app, !length_be_write. Qed.

Lemma len_header_bytes h : len (header_bytes h) = HeaderSize.
Proof. unfold len. by rewrite length_header_bytes. Qed.

Lemma wf_header_bytes h : wf_header h -> wf_bytes (header_bytes h).
Proof.
  intros (? & ? & _ & _). unfold header_bytes.
  apply wf_bytes_app; split; [| apply wf_bytes_app; auto with hislip].
  repeat (apply Forall_cons; split; [done || u_lia |]). done.
Qed.

(** Decoding sixteen header bytes followed by anything. *)
Lemma DecodeHeader_header_bytes h rest :
  wf_header h -> DecodeHeader (header_bytes h ++ rest) = (h, None).
Proof.
  intros (Ht & Hc & Hp & Hl). unfold DecodeHeader.
  rewrite bool_decide_eq_false_2
    by (unfold len, HeaderSize; rewrite length_app, length_header_bytes; lia).
  assert (E4 : slice (header_bytes h ++ rest) 4 8 = be_write 4 h.(h_Parameter)) by done.
  assert (E8 : slice (header_bytes h ++ rest) 8 16 = be_write 8 h.(h_Length)) by done.
  rewrite E4, E8, !be_read_write. destruct h as [t c p l]; simpl in *.
  rewrite !Z.mod_small by u_lia. done.
Qed.

(** A sixteen-byte list is its explicit list of elements. *)
Lemma sixteen (b : bytes) :
  length b = 16%nat ->
  exists x0 x1 x2 x3 p l, b = [x0; x1; x2; x3] ++ p ++ l /\ length p = 4%nat /\ length l = 8%nat.
Proof.
  intros Hb. destruct b as [|x0 [|x1 [|x2 [|x3 b]]]]; try done.
  exists x0, x1, x2, x3, (take 4 b), (drop 4 b). simpl in Hb.
  rewrite take_drop, length_take, length_drop. split_and!; [done | lia | lia].
Qed.

Lemma DecodeHeader_inv b h :
  wf_bytes b -> DecodeHeader b = (h, None) ->
  header_bytes h = take 16 b /\ wf_header h.
Proof.
  intros Hwf. unfold DecodeHeader. case_bool_decide as Hlen; [done |].
  assert (Ht : length (take 16 b) = 16%nat)
    by (unfold len, HeaderSize in Hlen; rewrite length_take; lia).
  rewrite <- (take_drop 16 b) in Hwf |- *. apply wf_bytes_app in Hwf as [Hw _].
  revert Ht Hw. generalize (take 16 b) (drop 16 b). clear Hlen. intros c d Ht Hw.
  destruct (sixteen c Ht) as (x0 & x1 & x2 & x3 & p & l & -> & Hp & Hl).
  apply wf_bytes_app in Hw as [Hx [Hwp Hwl]%wf_bytes_app].
  assert (E4 : slice (([x0; x1; x2; x3] ++ p ++ l) ++ d) 4 8 = p).
  { unfold slice. simpl. rewrite drop_0, <- app_assoc, take_app_length' by done. done. }
  assert (E8 : slice (([x0; x1; x2; x3] ++ p ++ l) ++ d) 8 16 = l).
  { unfold slice. simpl. rewrite <- app_assoc. rewrite (drop_app_length' p) by done.
    by rewrite take_app_length'. }
  rewrite E4, E8. simpl. case_bool_decide as H0; [done |].
  case_bool_decide as H1; [done |]. cbv in H0, H1. subst x0 x1.
  simpl. intros [= <-].
  pose proof (be_read_range p Hwp). pose proof (be_read_range l Hwl). unfold len in *.
  rewrite Hp, Hl in *. split.
  - unfold header_bytes; simpl h_Type; simpl h_Control; simpl h_Parameter; simpl h_Length.
    rewrite !be_write_read' by done.
    rewrite take_app_length' by (simpl; rewrite length_app; lia).
    done.
  - unfold wf_bytes in Hx. rewrite !Forall_cons in Hx. destruct Hx as (? & ? & ? & ? & _).
    unfold wf_header; simpl. split_and!; done.
Qed.

(** Encoding a header whose fields fit their widths into a large enough buffer
    succeeds, changes only the first sixteen bytes, and decodes to the same header. *)
Theorem header_roundtrip h b :
  wf_header h -> HeaderSize <= len b ->
  exists b', Header_Encode h b = (None, b') /\
    length b' = length b /\ drop 16 b' = drop 16 b /\
    DecodeHeader b' = (h, None).
Proof.
  intros Hh Hb. unfold Header_Encode. rewrite bool_decide_eq_false_2 by lia.
  eexists. split; [done |]. unfold overlay. rewrite length_header_bytes.
  unfold len, HeaderSize in Hb. split_and!.
  - rewrite length_app, length_header_bytes, length_drop. lia.
  - by rewrite (drop_app_length' (header_bytes h)) by (by rewrite length_header_bytes).
  - by apply DecodeHeader_header_bytes.
Qed.

Lemma header_roundtrip_witness :
  exists b', Header_Encode (MkHeader DataEnd 1 InitialMessageID (2 ^ 63)) (replicate 20 7) = (None, b') /\
    DecodeHeader b' = (MkHeader DataEnd 1 InitialMessageID (2 ^ 63), None).
Proof.
  destruct (header_roundtrip (MkHeader DataEnd 1 InitialMessageID (2 ^ 63)) (replicate 20 7))
    as (b' & E & _ & _ & D).
  - vm_compute. intuition discriminate.
  - vm_compute. discriminate.
  - exists b'. split; [exact E | exact D].
Defined.

(** DecodeHeader on any bytes: it succeeds exactly on sixteen or more bytes with the
    right prologue, giving fields within their widths whose encoding is those bytes; a
    short buffer and a wrong prologue each give their own error and the zero header. *)
Theorem DecodeHeader_complete b :
  wf_bytes b ->
  match DecodeHeader b with
  | (h, None) => HeaderSize <= len b /\ wf_header h /\ header_bytes h = take 16 b
  | (h, Some e) => h = Header_zero /\
      ((e = perr ErrShortBuffer /\ len b < HeaderSize) \/
       (e = perr ErrInvalidPrologue /\ HeaderSize <= len b /\ take 2 b <> [72; 83]))
  end.
Proof.
  intros Hb. destruct (DecodeHeader b) as [h [e|]] eqn:E.
  - revert E. unfold DecodeHeader. case_bool_decide as Hl; [intros [= <- <-]; auto |].
    destruct (bool_decide _ || bool_decide _) eqn:Ep; [| done]. intros [= <- <-].
    split; [done |]. right. split_and!; [done | lia |].
    destruct b as [|x0 [|x1 b]]; try done. simpl. intros [= -> ->]. done.
  - destruct (DecodeHeader_inv b h Hb E) as [Hh Hw]. split_and!; try done.
    revert E. unfold DecodeHeader. case_bool_decide; [done | lia].
Qed.

Lemma DecodeHeader_complete_witness :
  let b := header_bytes (MkHeader Data 1 2 3) ++ [9] in
  exists h, DecodeHeader b = (h, None) /\ wf_header h /\ header_bytes h = take 16 b.
Proof.
  intros b. assert (Hb : wf_bytes b) by (vm_compute; repeat constructor; discriminate).
  pose proof (DecodeHeader_complete b Hb) as D.
  assert (E : DecodeHeader b = (MkHeader Data 1 2 3, None)) by reflexivity.
  rewrite E in D. exists (MkHeader Data 1 2 3). exact (conj E (proj2 D)).
Defined.

(** ** Headers over a stream *)
Section HeaderIO.
Context {S : Type} `{StreamModel S}.
Implicit Types s : S.

(** A well-formed header at the front of the input is read and consumed. *)
Lemma ReadHeader_ok s h rest :
  st_open s -> wf_header h -> st_input s = header_bytes h ++ rest -> exists s',
  ReadHeader s = (h, None, s') /\ st_input s' = rest /\
  st_output s' = st_output s /\ st_open s'.
Proof.
  intros Ho Hh Hi. unfold ReadHeader.
  destruct (io_ReadFull_ok s HeaderSize Ho) as (s' & -> & Hi' & Hout & Ho').
  { rewrite Hi, len_app, len_header_bytes. pose proof (len_nonneg rest).
    unfold HeaderSize. lia. }
  exists s'. rewrite Hi in *. change (Z.to_nat HeaderSize) with 16%nat in *.
  rewrite take_app_length', drop_app_length' in * by (by rewrite length_header_bytes).
  pose proof (DecodeHeader_header_bytes h [] Hh) as E. rewrite app_nil_r in E.
  by rewrite E.
Qed.

(** [WriteHeader] appends the header's sixteen bytes. *)
Lemma WriteHeader_ok s h buf :
  st_open s -> length buf = 16%nat -> exists s',
  WriteHeader s h buf = (None, header_bytes h, s') /\
  st_output s' = st_output s ++ header_bytes h /\ st_input s' = st_input s /\ st_open s'.
Proof.
  intros Ho Hb. unfold WriteHeader, Header_Encode, overlay, len, HeaderSize.
  rewrite Hb, length_header_bytes, drop_ge, app_nil_r by lia. cbn [bool_decide].
  rewrite bool_decide_eq_false_2 by lia.
  destruct (st_write s (header_bytes h) Ho) as (s' & -> & ? & ? & ?). eauto.
Qed.
End HeaderIO.
