(* ===== verification/Corpus.v ===== *)
(** * The conformance corpus

    The two data files [src/internal/vectors/headers.txt] and [invalid.txt], byte for
    byte: the [files] that the package [vectors] embeds. *)

From S2P Require Import Prelude.

Definition quote : bytes := [34].

(** Lines, each with its newline. *)
Definition unlines (ls : list bytes) : bytes := concat (map (fun l => l ++ [10]) ls).

Definition headers_txt : bytes := unlines [
  str "# HiSLIP header conformance vectors";
  str "#";
  str "# Written out by hand from IVI-6.1 revision 2.0, not generated by the code under";
  str "# test. A coding error in the codec therefore cannot be masked by the same error";
  str "# in the expectation.";
  str "#";
  str "# Format, whitespace separated, one record per line:";
  str "#";
  str "#   name  wire-hex  type  control  parameter  length";
  str "#";
  str "# wire-hex   the 16 header bytes as hex, or " ++ quote ++ str "-" ++ quote ++ str " for an empty byte string";
  str "# type       decimal message type, IVI-6.1 Table 4";
  str "# control    control code, decimal or 0x-prefixed hex";
  str "# parameter  message parameter, decimal or 0x-prefixed hex";
  str "# length     payload length, decimal or 0x-prefixed hex";
  str "#";
  str "# The wire bytes and the decoded fields are deliberately redundant. Checking one";
  str "# against the other in both directions is the test.";
  str "#";
  str "# Text after " ++ quote ++ str "#" ++ quote ++ str " is a comment. Blank lines are ignored.";
  [];
  str "# --- initialization ------------------------------------------------------";
  str "# Initialize: client version 1.0, vendor ID " ++ quote ++ str "GT" ++ quote ++ str ", sub-address " ++ quote ++ str "hislip0" ++ quote ++ str ".";
  str "initialize                48530000010047540000000000000007  0   0x00  0x01004754  7";
  [];
  str "# InitializeResponse: negotiated version 1.0, session ID 0x1234. Control code 0";
  str "# means the server prefers Synchronized Mode.";
  str "initialize-response       48530100010012340000000000000000  1   0x00  0x01001234  0";
  [];
  str "# InitializeResponse from a 2.0 server that prefers Overlap Mode.";
  str "initialize-response-2.0   48530101020012340000000000000000  1   0x01  0x02001234  0";
  [];
  str "# AsyncInitialize: session ID 0x1234 in the lower word.";
  str "async-initialize          48531100000012340000000000000000  17  0x00  0x00001234  0";
  [];
  str "# --- data transfer -------------------------------------------------------";
  str "# DataEnd carrying the initial MessageID with RMT-delivered set, 4 payload bytes.";
  str "data-end                  48530701ffffff000000000000000004  7   0x01  0xffffff00  4";
  [];
  str "# Data carrying 0xffffffff, which a server sends when it cannot identify the";
  str "# client message that produced the response. See IVI-6.1 section 3.1.1.";
  str "data-no-messageid         48530600ffffffff0000000000000008  6   0x00  0xffffffff  8";
  [];
  str "# Trigger is a synchronous-channel message and takes a MessageID from the same";
  str "# counter as Data and DataEnd.";
  str "trigger                   48530c01ffffff020000000000000000  12  0x01  0xffffff02  0";
  [];
  str "# A maximal payload length, to confirm the 64-bit field is decoded whole and is";
  str "# neither truncated nor sign extended.";
  str "max-length                4853060000000000ffffffffffffffff  6   0x00  0x00000000  0xffffffffffffffff";
  [];
  str "# --- status and service request ------------------------------------------";
  str "# AsyncStatusQuery issued after initialization, before any Data, DataEnd or";
  str "# Trigger has been sent: MessageID is 0xffffff00-2. RMT-delivered set.";
  str "async-status-query-init   48531501fffffefe0000000000000000  21  0x01  0xfffffefe  0";
  [];
  str "# AsyncStatusResponse: the status byte travels in the control code, not the";
  str "# payload.";
  str "async-status-response     48531650000000000000000000000000  22  0x50  0x00000000  0";
  [];
  str "# AsyncServiceRequest: status byte in the control code, never acknowledged.";
  str "async-service-request     48531440000000000000000000000000  20  0x40  0x00000000  0";
  [];
  str "# --- device clear --------------------------------------------------------";
  str "async-device-clear        48531300000000000000000000000000  19  0x00  0x00000000  0";
  [];
  str "# AsyncDeviceClearAcknowledge carrying the server's preferred feature bitmap.";
  str "# Bit 0 clear means Synchronized Mode is preferred.";
  str "async-dev-clear-ack       48531700000000000000000000000000  23  0x00  0x00000000  0";
  [];
  str "# DeviceClearComplete carrying the client's requested feature bitmap.";
  str "device-clear-complete     48530800000000000000000000000000  8   0x00  0x00000000  0";
  [];
  str "# DeviceClearAcknowledge carrying the agreed feature bitmap. Treated as a";
  str "# synchronous-channel message; see the design specification §4.4.";
  str "device-clear-ack          48530900000000000000000000000000  9   0x00  0x00000000  0";
  [];
  str "# --- errors --------------------------------------------------------------";
  str "# FatalError, code 1, " ++ quote ++ str "Poorly formed message header" ++ quote ++ str ", IVI-6.1 Table 14.";
  str "fatal-poorly-formed       48530201000000000000000000000000  2   0x01  0x00000000  0";
  [];
  str "# Error, code 4, " ++ quote ++ str "Message too large" ++ quote ++ str ", IVI-6.1 Table 16.";
  str "error-too-large           48530304000000000000000000000000  3   0x04  0x00000000  0";
  [];
  str "# --- locking -------------------------------------------------------------";
  str "# AsyncLock request, control code 1, timeout 5000 ms, 10-byte lock string.";
  str "async-lock-request        4853040100001388000000000000000a  4   0x01  0x00001388  10";
  [];
  str "# AsyncLock release, control code 0, parameter is the MessageID of the last";
  str "# sent message.";
  str "async-lock-release        48530400ffffff020000000000000000  4   0x00  0xffffff02  0";
  [];
  str "# --- interrupted ---------------------------------------------------------";
  str "interrupted               48530d00ffffff000000000000000000  13  0x00  0xffffff00  0";
  str "async-interrupted         48530e00000000000000000000000000  14  0x00  0x00000000  0";
  [];
  str "# --- vendor specific -----------------------------------------------------";
  str "# The GoTMC extension envelope, type 128, control code 0 for ExtHello, with an";
  str "# 8-byte payload. See the design specification §17.4.";
  str "vendor-ext-hello          48538000000000000000000000000008  128 0x00  0x00000000  8";
  [];
  str "# The top of the vendor-specific range.";
  str "vendor-max                4853ff00000000000000000000000000  255 0x00  0x00000000  0"
].

Definition invalid_txt : bytes := unlines [
  str "# HiSLIP malformed header vectors";
  str "#";
  str "# Inputs a conforming decoder must reject, with the reason it must reject them.";
  str "#";
  str "# Format, whitespace separated, one record per line:";
  str "#";
  str "#   name  wire-hex  reason";
  str "#";
  str "# wire-hex  the bytes as hex, or " ++ quote ++ str "-" ++ quote ++ str " for an empty byte string";
  str "# reason    " ++ quote ++ str "prologue" ++ quote ++ str "  the two-byte " ++ quote ++ str "HS" ++ quote ++ str " signature is absent";
  str "#           " ++ quote ++ str "short" ++ quote ++ str "     fewer than 16 bytes were supplied";
  str "#";
  str "# A decoder must not reject anything else at this layer. Undefined message";
  str "# types, reserved message types and implausible payload lengths all decode";
  str "# successfully on purpose, because a receiver has to decode a header it intends";
  str "# to reject in order to consume the payload and stay synchronised with the peer.";
  str "# Those cases live in headers.txt, not here.";
  [];
  str "# --- absent or wrong prologue --------------------------------------------";
  str "all-zero          00000000000000000000000000000000  prologue";
  str "lowercase         68730000000000000000000000000000  prologue";
  str "swapped           53480000000000000000000000000000  prologue";
  str "first-byte-only   48580000000000000000000000000000  prologue";
  str "second-byte-only  58530000000000000000000000000000  prologue";
  str "ascii-text        474554202f20485454502f312e310d0a  prologue";
  str "random            deadbeefdeadbeefdeadbeefdeadbeef  prologue";
  [];
  str "# --- too short -----------------------------------------------------------";
  str "# A valid prologue is not enough; the decoder must have all 16 bytes before it";
  str "# reads any multibyte field.";
  str "empty             -                                 short";
  str "one-byte          48                                short";
  str "prologue-only     4853                              short";
  str "fifteen-bytes     485300000100475400000000000000    short"
].
