(* ===== verification/Vectors.v ===== *)
(** * Conformance vectors

    [src/internal/vectors/vectors.go]: the loader of the conformance corpus, with the
    parts of [bufio.Scanner], [encoding/hex] and [strconv.ParseUint] it uses, and the
    check of the codec against the corpus. *)

From S2P Require Import Prelude Errors GoStrings Version Constants MessageId Stream Header Corpus.

(** ** [encoding/hex] *)

Definition hex_digit (c : Z) : option Z :=
  if in_range 48 57 c then Some (c - 48)
  else if in_range 97 102 c then Some (c - 97 + 10)
  else if in_range 65 70 c then Some (c - 65 + 10)
  else None.

(** [hex.DecodeString]; [None] is an error (a bad character or an odd length). *)
Fixpoint DecodeString (s : bytes) : option bytes :=
  match s with
  | [] => Some []
  | [_] => None
  | a :: b :: s =>
      match hex_digit a, hex_digit b, DecodeString s with
      | Some x, Some y, Some r => Some (Z.lor (Z.shiftl x 4) y :: r)
      | _, _, _ => None
      end
  end.

(** ** [strconv.ParseUint] with base 0 *)

Inductive num_error : Type := ErrSyntax | ErrRange.

Definition lower (c : Z) : Z := Z.lor c 32.

Definition maxUint64 : Z := 2 ^ 64 - 1.

(** The digits of a number in a base, from the value read so far. *)
Fixpoint ParseUint_digits (base maxVal n : Z) (s : bytes) : num_error + Z :=
  match s with
  | [] => inr n
  | c :: s =>
      if bool_decide (c = 95) then ParseUint_digits base maxVal n s
      else
        let d := if in_range 48 57 c then Some (c - 48)
                 else if in_range 97 122 (lower c) then Some (lower c - 97 + 10) else None in
        match d with
        | None => inl ErrSyntax
        | Some d =>
            if bool_decide (base <= d) then inl ErrSyntax
            else if bool_decide (maxUint64 / base + 1 <= n) then inl ErrRange
            else
              let n := uint64 (n * base) in
              let n1 := uint64 (n + d) in
              if bool_decide (n1 < n) || bool_decide (maxVal < n1) then inl ErrRange
              else ParseUint_digits base maxVal n1 s
        end
  end.

(** [underscoreOK]: [saw] is the kind of the last character, [0] for a digit. *)
Fixpoint underscore_scan (hex : bool) (saw : Z) (s : bytes) : bool :=
  match s with
  | [] => negb (bool_decide (saw = 95))
  | c :: s =>
      if in_range 48 57 c || (hex && in_range 97 102 (lower c)) then underscore_scan hex 48 s
      else if bool_decide (c = 95)
      then if bool_decide (saw = 48) then underscore_scan hex 95 s else false
      else if bool_decide (saw = 95) then false
      else underscore_scan hex 33 s
  end.

Definition underscoreOK (s : bytes) : bool :=
  let s := match s with c :: tl => if bool_decide (c = 45) || bool_decide (c = 43) then tl else s
                      | [] => s end in
  match s with
  | 48 :: c :: tl =>
      if bool_decide (lower c = 98) || bool_decide (lower c = 111) || bool_decide (lower c = 120)
      then underscore_scan (bool_decide (lower c = 120)) 48 tl
      else underscore_scan false 94 s
  | _ => underscore_scan false 94 s
  end.

Definition ParseUint0 (s : bytes) (bits : Z) : num_error + Z :=
  match s with
  | [] => inl ErrSyntax
  | c0 :: tl =>
      let '(base, digits) :=
        if bool_decide (c0 = 48) then
          match tl with
          | c1 :: ((_ :: _) as rest) =>
              if bool_decide (lower c1 = 98) then (2, rest)
              else if bool_decide (lower c1 = 111) then (8, rest)
              else if bool_decide (lower c1 = 120) then (16, rest)
              else (8, tl)
          | _ => (8, tl)
          end
        else (10, s) in
      match ParseUint_digits base (2 ^ bits - 1) 0 digits with
      | inl err => inl err
      | inr n =>
          if bool_decide (95 ∈ digits) && negb (underscoreOK s) then inl ErrSyntax else inr n
      end
  end.

(** ** The loader *)

(** The errors of the package, with what their texts name. *)
Inductive vectors_error : Type :=
| VMissing (name : bytes)
| VFieldCount (name : bytes) (line got want : Z) (text : bytes)
| VTooLong
| VNoVectors (name : bytes)
| VBadHex (line : Z) (field : bytes)
| VBadNumber (line : Z) (column : bytes) (err : num_error)
| VUnknownReason (line : Z) (reason : bytes).

Definition emptyMarker : bytes := str "-".
Definition ReasonPrologue : bytes := str "prologue".
Definition ReasonShort : bytes := str "short".

(** [vectors.Header] and [vectors.Invalid]. *)
Record HeaderVector : Type := MkHeaderVector {
  hv_Name : bytes;
  hv_Wire : bytes;
  hv_Type : Z;
  hv_Control : Z;
  hv_Parameter : Z;
  hv_Length : Z;
}.

Record InvalidVector : Type := MkInvalidVector {
  iv_Name : bytes;
  iv_Wire : bytes;
  iv_Reason : bytes;
}.

Record record : Type := MkRecord { rec_line : Z; rec_fields : list bytes }.

(** [bufio.ScanLines]: the lines of a file, without their ends. *)
Definition dropCR (s : bytes) : bytes :=
  match rev s with 13 :: r => rev r | _ => s end.
Definition ScanLines (data : bytes) : list bytes :=
  let ls := Split 10 data in
  match rev ls with [] :: r => rev r | _ => ls end.

(** The largest line a scanner accepts. *)
Definition MaxScanTokenSize : Z := 65536.

(** [text[:i]] for the first [#]. *)
Fixpoint cut_comment (s : bytes) : bytes :=
  match s with
  | [] => []
  | c :: s => if bool_decide (c = 35) then [] else c :: cut_comment s
  end.

(** The loop of [parse] from a line number on. *)
Fixpoint parse_lines (name : bytes) (want line : Z) (ls : list bytes) (out : list record)
  : vectors_error + list record :=
  match ls with
  | [] => if bool_decide (len out = 0) then inl (VNoVectors name) else inr out
  | l :: ls =>
      if bool_decide (MaxScanTokenSize <= len l) then inl VTooLong
      else
        let text := cut_comment (dropCR l) in
        let fields := Fields text in
        if bool_decide (len fields = 0) then parse_lines name want (line + 1) ls out
        else if bool_decide (len fields <> want)
        then inl (VFieldCount name line (len fields) want text)
        else parse_lines name want (line + 1) ls (out ++ [MkRecord line fields])
  end.

(** The embedded files by name. *)
Definition files (name : bytes) : option bytes :=
  if bool_decide (name = str "headers.txt") then Some headers_txt
  else if bool_decide (name = str "invalid.txt") then Some invalid_txt
  else None.

Definition parse (fs : bytes -> option bytes) (name : bytes) (want : Z)
  : vectors_error + list record :=
  match fs name with
  | None => inl (VMissing name)
  | Some data => parse_lines name want 1 (ScanLines data) []
  end.

Definition decodeWire (line : Z) (field : bytes) : vectors_error + bytes :=
  if bool_decide (field = emptyMarker) then inr []
  else match DecodeString field with
       | Some b => inr b
       | None => inl (VBadHex line field)
       end.

Definition parseUint (line : Z) (column field : bytes) (bits : Z) : vectors_error + Z :=
  match ParseUint0 field bits with
  | inl err => inl (VBadNumber line column err)
  | inr n => inr n
  end.

(** Go on if there is no error. *)
Definition and_then {A B} (r : vectors_error + A) (k : A -> vectors_error + B) : vectors_error + B :=
  match r with inl e => inl e | inr a => k a end.

(** [r.fields[i]]; [parse] has checked the number of fields. *)
Definition field (r : record) (i : nat) : bytes := nth i r.(rec_fields) [].

Definition header_of_record (r : record) : vectors_error + HeaderVector :=
  let ln := r.(rec_line) in
  and_then (decodeWire ln (field r 1)) (fun wire =>
  and_then (parseUint ln (str "type") (field r 2) 8) (fun typ =>
  and_then (parseUint ln (str "control") (field r 3) 8) (fun control =>
  and_then (parseUint ln (str "parameter") (field r 4) 32) (fun parameter =>
  and_then (parseUint ln (str "length") (field r 5) 64) (fun length =>
  inr (MkHeaderVector (field r 0) wire (uint8 typ) (uint8 control) (uint32 parameter) length)))))).

Definition invalid_of_record (r : record) : vectors_error + InvalidVector :=
  and_then (decodeWire r.(rec_line) (field r 1)) (fun wire =>
  let reason := field r 2 in
  if bool_decide (reason = ReasonPrologue) || bool_decide (reason = ReasonShort)
  then inr (MkInvalidVector (field r 0) wire reason)
  else inl (VUnknownReason r.(rec_line) reason)).

(** The loop over the records. *)
Fixpoint collect {A} (f : record -> vectors_error + A) (rs : list record) (out : list A)
  : vectors_error + list A :=
  match rs with
  | [] => inr out
  | r :: rs => and_then (f r) (fun a => collect f rs (out ++ [a]))
  end.

Definition Headers (fs : bytes -> option bytes) : vectors_error + list HeaderVector :=
  and_then (parse fs (str "headers.txt") 6) (fun rs => collect header_of_record rs []).

Definition Invalids (fs : bytes -> option bytes) : vectors_error + list InvalidVector :=
  and_then (parse fs (str "invalid.txt") 3) (fun rs => collect invalid_of_record rs []).

(** ** The corpus against the codec *)

Definition vector_header (v : HeaderVector) : Header :=
  MkHeader v.(hv_Type) v.(hv_Control) v.(hv_Parameter) v.(hv_Length).

(** The codec agrees with a vector in both directions. *)
Definition header_conforms (v : HeaderVector) : Prop :=
  DecodeHeader v.(hv_Wire) = (vector_header v, None) /\
  Header_Encode (vector_header v) (replicate 16 0) = (None, v.(hv_Wire)).

(** The codec rejects a vector, for the reason it states. *)
Definition invalid_conforms (v : InvalidVector) : Prop :=
  DecodeHeader v.(iv_Wire)
  = (Header_zero, Some (perr (if bool_decide (v.(iv_Reason) = ReasonPrologue)
                              then ErrInvalidPrologue else ErrShortBuffer))).

#[export] Instance header_conforms_dec v : Decision (header_conforms v).
Proof. unfold header_conforms. apply _. Defined.
#[export] Instance invalid_conforms_dec v : Decision (invalid_conforms v).
Proof. unfold invalid_conforms. apply _. Defined.

(** The codec agrees with the conformance corpus of the repository. The loader accepts
    both data files; their 23 header vectors have distinct names, and each decodes to
    its stated fields and encodes to its stated bytes; the 11 malformed vectors are
    rejected by the decoder, each for the reason the file states. *)
Theorem corpus_conforms :
  exists hs ivs, Headers files = inr hs /\ Invalids files = inr ivs /\
    length hs = 23%nat /\ length ivs = 11%nat /\ NoDup (hv_Name <$> hs) /\
    Forall header_conforms hs /\ Forall invalid_conforms ivs.
Proof.
  destruct (Headers files) as [|hs] eqn:Eh; [by vm_compute in Eh |].
  destruct (Invalids files) as [|ivs] eqn:Ei; [by vm_compute in Ei |].
  exists hs, ivs. vm_compute in Eh, Ei. injection Eh as <-. injection Ei as <-.
  split_and!; [done | done | done | done | | |]; apply (bool_decide_unpack _); vm_compute; exact I.
Qed.

(** ** Writing vectors

    The inverse of the loader: numbers and wire bytes in hexadecimal, fields separated
    by a space, an optional comment at the end of a line. *)

Definition hex_char (d : Z) : Z := if bool_decide (d <= 9) then 48 + d else 87 + d.
Definition EncodeToString (b : bytes) : bytes :=
  concat (map (fun x => [hex_char (x / 16); hex_char (x mod 16)]) b).

Definition print_wire (b : bytes) : bytes :=
  if bool_decide (b = []) then emptyMarker else EncodeToString b.
Definition print_uint (k : nat) (v : Z) : bytes := 48 :: 120 :: EncodeToString (be_write k v).

Definition header_fields (v : HeaderVector) : list bytes :=
  [v.(hv_Name); print_wire v.(hv_Wire); print_uint 1 v.(hv_Type); print_uint 1 v.(hv_Control);
   print_uint 4 v.(hv_Parameter); print_uint 8 v.(hv_Length)].

(** A line of a file: perhaps a record, perhaps a comment. *)
Record item : Type := MkItem { it_vector : option HeaderVector; it_comment : option bytes }.

Definition item_text (i : item) : bytes :=
  match i.(it_vector) with Some v => Join 32 (header_fields v) | None => [] end.
Definition item_line (i : item) : bytes :=
  item_text i ++ match i.(it_comment) with Some c => 35 :: c | None => [] end.
Definition items_vectors (its : list item) : list HeaderVector := omap it_vector its.

(** A character of a field. *)
Definition word_char (c : Z) : Prop := is_ascii c /\ IsSpace c = false /\ c <> 35.
Definition is_word (w : bytes) : Prop := w <> [] /\ Forall word_char w.

Record wf_vector (v : HeaderVector) : Prop := {
  wv_name : is_word v.(hv_Name);
  wv_wire : wf_bytes v.(hv_Wire);
  wv_type : is_u8 v.(hv_Type);
  wv_control : is_u8 v.(hv_Control);
  wv_parameter : is_u32 v.(hv_Parameter);
  wv_length : is_u64 v.(hv_Length);
}.

Record wf_item (i : item) : Prop := {
  wi_vector : forall v, i.(it_vector) = Some v -> wf_vector v;
  wi_comment : forall c, i.(it_comment) = Some c -> 10 ∉ c;
  wi_length : len (item_line i) < MaxScanTokenSize;
}.

(** *** Hexadecimal *)

Lemma nibble_spec d :
  0 <= d < 16 ->
  hex_digit (hex_char d) = Some d /\ hex_char d <> 95 /\ word_char (hex_char d) /\
  (if in_range 48 57 (hex_char d) then Some (hex_char d - 48)
   else if in_range 97 122 (lower (hex_char d)) then Some (lower (hex_char d) - 97 + 10) else None)
  = Some d.
Proof.
  intros Hd.
  assert (Hall : forallb (fun d => bool_decide (hex_digit (hex_char d) = Some d)
    && bool_decide (hex_char d <> 95) && bool_decide (is_ascii (hex_char d))
    && negb (IsSpace (hex_char d)) && bool_decide (hex_char d <> 35)
    && bool_decide ((if in_range 48 57 (hex_char d) then Some (hex_char d - 48)
      else if in_range 97 122 (lower (hex_char d)) then Some (lower (hex_char d) - 97 + 10) else None)
      = Some d)) (seqZ 0 16) = true) by (vm_compute; reflexivity).
  rewrite forallb_forall in Hall. specialize (Hall d). rewrite !andb_true_iff in Hall.
  destruct Hall as [[[[[H1 H2] H3] H4] H5] H6]; [apply list_elem_of_In, elem_of_seqZ; lia |].
  rewrite bool_decide_eq_true in H1, H2, H3, H5, H6. apply negb_true_iff in H4. done.
Qed.

Lemma byte_nibbles x : is_u8 x -> 0 <= x / 16 < 16 /\ 0 <= x mod 16 < 16.
Proof.
  unfold is_u8. intros Hx. split; [| apply Z.mod_pos_bound; lia].
  split; [apply Z.div_pos; lia | apply Z.div_lt_upper_bound; lia].
Qed.

Lemma DecodeString_EncodeToString b : wf_bytes b -> DecodeString (EncodeToString b) = Some b.
Proof.
  induction 1 as [|x b Hx Hb IH]; [done |]. unfold EncodeToString in *. cbn [map concat app DecodeString].
  destruct (byte_nibbles x Hx) as [H1 H2].
  destruct (nibble_spec _ H1) as (-> & _). destruct (nibble_spec _ H2) as (-> & _).
  rewrite IH. do 2 f_equal. rewrite lor_shiftl_add by lia. change (2 ^ 4) with 16.
  rewrite (Z.div_mod x 16) at 3 by lia. lia.
Qed.

Lemma word_EncodeToString b : wf_bytes b -> Forall word_char (EncodeToString b).
Proof.
  induction 1 as [|x b Hx Hb IH]; [done |]. unfold EncodeToString in *. cbn [map concat].
  destruct (byte_nibbles x Hx) as [H1 H2].
  apply Forall_app. split; [| done]. repeat constructor; by apply nibble_spec.
Qed.

(** One more digit of a number that fits. *)
Lemma ParseUint_digit maxVal n d s :
  0 <= n -> 0 <= d < 16 -> n * 16 + d <= maxVal -> maxVal <= maxUint64 ->
  ParseUint_digits 16 maxVal n (hex_char d :: s) = ParseUint_digits 16 maxVal (n * 16 + d) s.
Proof.
  intros Hn Hd Hle Hmax. destruct (nibble_spec d Hd) as (_ & H95 & _ & Hdig).
  cbn [ParseUint_digits]. rewrite bool_decide_eq_false_2 by done. rewrite Hdig.
  unfold maxUint64 in *. rewrite (bool_decide_eq_false_2 (16 <= d)) by lia.
  rewrite bool_decide_eq_false_2
    by (change ((2 ^ 64 - 1) / 16 + 1) with 1152921504606846976; lia).
  rewrite (uint64_id (n * 16)) by u_lia. rewrite (uint64_id (n * 16 + d)) by u_lia.
  rewrite !bool_decide_eq_false_2 by lia. done.
Qed.

Lemma ParseUint_hex maxVal b n :
  wf_bytes b -> 0 <= n -> n * 2 ^ (8 * len b) + be_read b <= maxVal -> maxVal <= maxUint64 ->
  ParseUint_digits 16 maxVal n (EncodeToString b) = inr (n * 2 ^ (8 * len b) + be_read b).
Proof.
  intros Hb. revert n. induction Hb as [|x b Hx Hb IH]; intros n Hn Hle Hmax.
  { cbn. unfold len. simpl. f_equal. lia. }
  pose proof (be_read_range b Hb) as Hr. pose proof (len_nonneg b) as Hl.
  assert (E : n * 2 ^ (8 * len (x :: b)) + be_read (x :: b)
    = (n * 256 + x) * 2 ^ (8 * len b) + be_read b).
  { rewrite be_read_cons by (by constructor).
    replace (len (x :: b)) with (len b + 1) by (unfold len; simpl; lia).
    replace (8 * (len b + 1)) with (8 * len b + 8) by lia. rewrite Z.pow_add_r by lia. lia. }
  rewrite E in *. destruct (byte_nibbles x Hx) as [H1 H2].
  assert (Hx16 : x = x / 16 * 16 + x mod 16) by (rewrite (Z.div_mod x 16) at 1 by lia; lia).
  assert (Hp : 1 <= 2 ^ (8 * len b)) by (apply (Z.pow_le_mono_r 2 0); lia).
  assert (Hfit : n * 256 + x <= maxVal) by nia.
  unfold EncodeToString. cbn [map concat app]. fold (EncodeToString b).
  rewrite ParseUint_digit, ParseUint_digit by lia.
  replace ((n * 16 + x / 16) * 16 + x mod 16) with (n * 256 + x) by lia.
  unfold is_u8 in Hx. by apply IH; [lia | |].
Qed.

Lemma not_underscore b : wf_bytes b -> 95 ∉ EncodeToString b.
Proof.
  induction 1 as [|x b Hx Hb IH]; [apply not_elem_of_nil |]. unfold EncodeToString in *. cbn [map concat app].
  destruct (byte_nibbles x Hx) as [H1 H2].
  destruct (nibble_spec _ H1) as (_ & N1 & _). destruct (nibble_spec _ H2) as (_ & N2 & _).
  rewrite !elem_of_cons. intros [E | [E | E]]; [by apply N1 | by apply N2 | by apply IH].
Qed.

(** Reading back a printed number. *)
Lemma parseUint_print k v bits ln col :
  (0 < k)%nat -> 8 * Z.of_nat k = bits -> bits <= 64 -> 0 <= v < 2 ^ bits ->
  parseUint ln col (print_uint k v) bits = inr v.
Proof.
  intros Hk Hb Hle Hv. unfold parseUint, print_uint, ParseUint0.
  rewrite (bool_decide_eq_true_2 (48 = 48)) by done.
  pose proof (wf_be_write k v) as Hw.
  destruct (EncodeToString (be_write k v)) as [|c s] eqn:Ee.
  { destruct k; [lia |]. unfold EncodeToString in Ee. by simpl in Ee. }
  change (lower 120) with 120. rewrite !bool_decide_eq_false_2, bool_decide_eq_true_2 by done.
  rewrite <- Ee, ParseUint_hex; [| done | lia | |].
  - rewrite Z.mul_0_l, Z.add_0_l, be_read_write, Hb, Z.mod_small by done.
    by rewrite bool_decide_eq_false_2 by (by apply not_underscore).
  - rewrite Z.mul_0_l, Z.add_0_l, be_read_write, Hb, Z.mod_small by done. lia.
  - unfold maxUint64. pose proof (Z.pow_le_mono_r 2 bits 64). lia.
Qed.

Lemma decodeWire_print ln b : wf_bytes b -> decodeWire ln (print_wire b) = inr b.
Proof.
  intros Hb. unfold decodeWire, print_wire. destruct (decide (b = [])) as [-> | He]; [done |].
  rewrite (bool_decide_eq_false_2 (b = [])) by done. rewrite bool_decide_eq_false_2; [by rewrite DecodeString_EncodeToString |].
  destruct b as [|x b]; [done |]. unfold EncodeToString. simpl. discriminate.
Qed.

(** *** Fields *)

Lemma word_print_uint k v : is_word (print_uint k v).
Proof.
  split; [done |]. unfold print_uint. repeat (apply Forall_cons; split; [split_and!; done |]).
  apply word_EncodeToString, wf_be_write.
Qed.

Lemma word_print_wire b : wf_bytes b -> is_word (print_wire b).
Proof.
  intros Hb. unfold print_wire. case_bool_decide as He.
  - split; [done |]. apply Forall_cons; split; [split_and!; done | done].
  - split; [by destruct b | by apply word_EncodeToString].
Qed.

Lemma header_fields_words v : wf_vector v -> Forall is_word (header_fields v).
Proof.
  intros [? ? ? ? ? ?]. unfold header_fields. repeat apply Forall_cons_2; try done;
    auto using word_print_uint, word_print_wire.
Qed.

Definition rune_of (c : Z) : Z * bytes := (c, [c]).

Lemma fields_go_word w cur l :
  Forall word_char w -> fields_go cur (map rune_of w ++ l) = fields_go (cur ++ w) l.
Proof.
  intros Hw. revert cur. induction Hw as [|c w (_ & Hc & _) Hw IH]; intros cur.
  - by rewrite app_nil_r.
  - cbn [map app fields_go rune_of]. rewrite Hc, IH. by rewrite <- app_assoc.
Qed.

Lemma Join_ascii ws : Forall is_word ws -> ascii (Join 32 ws).
Proof.
  induction 1 as [|w ws [_ Hw] Hws IH]; [apply Forall_nil_2 |].
  assert (Ha : ascii w) by (eapply Forall_impl; [exact Hw |]; by intros c []).
  destruct ws as [|w' ws]; [done |].
  change (Join 32 (w :: w' :: ws)) with (w ++ 32 :: Join 32 (w' :: ws)).
  apply Forall_app. split; [done |]. constructor; [unfold is_ascii; lia | done].
Qed.

(** Splitting at white space undoes joining words with spaces. *)
Lemma Fields_Join ws : Forall is_word ws -> Fields (Join 32 ws) = ws.
Proof.
  intros Hws. unfold Fields. rewrite runes_ascii by (by apply Join_ascii). fold rune_of.
  change (fun c : Z => (c, [c])) with rune_of.
  induction Hws as [|w ws [Hn Hw] Hws IH]; [done |]. destruct ws as [|w' ws].
  - cbn [Join]. rewrite <- (app_nil_r (map rune_of w)), fields_go_word, app_nil_l by done.
    cbn [fields_go]. by rewrite bool_decide_eq_false_2.
  - change (Join 32 (w :: w' :: ws)) with (w ++ 32 :: Join 32 (w' :: ws)).
    rewrite map_app, fields_go_word, app_nil_l by done. cbn [map fields_go rune_of].
    change (IsSpace 32) with true. cbv iota. rewrite bool_decide_eq_false_2 by done.
    cbn [app]. by rewrite IH.
Qed.

(** *** Lines *)

(** Text that neither starts a comment nor ends a line. *)
Definition line_char (c : Z) : Prop := c <> 35 /\ c <> 13 /\ c <> 10.

Lemma word_line_char c : word_char c -> line_char c.
Proof. intros (_ & Hs & H35). split_and!; [done | |]; intros ->; by vm_compute in Hs. Qed.

Lemma Join_line_char ws : Forall is_word ws -> Forall line_char (Join 32 ws).
Proof.
  induction 1 as [|w ws [_ Hw] Hws IH]; [apply Forall_nil_2 |].
  assert (Ha : Forall line_char w) by (eapply Forall_impl; [exact Hw | apply word_line_char]).
  destruct ws as [|w' ws]; [done |].
  change (Join 32 (w :: w' :: ws)) with (w ++ 32 :: Join 32 (w' :: ws)).
  apply Forall_app. split; [done |]. constructor; [by split_and! | done].
Qed.

Lemma item_text_chars i : wf_item i -> Forall line_char (item_text i).
Proof.
  intros [Hv _ _]. unfold item_text. destruct (it_vector i) as [v|]; [| done].
  by apply Join_line_char, header_fields_words, Hv.
Qed.

Lemma cut_comment_app x c : Forall line_char x -> cut_comment (x ++ 35 :: c) = x.
Proof.
  induction 1 as [|a x (Ha & _) Hx IH]; [done |]. cbn [app cut_comment].
  rewrite bool_decide_eq_false_2 by done. by rewrite IH.
Qed.

Lemma cut_comment_id x : Forall line_char x -> cut_comment x = x.
Proof.
  induction 1 as [|a x (Ha & _) Hx IH]; [done |]. cbn [cut_comment].
  rewrite bool_decide_eq_false_2 by done. by rewrite IH.
Qed.

Lemma dropCR_cases s : dropCR s = s \/ exists s', s = s' ++ [13] /\ dropCR s = s'.
Proof.
  unfold dropCR. destruct (rev s) as [|c r] eqn:E; [by left |].
  assert (Hs : s = rev r ++ [c]) by (rewrite <- (rev_involutive s), E; done).
  destruct (decide (c = 13)) as [-> | Hc]; [right; by exists (rev r) |]. left.
  repeat (case_match; try done).
Qed.

Lemma line_text i : wf_item i -> cut_comment (dropCR (item_line i)) = item_text i.
Proof.
  intros Hi. pose proof (item_text_chars i Hi) as Ht. unfold item_line.
  destruct (it_comment i) as [c|].
  - destruct (dropCR_cases (item_text i ++ 35 :: c)) as [-> | (s' & Es & ->)]; [by apply cut_comment_app |].
    destruct c as [|a c] using rev_ind.
    + apply app_inj_tail in Es as [_ ?]. done.
    + rewrite app_comm_cons, app_assoc in Es. apply app_inj_tail in Es as [<- _]. by apply cut_comment_app.
  - rewrite app_nil_r. destruct (dropCR_cases (item_text i)) as [-> | (s' & Es & _)];
      [by apply cut_comment_id |]. rewrite Es in Ht. apply Forall_app in Ht as [_ Ht].
    apply Forall_cons in Ht as [(_ & ? & _) _]. done.
Qed.

Lemma item_line_no_newline i : wf_item i -> 10 ∉ item_line i.
Proof.
  intros Hi. pose proof (item_text_chars i Hi) as Ht. unfold item_line. rewrite elem_of_app.
  intros [Hin | Hin].
  - rewrite Forall_forall in Ht. by destruct (Ht 10 Hin) as (_ & _ & ?).
  - destruct (it_comment i) as [c|] eqn:Ec; [| by apply not_elem_of_nil in Hin].
    apply elem_of_cons in Hin as [? | Hin]; [done |]. by apply (wi_comment i Hi c Ec).
Qed.

Lemma Split_unlines ls : Forall (fun l => 10 ∉ l) ls -> Split 10 (unlines ls) = ls ++ [[]].
Proof.
  induction 1 as [|l ls Hl Hls IH]; [done |]. unfold unlines in *. cbn [map concat].
  rewrite <- app_assoc. cbn [app]. rewrite Split_cons_app by done. by rewrite IH.
Qed.

Lemma ScanLines_unlines ls : Forall (fun l => 10 ∉ l) ls -> ScanLines (unlines ls) = ls.
Proof.
  intros Hls. unfold ScanLines. rewrite Split_unlines by done. rewrite rev_app_distr. simpl.
  apply rev_involutive.
Qed.

(** *** The file *)

(** The records of a list of lines that starts at a line number. *)
Fixpoint records (line : Z) (its : list item) : list record :=
  match its with
  | [] => []
  | i :: its =>
      match i.(it_vector) with
      | Some v => MkRecord line (header_fields v) :: records (line + 1) its
      | None => records (line + 1) its
      end
  end.

Lemma parse_lines_items name its line rest out :
  Forall wf_item its ->
  parse_lines name 6 line (map item_line its ++ rest) out
  = parse_lines name 6 (line + len its) rest (out ++ records line its).
Proof.
  intros Hits. revert line out. induction Hits as [|i its Hi Hits IH]; intros line out.
  { unfold len. simpl. by rewrite app_nil_r, Z.add_0_r. }
  cbn [map app parse_lines]. pose proof (wi_length i Hi) as Hlen.
  rewrite (bool_decide_eq_false_2 (MaxScanTokenSize <= len (item_line i))) by lia.
  rewrite line_text by done. unfold item_text. cbn [records].
  replace (line + len (i :: its)) with (line + 1 + len its) by (unfold len; simpl; lia).
  destruct (it_vector i) as [v|] eqn:Ev.
  - rewrite Fields_Join by (by apply header_fields_words, (wi_vector i Hi)).
    rewrite (bool_decide_eq_false_2 (len (header_fields v) = 0)) by done.
    rewrite (bool_decide_eq_false_2 (len (header_fields v) <> 6)) by (intros Hn; by apply Hn).
    rewrite IH, <- app_assoc. done.
  - cbn -[parse_lines]. by rewrite IH.
Qed.

Lemma header_of_record_print ln v :
  wf_vector v -> header_of_record (MkRecord ln (header_fields v)) = inr v.
Proof.
  intros [? Hw Ht Hc Hp Hl]. unfold header_of_record, field, header_fields. cbn -[parseUint].
  rewrite decodeWire_print by done. cbn -[parseUint].
  rewrite (parseUint_print 1 _ 8) by (done || lia). cbn -[parseUint].
  rewrite (parseUint_print 1 _ 8) by (done || lia). cbn -[parseUint].
  rewrite (parseUint_print 4 _ 32) by (done || lia). cbn -[parseUint].
  rewrite (parseUint_print 8 _ 64) by (done || lia). simpl.
  rewrite !uint8_id, uint32_id by done. by destruct v.
Qed.

Lemma collect_records its line out :
  Forall wf_item its ->
  collect header_of_record (records line its) out = inr (out ++ items_vectors its).
Proof.
  intros Hits. unfold items_vectors. revert line out.
  induction Hits as [|i its Hi Hits IH]; intros line out; cbn [records omap]; [by rewrite app_nil_r |].
  cbn. destruct (it_vector i) as [v|] eqn:Ev; [| apply IH].
  cbn [collect]. rewrite header_of_record_print by (by apply (wi_vector i Hi)). cbn [and_then].
  by rewrite IH, <- app_assoc.
Qed.

(** Loading vectors undoes writing them. A file whose lines hold vectors in
    hexadecimal, with comments and blank lines among them, loads to exactly these
    vectors in order, or to the error that there are none; and if a line with another
    number of fields follows, loading fails and names its line, its count and its
    text. *)
Theorem vectors_roundtrip its bad rest :
  Forall wf_item its ->
  let file ls := fun _ : bytes => Some (unlines ls) in
  Headers (file (map item_line its))
  = (if bool_decide (items_vectors its = []) then inl (VNoVectors (str "headers.txt"))
     else inr (items_vectors its)) /\
  (10 ∉ bad -> Forall (fun l => 10 ∉ l) rest -> len bad < MaxScanTokenSize ->
   let text := cut_comment (dropCR bad) in
   len (Fields text) <> 0 -> len (Fields text) <> 6 ->
   Headers (file (map item_line its ++ bad :: rest))
   = inl (VFieldCount (str "headers.txt") (len its + 1) (len (Fields text)) 6 text)).
Proof.
  intros Hits file.
  assert (Hnl : Forall (fun l => 10 ∉ l) (map item_line its)).
  { clear -Hits. induction Hits; constructor; auto using item_line_no_newline. }
  split.
  - unfold Headers, parse, file. rewrite ScanLines_unlines by done.
    rewrite <- (app_nil_r (map item_line its)), parse_lines_items, app_nil_l by done.
    cbn [parse_lines]. pose proof (collect_records its 1 [] Hits) as Ec. rewrite app_nil_l in Ec.
    case_bool_decide as Hz.
    + apply len_nil_iff in Hz. rewrite Hz in Ec. cbn in Ec. injection Ec as <-. done.
    + rewrite bool_decide_eq_false_2; [done |]. intros He. apply Hz, len_nil_iff.
      rewrite He in Ec. revert Ec. clear -He. unfold items_vectors in *.
      generalize 1. induction its as [|i its IH]; intros line; [done |]. cbn in *.
      destruct (it_vector i); [done | auto].
  - intros Hb Hrest Hlen text H0 H6. unfold Headers, parse, file.
    rewrite ScanLines_unlines by (by apply Forall_app; split; [| constructor]).
    rewrite parse_lines_items by done. cbn [parse_lines]. fold text.
    rewrite !bool_decide_eq_false_2, bool_decide_eq_true_2 by (done || lia).
    cbn [and_then]. do 2 f_equal. lia.
Qed.

Definition demo_items : list item :=
  [MkItem None (Some (str " one vector"));
   MkItem (Some (MkHeaderVector (str "trigger") (header_bytes (MkHeader 12 1 0xffffff02 0)) 12 1
     0xffffff02 0)) (Some (str " counted"));
   MkItem None None].

Lemma demo_items_wf : Forall wf_item demo_items.
Proof.
  repeat apply Forall_cons_2; try apply Forall_nil_2; (split; simpl;
    [intros v [= <-] || (intros v; discriminate) | intros c [= <-] || (intros c; discriminate)
    | vm_compute; reflexivity]).
  1, 3: apply (bool_decide_unpack _); vm_compute; exact I.
  split; simpl; try solve_range.
  - split; [done |]. repeat apply Forall_cons_2; try apply Forall_nil_2; split_and!; solve_range || done.
  - apply wf_header_bytes. solve_range.
Qed.

Lemma vectors_roundtrip_witness :
  exists v, Headers (fun _ => Some (unlines (map item_line demo_items))) = inr [v] /\ v.(hv_Type) = 12 /\
    Headers (fun _ => Some (unlines (map item_line demo_items ++ str "a b # c" :: [])))
    = inl (VFieldCount (str "headers.txt") 4 2 6 (str "a b ")).
Proof.
  destruct (vectors_roundtrip demo_items (str "a b # c") [] demo_items_wf) as [H1 H2].
  eexists. split; [exact H1 |]. split; [reflexivity |].
  exact (H2 ltac:(apply (bool_decide_unpack _); vm_compute; exact I) (Forall_nil_2 _)
    ltac:(vm_compute; reflexivity) ltac:(vm_compute; discriminate) ltac:(vm_compute; discriminate)).
Defined.
