(* ===== verification/Codec.v ===== *)
(** * Message framing

    [src/protocol/codec.go]: the length check, the streaming payload reader and
    the message writer. *)

From S2P Require Import Prelude Errors Version Constants MessageId Stream Header.

Definition CheckLength (n max : Z) : option error :=
  if bool_decide (max <> 0) && bool_decide (max < n) then Some (perr ErrMessageTooLarge)
  else None.

(** The state of the payload loop: bytes remaining, scratch buffer, the state
    of the caller's [consume] closure, and the stream. *)
Record payload_state (S C : Type) : Type := MkPayload {
  pl_remaining : Z;
  pl_scratch : bytes;
  pl_closure : C;
  pl_stream : S;
}.
Arguments MkPayload {S C}.
Arguments pl_remaining {S C}.
Arguments pl_scratch {S C}.
Arguments pl_closure {S C}.
Arguments pl_stream {S C}.

(** One round of [for remaining > 0]. The result carries the error returned. *)
Definition ReadPayload_round {S C} `{Stream S}
    (consume : option (C -> bytes -> option error * C)) (st : payload_state S C)
  : payload_state S C + option error * payload_state S C :=
  let 'MkPayload remaining scratch c r := st in
  if bool_decide (remaining <= 0) then inr (None, st)
  else
    let chunk := Z.min remaining (len scratch) in
    match io_ReadFull r chunk with
    | (b, Some err, r) => inr (Some err, MkPayload remaining (overlay scratch b) c r)
    | (b, None, r) =>
        let scratch := overlay scratch b in
        match consume with
        | None => inl (MkPayload (remaining - chunk) scratch c r)
        | Some f =>
            match f c (take (Z.to_nat chunk) scratch) with
            | (Some err, c) => inr (Some err, MkPayload remaining scratch c r)
            | (None, c) => inl (MkPayload (remaining - chunk) scratch c r)
            end
        end
    end.

(** [ReadPayload]: the scratch buffer, the closure state and the stream are
    returned as the call leaves them. A round consumes at least one byte, so
    [n + 1] rounds are enough; see [ReadPayload_loop_ok]. *)
Definition ReadPayload {S C} `{Stream S} (r : S) (n : Z) (scratch : bytes)
    (consume : option (C -> bytes -> option error * C)) (c : C)
  : option error * payload_state S C :=
  if bool_decide (len scratch = 0) then (Some (perr ErrShortBuffer), MkPayload n scratch c r)
  else match loop (Z.to_pos (n + 1)) (ReadPayload_round consume) (MkPayload n scratch c r) with
       | inr res => res
       | inl st => (None, st)
       end.

Definition DiscardPayload {S} `{Stream S} (r : S) (n : Z) (scratch : bytes)
  : option error * bytes * S :=
  let (err, st) := ReadPayload r n scratch None tt in
  (err, st.(pl_scratch), st.(pl_stream)).

Definition WriteMessage {S} `{Stream S} (w : S) (h : Header) (payload buf : bytes)
  : option error * bytes * S :=
  if bool_decide (h.(h_Length) <> 0) && bool_decide (h.(h_Length) <> len payload)
  then (Some (perr ErrPayloadLength), buf, w)
  else
    let h := MkHeader h.(h_Type) h.(h_Control) h.(h_Parameter) (len payload) in
    match WriteHeader w h buf with
    | (Some err, buf, w) => (Some err, buf, w)
    | (None, buf, w) =>
        if bool_decide (len payload = 0) then (None, buf, w)
        else let (err, w) := stream_Write w payload in (err, buf, w)
    end.

(** The wire image of a message: its header, with the length filled in, and
    its payload. *)
Definition message_bytes (h : Header) (payload : bytes) : bytes :=
  header_bytes (MkHeader h.(h_Type) h.(h_Control) h.(h_Parameter) (len payload)) ++ payload.

Lemma CheckLength_spec n max :
  CheckLength n max = None <-> max = 0 \/ n <= max.
Proof. unfold CheckLength. repeat case_bool_decide; simpl; split; intros; try done; lia. Qed.

(** ** The payload loop on a live stream *)
Section Payload.
Context {S C : Type} `{StreamModel S}.
Context (f : C -> bytes -> option error * C).
Implicit Types s : S.

(** A consumer that never asks to stop. *)
Definition accepting : Prop := forall c b, (f c b).1 = None.

(** The effect of a whole chunk list on the consumer's state. *)
Definition feed (consume : option (C -> bytes -> option error * C)) (c : C)
    (bs : list bytes) : C :=
  match consume with
  | None => c
  | Some g => fold_left (fun c b => (g c b).2) bs c
  end.

Lemma overlay_length dst src :
  (length src <= length dst)%nat -> length (overlay dst src) = length dst.
Proof. intros. unfold overlay. rewrite length_app, length_drop. lia. Qed.

Lemma overlay_prefix dst src : take (length src) (overlay dst src) = src.
Proof. unfold overlay. by rewrite take_app_length. Qed.

(** One round when the stream holds the whole remaining payload. *)
Lemma ReadPayload_round_ok consume rem scratch c s :
  (consume = None \/ consume = Some f /\ accepting) ->
  st_open s -> 0 < len scratch -> 0 < rem ->
  Z.min rem (len scratch) <= len (st_input s) ->
  let k := Z.to_nat (Z.min rem (len scratch)) in
  exists s', ReadPayload_round consume (MkPayload rem scratch c s) =
    inl (MkPayload (rem - Z.of_nat k) (overlay scratch (take k (st_input s)))
           (feed consume c [take k (st_input s)]) s') /\
    st_input s' = drop k (st_input s) /\ st_output s' = st_output s /\ st_open s'.
Proof.
  intros Hc Ho Hs Hr Hl k. unfold ReadPayload_round.
  rewrite bool_decide_eq_false_2 by lia.
  destruct (io_ReadFull_ok s (Z.min rem (len scratch)) Ho) as (s' & -> & Hi & Hout & Ho');
    [lia |].
  fold k in Hi |- *. replace (rem - Z.min rem (len scratch)) with (rem - Z.of_nat k) by lia.
  exists s'. destruct Hc as [-> | [-> Hacc]]; [done |]. simpl.
  assert (El : length (take k (st_input s)) = k).
  { rewrite length_take. subst k. unfold len in *. lia. }
  rewrite <- El at 1. rewrite overlay_prefix.
  specialize (Hacc c (take k (st_input s))).
  destruct (f c _) as [e c'] eqn:E; simpl in *; subst e. done.
Qed.

(** The whole loop: the payload reaches the consumer as a list of non-empty
    pieces no longer than the scratch buffer. *)
Lemma ReadPayload_loop_ok consume m scratch c s :
  (consume = None \/ consume = Some f /\ accepting) ->
  st_open s -> 0 < len scratch -> Z.of_nat m <= len (st_input s) ->
  exists bs scratch' s',
  loop_nat (Datatypes.S m) (ReadPayload_round consume) (MkPayload (Z.of_nat m) scratch c s) =
    inr (None, MkPayload 0 scratch' (feed consume c bs) s') /\
  concat bs = take m (st_input s) /\
  Forall (fun b => 0 < len b <= len scratch) bs /\
  length scratch' = length scratch /\
  st_input s' = drop m (st_input s) /\ st_output s' = st_output s /\ st_open s'.
Proof.
  intros Hc. revert scratch c s. induction (lt_wf m) as [m _ IH].
  intros scratch c s Ho Hs Hm. destruct (decide (m = O)) as [-> | Hm0].
  { exists [], scratch, s. simpl. rewrite drop_0. split_and!; try done.
    by destruct consume. }
  destruct (ReadPayload_round_ok consume (Z.of_nat m) scratch c s Hc Ho Hs)
    as (s' & E & Hi & Hout & Ho'); [lia | lia |].
  set (k := Z.to_nat (Z.min (Z.of_nat m) (len scratch))) in *.
  assert (Hk : (0 < k <= m)%nat) by lia.
  unfold len in Hm, Hs. set (b := take k (st_input s)) in *.
  assert (Hb : length b = k) by (subst b; rewrite length_take; lia).
  assert (Hl1 : length (overlay scratch b) = length scratch)
    by (apply overlay_length; unfold len in *; lia).
  destruct (IH (m - k)%nat ltac:(lia) (overlay scratch b) (feed consume c [b]) s' Ho')
    as (bs & sc' & s'' & El & Hbs & Hsz & Hl & Hi' & Hout' & Ho'').
  { unfold len. lia. }
  { unfold len. rewrite Hi, length_drop. lia. }
  exists (b :: bs), sc', s''. split_and!.
  - cbn [loop_nat]. rewrite E. cbn [loop_bind].
    replace (Z.of_nat m - Z.of_nat k) with (Z.of_nat (m - k)) by lia.
    erewrite loop_nat_enough; [| | exact El]; [by destruct consume | lia].
  - simpl. rewrite Hbs, Hi. subst b. rewrite take_take_drop. f_equal. lia.
  - constructor; [unfold len in *; lia |]. unfold len in *. by rewrite Hl1 in Hsz.
  - congruence.
  - rewrite Hi', Hi, drop_drop. f_equal. lia.
  - congruence.
  - done.
Qed.

Lemma ReadPayload_ok consume n scratch c s :
  (consume = None \/ consume = Some f /\ accepting) ->
  st_open s -> scratch <> [] -> 0 <= n <= len (st_input s) ->
  exists bs scratch' s',
  ReadPayload s n scratch consume c =
    (None, MkPayload 0 scratch' (feed consume c bs) s') /\
  concat bs = take (Z.to_nat n) (st_input s) /\
  Forall (fun b => 0 < len b <= len scratch) bs /\
  length scratch' = length scratch /\
  st_input s' = drop (Z.to_nat n) (st_input s) /\ st_output s' = st_output s /\ st_open s'.
Proof.
  intros Hc Ho Hs Hn. rewrite <- len_nil_iff in Hs. pose proof (len_nonneg scratch).
  destruct (ReadPayload_loop_ok consume (Z.to_nat n) scratch c s Hc Ho)
    as (bs & sc' & s' & E & Hrest); [lia | lia |].
  exists bs, sc', s'. split; [| exact Hrest]. unfold ReadPayload.
  rewrite bool_decide_eq_false_2 by done. rewrite loop_loop_nat.
  replace (Pos.to_nat (Z.to_pos (n + 1))) with (Datatypes.S (Z.to_nat n)) by lia.
  rewrite Z2Nat.id in E by lia. by rewrite E.
Qed.

(** A payload that fits the scratch buffer arrives in one piece. *)
Lemma ReadPayload_single n scratch c s :
  st_open s -> scratch <> [] -> 0 <= n <= len scratch -> n <= len (st_input s) ->
  exists s',
  ReadPayload s n scratch None c =
    (None, MkPayload 0 (overlay scratch (take (Z.to_nat n) (st_input s))) (c : C) s') /\
  st_input s' = drop (Z.to_nat n) (st_input s) /\ st_output s' = st_output s /\ st_open s'.
Proof.
  intros Ho Hs Hn Hl. rewrite <- len_nil_iff in Hs. unfold ReadPayload.
  rewrite bool_decide_eq_false_2 by done. rewrite loop_loop_nat.
  destruct (decide (n = 0)) as [-> | Hn0].
  { exists s. simpl. by rewrite drop_0. }
  destruct (ReadPayload_round_ok None n scratch c s ltac:(by left) Ho)
    as (s' & E & Hi & Hout & Ho'); [lia | lia | lia |].
  rewrite Z.min_l in E, Hi by lia. exists s'. split; [| done].
  destruct (Pos.to_nat (Z.to_pos (n + 1))) as [|[|m]] eqn:Ep; [lia | lia |].
  cbn [loop_nat]. rewrite E. cbn [loop_bind].
  replace (n - Z.of_nat (Z.to_nat n)) with 0 by lia. done.
Qed.

(** One round when the stream ends inside the chunk. *)
Lemma ReadPayload_round_short consume rem scratch c s :
  st_open s -> len (st_input s) < Z.min rem (len scratch) ->
  exists e s' sc', ReadPayload_round consume (MkPayload rem scratch c s) =
    inr (Some (ioerr e), MkPayload rem sc' (c : C) s') /\ st_input s' = [] /\ st_open s'.
Proof.
  intros Ho Hs. unfold ReadPayload_round. pose proof (len_nonneg (st_input s)).
  rewrite bool_decide_eq_false_2 by lia.
  destruct (io_ReadFull_short s _ Ho Hs) as (s' & -> & Hi & _ & Ho'). eauto 10.
Qed.

Lemma ReadPayload_loop_short consume m scratch c s :
  (consume = None \/ consume = Some f /\ accepting) ->
  st_open s -> 0 < len scratch -> len (st_input s) < Z.of_nat m ->
  exists e st, loop_nat (Datatypes.S m) (ReadPayload_round consume)
    (MkPayload (Z.of_nat m) scratch (c : C) s) = inr (Some (ioerr e), st) /\
  st_input st.(pl_stream) = [] /\ st_open st.(pl_stream).
Proof.
  intros Hc. revert scratch c s. induction (lt_wf m) as [m _ IH].
  intros scratch c s Ho Hs Hm. pose proof (len_nonneg (st_input s)).
  destruct (decide (len (st_input s) < Z.min (Z.of_nat m) (len scratch))) as [Hsh | Hfull].
  { destruct (ReadPayload_round_short consume (Z.of_nat m) scratch c s Ho Hsh)
      as (e & s' & sc' & E & Hi & Ho'). cbn [loop_nat]. rewrite E. simpl. eauto. }
  destruct (ReadPayload_round_ok consume (Z.of_nat m) scratch c s Hc Ho Hs)
    as (s' & E & Hi & Hout & Ho'); [lia | lia |].
  set (k := Z.to_nat (Z.min (Z.of_nat m) (len scratch))) in *.
  unfold len in *. set (b := take k (st_input s)) in *.
  assert (Hb : length b = k) by (subst b; rewrite length_take; lia).
  assert (Hl1 : length (overlay scratch b) = length scratch) by (apply overlay_length; lia).
  destruct (IH (m - k)%nat ltac:(lia) (overlay scratch b) (feed consume c [b]) s' Ho')
    as (e & st & El & Hst); [unfold len; lia | rewrite Hi, length_drop; lia |].
  exists e, st. split; [| done]. cbn [loop_nat]. rewrite E. cbn [loop_bind].
  replace (Z.of_nat m - Z.of_nat k) with (Z.of_nat (m - k)) by lia.
  eapply loop_nat_enough; [| exact El]. lia.
Qed.

(** A stream that ends inside the payload yields an end-of-file error, with
    everything consumed. *)
Lemma ReadPayload_short consume n scratch c s :
  (consume = None \/ consume = Some f /\ accepting) ->
  st_open s -> scratch <> [] -> len (st_input s) < n ->
  exists e st, ReadPayload s n scratch consume (c : C) = (Some (ioerr e), st) /\
    st_input st.(pl_stream) = [] /\ st_open st.(pl_stream).
Proof.
  intros Hc Ho Hs Hn. rewrite <- len_nil_iff in Hs. pose proof (len_nonneg scratch).
  pose proof (len_nonneg (st_input s)).
  destruct (ReadPayload_loop_short consume (Z.to_nat n) scratch c s Hc Ho)
    as (e & st & E & Hst); [lia | lia |].
  exists e, st. split; [| done]. unfold ReadPayload.
  rewrite bool_decide_eq_false_2 by done. rewrite loop_loop_nat.
  replace (Pos.to_nat (Z.to_pos (n + 1))) with (Datatypes.S (Z.to_nat n)) by lia.
  rewrite Z2Nat.id in E by lia. by rewrite E.
Qed.
End Payload.

(** A consumer that records the pieces it is given. *)
Definition record_chunks (acc : list bytes) (b : bytes) : option error * list bytes :=
  (None, acc ++ [b]).

Lemma record_chunks_accepting : accepting record_chunks.
Proof. done. Qed.

Lemma feed_record_chunks acc bs : feed (Some record_chunks) acc bs = acc ++ bs.
Proof.
  unfold feed. revert acc. induction bs as [|b bs IH]; intros acc; simpl.
  - by rewrite app_nil_r.
  - by rewrite IH, <- app_assoc.
Qed.

Section Framing.
Context {S : Type} `{StreamModel S}.
Implicit Types s : S.

(** [WriteMessage] on a live stream appends exactly the wire image. *)
Lemma WriteMessage_ok s h payload buf :
  st_open s -> length buf = 16%nat ->
  (h.(h_Length) = 0 \/ h.(h_Length) = len payload) -> exists buf' s',
  WriteMessage s h payload buf = (None, buf', s') /\ length buf' = 16%nat /\
  st_output s' = st_output s ++ message_bytes h payload /\
  st_input s' = st_input s /\ st_open s'.
Proof.
  intros Ho Hb Hl. unfold WriteMessage, message_bytes.
  replace (bool_decide (h_Length h <> 0) && bool_decide (h_Length h <> len payload))
    with false by (repeat case_bool_decide; simpl; try done; lia).
  set (h' := MkHeader _ _ _ _).
  destruct (WriteHeader_ok s h' buf Ho Hb) as (s1 & -> & Ho1 & Hi1 & Hop1).
  case_bool_decide as Hz.
  - apply len_nil_iff in Hz as ->. exists (header_bytes h'), s1. rewrite app_nil_r.
    done.
  - destruct (st_write s1 payload Hop1) as (s2 & -> & Ho2 & Hi2 & Hop2).
    exists (header_bytes h'), s2. rewrite Ho2, Ho1, <- app_assoc. split_and!; try done.
    congruence.
Qed.

(** Any disagreement between header and payload is refused untouched. *)
Lemma WriteMessage_mismatch s h payload buf :
  h.(h_Length) <> 0 -> h.(h_Length) <> len payload ->
  WriteMessage s h payload buf = (Some (perr ErrPayloadLength), buf, s).
Proof.
  intros H1 H2. unfold WriteMessage. rewrite !bool_decide_eq_true_2 by done. done.
Qed.
End Framing.

(** ReadPayload returns for every declared length. If the stream holds that many bytes
    they are handed to the consumer in non-empty chunks no larger than the scratch
    buffer and the rest stays unread; otherwise it fails with an input/output error
    after the last byte. *)
Theorem ReadPayload_streams_payload {S} `{StreamModel S} (s : S) n scratch :
  st_open s -> scratch <> [] -> 0 <= n ->
  (n <= len (st_input s) -> exists bs scratch' s',
     ReadPayload s n scratch (Some record_chunks) [] = (None, MkPayload 0 scratch' bs s') /\
     concat bs = take (Z.to_nat n) (st_input s) /\
     Forall (fun b => 0 < len b <= len scratch) bs /\
     st_input s' = drop (Z.to_nat n) (st_input s)) /\
  (len (st_input s) < n -> exists e st,
     ReadPayload s n scratch (Some record_chunks) [] = (Some (ioerr e), st) /\
     st_input st.(pl_stream) = []).
Proof.
  intros Ho Hs Hn. split; intros Hl.
  - destruct (ReadPayload_ok record_chunks (Some record_chunks) n scratch [] s)
      as (bs & sc' & s' & E & Hc & Hf & _ & Hi & _ & _); try done.
    { right. split; [done | apply record_chunks_accepting]. }
    exists bs, sc', s'. by rewrite E, feed_record_chunks.
  - destruct (ReadPayload_short record_chunks (Some record_chunks) n scratch [] s)
      as (e & st & E & Hi & _); try done; [| eauto].
    right. split; [done | apply record_chunks_accepting].
Qed.

Lemma ReadPayload_streams_payload_witness :
  let s := MkCanned (str "abcdefg") [] false None None 2 in
  exists bs sc' s', ReadPayload s 5 [0; 0; 0] (Some record_chunks) [] = (None, MkPayload 0 sc' bs s') /\
    concat bs = str "abcde" /\ st_input s' = str "fg".
Proof.
  intros s.
  destruct (ReadPayload_streams_payload s 5 [0; 0; 0]) as [HA _]; [done | done | lia |].
  destruct HA as (bs & sc' & s' & E & Hc & _ & Hi); [vm_compute; discriminate |].
  exists bs, sc', s'. split_and!; [exact E | exact Hc | exact Hi].
Defined.

(** C33: A message written with WriteMessage on one transport and read with ReadHeader
    and ReadPayload from another, in fragments of any size and through a scratch
    buffer of any size, arrives with its header, the length filled in, and its
    payload, and leaves the rest of the stream unread. *)
Theorem framing_roundtrip {S T} `{StreamModel S} `{StreamModel T}
    (w : S) (r : T) h payload buf scratch rest :
  st_open w -> st_open r -> length buf = 16%nat -> scratch <> [] ->
  wf_header h -> is_u64 (len payload) ->
  (h.(h_Length) = 0 \/ h.(h_Length) = len payload) ->
  exists buf' w' wire,
    WriteMessage w h payload buf = (None, buf', w') /\
    st_output w' = st_output w ++ wire /\
    (st_input r = wire ++ rest -> exists h' r1 bs scratch' r2,
       ReadHeader r = (h', None, r1) /\
       h' = MkHeader h.(h_Type) h.(h_Control) h.(h_Parameter) (len payload) /\
       ReadPayload r1 h'.(h_Length) scratch (Some record_chunks) []
         = (None, MkPayload 0 scratch' bs r2) /\
       concat bs = payload /\ st_input r2 = rest).
Proof.
  intros Hw Hr Hb Hs (Ht & Hc & Hp & _) Hu Hl.
  destruct (WriteMessage_ok w h payload buf Hw Hb Hl) as (buf' & w' & E & _ & Hout & _ & _).
  exists buf', w', (message_bytes h payload). split_and!; [done | done |]. intros Hi.
  unfold message_bytes in Hi. rewrite <- app_assoc in Hi. set (h' := MkHeader _ _ _ _) in Hi.
  destruct (ReadHeader_ok r h' (payload ++ rest)) as (r1 & E1 & Hi1 & _ & Ho1); try done.
  destruct (ReadPayload_ok record_chunks (Some record_chunks) (len payload) scratch [] r1)
    as (bs & sc' & r2 & E2 & Hcat & _ & _ & Hi2 & _ & _); try done.
  { right. split; [done | apply record_chunks_accepting]. }
  { rewrite Hi1, len_app. pose proof (len_nonneg payload). pose proof (len_nonneg rest). lia. }
  exists h', r1, bs, sc', r2. change (h_Length h') with (len payload).
  rewrite E2, feed_record_chunks.
  unfold len in Hcat, Hi2. rewrite Nat2Z.id, Hi1 in *.
  rewrite take_app_length in Hcat. rewrite drop_app_length in Hi2. done.
Qed.

Lemma framing_roundtrip_witness :
  let h := MkHeader DataEnd 0 InitialMessageID 0 in
  let wire := message_bytes h (str "*IDN?") in
  exists h' r1 bs scratch' r2,
    ReadHeader (MkCanned (wire ++ [1; 2]) [] false None None 3) = (h', None, r1) /\
    ReadPayload r1 h'.(h_Length) [0; 0] (Some record_chunks) [] = (None, MkPayload 0 scratch' bs r2) /\
    concat bs = str "*IDN?" /\ st_input r2 = [1; 2].
Proof.
  intros h wire.
  destruct (framing_roundtrip (NewCanned []) (MkCanned (wire ++ [1; 2]) [] false None None 3)
              h (str "*IDN?") (replicate 16 0) [0; 0] [1; 2])
    as (buf' & w' & wire' & E & Ho & HR);
    [done | done | done | done | solve_range | solve_range | by left |].
  - destruct HR as (h' & r1 & bs & sc' & r2 & E1 & _ & E2 & Hc & Hi).
    + vm_compute in E. injection E as <- <-. vm_compute in Ho. rewrite <- Ho. reflexivity.
    + exists h', r1, bs, sc', r2. split_and!; [exact E1 | exact E2 | exact Hc | exact Hi].
Defined.
