(* ===== verification/WireErrors.v ===== *)
(** * Errors on the wire

    The mapping from a Go error to the code a peer is told:
    [FatalCodeFor] and [ErrorCodeFor] of [src/protocol/errors.go], and
    [WireErrorFor] with the device-defined codes of [src/server/errors.go]. *)

From S2P Require Import Prelude Errors Version Constants.

Definition FatalCodeFor (err : error) : Z * bool :=
  if errors_Is err (Proto ErrInvalidPrologue) || errors_Is err (Proto ErrShortBuffer)
  then (FatalPoorlyFormedHeader, true)
  else if errors_Is err (Proto ErrProtocolVersion) then (FatalInvalidInitSequence, true)
  else (FatalUnidentified, false).

Definition ErrorCodeFor (err : error) : Z :=
  if errors_Is err (Proto ErrUnknownMessageType)
     || errors_Is err (Proto ErrReservedMessageType)
     || errors_Is err (Proto ErrWrongChannel)
  then NonFatalUnrecognizedMessageType
  else if errors_Is err (Proto ErrMessageTooLarge) then NonFatalMessageTooLarge
  else NonFatalUnidentified.

(** Bridge-specific device-defined codes. *)
Definition CodeHandshakeTimeout : Z := 128.
Definition CodeResponseTimeout : Z := 129.
Definition CodeNoListener : Z := 130.
Definition CodeNoSerialPollResponse : Z := 131.
Definition CodeUndeterminedDisposition : Z := 132.
Definition CodeInterfaceRecovering : Z := 133.

Record WireError : Type := MkWireError { we_Fatal : bool; we_FatalCode : Z; we_Code : Z }.

Definition WireErrorFor (err : error) : WireError :=
  match FatalCodeFor err with
  | (code, true) => MkWireError true code 0
  | (_, false) =>
      if errors_Is err (Srv ErrSessionNotReady)
      then MkWireError true FatalChannelsNotEstablished 0
      else if errors_Is err (Srv ErrInvalidSession) || errors_Is err (Srv ErrInvalidSubAddress)
              || errors_Is err (Srv ErrInvalidInitSequence)
      then MkWireError true FatalInvalidInitSequence 0
      else if errors_Is err (Srv ErrMaxClients)
      then MkWireError true FatalMaxClientsExceeded 0
      else if errors_Is err (Srv ErrUnrecognizedControlCode)
      then MkWireError false 0 NonFatalUnrecognizedControlCode
      else MkWireError false 0 (ErrorCodeFor err)
  end.

(** A backend failure: an error that wraps no sentinel of this program. *)
Definition backend_error (err : error) : Prop := exists text, err = Foreign text [].

(** Every error has a wire code of the standard: a fatal one a fatal code from 1 up to
    the reserved range, any other a non-fatal code below the reserved range and no
    fatal code. An error of the instrument is non-fatal and unidentified, and of the
    codec's errors exactly the prologue, short-buffer and version ones are fatal. *)
Theorem WireErrorFor_codes err :
  let w := WireErrorFor err in
  (w.(we_Fatal) = true -> FatalPoorlyFormedHeader <= w.(we_FatalCode) < FatalReservedMin) /\
  (w.(we_Fatal) = false ->
     w.(we_FatalCode) = 0 /\ NonFatalUnidentified <= w.(we_Code) < NonFatalReservedMin) /\
  (backend_error err -> w = MkWireError false 0 NonFatalUnidentified) /\
  (forall e, err = perr e ->
     w.(we_Fatal) = bool_decide (e ∈ [ErrInvalidPrologue; ErrShortBuffer; ErrProtocolVersion])).
Proof.
  split_and!.
  1,2: unfold WireErrorFor, FatalCodeFor, ErrorCodeFor; split_matches.
  - intros [text ->]. done.
  - intros e ->. by destruct e.
Qed.

Lemma WireErrorFor_codes_witness :
  backend_error (Foreign (str "timeout") []) /\
  WireErrorFor (Foreign (str "timeout") []) = MkWireError false 0 NonFatalUnidentified.
Proof.
  assert (H : backend_error (Foreign (str "timeout") [])) by (eexists; reflexivity).
  split; [exact H |]. apply (WireErrorFor_codes (Foreign (str "timeout") [])). exact H.
Defined.
