(* ===== verification/Writer.v ===== *)
(** * The message writer

    [src/server/writer.go]: a writer serves one channel, refuses a message type
    that is not legal there, and counts the bytes it has written. The stream it
    writes to is passed in and returned. *)

From S2P Require Import Prelude Errors Version Constants MessageId Stream Header Codec.
From S2P Require Import WireErrors.

Record MessageWriter : Type := MkWriter {
  mw_channel : Channel;
  mw_buf : bytes;
  mw_written : Z;
}.

(** The header buffer is an array of sixteen bytes. *)
Definition wf_writer (w : MessageWriter) : Prop := length w.(mw_buf) = 16%nat.

Definition NewMessageWriter (channel : Channel) : MessageWriter :=
  MkWriter channel (replicate 16 0) 0.

Definition MessageWriter_Channel (w : MessageWriter) : Channel := w.(mw_channel).
Definition MessageWriter_Bytes (w : MessageWriter) : Z := w.(mw_written).

Section Writer.
Context {S : Type} `{Stream S}.

Definition MessageWriter_Write (w : MessageWriter) (s : S) (h : Header) (payload : bytes)
  : option error * MessageWriter * S :=
  if negb (MessageType_LegalOn h.(h_Type) w.(mw_channel))
  then (Some (perr ErrWrongChannel), w, s)
  else match WriteMessage s h payload w.(mw_buf) with
       | (Some err, buf, s) => (Some err, MkWriter w.(mw_channel) buf w.(mw_written), s)
       | (None, buf, s) =>
           (None, MkWriter w.(mw_channel) buf
                    (uint64 (w.(mw_written) + (HeaderSize + len payload))), s)
       end.

Definition MessageWriter_WriteError (w : MessageWriter) (s : S) (code : Z) (description : bytes)
  : option error * MessageWriter * S :=
  MessageWriter_Write w s (MkHeader Error code 0 0) description.

Definition MessageWriter_WriteFatalError (w : MessageWriter) (s : S) (code : Z)
    (description : bytes) : option error * MessageWriter * S :=
  MessageWriter_Write w s (MkHeader FatalError code 0 0) description.
End Writer.

Section WriterFacts.
Context {S : Type} `{StreamModel S}.
Implicit Types s : S.

(** A legal message with a consistent length goes out whole. *)
Lemma MessageWriter_Write_ok w s h payload :
  st_open s -> wf_writer w ->
  MessageType_LegalOn h.(h_Type) w.(mw_channel) = true ->
  (h.(h_Length) = 0 \/ h.(h_Length) = len payload) -> exists w' s',
  MessageWriter_Write w s h payload = (None, w', s') /\
  st_output s' = st_output s ++ message_bytes h payload /\
  st_input s' = st_input s /\ st_open s' /\ wf_writer w' /\
  w'.(mw_channel) = w.(mw_channel) /\
  w'.(mw_written) = uint64 (w.(mw_written) + len (message_bytes h payload)).
Proof.
  intros Ho Hw Hl Hp. unfold MessageWriter_Write. rewrite Hl. simpl.
  destruct (WriteMessage_ok s h payload (mw_buf w) Ho Hw Hp)
    as (buf' & s' & -> & Hb & Hout & Hi & Ho').
  eexists _, s'. split; [reflexivity |]. simpl. split_and!; try done.
  unfold message_bytes. by rewrite len_app, len_header_bytes.
Qed.

(** A message that is not legal on the writer's channel leaves no trace. *)
Lemma MessageWriter_Write_wrong_channel w s h payload :
  MessageType_LegalOn h.(h_Type) w.(mw_channel) = false ->
  MessageWriter_Write w s h payload = (Some (perr ErrWrongChannel), w, s).
Proof. unfold MessageWriter_Write. by intros ->. Qed.
End WriterFacts.
#[export] Hint Resolve MessageWriter_Write_wrong_channel : hislip.

Lemma wf_NewMessageWriter c : wf_writer (NewMessageWriter c).
Proof. done. Qed.
#[export] Hint Resolve wf_NewMessageWriter : hislip.

(** A message writer on a live transport either writes exactly the header, with the
    payload's length, and the payload, and adds their size to its byte count modulo
    2^64; or, for a type that is not legal on its channel or a contradictory length,
    writes nothing and is unchanged. *)
Theorem MessageWriter_Write_spec {S} `{StreamModel S} (w : MessageWriter) (s : S) h payload :
  st_open s -> wf_writer w ->
  match MessageWriter_Write w s h payload with
  | (None, w', s') =>
      MessageType_LegalOn h.(h_Type) w.(mw_channel) = true /\
      st_output s' = st_output s ++ message_bytes h payload /\
      w'.(mw_written) = uint64 (w.(mw_written) + len (message_bytes h payload))
  | (Some e, w', s') =>
      s' = s /\ w' = w /\
      ((e = perr ErrWrongChannel /\ MessageType_LegalOn h.(h_Type) w.(mw_channel) = false) \/
       (e = perr ErrPayloadLength /\ h.(h_Length) <> 0 /\ h.(h_Length) <> len payload))
  end.
Proof.
  intros Ho Hw. destruct (MessageType_LegalOn (h_Type h) (mw_channel w)) eqn:El.
  2: { rewrite MessageWriter_Write_wrong_channel by done. auto. }
  destruct (decide (h.(h_Length) = 0 \/ h.(h_Length) = len payload)) as [Hd | Hd].
  - destruct (MessageWriter_Write_ok w s h payload Ho Hw El Hd)
      as (w' & s' & -> & ? & ? & ? & ? & ? & ?). done.
  - unfold MessageWriter_Write. rewrite El, WriteMessage_mismatch by (intros ?; apply Hd; auto). simpl.
    destruct w as [c b n]; simpl. split_and!; try done. right. split_and!; [done | |]; intros ?; apply Hd; auto.
Qed.

Lemma MessageWriter_Write_spec_witness :
  let w := NewMessageWriter ChannelSynchronous in
  let h := MkHeader DataEnd 0 InitialMessageID 0 in
  match MessageWriter_Write w (NewCanned []) h (str "1.5") with
  | (None, w', s') => st_output s' = message_bytes h (str "1.5") /\ w'.(mw_written) = 19
  | (Some _, _, _) => False
  end.
Proof.
  intros w h. assert (Ho : st_open (NewCanned [])) by done.
  pose proof (MessageWriter_Write_spec w (NewCanned []) h (str "1.5") Ho (wf_NewMessageWriter _)) as HW.
  exact (proj2 HW).
Defined.
