(* ===== verification/SharedWriter.v ===== *)
(** * Two goroutines on one message writer

    [Write] of [src/server/writer.go], with [WriteMessage] and [WriteHeader] of
    [src/protocol], at the granularity of what a second goroutine can come between:
    the encoding into the writer's header buffer, the two writes on the stream and the
    byte count. A [MessageWriter] holds no lock. The writer of the asynchronous channel
    is used by the asynchronous loop, for its answers, and by the synchronous one, for
    AsyncInterrupted ([sendInterrupted] in [src/server/data.go]).

    Run alone the program is [MessageWriter_Write]; two of them on one writer can split
    a payload from its header, and lose a message. *)

From S2P Require Import Prelude Interleave Errors Version Constants MessageId Stream Header Codec.
From S2P Require Import WireErrors Writer.

Section SharedWriter.
Context {S : Type} `{Stream S}.
Local Abbreviation WP := (prog (MessageWriter * S)).

Definition w_set_buf (buf : bytes) (w : MessageWriter) : MessageWriter :=
  MkWriter w.(mw_channel) buf w.(mw_written).

(** [h.Encode(buf[:])] *)
Definition w_encode (h : Header) : M (MessageWriter * S) (option error) := fun '(w, s) =>
  let (err, buf) := Header_Encode h w.(mw_buf) in (err, (w_set_buf buf w, s)).

(** [w.Write(b)] on the stream, for the bytes [b] the writer holds at that moment. *)
Definition w_send (b : MessageWriter -> bytes) : M (MessageWriter * S) (option error) := fun '(w, s) =>
  let (err, s) := stream_Write s (b w) in (err, (w, s)).

Definition w_count (n : Z) : M (MessageWriter * S) unit := modify (fun '(w, s) =>
  (MkWriter w.(mw_channel) w.(mw_buf) (uint64 (w.(mw_written) + n)), s)).

Definition p_WriteHeader (h : Header) : WP (option error) :=
  err ← act (w_encode h);
  match err with Some err => Ret (Some err) | None => act (w_send mw_buf) end.

Definition p_WriteMessage (h : Header) (payload : bytes) : WP (option error) :=
  if bool_decide (h.(h_Length) <> 0) && bool_decide (h.(h_Length) <> len payload)
  then Ret (Some (perr ErrPayloadLength))
  else
    let h := MkHeader h.(h_Type) h.(h_Control) h.(h_Parameter) (len payload) in
    err ← p_WriteHeader h;
    match err with
    | Some err => Ret (Some err)
    | None => if bool_decide (len payload = 0) then Ret None else act (w_send (fun _ => payload))
    end.

Definition p_Write (h : Header) (payload : bytes) : WP (option error) :=
  channel ← act (gets (fun '(w, _) => mw_channel w));
  if negb (MessageType_LegalOn h.(h_Type) channel) then Ret (Some (perr ErrWrongChannel))
  else
    err ← p_WriteMessage h payload;
    match err with
    | Some err => Ret (Some err)
    | None => _ ← act (w_count (HeaderSize + len payload)); Ret None
    end.

(** ** Alone *)

Lemma p_WriteHeader_alone h w s :
  run (p_WriteHeader h) (w, s)
    = let '(err, buf, s') := WriteHeader s h w.(mw_buf) in (err, (w_set_buf buf w, s')).
Proof.
  unfold p_WriteHeader, WriteHeader. rewrite run_seq, run_act. unfold w_encode at 1.
  destruct (Header_Encode h (mw_buf w)) as [[err|] buf]; [done |].
  rewrite run_act. unfold w_send. simpl. by destruct (stream_Write s buf).
Qed.

Lemma p_WriteMessage_alone h payload w s :
  run (p_WriteMessage h payload) (w, s)
    = let '(err, buf, s') := WriteMessage s h payload w.(mw_buf) in (err, (w_set_buf buf w, s')).
Proof.
  unfold p_WriteMessage, WriteMessage. destruct (_ && _); [by destruct w |]. cbv zeta.
  rewrite run_seq, p_WriteHeader_alone. destruct (WriteHeader _ _ _) as [[[err|] buf] s']; [done |].
  case_bool_decide; [done |]. rewrite run_act. unfold w_send. by destruct (stream_Write s' payload).
Qed.

Lemma p_Write_alone h payload w s :
  run (p_Write h payload) (w, s)
    = let '(err, w', s') := MessageWriter_Write w s h payload in (err, (w', s')).
Proof.
  unfold p_Write, MessageWriter_Write. rewrite run_seq, run_act. cbn [gets].
  destruct (negb _); [done |]. rewrite run_seq, p_WriteMessage_alone.
  by destruct (WriteMessage s h payload (mw_buf w)) as [[[err|] buf] s'].
Qed.
End SharedWriter.

(** ** Together *)
Section Race.
Context {S : Type} `{StreamModel S}.
Implicit Types (w : MessageWriter) (s : S).

(** The header with the length [WriteMessage] fills in. *)
Definition filled (h : Header) (payload : bytes) : Header :=
  MkHeader h.(h_Type) h.(h_Control) h.(h_Parameter) (len payload).

Lemma w_encode_ok w s h : wf_writer w ->
  w_encode h (w, s) = (None, (w_set_buf (header_bytes h) w, s)).
Proof.
  unfold wf_writer. intros Hw. unfold w_encode, Header_Encode, overlay, len, HeaderSize.
  rewrite Hw, length_header_bytes, drop_ge, app_nil_r by lia.
  by rewrite bool_decide_eq_false_2 by lia.
Qed.

Lemma w_send_ok w s b : st_open s -> exists s',
  w_send b (w, s) = (None, (w, s')) /\ st_output s' = st_output s ++ b w /\ st_open s'.
Proof.
  intros Ho. destruct (st_write s (b w) Ho) as (s' & E & Hout & _ & Ho').
  exists s'. unfold w_send. by rewrite E.
Qed.

(** What is left of a [Write] after the header. *)
Definition p_after_header (payload : bytes) (err : option error)
  : prog (MessageWriter * S) (option error) :=
  err ← match err with
        | Some err => Ret (Some err)
        | None => if bool_decide (len payload = 0) then Ret None else act (w_send (fun _ => payload))
        end;
  match err with
  | Some err => Ret (Some err)
  | None => _ ← act (w_count (HeaderSize + len payload)); Ret None
  end.

(** The checks and the encoding. *)
Lemma Write_encodes w s h payload :
  wf_writer w -> MessageType_LegalOn h.(h_Type) w.(mw_channel) = true -> h.(h_Length) = 0 ->
  rtc one_step (p_Write h payload, (w, s))
    (Act (w_send mw_buf) (p_after_header payload), (w_set_buf (header_bytes (filled h payload)) w, s)).
Proof.
  intros Hw Hl Hn. unfold p_Write, act. cbn [mbind prog_MBind prog_bind].
  eapply one_step_eq; [reflexivity |]. cbn beta. rewrite Hl. unfold p_WriteMessage. rewrite Hn.
  eapply one_step_eq; [by apply w_encode_ok | apply rtc_refl].
Qed.

(** The header: what the buffer holds by now. *)
Lemma Write_sends w s payload : st_open s -> exists s',
  rtc one_step (Act (w_send mw_buf) (p_after_header payload), (w, s)) (p_after_header payload None, (w, s')) /\
  st_output s' = st_output s ++ mw_buf w /\ st_open s'.
Proof.
  intros Ho. destruct (w_send_ok w s mw_buf Ho) as (s' & E & Hs). exists s'. split; [| done].
  eapply one_step_eq; [exact E | apply rtc_refl].
Qed.

(** The payload and the count. *)
Lemma Write_ends w s payload : st_open s -> exists w' s',
  rtc one_step (p_after_header payload None, (w, s)) (Ret None, (w', s')) /\
  st_output s' = st_output s ++ payload /\ st_open s' /\ w'.(mw_buf) = w.(mw_buf).
Proof.
  intros Ho. unfold p_after_header.
  exists (MkWriter w.(mw_channel) w.(mw_buf) (uint64 (w.(mw_written) + (HeaderSize + len payload)))).
  case_bool_decide as Hz.
  - apply len_nil_iff in Hz as ->. exists s. rewrite app_nil_r. split; [| done].
    eapply one_step_eq; [reflexivity | apply rtc_refl].
  - destruct (w_send_ok w s (fun _ => payload) Ho) as (s' & E & Hout & Ho'). exists s'. split; [| done].
    eapply one_step_eq; [exact E |]. eapply one_step_eq; [reflexivity | apply rtc_refl].
Qed.
End Race.

(** C38: Two goroutines on one message writer corrupt the channel. For any two
    messages that are legal on the channel, the second without payload, both calls can
    return without an error although the wire holds the second header between the
    first and its payload; or the second header twice and the first not at all. *)
Theorem shared_writer_corrupts {S} `{StreamModel S} (w : MessageWriter) (s : S) h1 payload h2 :
  st_open s -> wf_writer w ->
  MessageType_LegalOn h1.(h_Type) w.(mw_channel) = true -> h1.(h_Length) = 0 ->
  MessageType_LegalOn h2.(h_Type) w.(mw_channel) = true -> h2.(h_Length) = 0 ->
  let b1 := header_bytes (filled h1 payload) in
  let b2 := header_bytes (filled h2 []) in
  let ends out := exists w' s',
    rtc par_step (p_Write h1 payload, p_Write h2 [], (w, s)) (Ret None, Ret None, (w', s')) /\
    st_output s' = st_output s ++ out in
  ends (b1 ++ b2 ++ payload) /\ ends (b2 ++ b2 ++ payload).
Proof.
  intros Ho Hw Hl1 Hn1 Hl2 Hn2 b1 b2 ends.
  assert (Hwb : forall h, wf_writer (w_set_buf (header_bytes h) w)) by (intros; apply length_header_bytes).
  split.
  - destruct (Write_sends (w_set_buf b1 w) s payload Ho) as (s1 & R1 & O1 & Ho1).
    destruct (Write_sends (w_set_buf b2 (w_set_buf b1 w)) s1 [] Ho1) as (s2 & R2 & O2 & Ho2).
    destruct (Write_ends (w_set_buf b2 (w_set_buf b1 w)) s2 [] Ho2) as (w3 & s3 & R3 & O3 & Ho3 & _).
    destruct (Write_ends w3 s3 payload Ho3) as (w4 & s4 & R4 & O4 & _).
    exists w4, s4. split.
    + etrans; [by apply lift_left, Write_encodes |]. etrans; [apply lift_left, R1 |].
      etrans; [by apply lift_right, Write_encodes |]. etrans; [apply lift_right, R2 |].
      etrans; [apply lift_right, R3 |]. apply lift_left, R4.
    + rewrite O4, O3, O2, O1. by rewrite app_nil_r, <- !app_assoc.
  - set (w2 := w_set_buf b2 (w_set_buf b1 w)).
    destruct (Write_sends w2 s payload Ho) as (s1 & R1 & O1 & Ho1).
    destruct (Write_sends w2 s1 [] Ho1) as (s2 & R2 & O2 & Ho2).
    destruct (Write_ends w2 s2 [] Ho2) as (w3 & s3 & R3 & O3 & Ho3 & _).
    destruct (Write_ends w3 s3 payload Ho3) as (w4 & s4 & R4 & O4 & _).
    exists w4, s4. split.
    + etrans; [by apply lift_left, Write_encodes |]. etrans; [by apply lift_right, Write_encodes |].
      etrans; [apply lift_left, R1 |]. etrans; [apply lift_right, R2 |].
      etrans; [apply lift_right, R3 |]. apply lift_left, R4.
    + rewrite O4, O3, O2, O1. by rewrite app_nil_r, <- !app_assoc.
Qed.

(** The answer to a maximum message size, from the asynchronous loop, and
    AsyncInterrupted, from the synchronous one: the client takes the first half of the
    second header for the payload of the answer, and is out of step after it. *)
Lemma shared_writer_corrupts_witness :
  let size := MkHeader AsyncMaximumMessageSizeResponse 0 0 0 in
  let interrupted := MkHeader AsyncInterrupted 0 0xffffff00 0 in
  let payload := [0; 0; 0; 0; 0; 16; 0; 0] in
  exists w' s',
  rtc par_step (p_Write size payload, p_Write interrupted [],
                (NewMessageWriter ChannelAsynchronous, NewCanned []))
    (Ret None, Ret None, (w', s')) /\
  st_output s' = [72; 83; 16; 0; 0; 0; 0; 0; 0; 0; 0; 0; 0; 0; 0; 8;
                  72; 83; 14; 0; 255; 255; 255; 0; 0; 0; 0; 0; 0; 0; 0; 0] ++ payload.
Proof.
  intros size interrupted payload.
  exact (proj1 (shared_writer_corrupts (NewMessageWriter ChannelAsynchronous) (NewCanned [])
    size payload interrupted
    (conj eq_refl (conj eq_refl eq_refl) : Canned_live (NewCanned [])) eq_refl eq_refl eq_refl eq_refl eq_refl)).
Defined.
