(* ===== verification/Rmt.v ===== *)
(** * The RMT-expected tracker

    [src/server/rmt.go]: the state that lets a Synchronized Mode server detect
    that a client sent a new program message without reading the previous
    response. The second half models the client's side of the mechanism and
    shows that the two agree. *)

From S2P Require Import Prelude.

Inductive InterruptedKind : Type :=
| NotInterrupted
| InterruptedRMTMismatch
| InterruptedInputQueued.

#[export] Instance InterruptedKind_eq_dec : EqDecision InterruptedKind.
Proof. solve_decision. Defined.

Definition Interrupted_Notifies (i : InterruptedKind) : bool :=
  bool_decide (i = InterruptedInputQueued).

Definition Interrupted_String (i : InterruptedKind) : bytes :=
  str match i with
  | NotInterrupted => "not interrupted"
  | InterruptedRMTMismatch => "interrupted: RMT-delivered disagreed with RMT-expected"
  | InterruptedInputQueued => "interrupted: response terminator offered with input queued"
  end.

Record RMT : Type := MkRMT { rmt_expected : bool }.

Definition RMT_zero : RMT := MkRMT false.
Definition RMT_Expected (r : RMT) : bool := r.(rmt_expected).
Definition RMT_SentDataEnd (r : RMT) : RMT := MkRMT true.

Definition RMT_ReceivedSyncMessage (r : RMT) (rmtDelivered : bool) : InterruptedKind * RMT :=
  let mismatch := negb (eqb r.(rmt_expected) rmtDelivered) in
  let r := MkRMT false in
  if mismatch then (InterruptedRMTMismatch, r) else (NotInterrupted, r).

Definition RMT_ReceivedStatusQuery (r : RMT) (rmtDelivered : bool) : RMT :=
  if rmtDelivered then MkRMT false else r.

Definition RMT_Reset (r : RMT) : RMT := MkRMT false.

(** ** The client's half

    IVI-6.1 section 3.1.1, as quoted in [rmt.go]: the client sets the flag on
    the first flag-carrying message after it has delivered a terminator to its
    application, once per terminator. [unread] says a terminator is on its way
    to the client, [flag] that one was delivered and not yet reported, and
    [asked] that a program message is outstanding to which the server may still
    respond. A status query is a transaction: its flag reaches the server before
    the client sends anything else. *)
Record rmt_system : Type := MkSystem {
  sys_rmt : RMT;
  sys_flag : bool;
  sys_unread : bool;
  sys_asked : bool;
}.

Definition rmt_start : rmt_system := MkSystem RMT_zero false false false.

Inductive rmt_event : Type :=
| EvDataEnd
| EvDeliver
| EvSync (interrupted : InterruptedKind)
| EvStatusQuery.

(** The steps of a conforming client and server: the client sends no program
    message while a response is unread. *)
Inductive rmt_step : rmt_system -> rmt_event -> rmt_system -> Prop :=
| step_data_end r f :
    rmt_step (MkSystem r f false true) EvDataEnd (MkSystem (RMT_SentDataEnd r) f true false)
| step_deliver r f a :
    rmt_step (MkSystem r f true a) EvDeliver (MkSystem r true false a)
| step_sync r f a k r' :
    RMT_ReceivedSyncMessage r f = (k, r') ->
    rmt_step (MkSystem r f false a) (EvSync k) (MkSystem r' false false true)
| step_status r f u a :
    rmt_step (MkSystem r f u a) EvStatusQuery
      (MkSystem (RMT_ReceivedStatusQuery r f) false u a).

Inductive rmt_run : rmt_system -> list rmt_event -> rmt_system -> Prop :=
| run_nil s : rmt_run s [] s
| run_cons s e s' es s'' : rmt_step s e s' -> rmt_run s' es s'' -> rmt_run s (e :: es) s''.

(** The server expects a report exactly when a terminator is unread or
    delivered and unreported; and a response is only owed when neither holds. *)
Definition rmt_inv (s : rmt_system) : Prop :=
  s.(sys_rmt).(rmt_expected) = s.(sys_flag) || s.(sys_unread) /\
  (s.(sys_flag) && s.(sys_unread) = false) /\
  (s.(sys_asked) = true -> s.(sys_flag) || s.(sys_unread) = false).

Lemma rmt_step_inv s e s' : rmt_step s e s' -> rmt_inv s ->
  rmt_inv s' /\ (forall k, e = EvSync k -> k = NotInterrupted).
Proof.
  intros Hs (H1 & H2 & H3). destruct Hs as [r f | r f a | r f a k r' E | r f u a];
    unfold rmt_inv in *; simpl in *.
  - destruct f; [by destruct (H3 eq_refl) | done].
  - destruct f; [done |]. split; [| done]. split_and!; [done | done |].
    intros Ha. by apply H3 in Ha.
  - unfold RMT_ReceivedSyncMessage in E. rewrite orb_false_r in H1. rewrite H1, eqb_reflx in E.
    simpl in E. simplify_eq/=. split; [done |]. by intros ? [= ->].
  - split; [| done]. unfold RMT_ReceivedStatusQuery.
    destruct f, u; simpl in *; try done; split_and!; try done;
      intros Ha; by apply H3 in Ha.
Qed.

(** C23: A client that sends no program message while a response is unread, and
    reports each response it has read on its next message or status query and only
    there, is never told that it was interrupted: in every run of the server's RMT
    tracker together with such a client, each synchronous message is classified as not
    interrupted. *)
Theorem rmt_conforming_client_never_interrupted es s k :
  rmt_run rmt_start es s -> EvSync k ∈ es -> k = NotInterrupted.
Proof.
  assert (G : forall s0, rmt_inv s0 -> rmt_run s0 es s -> EvSync k ∈ es -> k = NotInterrupted).
  { intros s0 Hi Hr. induction Hr as [| s0 e s1 es s2 Hstep Hr IH]; [by intros ?%not_elem_of_nil |].
    destruct (rmt_step_inv _ _ _ Hstep Hi) as [Hi' Hk].
    intros [<- | Hin]%elem_of_cons; [by apply Hk | by apply IH]. }
  apply G. done.
Qed.

Lemma rmt_conforming_client_never_interrupted_witness :
  exists k s, rmt_run rmt_start [EvSync NotInterrupted; EvDataEnd; EvDeliver; EvSync k] s /\
    k = NotInterrupted.
Proof.
  assert (R : rmt_run rmt_start
    [EvSync NotInterrupted; EvDataEnd; EvDeliver; EvSync NotInterrupted]
    (MkSystem RMT_zero false false true)).
  { repeat (eapply run_cons; [constructor; try reflexivity |]). constructor. }
  eexists _, _. split; [exact R |].
  eapply rmt_conforming_client_never_interrupted; [exact R |].
  apply elem_of_cons. left. reflexivity.
Defined.

(** A response the client did not read is detected once. After a DataEnd went out, a
    synchronous message without the RMT-delivered flag is classified as an RMT
    mismatch, which is not notified to the client, and later messages without the flag
    are not. *)
Theorem rmt_unread_response_detected_once r flags :
  let r1 := RMT_SentDataEnd r in
  let '(first, r2) := RMT_ReceivedSyncMessage r1 false in
  let later := fold_left (fun '(ks, r) f =>
    let (k, r) := RMT_ReceivedSyncMessage r f in (ks ++ [k], r)) flags ([], r2) in
  first = InterruptedRMTMismatch /\ Interrupted_Notifies first = false /\
  (Forall (fun f => f = false) flags -> Forall (fun k => k = NotInterrupted) later.1).
Proof.
  simpl. split_and!; [done | done |]. intros Hf.
  assert (G : forall ks, Forall (fun k => k = NotInterrupted) ks ->
    Forall (fun k => k = NotInterrupted) (fold_left (fun '(ks, r) f =>
      let (k, r) := RMT_ReceivedSyncMessage r f in (ks ++ [k], r)) flags (ks, MkRMT false)).1).
  { induction Hf as [| f fs -> _ IH]; intros ks Hks; simpl; [done |].
    apply IH. apply Forall_app; split; [done | by constructor]. }
  apply G. constructor.
Qed.

Lemma rmt_unread_response_detected_once_witness :
  Forall (fun k => k = NotInterrupted) (fold_left (fun '(ks, r) f =>
    let (k, r) := RMT_ReceivedSyncMessage r f in (ks ++ [k], r)) [false; false] ([], MkRMT false)).1.
Proof.
  apply (rmt_unread_response_detected_once RMT_zero [false; false]). repeat constructor.
Defined.
