(* ===== verification/Status.v ===== *)
(** * The status byte

    [src/server/status.go]: the message-available bit of Synchronized Mode and
    the bridge-side request-service latch. *)

From S2P Require Import Prelude MessageId.

Definition StatusMAV : Z := 16.
Definition StatusRQS : Z := 64.

Record Status : Type := MkStatus {
  lastReceived : MessageID;
  responsePending : bool;
  srqLatched : bool;
  srqStatus : Z;
  status_started : bool;
}.

Definition Status_zero : Status := MkStatus 0 false false 0 false.

Definition Status_Reset (s : Status) : Status :=
  MkStatus StatusQueryInitialMessageID false false 0 true.

Definition NewStatus : Status := Status_Reset Status_zero.

Definition Status_ReceivedSyncMessage (s : Status) (id : MessageID) : Status :=
  let s := if negb s.(status_started) then Status_Reset s else s in
  MkStatus id s.(responsePending) s.(srqLatched) s.(srqStatus) s.(status_started).

(** [LastReceived] may reset a tracker that was never started. *)
Definition Status_LastReceived (s : Status) : MessageID * Status :=
  let s := if negb s.(status_started) then Status_Reset s else s in
  (s.(lastReceived), s).

Definition Status_SetResponsePending (s : Status) (pending : bool) : Status :=
  MkStatus s.(lastReceived) pending s.(srqLatched) s.(srqStatus) s.(status_started).

Definition Status_ResponsePending (s : Status) : bool := s.(responsePending).

Definition Status_LatchServiceRequest (s : Status) (status : Z) : bool * Status :=
  if s.(srqLatched) then (false, s)
  else (true, MkStatus s.(lastReceived) s.(responsePending) true status s.(status_started)).

Definition Status_ServiceRequestOutstanding (s : Status) : bool := s.(srqLatched).
Definition Status_ServiceRequestStatus (s : Status) : Z := s.(srqStatus).

Definition Status_TakeServiceRequest (s : Status) : bool * Status :=
  (s.(srqLatched), MkStatus s.(lastReceived) s.(responsePending) false 0 s.(status_started)).

Definition Status_MAV (s : Status) (queryID : MessageID) (rmtDelivered : bool) : bool * Status :=
  let (last, s) := Status_LastReceived s in
  if bool_decide (queryID <> last) then (false, s)
  else if rmtDelivered then (false, s)
  else (s.(responsePending), s).

Definition Status_Byte (s : Status) (device : Z) (queryID : MessageID) (rmtDelivered : bool)
  : Z * Status :=
  let (mav, s) := Status_MAV s queryID rmtDelivered in
  if mav then (Z.lor device StatusMAV, s) else (Z.ldiff device StatusMAV, s).

(** ** Facts *)

Lemma Status_MAV_started s q d :
  s.(status_started) = true ->
  Status_MAV s q d = (bool_decide (q = s.(lastReceived)) && negb d && s.(responsePending), s).
Proof.
  intros Hs. unfold Status_MAV, Status_LastReceived. rewrite Hs. simpl.
  repeat case_bool_decide; destruct d; done.
Qed.

Lemma testbit_StatusMAV i : 0 <= i -> Z.testbit StatusMAV i = bool_decide (i = 4).
Proof.
  intros Hi. change StatusMAV with (2 ^ 4). rewrite Z.pow2_bits_eqb by lia.
  destruct (Z.eqb_spec 4 i); case_bool_decide; lia || done.
Qed.

Lemma u8_of_bits z : 0 <= z -> (forall i, 8 <= i -> Z.testbit z i = false) -> is_u8 z.
Proof.
  intros Hz Hb. split; [done |]. destruct (Z.eq_dec z 0) as [-> | Hne]; [lia |].
  apply Z.log2_lt_pow2; [lia |]. destruct (Z.lt_ge_cases (Z.log2 z) 8) as [|Hge]; [done |].
  apply Hb in Hge. rewrite Z.bit_log2 in Hge by lia. done.
Qed.

(** The reported byte: the message-available bit is the server's, every other
    bit is the instrument's. *)
Lemma Status_Byte_bits s device q d :
  s.(status_started) = true -> is_u8 device ->
  let b := (Status_Byte s device q d).1 in
  is_u8 b /\
  (forall i, 0 <= i -> i <> 4 -> Z.testbit b i = Z.testbit device i) /\
  (Z.testbit b 4 = true <->
     q = s.(lastReceived) /\ d = false /\ s.(responsePending) = true) /\
  (Status_Byte s device q d).2 = s.
Proof.
  intros Hs Hd. unfold Status_Byte. rewrite Status_MAV_started by done.
  set (m := bool_decide (q = lastReceived s) && negb d && responsePending s).
  cbv zeta beta iota.
  assert (Hm : m = true <-> q = s.(lastReceived) /\ d = false /\ s.(responsePending) = true).
  { subst m. rewrite !andb_true_iff, bool_decide_eq_true, negb_true_iff. tauto. }
  rewrite <- Hm.
  assert (Hbit : forall i, 0 <= i -> Z.testbit
    (if m then Z.lor device StatusMAV else Z.ldiff device StatusMAV) i =
    if bool_decide (i = 4) then m else Z.testbit device i).
  { intros i Hi. destruct m; rewrite ?Z.lor_spec, ?Z.ldiff_spec, testbit_StatusMAV by done;
      case_bool_decide; btauto. }
  assert (Hz : 0 <= if m then Z.lor device StatusMAV else Z.ldiff device StatusMAV).
  { destruct Hd. destruct m; [apply Z.lor_nonneg | apply Z.ldiff_nonneg]; unfold StatusMAV; lia. }
  assert (Hu : is_u8 (if m then Z.lor device StatusMAV else Z.ldiff device StatusMAV)).
  { apply u8_of_bits; [done |]. intros i Hi. rewrite Hbit by lia. case_bool_decide; [lia |].
    by apply (testbit_above 8). }
  destruct m; cbn [fst snd]; (split_and!; [done | | by rewrite Hbit | done]);
    intros i Hi Hne; rewrite Hbit by done; by case_bool_decide.
Qed.

(** ** Service requests coalesce *)

Inductive srq_op : Type := OpLatch (status : Z) | OpTake.

(** The new events announced and the latches taken along a sequence. *)
Fixpoint srq_run (ops : list srq_op) (s : Status) : Z * Z * Status :=
  match ops with
  | [] => (0, 0, s)
  | OpLatch st :: ops =>
      let (sent, s) := Status_LatchServiceRequest s st in
      let '(n, m, s) := srq_run ops s in (n + Z.b2z sent, m, s)
  | OpTake :: ops =>
      let (taken, s) := Status_TakeServiceRequest s in
      let '(n, m, s) := srq_run ops s in (n, m + Z.b2z taken, s)
  end.

(** C25: Service requests coalesce. Over any sequence of requests from the instrument
    and status queries, the notifications sent and the requests reported in status
    bytes balance with the latch, so starting from a clear latch a status query
    reports each notification at most once and at most one is outstanding. *)
Theorem service_requests_coalesce ops s :
  let '(sent, taken, s') := srq_run ops s in
  sent - taken = Z.b2z s'.(srqLatched) - Z.b2z s.(srqLatched) /\
  (s.(srqLatched) = false -> taken <= sent <= taken + 1).
Proof.
  assert (G : forall s, let '(sent, taken, s') := srq_run ops s in
    sent - taken = Z.b2z s'.(srqLatched) - Z.b2z s.(srqLatched)).
  { clear s. induction ops as [|[st|] ops IH]; intros s; simpl; [lia | |].
    - unfold Status_LatchServiceRequest. destruct (srqLatched s) eqn:E.
      + specialize (IH s). destruct (srq_run ops s) as [[n m] s']. rewrite E in IH. simpl in *. lia.
      + set (s1 := MkStatus _ _ _ _ _). specialize (IH s1).
        destruct (srq_run ops s1) as [[n m] s']. subst s1. simpl in *. lia.
    - set (s1 := MkStatus _ _ _ _ _). specialize (IH s1).
      destruct (srq_run ops s1) as [[n m] s']. subst s1. simpl in *. lia. }
  specialize (G s). destruct (srq_run ops s) as [[n m] s']. split; [done |].
  intros E. rewrite E in G. destruct (srqLatched s'); simpl in G; lia.
Qed.

Lemma service_requests_coalesce_witness :
  let '(sent, taken, _) := srq_run [OpLatch 0x40; OpLatch 0x41; OpTake; OpLatch 0x42] NewStatus in
  taken <= sent <= taken + 1 /\ sent = 2.
Proof.
  pose proof (service_requests_coalesce
    [OpLatch 0x40; OpLatch 0x41; OpTake; OpLatch 0x42] NewStatus) as H.
  split; [apply H; reflexivity | reflexivity].
Defined.
