(* ===== verification/Transaction.v ===== *)
(** * The synchronized transaction

    [src/server/transaction.go]: where in the request/response cycle a session
    is, and the MessageID its response is attributed to. *)

From S2P Require Import Prelude Errors MessageId.

Inductive TxState : Type :=
| TxIdle
| TxReceivingInput
| TxInputComplete
| TxResponsePending
| TxSendingResponse
| TxInterrupted
| TxClearing
| TxClosed.

#[export] Instance TxState_eq_dec : EqDecision TxState.
Proof. solve_decision. Defined.

Definition TxState_String (s : TxState) : bytes :=
  str match s with
  | TxIdle => "idle"
  | TxReceivingInput => "receiving input"
  | TxInputComplete => "input complete"
  | TxResponsePending => "response pending"
  | TxSendingResponse => "sending response"
  | TxInterrupted => "interrupted"
  | TxClearing => "clearing"
  | TxClosed => "closed"
  end.

(** The adjacency set. *)
Definition txTransitions (s : TxState) : list TxState :=
  match s with
  | TxIdle => [TxReceivingInput; TxInputComplete]
  | TxReceivingInput => [TxReceivingInput; TxInputComplete; TxInterrupted]
  | TxInputComplete => [TxResponsePending; TxIdle; TxReceivingInput; TxInterrupted]
  | TxResponsePending => [TxSendingResponse; TxIdle; TxInterrupted]
  | TxSendingResponse => [TxSendingResponse; TxIdle; TxInterrupted]
  | TxInterrupted => [TxIdle]
  | TxClearing => [TxIdle]
  | TxClosed => []
  end.

Record Transaction : Type := MkTx { tx_state : TxState; tx_id : MessageID }.

Definition Transaction_zero : Transaction := MkTx TxIdle 0.

Definition Transaction_State (t : Transaction) : TxState := t.(tx_state).
Definition Transaction_MessageID (t : Transaction) : MessageID := t.(tx_id).

Definition selfEdge (s : TxState) : bool :=
  bool_decide (s = TxReceivingInput) || bool_decide (s = TxSendingResponse).

Definition Transaction_To (t : Transaction) (next : TxState) : option error * Transaction :=
  if bool_decide (next = t.(tx_state)) && negb (selfEdge t.(tx_state))
  then (Some (serr ErrInvalidTransition), t)
  else if bool_decide (next = TxClearing) || bool_decide (next = TxClosed)
  then (None, MkTx next t.(tx_id))
  else if bool_decide (t.(tx_state) = TxClosed)
  then (Some (serr ErrInvalidTransition), t)
  else if bool_decide (next ∈ txTransitions t.(tx_state))
  then (None, MkTx next t.(tx_id))
  else (Some (serr ErrInvalidTransition), t).

Definition Transaction_BeginInput (t : Transaction) : option error * Transaction :=
  Transaction_To t TxReceivingInput.

Definition Transaction_CompleteInput (t : Transaction) (id : MessageID)
  : option error * Transaction :=
  match Transaction_To t TxInputComplete with
  | (Some err, t) => (Some err, t)
  | (None, t) => (None, MkTx t.(tx_state) id)
  end.

Definition Transaction_ExpectResponse (t : Transaction) : option error * Transaction :=
  Transaction_To t TxResponsePending.

Definition Transaction_BeginResponse (t : Transaction) : option error * Transaction :=
  Transaction_To t TxSendingResponse.

Definition Transaction_Complete (t : Transaction) : option error * Transaction :=
  match Transaction_To t TxIdle with
  | (Some err, t) => (Some err, t)
  | (None, t) => (None, MkTx t.(tx_state) NoMessageID)
  end.

Definition Transaction_Interrupt (t : Transaction) : option error * Transaction :=
  Transaction_To t TxInterrupted.

Definition Transaction_Clear (t : Transaction) : option error * Transaction :=
  Transaction_To t TxClearing.

Definition Transaction_Reset (t : Transaction) : Transaction := MkTx TxIdle NoMessageID.

Definition Transaction_Close (t : Transaction) : Transaction := MkTx TxClosed NoMessageID.

(** ** Operations as data *)

Inductive tx_op : Type :=
| OpTo (next : TxState)
| OpBeginInput
| OpCompleteInput (id : MessageID)
| OpExpectResponse
| OpBeginResponse
| OpComplete
| OpInterrupt
| OpClear
| OpReset
| OpClose.

Definition tx_apply (op : tx_op) (t : Transaction) : option error * Transaction :=
  match op with
  | OpTo next => Transaction_To t next
  | OpBeginInput => Transaction_BeginInput t
  | OpCompleteInput id => Transaction_CompleteInput t id
  | OpExpectResponse => Transaction_ExpectResponse t
  | OpBeginResponse => Transaction_BeginResponse t
  | OpComplete => Transaction_Complete t
  | OpInterrupt => Transaction_Interrupt t
  | OpClear => Transaction_Clear t
  | OpReset => (None, Transaction_Reset t)
  | OpClose => (None, Transaction_Close t)
  end.

(** ** Facts *)

(** Evaluate a transition from a known state. *)
Lemma Transaction_To_eval s id next :
  Transaction_To (MkTx s id) next =
  if (bool_decide (next ∈ txTransitions s)
      || bool_decide (next = TxClearing) && negb (bool_decide (s = TxClearing))
      || bool_decide (next = TxClosed) && negb (bool_decide (s = TxClosed)))
  then (None, MkTx next id) else (Some (serr ErrInvalidTransition), MkTx s id).
Proof. by destruct s, next. Qed.

(** The states in which the server owes the client a response. *)
Definition tx_busy (s : TxState) : bool :=
  bool_decide (s ∈ [TxInputComplete; TxResponsePending; TxSendingResponse]).

(** A run of operations, remembering the last input that was completed. *)
Fixpoint tx_run (ops : list tx_op) (t : Transaction) (last : option MessageID)
  : Transaction * option MessageID :=
  match ops with
  | [] => (t, last)
  | op :: ops =>
      match tx_apply op t with
      | (Some _, t') => tx_run ops t' last
      | (None, t') => tx_run ops t'
          match op with OpCompleteInput id => Some id | _ => last end
      end
  end.

(** A rejected operation changes nothing; a step into a busy state keeps the
    identity of the message being answered. *)
Lemma tx_apply_step op t :
  match tx_apply op t with
  | (Some e, t') => e = serr ErrInvalidTransition /\ t' = t
  | (None, t') =>
      tx_busy t'.(tx_state) = true ->
      match op with
      | OpCompleteInput id => t'.(tx_id) = id
      | OpTo TxInputComplete => True
      | _ => t'.(tx_id) = t.(tx_id) /\ tx_busy t.(tx_state) = true
      end
  end.
Proof.
  destruct t as [s id], op; simpl;
    unfold Transaction_BeginInput, Transaction_CompleteInput, Transaction_ExpectResponse,
      Transaction_BeginResponse, Transaction_Complete, Transaction_Interrupt, Transaction_Clear;
    rewrite ?Transaction_To_eval; [destruct s, next; naive_solver | by destruct s..].
Qed.

(** C24: Whatever operations are applied to a new transaction, the exported To
    included except for a bare To(TxInputComplete), which only CompleteInput makes in
    this program, while it is past its input and its response is still to come or
    being sent its MessageID is that of the last input it completed. *)
Theorem transaction_attribution ops :
  OpTo TxInputComplete ∉ ops ->
  let '(t, last) := tx_run ops Transaction_zero None in
  tx_busy t.(tx_state) = true -> last = Some t.(tx_id).
Proof.
  assert (G : forall t last, OpTo TxInputComplete ∉ ops -> (tx_busy t.(tx_state) = true -> last = Some t.(tx_id)) ->
    let '(t', last') := tx_run ops t last in
    tx_busy t'.(tx_state) = true -> last' = Some t'.(tx_id)).
  { induction ops as [|op ops IH]; intros t last Hto Hinv; simpl; [done |].
    apply not_elem_of_cons in Hto as [Hop Hto].
    pose proof (tx_apply_step op t) as Hs. destruct (tx_apply op t) as [[e|] t'].
    - destruct Hs as [_ ->]. by apply IH.
    - apply IH; [done |]. intros Hb. specialize (Hs Hb).
      destruct op as [[]| | | | | | | | |]; first [done | by rewrite Hs | destruct Hs as [-> Hb']; auto]. }
  intros Hto. by apply G.
Qed.

Lemma transaction_attribution_witness :
  let '(t, last) := tx_run [OpTo TxReceivingInput; OpCompleteInput 8; OpExpectResponse; OpCompleteInput 9]
    Transaction_zero None in
  tx_busy t.(tx_state) = true /\ last = Some 8.
Proof.
  assert (Hn : OpTo TxInputComplete ∉ [OpTo TxReceivingInput; OpCompleteInput 8; OpExpectResponse; OpCompleteInput 9])
    by (rewrite !not_elem_of_cons; split_and!; try discriminate; apply not_elem_of_nil).
  pose proof (transaction_attribution _ Hn) as H.
  vm_compute in H. split; [reflexivity | apply H; reflexivity].
Defined.

(** A transition succeeds exactly along an edge of the table, or to the clearing or
    closed state from another one; a failure changes nothing and a transition never
    changes the MessageID. *)
Theorem transaction_edges t next :
  let '(e, t') := Transaction_To t next in
  (e = None <->
     next ∈ txTransitions t.(tx_state) \/
     (next = TxClearing \/ next = TxClosed) /\ next <> t.(tx_state)) /\
  (e = None -> t'.(tx_state) = next) /\
  (e <> None -> t' = t /\ e = Some (serr ErrInvalidTransition)) /\
  t'.(tx_id) = t.(tx_id).
Proof.
  destruct t as [s id]. rewrite Transaction_To_eval. simpl.
  destruct (bool_decide (next ∈ txTransitions s)
    || bool_decide (next = TxClearing) && negb (bool_decide (s = TxClearing))
    || bool_decide (next = TxClosed) && negb (bool_decide (s = TxClosed))) eqn:E.
  all: split_and!; try done.
  - split; [intros _ | done]. rewrite !orb_true_iff, !andb_true_iff, !negb_true_iff in E.
    rewrite !bool_decide_eq_true, !bool_decide_eq_false in E.
    destruct E as [[E | [-> E]] | [-> E]]; [by left | right | right]; split; auto.
  - split; [done |]. rewrite !orb_false_iff, !andb_false_iff, !negb_false_iff in E.
    rewrite !bool_decide_eq_true, !bool_decide_eq_false in E. naive_solver.
Qed.

Lemma transaction_edges_witness :
  Transaction_To (MkTx TxClosed 5) TxIdle = (Some (serr ErrInvalidTransition), MkTx TxClosed 5) /\
  (None = Some (serr ErrInvalidTransition) -> False).
Proof.
  pose proof (transaction_edges (MkTx TxClosed 5) TxIdle) as H.
  split; [| discriminate]. vm_compute in H |- *. destruct H as (_ & _ & H & _).
  destruct H as [_ H]; [discriminate | reflexivity].
Defined.

(** The Clearing state is not reachable from itself, so a second AsyncDeviceClear
    before the first completes is refused, while a closed transaction can be cleared
    and completed. *)
Theorem clearing_is_not_always_reachable id :
  Transaction_Clear (MkTx TxClearing id) = (Some (serr ErrInvalidTransition), MkTx TxClearing id) /\
  Transaction_Clear (MkTx TxClosed id) = (None, MkTx TxClearing id) /\
  (Transaction_Complete (MkTx TxClearing id)) = (None, MkTx TxIdle NoMessageID).
Proof. done. Qed.
