(* ===== verification/Policy.v ===== *)
(** * Response policies

    [src/server/policy.go]: the incremental classification of a program message
    as expecting a response or not. [SCPIQueryPolicy] is a lexer that looks for
    a question mark outside quoted strings and definite-length blocks. *)

From S2P Require Import Prelude.

Inductive Disposition : Type := NoResponseExpected | ResponseExpected | Unknown.
#[export] Instance Disposition_eq_dec : EqDecision Disposition.
Proof. solve_decision. Defined.

Definition Disposition_String (d : Disposition) : bytes :=
  str match d with
  | NoResponseExpected => "no response expected"
  | ResponseExpected => "response expected"
  | Unknown => "unknown"
  end.

Inductive scpiState : Type :=
| scpiNormal
| scpiString
| scpiStringQuote
| scpiHash
| scpiBlockLen
| scpiBlockData.
#[export] Instance scpiState_eq_dec : EqDecision scpiState.
Proof. solve_decision. Defined.

Record SCPIQueryPolicy : Type := MkSCPI {
  scpi_found : bool;
  scpi_state : scpiState;
  scpi_quote : Z;
  scpi_digits : Z;
  scpi_length : Z;
  scpi_remain : Z;
}.

Definition NewSCPIQueryPolicy : SCPIQueryPolicy := MkSCPI false scpiNormal 0 0 0 0.

Definition SCPIQueryPolicy_Reset (p : SCPIQueryPolicy) : SCPIQueryPolicy := NewSCPIQueryPolicy.

Definition SCPIQueryPolicy_Disposition (p : SCPIQueryPolicy) : Disposition :=
  if p.(scpi_found) then ResponseExpected else NoResponseExpected.

(** ASCII codes of the characters the lexer distinguishes. *)
Definition ch_query : Z := 63.
Definition ch_squote : Z := 39.
Definition ch_dquote : Z := 34.
Definition ch_hash : Z := 35.
Definition ch_0 : Z := 48.
Definition ch_1 : Z := 49.
Definition ch_9 : Z := 57.

(** One round of the loop of [Feed]: the policy and the rest of the chunk from
    index [i]. [inr] leaves the loop. *)
Definition Feed_round (st : SCPIQueryPolicy * bytes)
  : SCPIQueryPolicy * bytes + SCPIQueryPolicy :=
  let (p, rest) := st in
  match rest with
  | [] => inr p
  | c :: tl =>
      if p.(scpi_found) then inr p
      else match p.(scpi_state) with
      | scpiNormal =>
          if bool_decide (c = ch_query)
          then inl (MkSCPI true scpiNormal p.(scpi_quote) p.(scpi_digits) p.(scpi_length)
                      p.(scpi_remain), tl)
          else if bool_decide (c = ch_squote) || bool_decide (c = ch_dquote)
          then inl (MkSCPI p.(scpi_found) scpiString c p.(scpi_digits) p.(scpi_length)
                      p.(scpi_remain), tl)
          else if bool_decide (c = ch_hash)
          then inl (MkSCPI p.(scpi_found) scpiHash p.(scpi_quote) p.(scpi_digits) p.(scpi_length)
                      p.(scpi_remain), tl)
          else inl (p, tl)
      | scpiString =>
          if bool_decide (c = p.(scpi_quote))
          then inl (MkSCPI p.(scpi_found) scpiStringQuote p.(scpi_quote) p.(scpi_digits)
                      p.(scpi_length) p.(scpi_remain), tl)
          else inl (p, tl)
      | scpiStringQuote =>
          if bool_decide (c = p.(scpi_quote))
          then inl (MkSCPI p.(scpi_found) scpiString p.(scpi_quote) p.(scpi_digits)
                      p.(scpi_length) p.(scpi_remain), tl)
          else inl (MkSCPI p.(scpi_found) scpiNormal 0 p.(scpi_digits) p.(scpi_length)
                      p.(scpi_remain), rest)
      | scpiHash =>
          if bool_decide (ch_1 <= c) && bool_decide (c <= ch_9)
          then inl (MkSCPI p.(scpi_found) scpiBlockLen p.(scpi_quote) (c - ch_0) 0
                      p.(scpi_remain), tl)
          else inl (MkSCPI p.(scpi_found) scpiNormal p.(scpi_quote) p.(scpi_digits)
                      p.(scpi_length) p.(scpi_remain), rest)
      | scpiBlockLen =>
          if bool_decide (c < ch_0) || bool_decide (ch_9 < c)
          then inl (MkSCPI p.(scpi_found) scpiNormal p.(scpi_quote) p.(scpi_digits)
                      p.(scpi_length) p.(scpi_remain), rest)
          else
            let length := uint64 (p.(scpi_length) * 10 + (c - ch_0)) in
            let digits := p.(scpi_digits) - 1 in
            if bool_decide (digits = 0)
            then inl (MkSCPI p.(scpi_found)
                        (if bool_decide (length = 0) then scpiNormal else scpiBlockData)
                        p.(scpi_quote) digits length length, tl)
            else inl (MkSCPI p.(scpi_found) scpiBlockLen p.(scpi_quote) digits length
                        p.(scpi_remain), tl)
      | scpiBlockData =>
          let available := len rest in
          let skip := Z.min p.(scpi_remain) available in
          let remain := p.(scpi_remain) - skip in
          inl (MkSCPI p.(scpi_found)
                 (if bool_decide (remain = 0) then scpiNormal else scpiBlockData)
                 p.(scpi_quote) p.(scpi_digits) p.(scpi_length) remain,
               drop (Z.to_nat skip) rest)
      end
  end.

(** A byte is re-examined at most once, so twice the length is enough rounds;
    see [Feed_loop]. *)
Definition SCPIQueryPolicy_Feed (p : SCPIQueryPolicy) (chunk : bytes) : SCPIQueryPolicy :=
  match loop_nat (2 * length chunk + 1) Feed_round (p, chunk) with
  | inr p => p
  | inl (p, _) => p
  end.

(** The interface, with its three implementations. The two constant policies
    have no state. *)
Inductive ResponsePolicy : Type :=
| PolicySCPI (p : SCPIQueryPolicy)
| PolicyAlwaysRead
| PolicyNeverRead.

Definition Policy_Feed (p : ResponsePolicy) (chunk : bytes) : ResponsePolicy :=
  match p with
  | PolicySCPI p => PolicySCPI (SCPIQueryPolicy_Feed p chunk)
  | PolicyAlwaysRead => PolicyAlwaysRead
  | PolicyNeverRead => PolicyNeverRead
  end.

Definition Policy_Disposition (p : ResponsePolicy) : Disposition :=
  match p with
  | PolicySCPI p => SCPIQueryPolicy_Disposition p
  | PolicyAlwaysRead => ResponseExpected
  | PolicyNeverRead => NoResponseExpected
  end.

Definition Policy_Reset (p : ResponsePolicy) : ResponsePolicy :=
  match p with
  | PolicySCPI p => PolicySCPI (SCPIQueryPolicy_Reset p)
  | PolicyAlwaysRead => PolicyAlwaysRead
  | PolicyNeverRead => PolicyNeverRead
  end.

(** ** The reference lexer

    One byte at a time, without look-ahead or bulk skipping. *)
Definition scpi_normal (p : SCPIQueryPolicy) (c : Z) : SCPIQueryPolicy :=
  let 'MkSCPI f _ q d l r := p in
  if bool_decide (c = ch_query) then MkSCPI true scpiNormal q d l r
  else if bool_decide (c = ch_squote) || bool_decide (c = ch_dquote)
  then MkSCPI f scpiString c d l r
  else if bool_decide (c = ch_hash) then MkSCPI f scpiHash q d l r
  else MkSCPI f scpiNormal q d l r.

Definition scpi_step (p : SCPIQueryPolicy) (c : Z) : SCPIQueryPolicy :=
  let 'MkSCPI f s q d l r := p in
  if f then p
  else match s with
  | scpiNormal => scpi_normal p c
  | scpiString => if bool_decide (c = q) then MkSCPI f scpiStringQuote q d l r else p
  | scpiStringQuote =>
      if bool_decide (c = q) then MkSCPI f scpiString q d l r
      else scpi_normal (MkSCPI f scpiNormal 0 d l r) c
  | scpiHash =>
      if bool_decide (ch_1 <= c <= ch_9) then MkSCPI f scpiBlockLen q (c - ch_0) 0 r
      else scpi_normal p c
  | scpiBlockLen =>
      if bool_decide (ch_0 <= c <= ch_9) then
        let v := l * 10 + (c - ch_0) in
        if bool_decide (d = 1)
        then MkSCPI f (if bool_decide (v = 0) then scpiNormal else scpiBlockData) q 0 v v
        else MkSCPI f scpiBlockLen q (d - 1) v r
      else scpi_normal p c
  | scpiBlockData =>
      MkSCPI f (if bool_decide (r = 1) then scpiNormal else scpiBlockData) q d l (r - 1)
  end.

Definition scpi_scan (p : SCPIQueryPolicy) (b : bytes) : SCPIQueryPolicy :=
  fold_left scpi_step b p.

(** The lexer's invariant: the number of length digits still to come bounds the
    length read so far, and a block being skipped has bytes left. *)
Definition wf_scpi (p : SCPIQueryPolicy) : Prop :=
  match p.(scpi_state) with
  | scpiBlockLen =>
      1 <= p.(scpi_digits) <= 9 /\ 0 <= p.(scpi_length) < 10 ^ (9 - p.(scpi_digits))
  | scpiBlockData => 0 < p.(scpi_remain) < 10 ^ 9
  | _ => True
  end.

(** ** [Feed] is the reference lexer *)

Lemma wf_scpi_normal p c : wf_scpi (scpi_normal p c).
Proof. destruct p. unfold scpi_normal. by repeat case_match. Qed.
#[export] Hint Resolve wf_scpi_normal : hislip.

(** One more digit keeps the accumulated length within its bound. *)
Lemma block_length_step l d c :
  1 <= d <= 9 -> 0 <= l < 10 ^ (9 - d) -> ch_0 <= c <= ch_9 ->
  0 <= l * 10 + (c - ch_0) < 10 ^ (9 - (d - 1)) /\ 10 ^ (9 - (d - 1)) <= 10 ^ 9.
Proof.
  intros Hd Hl Hc. replace (9 - (d - 1)) with (Z.succ (9 - d)) by lia. unfold ch_0, ch_9 in *.
  split; [rewrite Z.pow_succ_r by lia; lia |]. apply Z.pow_le_mono_r; lia.
Qed.

Lemma wf_scpi_step p c : wf_scpi p -> wf_scpi (scpi_step p c).
Proof.
  intros Hp. destruct p as [f s q d l r]. unfold scpi_step. destruct f; [done |].
  destruct s; auto with hislip; unfold wf_scpi in Hp; simpl in Hp.
  - by case_bool_decide.
  - case_bool_decide; auto with hislip.
  - case_bool_decide; auto with hislip. unfold wf_scpi; simpl. unfold ch_0, ch_1, ch_9 in *.
    pose proof (Z.pow_pos_nonneg 10 (9 - (c - 48))). lia.
  - case_bool_decide as Hc; auto with hislip. destruct Hp as [Hd Hl].
    destruct (block_length_step l d c Hd Hl Hc) as [Hv Hle]. case_bool_decide as Hd1.
    + subst d. unfold wf_scpi; simpl. case_bool_decide; simpl; [done | lia].
    + unfold wf_scpi; simpl. lia.
  - unfold wf_scpi; simpl. case_bool_decide; simpl; [done | lia].
Qed.
#[export] Hint Resolve wf_scpi_step : hislip.

Lemma wf_scpi_scan b p : wf_scpi p -> wf_scpi (scpi_scan p b).
Proof.
  unfold scpi_scan. revert p. induction b; simpl; auto with hislip.
Qed.

Lemma scpi_scan_app p a b : scpi_scan p (a ++ b) = scpi_scan (scpi_scan p a) b.
Proof. apply fold_left_app. Qed.

Lemma scpi_scan_found p b : p.(scpi_found) = true -> scpi_scan p b = p.
Proof.
  intros Hf. induction b as [|c b IH]; [done |]. unfold scpi_scan in *. simpl.
  destruct p; simpl in Hf; subst. done.
Qed.

(** Inside a block every byte only counts down. *)
Lemma scpi_scan_block q d l r b :
  0 < len b <= r ->
  scpi_scan (MkSCPI false scpiBlockData q d l r) b =
  MkSCPI false (if bool_decide (r - len b = 0) then scpiNormal else scpiBlockData) q d l (r - len b).
Proof.
  revert r. induction b as [|c b IH]; intros r Hr; [unfold len in Hr; simpl in Hr; lia |].
  unfold scpi_scan in *. cbn [fold_left scpi_step].
  assert (El : len (c :: b) = len b + 1) by (unfold len; simpl; lia). rewrite El in *.
  destruct (decide (len b = 0)) as [Hb | Hb].
  - rewrite Hb. apply len_nil_iff in Hb as ->. simpl.
    repeat case_bool_decide; lia || done.
  - rewrite (bool_decide_eq_false_2 (r = 1)) by (pose proof (len_nonneg b); lia).
    rewrite IH by (pose proof (len_nonneg b); lia).
    replace (r - 1 - len b) with (r - (len b + 1)) by lia. done.
Qed.

(** The outcome of one round: leave, consume a byte, look at a byte twice, or
    skip part of a block. *)
Lemma Feed_round_step p c tl :
  wf_scpi p -> p.(scpi_found) = false ->
  p.(scpi_state) <> scpiBlockData ->
  Feed_round (p, c :: tl) = inl (scpi_step p c, tl) \/
  exists p', Feed_round (p, c :: tl) = inl (p', c :: tl) /\
    Feed_round (p', c :: tl) = inl (scpi_step p c, tl).
Proof.
  intros Hw Hf Hs. destruct p as [f s q d l r]; simpl in *; subst f.
  destruct s; simpl; try done.
  - left. repeat case_match; done.
  - left. by case_bool_decide.
  - case_bool_decide; [by left | right]. eexists. split; [done |]. simpl. repeat case_match; done.
  - destruct (decide (ch_1 <= c <= ch_9)) as [Hc | Hc].
    + left. rewrite !bool_decide_eq_true_2 by lia. done.
    + right. rewrite (bool_decide_eq_false_2 (ch_1 <= c <= ch_9)) by done.
      replace (bool_decide (ch_1 <= c) && bool_decide (c <= ch_9)) with false
        by (repeat case_bool_decide; simpl; lia || done).
      eexists. split; [done |]. simpl. repeat case_match; done.
  - destruct Hw as [Hd Hl]. simpl in Hd, Hl.
    destruct (decide (ch_0 <= c <= ch_9)) as [Hc | Hc].
    + left. rewrite (bool_decide_eq_true_2 (ch_0 <= c <= ch_9)) by done.
      rewrite !bool_decide_eq_false_2 by lia. simpl.
      destruct (block_length_step l d c Hd Hl Hc) as [Hv Hle].
      rewrite uint64_id by u_lia.
      repeat case_bool_decide; try lia; try done; by subst.
    + right. rewrite (bool_decide_eq_false_2 (ch_0 <= c <= ch_9)) by done.
      replace (bool_decide (c < ch_0) || bool_decide (ch_9 < c)) with true
        by (repeat case_bool_decide; simpl; lia || done).
      eexists. split; [done |]. simpl. repeat case_match; done.
Qed.

(** Skipping in bulk is stepping through the skipped bytes. *)
Lemma Feed_round_block p c tl :
  wf_scpi p -> p.(scpi_found) = false -> p.(scpi_state) = scpiBlockData ->
  exists k p', (0 < k)%nat /\ Feed_round (p, c :: tl) = inl (p', drop k (c :: tl)) /\
    wf_scpi p' /\ scpi_scan p (c :: tl) = scpi_scan p' (drop k (c :: tl)).
Proof.
  intros Hw Hf Hs. destruct p as [f s q d l r]; simpl in Hf, Hs; subst f s.
  unfold wf_scpi in Hw; simpl in Hw.
  set (b := c :: tl). assert (Hb : 0 < len b) by (unfold b, len; simpl; lia).
  set (k := Z.to_nat (Z.min r (len b))).
  assert (Hlt : len (take k b) = Z.min r (len b))
    by (unfold len; rewrite length_take; unfold len in *; lia).
  eexists k, _. split; [lia |]. split; [done |]. split.
  - unfold wf_scpi; simpl. case_bool_decide; simpl; [done | lia].
  - assert (E : forall p, scpi_scan p b = scpi_scan (scpi_scan p (take k b)) (drop k b))
      by (intros; by rewrite <- scpi_scan_app, take_drop).
    rewrite E, scpi_scan_block by lia. by rewrite Hlt.
Qed.

Lemma Feed_loop p b :
  wf_scpi p -> loop_nat (2 * length b + 1) Feed_round (p, b) = inr (scpi_scan p b).
Proof.
  remember (length b) as n eqn:Hn. revert p b Hn.
  induction (lt_wf n) as [n _ IH]. intros p b -> Hw. destruct b as [|c tl]; [done |].
  destruct (scpi_found p) eqn:Hf.
  { rewrite scpi_scan_found by done. simpl. by rewrite Hf. }
  replace (2 * length (c :: tl) + 1)%nat with (2 + (2 * length tl + 1))%nat by (simpl; lia).
  assert (Htl : loop_nat (2 * length tl + 1) Feed_round (scpi_step p c, tl)
    = inr (scpi_scan p (c :: tl))).
  { change (scpi_scan p (c :: tl)) with (scpi_scan (scpi_step p c) tl).
    apply (IH (length tl)); auto with hislip; simpl; lia. }
  destruct (decide (p.(scpi_state) = scpiBlockData)) as [Hs | Hs].
  - destruct (Feed_round_block p c tl Hw Hf Hs) as (k & p' & Hk & E & Hw' & ->).
    change (loop_nat (2 + (2 * length tl + 1)) Feed_round (p, c :: tl)) with
      (loop_bind (Feed_round (p, c :: tl)) (loop_nat (1 + (2 * length tl + 1)) Feed_round)).
    rewrite E. cbn [loop_bind]. eapply loop_nat_enough;
      [| apply (IH (length (drop k (c :: tl)))); [| done | done]];
      rewrite length_drop; simpl; lia.
  - change (loop_nat (2 + (2 * length tl + 1)) Feed_round (p, c :: tl)) with
      (loop_bind (Feed_round (p, c :: tl)) (fun a =>
         loop_bind (Feed_round a) (loop_nat (2 * length tl + 1) Feed_round))).
    destruct (Feed_round_step p c tl Hw Hf Hs) as [E | (p' & E & E')]; rewrite E; cbn [loop_bind].
    + apply (loop_nat_enough (2 * length tl + 1) (1 + (2 * length tl + 1))); [lia | done].
    + by rewrite E'.
Qed.

(** [Feed] on a well-formed policy leaves its loop with the reference result. *)
Lemma SCPIQueryPolicy_Feed_scan p b : wf_scpi p -> SCPIQueryPolicy_Feed p b = scpi_scan p b.
Proof. intros Hw. unfold SCPIQueryPolicy_Feed. by rewrite Feed_loop. Qed.

Lemma wf_NewSCPIQueryPolicy : wf_scpi NewSCPIQueryPolicy.
Proof. done. Qed.
#[export] Hint Resolve wf_NewSCPIQueryPolicy wf_scpi_scan : hislip.

(** The same for the interface. *)
Definition wf_policy (p : ResponsePolicy) : Prop :=
  match p with PolicySCPI p => wf_scpi p | _ => True end.

Lemma Policy_Feed_wf p b : wf_policy p -> wf_policy (Policy_Feed p b).
Proof. destruct p; simpl; [| done..]. intros Hw. rewrite SCPIQueryPolicy_Feed_scan; auto with hislip. Qed.
Lemma Policy_Reset_wf p : wf_policy (Policy_Reset p).
Proof. by destruct p. Qed.
#[export] Hint Resolve Policy_Feed_wf Policy_Reset_wf : hislip.

Lemma Policy_Feed_app p a b : wf_policy p -> Policy_Feed (Policy_Feed p a) b = Policy_Feed p (a ++ b).
Proof.
  destruct p; simpl; [| done..]. intros Hw.
  rewrite (SCPIQueryPolicy_Feed_scan p a), (SCPIQueryPolicy_Feed_scan p (a ++ b)) by done.
  by rewrite SCPIQueryPolicy_Feed_scan, scpi_scan_app by auto with hislip.
Qed.
Lemma Policy_Feed_nil p : Policy_Feed p [] = p.
Proof. by destruct p. Qed.
Lemma Policy_Reset_Feed p b : Policy_Reset (Policy_Feed p b) = Policy_Reset p.
Proof. by destruct p. Qed.

(** A whole message delivered as a list of chunks. *)
Definition feed_chunks (chunks : list bytes) (p : SCPIQueryPolicy) : SCPIQueryPolicy :=
  fold_left SCPIQueryPolicy_Feed chunks p.

Lemma feed_chunks_scan chunks p :
  wf_scpi p -> feed_chunks chunks p = scpi_scan p (concat chunks).
Proof.
  unfold feed_chunks. revert p. induction chunks as [|b bs IH]; intros p Hw; simpl; [done |].
  rewrite SCPIQueryPolicy_Feed_scan, scpi_scan_app by done. apply IH. auto with hislip.
Qed.

(** C31: How a program message is split into chunks is irrelevant to the SCPI policy:
    two divisions of the same bytes leave the same lexer state, which is well formed,
    and every call of Feed leaves its loop within the rounds it is given. *)
Theorem SCPIQueryPolicy_chunking_irrelevant chunks chunks' p :
  wf_scpi p -> concat chunks = concat chunks' ->
  feed_chunks chunks p = feed_chunks chunks' p /\
  wf_scpi (feed_chunks chunks p) /\
  (forall b, loop_nat (2 * length b + 1) Feed_round (p, b) = inr (SCPIQueryPolicy_Feed p b)).
Proof.
  intros Hw Hc. rewrite !feed_chunks_scan, Hc by done. split_and!; [done | auto with hislip |].
  intros b. by rewrite SCPIQueryPolicy_Feed_scan, Feed_loop.
Qed.

Lemma SCPIQueryPolicy_chunking_irrelevant_witness :
  feed_chunks [str "#2"; str "03a?"; str "b;*IDN"; str "?"] NewSCPIQueryPolicy =
  feed_chunks [str "#203a?b;*IDN?"] NewSCPIQueryPolicy /\
  SCPIQueryPolicy_Disposition
    (feed_chunks [str "#2"; str "03a?"; str "b;*IDN"; str "?"] NewSCPIQueryPolicy)
  = ResponseExpected.
Proof.
  split; [| vm_compute; reflexivity].
  pose proof (SCPIQueryPolicy_chunking_irrelevant [str "#2"; str "03a?"; str "b;*IDN"; str "?"]
    [str "#203a?b;*IDN?"] NewSCPIQueryPolicy wf_NewSCPIQueryPolicy eq_refl) as [H _].
  exact H.
Defined.

(** ** The language the lexer accepts

    A program message as a sequence of tokens: ordinary characters, query
    markers, quoted strings (with a quote escaped by doubling it) and
    definite-length blocks of arbitrary bytes. *)

Inductive token : Type :=
| TChar (c : Z)
| TQuery
| TString (q : Z) (body : bytes)
| TBlock (ndigits : nat) (payload : bytes).

Definition wf_token (t : token) : Prop :=
  match t with
  | TChar c => c <> ch_query /\ c <> ch_squote /\ c <> ch_dquote /\ c <> ch_hash
  | TQuery => True
  | TString q _ => q = ch_squote \/ q = ch_dquote
  | TBlock k payload => (1 <= k <= 9)%nat /\ len payload < 10 ^ Z.of_nat k
  end.

Definition is_query (t : token) : bool := match t with TQuery => true | _ => false end.

(** [v] as [k] decimal digits. *)
Fixpoint dec_write (k : nat) (v : Z) : bytes :=
  match k with
  | O => []
  | S k => ch_0 + (v / 10 ^ Z.of_nat k) mod 10 :: dec_write k v
  end.

Fixpoint escape (q : Z) (body : bytes) : bytes :=
  match body with
  | [] => []
  | c :: body => if bool_decide (c = q) then q :: q :: escape q body else c :: escape q body
  end.

Definition render (t : token) : bytes :=
  match t with
  | TChar c => [c]
  | TQuery => [ch_query]
  | TString q body => q :: escape q body ++ [q]
  | TBlock k payload => ch_hash :: ch_0 + Z.of_nat k :: dec_write k (len payload) ++ payload
  end.

Definition render_all (ts : list token) : bytes := concat (map render ts).

(** Between tokens the lexer is in ordinary text, or has just seen a closing
    quote. *)
Definition between_tokens (p : SCPIQueryPolicy) : Prop :=
  p.(scpi_found) = false /\
  (p.(scpi_state) = scpiNormal \/
   p.(scpi_state) = scpiStringQuote /\ (p.(scpi_quote) = ch_squote \/ p.(scpi_quote) = ch_dquote)).

(** A character other than a quote is then read as ordinary text. *)
Lemma scpi_step_between p c :
  between_tokens p -> c <> ch_squote -> c <> ch_dquote ->
  exists q d l r, scpi_step p c = scpi_normal (MkSCPI false scpiNormal q d l r) c.
Proof.
  destruct p as [f s q d l r]. intros [Hf Hs] H1 H2. simpl in *. subst f.
  destruct Hs as [-> | [-> Hq]]; [by eexists q, d, l, r |].
  rewrite bool_decide_eq_false_2 by (intros ->; naive_solver). by eexists 0, d, l, r.
Qed.

Lemma scpi_scan_escape q d l r body :
  scpi_scan (MkSCPI false scpiString q d l r) (escape q body) = MkSCPI false scpiString q d l r.
Proof.
  induction body as [|c body IH]; [done |]. unfold scpi_scan in *. simpl.
  case_bool_decide; simpl.
  - rewrite !bool_decide_eq_true_2 by done. simpl. by rewrite bool_decide_eq_true_2.
  - by rewrite bool_decide_eq_false_2.
Qed.

(** The opening quote leads inside a string from either resting state. *)
Lemma scpi_step_open p q :
  between_tokens p -> q = ch_squote \/ q = ch_dquote ->
  exists d l r, scpi_step p q = MkSCPI false scpiString q d l r.
Proof.
  intros Hb Hq. destruct p as [f s q0 d l r]. destruct Hb as [Hf Hs]; simpl in *; subst f.
  exists d, l, r.
  assert (En : forall q0 s, scpi_normal (MkSCPI false s q0 d l r) q = MkSCPI false scpiString q d l r)
    by (intros; by destruct Hq; subst).
  destruct Hs as [-> | [-> _]]; [apply (En q0 scpiNormal) |].
  case_bool_decide; [by subst | apply (En 0 scpiNormal)].
Qed.

(** The length digits of a block. *)
Lemma scpi_scan_digits k q l r v :
  (0 < k)%nat ->
  scpi_scan (MkSCPI false scpiBlockLen q (Z.of_nat k) l r) (dec_write k v) =
  let n := l * 10 ^ Z.of_nat k + v mod 10 ^ Z.of_nat k in
  MkSCPI false (if bool_decide (n = 0) then scpiNormal else scpiBlockData) q 0 n n.
Proof.
  revert l. induction k as [|k IH]; intros l Hk; [lia |].
  cbn [dec_write]. unfold scpi_scan in *. cbn [fold_left]. set (x := (v / _) mod 10).
  assert (Hx : 0 <= x < 10) by (apply Z.mod_pos_bound; lia).
  unfold scpi_step at 2. rewrite bool_decide_eq_true_2 by (unfold ch_0, ch_9; lia).
  replace (ch_0 + x - ch_0) with x by lia.
  assert (En : l * 10 ^ Z.of_nat (S k) + v mod 10 ^ Z.of_nat (S k)
    = (l * 10 + x) * 10 ^ Z.of_nat k + v mod 10 ^ Z.of_nat k).
  { replace (Z.of_nat (S k)) with (Z.of_nat k + 1) by lia. rewrite Z.pow_add_r by lia.
    rewrite Z.pow_1_r, Z.rem_mul_r by lia. fold x. lia. }
  destruct (decide (k = O)) as [-> | Hk0].
  - rewrite (bool_decide_eq_true_2 (Z.of_nat 1 = 1)) by done. cbn [dec_write fold_left].
    rewrite En. change (10 ^ Z.of_nat 0) with 1. rewrite Z.mod_1_r, Z.mul_1_r, Z.add_0_r. done.
  - rewrite (bool_decide_eq_false_2 (Z.of_nat (S k) = 1)) by lia.
    replace (Z.of_nat (S k) - 1) with (Z.of_nat k) by lia. rewrite IH by lia. by rewrite En.
Qed.

(** A block is skipped whatever its payload. *)
Lemma scpi_scan_TBlock q d l r k payload :
  wf_token (TBlock k payload) ->
  exists p, scpi_scan (MkSCPI false scpiHash q d l r)
    (ch_0 + Z.of_nat k :: dec_write k (len payload) ++ payload) = p /\ between_tokens p.
Proof.
  intros [Hk Hlen]. eexists. split; [done |]. pose proof (len_nonneg payload).
  change (scpi_scan (MkSCPI false scpiHash q d l r)
    (ch_0 + Z.of_nat k :: dec_write k (len payload) ++ payload))
    with (scpi_scan (scpi_step (MkSCPI false scpiHash q d l r) (ch_0 + Z.of_nat k))
            (dec_write k (len payload) ++ payload)).
  unfold scpi_step. rewrite bool_decide_eq_true_2 by (unfold ch_0, ch_1, ch_9; lia).
  replace (ch_0 + Z.of_nat k - ch_0) with (Z.of_nat k) by lia.
  rewrite scpi_scan_app, scpi_scan_digits, Z.mod_small by lia. cbv zeta.
  rewrite Z.mul_0_l, Z.add_0_l. case_bool_decide as Hz.
  - apply len_nil_iff in Hz as ->. split; [done | by left].
  - rewrite scpi_scan_block by lia. rewrite Z.sub_diag, bool_decide_eq_true_2 by done.
    split; [done | by left].
Qed.

(** Scanning one token other than a query marker comes back to rest. *)
Lemma scpi_scan_token t p :
  between_tokens p -> wf_token t -> is_query t = false -> between_tokens (scpi_scan p (render t)).
Proof.
  intros Hb Hw Hq. destruct t as [c | | q body | k payload]; [| done | |].
  - destruct Hw as (H1 & H2 & H3 & H4).
    destruct (scpi_step_between p c Hb H2 H3) as (q & d & l & r & E).
    unfold scpi_scan. cbn [render fold_left]. rewrite E. unfold scpi_normal.
    rewrite !bool_decide_eq_false_2 by done. split; [done | by left].
  - destruct (scpi_step_open p q Hb Hw) as (d & l & r & E).
    change (scpi_scan p (render (TString q body))) with
      (scpi_scan (scpi_step p q) (escape q body ++ [q])).
    rewrite E, scpi_scan_app, scpi_scan_escape. unfold scpi_scan. simpl.
    rewrite bool_decide_eq_true_2 by done. split; [done | by right].
  - destruct (scpi_step_between p ch_hash Hb) as (q & d & l & r & E); [done | done |].
    destruct (scpi_scan_TBlock q d l r k payload Hw) as (p' & E' & Hb').
    change (scpi_scan p (render (TBlock k payload))) with (scpi_scan (scpi_step p ch_hash)
      (ch_0 + Z.of_nat k :: dec_write k (len payload) ++ payload)).
    rewrite E. unfold scpi_normal. rewrite bool_decide_eq_false_2, bool_decide_eq_false_2,
      bool_decide_eq_false_2, bool_decide_eq_true_2 by done. cbn [orb]. by rewrite E'.
Qed.

(** Scanning tokens finds a query marker exactly if there is one. *)
Lemma scpi_scan_tokens ts p :
  Forall wf_token ts -> between_tokens p ->
  (scpi_scan p (render_all ts)).(scpi_found) = existsb is_query ts.
Proof.
  intros Hts. revert p. induction Hts as [| t ts Hw Hts IH]; intros p Hb; [by destruct Hb |].
  unfold render_all in *. cbn [map concat existsb]. rewrite scpi_scan_app.
  destruct (is_query t) eqn:Hq; [| by apply IH, scpi_scan_token].
  destruct t; try done. destruct (scpi_step_between p ch_query Hb) as (q & d & l & r & E);
    [done | done |].
  change (scpi_scan p (render TQuery)) with (scpi_step p ch_query). rewrite E.
  by rewrite scpi_scan_found.
Qed.

(** Text without quotes and blocks is a sequence of characters and query markers. *)
Definition plain_text (b : bytes) : Prop :=
  Forall (fun c => c <> ch_squote /\ c <> ch_dquote /\ c <> ch_hash) b.

Lemma scpi_scan_plain b :
  plain_text b ->
  (scpi_scan NewSCPIQueryPolicy b).(scpi_found) = bool_decide (ch_query ∈ b).
Proof.
  intros Hb. set (ts := map (fun c => if bool_decide (c = ch_query) then TQuery else TChar c) b).
  assert (E : render_all ts = b /\ Forall wf_token ts /\
    existsb is_query ts = bool_decide (ch_query ∈ b)).
  { subst ts. induction Hb as [|c b Hc Hb (E1 & E2 & E3)]; [done |].
    unfold render_all in *. cbn [map concat existsb]. rewrite E3. destruct (decide (c = ch_query)) as [-> | Hq].
    - rewrite bool_decide_eq_true_2 by done. split_and!; [by rewrite <- E1 at 2 | by constructor |].
      symmetry. apply bool_decide_eq_true_2. set_solver.
    - rewrite (bool_decide_eq_false_2 (c = ch_query)) by done.
      split_and!; [by rewrite <- E1 at 2 | constructor; [split_and!; apply Hc || done | done] |].
      cbn [is_query orb].
      apply bool_decide_ext. rewrite elem_of_cons. naive_solver. }
  destruct E as (E1 & E2 & E3). rewrite <- E3, <- E1 at 1. apply scpi_scan_tokens; [done |].
  split; [done | by left].
Qed.

(** C32: The SCPI policy recognises queries. For a program message written as ordinary
    characters, query marks, quoted strings with doubled quotes and definite-length
    blocks of arbitrary bytes, delivered in any chunks, it expects a response exactly
    if there is a query mark outside strings and blocks. *)
Theorem SCPIQueryPolicy_finds_queries ts chunks :
  Forall wf_token ts -> concat chunks = render_all ts ->
  SCPIQueryPolicy_Disposition (feed_chunks chunks NewSCPIQueryPolicy) =
  if existsb is_query ts then ResponseExpected else NoResponseExpected.
Proof.
  intros Hts Hc. rewrite feed_chunks_scan, Hc by done.
  unfold SCPIQueryPolicy_Disposition. rewrite scpi_scan_tokens; [done | done |].
  split; [done | by left].
Qed.

Lemma SCPIQueryPolicy_finds_queries_witness :
  let ts := [TChar 65; TString ch_dquote (str "why?"); TBlock 1 (str "a?b"); TChar 59] in
  Forall wf_token ts /\
  SCPIQueryPolicy_Disposition (feed_chunks [render_all ts] NewSCPIQueryPolicy) = NoResponseExpected.
Proof.
  intros ts.
  assert (H : Forall wf_token ts).
  { subst ts. repeat apply Forall_cons_2; [| by right | | | by apply Forall_nil_2];
      simpl; split_and!; try (vm_compute; discriminate); try lia; vm_compute; reflexivity. }
  split; [exact H |].
  exact (SCPIQueryPolicy_finds_queries ts [render_all ts] H (app_nil_r _)).
Defined.
