(* ===== verification/Locks.v ===== *)
(** * The lock manager

    [src/server/locks.go]: exclusive and shared locks of sessions, and the
    channel on which waiting requests are woken. The concurrent behaviour of
    waiting requests is in [LockWait]. *)

From S2P Require Import Prelude.

(** A session ID. *)
Abbreviation SessionID := Z (only parsing).

Inductive LockResult : Type := LockFailure | LockGranted | LockReleasedShared | LockError.
#[export] Instance LockResult_eq_dec : EqDecision LockResult.
Proof. solve_decision. Defined.

(** The control code of an [AsyncLockResponse]. *)
Definition LockResult_code (r : LockResult) : Z :=
  match r with
  | LockFailure => 0
  | LockGranted => 1
  | LockReleasedShared => 2
  | LockError => 3
  end.

Definition LockResult_String (r : LockResult) : bytes :=
  str match r with
  | LockFailure => "failure"
  | LockGranted => "granted, or exclusive released"
  | LockReleasedShared => "shared released"
  | LockError => "error"
  end.

Inductive LockState : Type := Unlocked | ExclusiveLocked | SharedLocked | BothLocked.
#[export] Instance LockState_eq_dec : EqDecision LockState.
Proof. solve_decision. Defined.

Definition LockState_String (s : LockState) : bytes :=
  str match s with
  | Unlocked => "unlocked"
  | ExclusiveLocked => "exclusive locked"
  | SharedLocked => "shared locked"
  | BothLocked => "both locks"
  end.

(** [lm_changed] is the wake-up channel currently handed out, if any;
    [lm_made] counts the channels created and [lm_closed] holds the closed ones,
    which is the part of the Go heap the channels live in. *)
Record LockManager : Type := MkLM {
  lm_exclusive : SessionID;
  lm_hasExclusive : bool;
  lm_key : bytes;
  lm_shared : gset SessionID;
  lm_changed : option nat;
  lm_made : nat;
  lm_closed : gset nat;
}.

Definition LockManager_zero : LockManager := MkLM 0 false [] ∅ None 0 ∅.

Definition stateLocked (m : LockManager) : LockState :=
  if m.(lm_hasExclusive) && bool_decide (0 < size m.(lm_shared))%nat then BothLocked
  else if m.(lm_hasExclusive) then ExclusiveLocked
  else if bool_decide (0 < size m.(lm_shared))%nat then SharedLocked
  else Unlocked.

Definition LockManager_State (m : LockManager) : LockState := stateLocked m.

Definition notifyLocked (m : LockManager) : LockManager :=
  match m.(lm_changed) with
  | Some c => MkLM m.(lm_exclusive) m.(lm_hasExclusive) m.(lm_key) m.(lm_shared)
                None m.(lm_made) ({[c]} ∪ m.(lm_closed))
  | None => m
  end.

Definition waiterLocked (m : LockManager) : nat * LockManager :=
  match m.(lm_changed) with
  | Some c => (c, m)
  | None => (m.(lm_made), MkLM m.(lm_exclusive) m.(lm_hasExclusive) m.(lm_key) m.(lm_shared)
                            (Some m.(lm_made)) (S m.(lm_made)) m.(lm_closed))
  end.

(** Field assignments. *)
Definition set_exclusive (m : LockManager) (has : bool) (id : SessionID) : LockManager :=
  MkLM id has m.(lm_key) m.(lm_shared) m.(lm_changed) m.(lm_made) m.(lm_closed).
Definition set_shared (m : LockManager) (key : bytes) (shared : gset SessionID) : LockManager :=
  MkLM m.(lm_exclusive) m.(lm_hasExclusive) key shared m.(lm_changed) m.(lm_made) m.(lm_closed).

Definition tryExclusiveLocked (m : LockManager) (sessionID : SessionID)
  : LockResult * LockManager :=
  if m.(lm_hasExclusive)
  then if bool_decide (m.(lm_exclusive) = sessionID) then (LockError, m) else (LockFailure, m)
  else if bool_decide (0 < size m.(lm_shared))%nat && negb (bool_decide (sessionID ∈ m.(lm_shared)))
  then (LockFailure, m)
  else (LockGranted, notifyLocked (set_exclusive m true sessionID)).

Definition trySharedLocked (m : LockManager) (sessionID : SessionID) (key : bytes)
  : LockResult * LockManager :=
  if bool_decide (sessionID ∈ m.(lm_shared)) then (LockError, m)
  else if bool_decide (0 < size m.(lm_shared))%nat
  then if bool_decide (m.(lm_key) <> key) then (LockFailure, m)
       else (LockGranted, notifyLocked (set_shared m m.(lm_key) ({[sessionID]} ∪ m.(lm_shared))))
  else if m.(lm_hasExclusive) && bool_decide (m.(lm_exclusive) <> sessionID) then (LockFailure, m)
  else if m.(lm_hasExclusive) && bool_decide (m.(lm_exclusive) = sessionID) then (LockError, m)
  else (LockGranted, notifyLocked (set_shared m key ({[sessionID]} ∪ m.(lm_shared)))).

Definition TryRequest (m : LockManager) (sessionID : SessionID) (lockString : bytes)
  : LockResult * LockManager :=
  if bool_decide (lockString = []) then tryExclusiveLocked m sessionID
  else trySharedLocked m sessionID lockString.

(** [delete(m.shared, id)], forgetting the key with the last holder. *)
Definition drop_shared (m : LockManager) (sessionID : SessionID) : LockManager :=
  let shared := m.(lm_shared) ∖ {[sessionID]} in
  set_shared m (if bool_decide (size shared = 0%nat) then [] else m.(lm_key)) shared.

Definition Release (m : LockManager) (sessionID : SessionID) : LockResult * LockManager :=
  if m.(lm_hasExclusive) && bool_decide (m.(lm_exclusive) = sessionID)
  then (LockGranted, notifyLocked (set_exclusive m false 0))
  else if bool_decide (sessionID ∈ m.(lm_shared))
  then (LockReleasedShared, notifyLocked (drop_shared m sessionID))
  else (LockError, m).

Definition ReleaseAll (m : LockManager) (sessionID : SessionID) : LockManager :=
  let '(changed, m) :=
    if m.(lm_hasExclusive) && bool_decide (m.(lm_exclusive) = sessionID)
    then (true, set_exclusive m false 0) else (false, m) in
  let '(changed, m) :=
    if bool_decide (sessionID ∈ m.(lm_shared))
    then (true, drop_shared m sessionID) else (changed, m) in
  if changed : bool then notifyLocked m else m.

Definition Info (m : LockManager) : bool * nat :=
  let holders := if m.(lm_hasExclusive) then {[m.(lm_exclusive)]} ∪ m.(lm_shared)
                 else m.(lm_shared) in
  (m.(lm_hasExclusive), size holders).

Definition Held (m : LockManager) (sessionID : SessionID) : bool :=
  (m.(lm_hasExclusive) && bool_decide (m.(lm_exclusive) = sessionID))
  || bool_decide (sessionID ∈ m.(lm_shared)).

(** ** The invariant *)

(** No stale holder or key survives its lock; the exclusive holder is one of the
    shared holders whenever there are any; and the channel handed out is one that
    was made and is still open. *)
Record lock_inv (m : LockManager) : Prop := {
  inv_exclusive : m.(lm_hasExclusive) = false -> m.(lm_exclusive) = 0;
  inv_key : m.(lm_key) = [] <-> m.(lm_shared) = ∅;
  inv_both : m.(lm_hasExclusive) = true -> m.(lm_shared) <> ∅ ->
             m.(lm_exclusive) ∈ m.(lm_shared);
  inv_changed : forall c, m.(lm_changed) = Some c -> (c < m.(lm_made))%nat /\ c ∉ m.(lm_closed);
  inv_closed : forall c, c ∈ m.(lm_closed) -> (c < m.(lm_made))%nat;
}.

Lemma gset_size_pos (X : gset SessionID) : bool_decide (0 < size X)%nat = negb (bool_decide (X = ∅)).
Proof.
  destruct (decide (X = ∅)) as [-> | Hne].
  - by rewrite size_empty.
  - rewrite (bool_decide_eq_false_2 (X = ∅)) by done. apply bool_decide_eq_true.
    enough (size X <> 0%nat) by lia. intros ?%size_empty_inv. apply Hne. by apply leibniz_equiv.
Qed.

Lemma gset_size_zero (X : gset SessionID) : bool_decide (size X = 0%nat) = bool_decide (X = ∅).
Proof.
  apply bool_decide_ext. split; intros H.
  - by apply leibniz_equiv, size_empty_inv.
  - subst. apply size_empty.
Qed.

#[export] Hint Rewrite gset_size_pos gset_size_zero : hislip_rw.

Lemma lock_inv_zero : lock_inv LockManager_zero.
Proof. split; simpl; set_solver. Qed.

Lemma lock_inv_notify m : lock_inv m -> lock_inv (notifyLocked m).
Proof.
  intros H. unfold notifyLocked. destruct (lm_changed m) as [c|] eqn:E; [| done].
  destruct H as [H1 H2 H3 H4 H5]. destruct (H4 c E) as [Hlt Hnot].
  split; simpl; try done. intros c' [->%elem_of_singleton | ?]%elem_of_union; auto.
Qed.

Lemma lock_inv_waiter m : lock_inv m -> lock_inv (waiterLocked m).2.
Proof.
  intros H. unfold waiterLocked. destruct (lm_changed m) as [c|] eqn:E; [done |].
  destruct H as [H1 H2 H3 H4 H5].
  split; simpl; try done.
  - intros c [= <-]. split; [lia |]. intros ?%H5. lia.
  - intros c ?%H5. lia.
Qed.

(** Setting the holder fields keeps the channel part of the invariant. *)
Lemma lock_inv_set_exclusive m has id :
  lock_inv m -> (has = false -> id = 0) ->
  (has = true -> m.(lm_shared) <> ∅ -> id ∈ m.(lm_shared)) ->
  lock_inv (set_exclusive m has id).
Proof. intros [H1 H2 H3 H4 H5] ? ?. by split. Qed.

Lemma lock_inv_set_shared m key shared :
  lock_inv m -> (key = [] <-> shared = ∅) ->
  (m.(lm_hasExclusive) = true -> shared <> ∅ -> m.(lm_exclusive) ∈ shared) ->
  lock_inv (set_shared m key shared).
Proof. intros [H1 H2 H3 H4 H5] ? ?. by split. Qed.

#[export] Hint Resolve lock_inv_zero lock_inv_notify lock_inv_waiter : hislip.

(** ** The abstract lock table

    The rows of IVI-6.1 Table 22 as [locks.go] and its tests cite them: what a
    request or a release answers in each of the four states. *)
Inductive lock_table : Type :=
| LUnlocked
| LExclusive (holder : SessionID)
| LShared (key : bytes) (holders : gset SessionID)
| LBoth (key : bytes) (holders : gset SessionID) (holder : SessionID).

Definition shared_or_unlocked (key : bytes) (holders : gset SessionID) : lock_table :=
  if bool_decide (holders = ∅) then LUnlocked else LShared key holders.

Definition table_request (t : lock_table) (s : SessionID) (lockString : bytes)
  : LockResult * lock_table :=
  match t, lockString with
  | LUnlocked, [] => (LockGranted, LExclusive s)
  | LUnlocked, key => (LockGranted, LShared key {[s]})
  | LExclusive h, _ => (if bool_decide (h = s) then LockError else LockFailure, t)
  | LShared key hs, [] =>
      if bool_decide (s ∈ hs) then (LockGranted, LBoth key hs s) else (LockFailure, t)
  | LShared key hs, k =>
      if bool_decide (s ∈ hs) then (LockError, t)
      else if bool_decide (key = k) then (LockGranted, LShared key ({[s]} ∪ hs))
      else (LockFailure, t)
  | LBoth key hs h, [] => (if bool_decide (h = s) then LockError else LockFailure, t)
  | LBoth key hs h, k =>
      if bool_decide (s ∈ hs) then (LockError, t)
      else if bool_decide (key = k) then (LockGranted, LBoth key ({[s]} ∪ hs) h)
      else (LockFailure, t)
  end.

Definition table_release (t : lock_table) (s : SessionID) : LockResult * lock_table :=
  match t with
  | LUnlocked => (LockError, t)
  | LExclusive h => if bool_decide (h = s) then (LockGranted, LUnlocked) else (LockError, t)
  | LShared key hs =>
      if bool_decide (s ∈ hs) then (LockReleasedShared, shared_or_unlocked key (hs ∖ {[s]}))
      else (LockError, t)
  | LBoth key hs h =>
      if bool_decide (h = s) then (LockGranted, LShared key hs)
      else if bool_decide (s ∈ hs) then (LockReleasedShared, LBoth key (hs ∖ {[s]}) h)
      else (LockError, t)
  end.

(** The concrete state a manager stands for. *)
Definition lock_abs (m : LockManager) : lock_table :=
  if m.(lm_hasExclusive)
  then if bool_decide (m.(lm_shared) = ∅) then LExclusive m.(lm_exclusive)
       else LBoth m.(lm_key) m.(lm_shared) m.(lm_exclusive)
  else shared_or_unlocked m.(lm_key) m.(lm_shared).

Lemma lock_abs_notify m : lock_abs (notifyLocked m) = lock_abs m.
Proof. unfold notifyLocked. by destruct (lm_changed m). Qed.
Lemma lock_abs_waiter m : lock_abs (waiterLocked m).2 = lock_abs m.
Proof. unfold waiterLocked. by destruct (lm_changed m). Qed.

Lemma stateLocked_abs m :
  stateLocked m = match lock_abs m with
                  | LUnlocked => Unlocked
                  | LExclusive _ => ExclusiveLocked
                  | LShared _ _ => SharedLocked
                  | LBoth _ _ _ => BothLocked
                  end.
Proof.
  unfold stateLocked, lock_abs, shared_or_unlocked. rewrite gset_size_pos.
  by destruct (lm_hasExclusive m), (bool_decide (lm_shared m = ∅)).
Qed.

(** Case analysis of a lock operation down to its fields. *)
Ltac lock_cases :=
  unfold TryRequest, tryExclusiveLocked, trySharedLocked, Release, drop_shared,
    lock_abs, shared_or_unlocked;
  rewrite ?gset_size_pos, ?gset_size_zero; simpl;
  repeat (case_bool_decide || case_match); simplify_eq/=.

Lemma TryRequest_inv m s str :
  lock_inv m -> lock_inv (TryRequest m s str).2.
Proof.
  intros Hm. pose proof Hm as [H1 H2 H3 H4 H5].
  unfold TryRequest, tryExclusiveLocked, trySharedLocked.
  rewrite gset_size_pos. case_bool_decide as Hs.
  - destruct (lm_hasExclusive m); [by case_bool_decide |]. case_match eqn:E; [done |].
    apply lock_inv_notify, lock_inv_set_exclusive; [done | done |]. intros _ Hne.
    revert E. repeat case_bool_decide; simpl; naive_solver.
  - case_bool_decide; [done |]. case_bool_decide as Hsh; simpl.
    + destruct (lm_hasExclusive m) eqn:Hx; simpl; [by repeat case_bool_decide |].
      apply lock_inv_notify, lock_inv_set_shared; [done | | congruence]. set_solver.
    + case_bool_decide; [done |].
      apply lock_inv_notify, lock_inv_set_shared; [done | | set_solver].
      split; [intros ?%H2; done | set_solver].
Qed.

Lemma drop_shared_inv m s :
  lock_inv m -> s ∈ m.(lm_shared) -> (m.(lm_hasExclusive) = true -> m.(lm_exclusive) <> s) ->
  lock_inv (drop_shared m s).
Proof.
  intros Hm Hs He. pose proof Hm as [H1 H2 H3 H4 H5].
  apply lock_inv_set_shared; [done | |].
  - rewrite gset_size_zero. case_bool_decide as E; [done |].
    split; [intros ?%H2; set_solver | done].
  - intros Hx Hne. specialize (He Hx). set_solver.
Qed.

Lemma not_mine (m : LockManager) s :
  m.(lm_hasExclusive) && bool_decide (m.(lm_exclusive) = s) = false ->
  m.(lm_hasExclusive) = true -> m.(lm_exclusive) <> s.
Proof. intros E Hx. rewrite Hx in E. simpl in E. by case_bool_decide. Qed.

Lemma Release_inv m s : lock_inv m -> lock_inv (Release m s).2.
Proof.
  intros Hm. unfold Release. case_match eqn:E; simpl.
  - apply lock_inv_notify, lock_inv_set_exclusive; done.
  - pose proof (not_mine _ _ E) as He. clear E. case_bool_decide; [| done]. by apply lock_inv_notify, drop_shared_inv.
Qed.

Lemma Held_spec m s :
  Held m s = true <->
  (m.(lm_hasExclusive) = true /\ m.(lm_exclusive) = s) \/ s ∈ m.(lm_shared).
Proof. unfold Held. rewrite orb_true_iff, andb_true_iff, !bool_decide_eq_true. done. Qed.

Lemma notify_fields m :
  lm_hasExclusive (notifyLocked m) = lm_hasExclusive m /\
  lm_exclusive (notifyLocked m) = lm_exclusive m /\
  lm_key (notifyLocked m) = lm_key m /\ lm_shared (notifyLocked m) = lm_shared m.
Proof. unfold notifyLocked. by destruct (lm_changed m). Qed.

(** The holder fields after [ReleaseAll]. *)
Lemma ReleaseAll_fields m s :
  let mine := m.(lm_hasExclusive) && bool_decide (m.(lm_exclusive) = s) in
  lm_hasExclusive (ReleaseAll m s) = m.(lm_hasExclusive) && negb mine /\
  lm_exclusive (ReleaseAll m s) = (if mine then 0 else m.(lm_exclusive)) /\
  lm_shared (ReleaseAll m s) = m.(lm_shared) ∖ {[s]} /\
  lm_key (ReleaseAll m s)
    = (if bool_decide (s ∈ m.(lm_shared)) && bool_decide (m.(lm_shared) ∖ {[s]} = ∅)
       then [] else m.(lm_key)).
Proof.
  intros mine. unfold ReleaseAll. fold mine.
  assert (Hd : s ∉ lm_shared m -> lm_shared m ∖ {[s]} = lm_shared m) by set_solver.
  destruct mine eqn:E; simpl;
    [destruct (lm_hasExclusive m); [| done] | rewrite andb_true_r];
    case_bool_decide; simpl;
    repeat match goal with |- context [notifyLocked ?m] =>
      destruct (notify_fields m) as (-> & -> & -> & ->) end;
    simpl; rewrite ?gset_size_zero, ?Hd by done; auto.
Qed.

Lemma ReleaseAll_inv m s : lock_inv m -> lock_inv (ReleaseAll m s).
Proof.
  intros Hm. unfold ReleaseAll.
  assert (Hx : forall m', lock_inv m' -> (m'.(lm_hasExclusive) = true -> m'.(lm_exclusive) <> s) ->
    forall b : bool,
    lock_inv (let '(changed, m) := if bool_decide (s ∈ m'.(lm_shared))
      then (true, drop_shared m' s) else (b, m') in if changed : bool then notifyLocked m else m)).
  { intros m' Hm' He b. case_bool_decide; [by apply lock_inv_notify, drop_shared_inv |].
    destruct b; auto with hislip. }
  destruct (lm_hasExclusive m && bool_decide (lm_exclusive m = s)) eqn:E; apply Hx; simpl; try done.
  - by apply lock_inv_set_exclusive.
  - by apply not_mine.
Qed.

#[export] Hint Resolve TryRequest_inv Release_inv ReleaseAll_inv : hislip.

(** ** Refinement of the table *)

Lemma lock_abs_set_exclusive m s :
  lock_abs (notifyLocked (set_exclusive m true s))
    = if bool_decide (lm_shared m = ∅) then LExclusive s else LBoth (lm_key m) (lm_shared m) s.
Proof. by rewrite lock_abs_notify. Qed.

Lemma lock_abs_add_shared m s key :
  lock_abs (notifyLocked (set_shared m key ({[s]} ∪ lm_shared m)))
    = if lm_hasExclusive m then LBoth key ({[s]} ∪ lm_shared m) (lm_exclusive m)
      else LShared key ({[s]} ∪ lm_shared m).
Proof.
  rewrite lock_abs_notify. unfold lock_abs, shared_or_unlocked. simpl.
  by rewrite bool_decide_eq_false_2 by set_solver.
Qed.

(** Decide what the conditions of the lock operations ask, and evaluate them. *)
Ltac lock_split m s :=
  destruct (lm_hasExclusive m) eqn:?, (decide (lm_shared m = ∅)) as [?He | ?He],
    (decide (lm_exclusive m = s)) as [?Hs | ?Hs], (decide (s ∈ lm_shared m)) as [?Hin | ?Hin];
  try (exfalso; match goal with E : lm_shared _ = ∅, H : _ ∈ lm_shared _ |- _ =>
         rewrite E in H; by apply elem_of_empty in H end);
  bd_known.

Lemma TryRequest_refines m s lockString :
  lock_inv m ->
  table_request (lock_abs m) s lockString
    = ((TryRequest m s lockString).1, lock_abs (TryRequest m s lockString).2).
Proof.
  intros [H1 H2 H3 H4 H5]. unfold TryRequest, tryExclusiveLocked, trySharedLocked.
  rewrite gset_size_pos.
  destruct lockString as [|k0 k]; simpl;
    [| destruct (decide (lm_key m = k0 :: k)) as [Hk | Hk]];
    lock_split m s; rewrite ?lock_abs_set_exclusive, ?lock_abs_add_shared;
    unfold lock_abs, shared_or_unlocked;
    repeat match goal with H : lm_hasExclusive m = _ |- _ => rewrite H; clear H end;
    simpl; bd_known; try done; by rewrite He, union_empty_r_L.
Qed.

Lemma Release_refines m s :
  lock_inv m ->
  table_release (lock_abs m) s = ((Release m s).1, lock_abs (Release m s).2).
Proof.
  intros [H1 H2 H3 H4 H5]. unfold Release.
  lock_split m s; rewrite ?lock_abs_notify;
    unfold lock_abs, shared_or_unlocked, drop_shared; simpl; rewrite ?gset_size_zero;
    repeat match goal with H : lm_hasExclusive m = _ |- _ => rewrite H; clear H end;
    simpl; bd_known; try done.
  - rewrite (bool_decide_eq_false_2 (lm_shared m ∖ {[s]} = ∅)) by set_solver. done.
  - unfold shared_or_unlocked. by case_bool_decide.
  - unfold shared_or_unlocked. by case_bool_decide.
Qed.

(** Dropping every lock of a session is releasing twice. *)
Definition table_release_all (t : lock_table) (s : SessionID) : lock_table :=
  (table_release (table_release t s).2 s).2.

Lemma ReleaseAll_refines m s :
  lock_inv m -> lock_abs (ReleaseAll m s) = table_release_all (lock_abs m) s.
Proof.
  intros [H1 H2 H3 H4 H5]. destruct (ReleaseAll_fields m s) as (E1 & E2 & E3 & E4).
  unfold table_release_all, lock_abs, shared_or_unlocked. rewrite E1, E2, E3, E4. clear E1 E2 E3 E4.
  assert (Hd : s ∉ lm_shared m -> lm_shared m ∖ {[s]} = lm_shared m) by set_solver.
  assert (Hk : s ∈ lm_shared m -> lm_exclusive m ∈ lm_shared m -> lm_exclusive m <> s ->
    bool_decide (lm_shared m ∖ {[s]} = ∅) = false)
    by (intros; apply bool_decide_eq_false_2; set_solver).
  lock_split m s; rewrite ?Hd by done; unfold shared_or_unlocked; bd_known;
    rewrite ?Hk by auto; simpl; bd_known; try done.
  - by case_bool_decide.
  - by rewrite (bool_decide_eq_false_2 (s ∈ lm_shared m ∖ {[s]})) by set_solver.
  - case_bool_decide; [done |]. simpl. by rewrite bool_decide_eq_false_2 by set_solver.
  - case_bool_decide; [done |]. simpl. by rewrite bool_decide_eq_false_2 by set_solver.
Qed.

(** A history of lock operations, and what it answers on either side. *)
Inductive lock_op : Type :=
| OpTryRequest (s : SessionID) (lockString : bytes)
| OpRelease (s : SessionID)
| OpReleaseAll (s : SessionID).

Definition lock_step (m : LockManager) (o : lock_op) : option LockResult * LockManager :=
  match o with
  | OpTryRequest s k => let (r, m) := TryRequest m s k in (Some r, m)
  | OpRelease s => let (r, m) := Release m s in (Some r, m)
  | OpReleaseAll s => (None, ReleaseAll m s)
  end.

Definition table_step (t : lock_table) (o : lock_op) : option LockResult * lock_table :=
  match o with
  | OpTryRequest s k => let (r, t) := table_request t s k in (Some r, t)
  | OpRelease s => let (r, t) := table_release t s in (Some r, t)
  | OpReleaseAll s => (None, table_release_all t s)
  end.

(** Run a history, collecting the answers. *)
Fixpoint run_ops {S O R : Type} (step : S -> O -> R * S) (s : S) (ops : list O) : list R * S :=
  match ops with
  | [] => ([], s)
  | o :: ops =>
      let (r, s) := step s o in
      let (rs, s) := run_ops step s ops in (r :: rs, s)
  end.

Lemma lock_step_refines m o :
  lock_inv m ->
  table_step (lock_abs m) o = ((lock_step m o).1, lock_abs (lock_step m o).2) /\
  lock_inv (lock_step m o).2.
Proof.
  intros Hm. destruct o as [s k | s | s]; simpl.
  - rewrite TryRequest_refines by done. pose proof (TryRequest_inv m s k Hm).
    by destruct (TryRequest m s k).
  - rewrite Release_refines by done. pose proof (Release_inv m s Hm). by destruct (Release m s).
  - rewrite ReleaseAll_refines by done. auto with hislip.
Qed.

Lemma run_ops_refines ops m :
  lock_inv m ->
  run_ops table_step (lock_abs m) ops
    = ((run_ops lock_step m ops).1, lock_abs (run_ops lock_step m ops).2) /\
  lock_inv (run_ops lock_step m ops).2.
Proof.
  revert m. induction ops as [|o ops IH]; intros m Hm; [done |]. simpl.
  destruct (lock_step_refines m o Hm) as [-> Hm']. destruct (lock_step m o) as [r m']. simpl in *.
  destruct (IH m' Hm') as [-> ?]. by destruct (run_ops lock_step m' ops).
Qed.

(** C8: The lock manager implements the lock table of the HiSLIP standard. For every
    history of requests, releases and disconnections the answers are those of the
    abstract table (unlocked, exclusive, shared with a key, or both), the manager's
    state abstracts to the table's, its invariant holds, and the reported state is the
    table's. *)
Theorem locks_refine_table :
  forall ops,
  let '(answers, m) := run_ops lock_step LockManager_zero ops in
  let '(expected, t) := run_ops table_step LUnlocked ops in
  answers = expected /\ lock_abs m = t /\ lock_inv m /\
  LockManager_State m = match t with
                        | LUnlocked => Unlocked
                        | LExclusive _ => ExclusiveLocked
                        | LShared _ _ => SharedLocked
                        | LBoth _ _ _ => BothLocked
                        end.
Proof.
  intros ops. destruct (run_ops_refines ops LockManager_zero lock_inv_zero) as [E Hm].
  change (lock_abs LockManager_zero) with LUnlocked in E. rewrite E.
  destruct (run_ops lock_step LockManager_zero ops) as [answers m]. simpl in *.
  split_and!; try done. apply stateLocked_abs.
Qed.

Lemma unlocked_when_free m : (forall s, Held m s = false) -> LockManager_State m = Unlocked.
Proof.
  intros Hall. unfold LockManager_State, stateLocked. rewrite gset_size_pos.
  assert (Hsh : lm_shared m = ∅).
  { apply set_eq. intros x. split; [| set_solver]. intros Hx.
    assert (Hh : Held m x = true) by (apply Held_spec; by right). by rewrite Hall in Hh. }
  bd_known. destruct (lm_hasExclusive m) eqn:Hx; [| done].
  assert (Hh : Held m (lm_exclusive m) = true) by (apply Held_spec; by left).
  by rewrite Hall in Hh.
Qed.

Lemma ReleaseAll_not_held m s : Held (ReleaseAll m s) s = false.
Proof.
  destruct (ReleaseAll_fields m s) as (E1 & E2 & E3 & _).
  unfold Held. rewrite E1, E2, E3. rewrite (bool_decide_eq_false_2 (s ∈ _)) by set_solver.
  destruct (lm_hasExclusive m); [simpl | done].
  destruct (decide (lm_exclusive m = s)); by bd_known.
Qed.

Lemma ReleaseAll_held_other m s s' : s' <> s -> Held (ReleaseAll m s) s' = Held m s'.
Proof.
  destruct (ReleaseAll_fields m s) as (E1 & E2 & E3 & _).
  intros Hs'. unfold Held. rewrite E1, E2, E3.
  rewrite (bool_decide_ext (s' ∈ lm_shared m ∖ {[s]}) (s' ∈ lm_shared m)) by set_solver.
  f_equal. destruct (lm_hasExclusive m); [| done]. simpl.
  destruct (decide (lm_exclusive m = s)) as [Hs |]; bd_known; [| done].
  symmetry. apply bool_decide_eq_false_2. congruence.
Qed.

(** ReleaseAll takes every lock from its session and none from another, unlocks the
    instrument if nobody else holds a lock, wakes the waiters if the session held a
    lock, and keeps the manager's invariant. *)
Theorem ReleaseAll_frees m s :
  lock_inv m ->
  lock_inv (ReleaseAll m s) /\
  Held (ReleaseAll m s) s = false /\
  (forall s', s' <> s -> Held (ReleaseAll m s) s' = Held m s') /\
  ((forall s', s' <> s -> Held m s' = false) -> LockManager_State (ReleaseAll m s) = Unlocked) /\
  (Held m s = true -> forall c, m.(lm_changed) = Some c -> c ∈ (ReleaseAll m s).(lm_closed)).
Proof.
  intros Hm. destruct (ReleaseAll_fields m s) as (E1 & E2 & E3 & E4).
  split_and!.
  - by apply ReleaseAll_inv.
  - apply ReleaseAll_not_held.
  - intros s'. apply ReleaseAll_held_other.
  - intros Hall. apply unlocked_when_free. intros s'.
    destruct (decide (s' = s)) as [-> |]; [apply ReleaseAll_not_held |].
    rewrite ReleaseAll_held_other; auto.
  - intros Hh c Hc. apply Held_spec in Hh. unfold ReleaseAll, notifyLocked.
    destruct (decide (lm_hasExclusive m = true /\ lm_exclusive m = s)) as [[Hx Hs] | Hn].
    + rewrite Hx. bd_known. case_bool_decide; simpl; rewrite Hc; set_solver.
    + destruct Hh as [|Hin]; [done |].
      destruct (lm_hasExclusive m && bool_decide (lm_exclusive m = s)); simpl; bd_known;
        rewrite Hc; set_solver.
Qed.

Lemma ReleaseAll_frees_witness :
  let m := (lock_step (lock_step LockManager_zero (OpTryRequest 2 (str "k"))).2
              (OpTryRequest 2 [])).2 in
  LockManager_State m = BothLocked /\ Held (ReleaseAll m 2) 2 = false.
Proof.
  split; [by vm_compute |].
  assert (Hm : lock_inv (run_ops lock_step LockManager_zero
    [OpTryRequest 2 (str "k"); OpTryRequest 2 []]).2) by (apply run_ops_refines, lock_inv_zero).
  exact (proj1 (proj2 (ReleaseAll_frees _ 2 Hm))).
Defined.

(** Lock information counts each holder once: the number reported is that of the
    sessions holding any lock, and the flag is whether an exclusive lock is held. *)
Theorem Info_counts_holders m :
  exists holders : gset SessionID,
    (forall s, s ∈ holders <-> Held m s = true) /\ Info m = (m.(lm_hasExclusive), size holders).
Proof.
  unfold Info. destruct (lm_hasExclusive m) eqn:Hx.
  - exists ({[lm_exclusive m]} ∪ lm_shared m). split; [| done]. intros s.
    rewrite Held_spec, Hx. set_solver.
  - exists (lm_shared m). split; [| done]. intros s. rewrite Held_spec, Hx. naive_solver.
Qed.
