(* ===== verification/LockWait.v ===== *)
(** * Waiting lock requests

    [LockManager.Request] of [src/server/locks.go] as the steps of a goroutine
    that interleave with the other users of the manager. Every access to the
    manager is made under its mutex, so a step is one critical section or one
    branch of the [select]. *)

From S2P Require Import Prelude Locks.

(** Where a call of [Request] stands. *)
Inductive wait_phase : Type :=
| Starting                      (* before the first TryRequest *)
| Registering                   (* before m.waiterLocked() *)
| Blocked (wait : nat)          (* in the select, on the channel *)
| Retrying                      (* woken, before the second TryRequest *)
| Deciding                      (* the retry failed, before time.Until(deadline) *)
| Returned (result : LockResult).

Record Waiter : Type := MkWaiter {
  wt_session : SessionID;
  wt_lockString : bytes;
  wt_timeout : Z;
  wt_phase : wait_phase;
}.

Definition at_phase (w : Waiter) (p : wait_phase) : Waiter :=
  MkWaiter w.(wt_session) w.(wt_lockString) w.(wt_timeout) p.

(** What the environment decides: whether the channel, the timer or the context
    is taken in the select, and whether the deadline has passed. *)
Inductive wait_choice : Type :=
| ChRun               (* run the next critical section *)
| ChWoken             (* case <-wait *)
| ChTimer             (* case <-timer.C *)
| ChCancelled         (* case <-ctx.Done() *)
| ChRemaining (remaining : Z).

(** One step of [Request]; [None] when the choice is not enabled. *)
Definition Request_step (m : LockManager) (w : Waiter) (ch : wait_choice)
  : option (LockManager * Waiter) :=
  match w.(wt_phase), ch with
  | Starting, ChRun =>
      let (result, m) := TryRequest m w.(wt_session) w.(wt_lockString) in
      if bool_decide (result <> LockFailure) || (w.(wt_timeout) <=? 0)
      then Some (m, at_phase w (Returned result))
      else Some (m, at_phase w Registering)
  | Registering, ChRun =>
      let (wait, m) := waiterLocked m in Some (m, at_phase w (Blocked wait))
  | Blocked wait, ChWoken =>
      if bool_decide (wait ∈ m.(lm_closed)) then Some (m, at_phase w Retrying) else None
  | Blocked _, ChTimer | Blocked _, ChCancelled => Some (m, at_phase w (Returned LockFailure))
  | Retrying, ChRun =>
      let (result, m) := TryRequest m w.(wt_session) w.(wt_lockString) in
      if bool_decide (result <> LockFailure)
      then Some (m, at_phase w (Returned result))
      else Some (m, at_phase w Deciding)
  | Deciding, ChRemaining remaining =>
      if remaining <=? 0 then Some (m, at_phase w (Returned LockFailure))
      else Some (m, at_phase w Registering)
  | _, _ => None
  end.

(** The manager and the calls in progress. *)
Record wait_sys : Type := MkWaitSys {
  ws_locks : LockManager;
  ws_waiters : gmap nat Waiter;
}.

Definition wait_init : wait_sys := MkWaitSys LockManager_zero ∅.

(** A step of the system: a new call of [Request], a step of one of them, or an
    operation that does not wait. *)
Inductive wait_event : Type :=
| EvCall (i : nat) (s : SessionID) (lockString : bytes) (timeout : Z)
| EvWaiter (i : nat) (ch : wait_choice)
| EvOp (o : lock_op).

Definition wait_step (y : wait_sys) (e : wait_event) : option wait_sys :=
  match e with
  | EvCall i s k t =>
      match y.(ws_waiters) !! i with
      | Some _ => None
      | None => Some (MkWaitSys y.(ws_locks) (<[i := MkWaiter s k t Starting]> y.(ws_waiters)))
      end
  | EvWaiter i ch =>
      w ← y.(ws_waiters) !! i;
      '(m, w) ← Request_step y.(ws_locks) w ch;
      Some (MkWaitSys m (<[i := w]> y.(ws_waiters)))
  | EvOp o => Some (MkWaitSys (lock_step y.(ws_locks) o).2 y.(ws_waiters))
  end.

Inductive wait_run : wait_sys -> list wait_event -> wait_sys -> Prop :=
| wait_run_nil y : wait_run y [] y
| wait_run_cons y e y' es y'' :
    wait_step y e = Some y' -> wait_run y' es y'' -> wait_run y (e :: es) y''.

(** ** What a step does to the manager *)

(** Either nothing was touched but the channel made for a waiter, or the state
    may have changed and every channel handed out so far has been closed. *)
Definition mgr_step (m m' : LockManager) : Prop :=
  m.(lm_closed) ⊆ m'.(lm_closed) /\
  ((lock_abs m' = lock_abs m /\ forall c, m.(lm_changed) = Some c -> m'.(lm_changed) = Some c) \/
   (forall c, m.(lm_changed) = Some c -> c ∈ m'.(lm_closed))).

Lemma mgr_step_refl m : mgr_step m m.
Proof. split; [done | by left]. Qed.

Lemma mgr_step_notify m m' :
  m'.(lm_changed) = m.(lm_changed) -> m'.(lm_closed) = m.(lm_closed) -> mgr_step m (notifyLocked m').
Proof.
  intros H1 H2. unfold notifyLocked, mgr_step. rewrite H1.
  destruct (lm_changed m) as [c|]; simpl; (split; [set_solver |]); right; [| done].
  intros c' [= <-]. set_solver.
Qed.
#[export] Hint Resolve mgr_step_refl mgr_step_notify : hislip.

Lemma mgr_step_TryRequest m s k : mgr_step m (TryRequest m s k).2.
Proof.
  unfold TryRequest, tryExclusiveLocked, trySharedLocked.
  repeat case_match; simpl; auto with hislip.
Qed.

Lemma mgr_step_Release m s : mgr_step m (Release m s).2.
Proof. unfold Release. repeat case_match; simpl; auto with hislip. Qed.

Lemma mgr_step_ReleaseAll m s : mgr_step m (ReleaseAll m s).
Proof.
  unfold ReleaseAll.
  destruct (lm_hasExclusive m && bool_decide (lm_exclusive m = s));
    case_bool_decide; auto with hislip.
Qed.

Lemma mgr_step_waiter m : mgr_step m (waiterLocked m).2.
Proof.
  unfold waiterLocked. destruct (lm_changed m) as [c|] eqn:E; simpl; [apply mgr_step_refl |].
  split; [done |]. left. split; [done |]. intros c. by rewrite E.
Qed.
#[export] Hint Resolve mgr_step_TryRequest mgr_step_Release mgr_step_ReleaseAll mgr_step_waiter : hislip.

Lemma mgr_step_op m o : mgr_step m (lock_step m o).2.
Proof.
  destruct o as [s k | s | s]; simpl; [| | apply mgr_step_ReleaseAll].
  - pose proof (mgr_step_TryRequest m s k). by destruct (TryRequest m s k).
  - pose proof (mgr_step_Release m s). by destruct (Release m s).
Qed.

(** An unsuccessful attempt changes nothing. *)
Lemma TryRequest_not_granted m s k :
  (TryRequest m s k).1 <> LockGranted -> (TryRequest m s k).2 = m.
Proof.
  unfold TryRequest, tryExclusiveLocked, trySharedLocked. repeat case_match; simpl; done.
Qed.

Lemma Request_step_mgr m w ch m' w' :
  Request_step m w ch = Some (m', w') -> mgr_step m m' /\ (lock_inv m -> lock_inv m').
Proof.
  unfold Request_step. intros H.
  destruct (wt_phase w) eqn:Hp, ch; try done;
    try (destruct (TryRequest m _ _) as [r m1] eqn:E;
         pose proof (mgr_step_TryRequest m (wt_session w) (wt_lockString w)) as Hs;
         pose proof (TryRequest_inv m (wt_session w) (wt_lockString w)) as Hi;
         rewrite E in Hs, Hi; simpl in Hs, Hi; case_match; simplify_eq; by auto);
    repeat case_match; simplify_eq; auto with hislip.
  pose proof (mgr_step_waiter m) as Hs. pose proof (lock_inv_waiter m) as Hi.
  by match goal with E : waiterLocked m = _ |- _ => rewrite E in Hs, Hi end.
Qed.

Lemma wait_step_mgr y e y' :
  wait_step y e = Some y' ->
  mgr_step y.(ws_locks) y'.(ws_locks) /\ (lock_inv y.(ws_locks) -> lock_inv y'.(ws_locks)).
Proof.
  destruct e as [i s k t | i ch | o]; simpl; intros H.
  - case_match; simplify_eq/=. auto with hislip.
  - destruct (ws_waiters y !! i) as [w|]; simpl in H; [| done].
    destruct (Request_step (ws_locks y) w ch) as [[m w']|] eqn:E; simpl in H; [| done].
    simplify_eq/=. by eapply Request_step_mgr.
  - simplify_eq/=. split; [apply mgr_step_op | apply lock_step_refines].
Qed.

Lemma wait_run_inv y es y' :
  wait_run y es y' -> lock_inv y.(ws_locks) -> lock_inv y'.(ws_locks).
Proof. induction 1; auto. intros Hm. apply IHwait_run. by eapply wait_step_mgr. Qed.

(** A channel handed out is closed by the first change after it. *)
Lemma run_wakes y es y' c :
  wait_run y es y' -> y.(ws_locks).(lm_changed) = Some c ->
  (lock_abs y'.(ws_locks) = lock_abs y.(ws_locks) /\ y'.(ws_locks).(lm_changed) = Some c) \/
  c ∈ y'.(ws_locks).(lm_closed).
Proof.
  intros H Hc. assert (Hmono : forall y es y', wait_run y es y' ->
    y.(ws_locks).(lm_closed) ⊆ y'.(ws_locks).(lm_closed)).
  { clear. induction 1; [done |]. etransitivity; [by eapply wait_step_mgr | done]. }
  induction H as [y | y e y1 es y' He Hrun IH]; [by left |].
  destruct (wait_step_mgr _ _ _ He) as [[Hsub [[Ha Hk] | Hk]] _].
  - destruct (IH (Hk c Hc)) as [[? ?] | ?]; [left | by right]. split; [congruence | done].
  - right. by apply (Hmono _ _ _ Hrun), Hk.
Qed.

(** ** A whole call

    [Request] run against an environment: before each of its steps the other
    users of the manager have performed some operations, and the environment has
    chosen what the step does; a choice that is not enabled is passed over. *)
Fixpoint Request_exec (env : list (list lock_op * wait_choice)) (m : LockManager) (w : Waiter)
  : option LockResult * LockManager :=
  match w.(wt_phase), env with
  | Returned result, _ => (Some result, m)
  | _, [] => (None, m)
  | _, (ops, ch) :: env =>
      let m := (run_ops lock_step m ops).2 in
      match Request_step m w ch with
      | None => Request_exec env m w
      | Some (m, w) => Request_exec env m w
      end
  end.

(** A call does not wait for ever: when nothing more is chosen it runs on to the
    [select], and its timer expires. *)
Definition expiry : list wait_choice := [ChRun; ChRun; ChTimer; ChRemaining 0].
Definition undisturbed (choices : list wait_choice) : list (list lock_op * wait_choice) :=
  map (fun ch => ([], ch)) choices.

Definition LockManager_Request (env : list (list lock_op * wait_choice)) (m : LockManager)
    (sessionID : SessionID) (lockString : bytes) (timeout : Z) : option LockResult * LockManager :=
  Request_exec (env ++ undisturbed expiry) m (MkWaiter sessionID lockString timeout Starting).

Lemma Request_exec_returned env m w r :
  w.(wt_phase) = Returned r -> Request_exec env m w = (Some r, m).
Proof. intros Hr. destruct env as [|[ops ch] env]; simpl; by rewrite Hr. Qed.

(** So it returns, whatever the others do and whatever is chosen. *)
Lemma Request_expires m w : is_Some (Request_exec (undisturbed expiry) m w).1.
Proof.
  assert (Hret : forall env m s k t r, is_Some (Request_exec env m (MkWaiter s k t (Returned r))).1)
    by (intros; rewrite (Request_exec_returned _ _ _ r); by eexists).
  assert (Hblock : forall m s k t, is_Some (Request_exec (undisturbed (drop 1 expiry)) m (MkWaiter s k t Registering)).1).
  { intros m0 s k t. cbn. by destruct (waiterLocked m0). }
  destruct w as [s k t [| |wait| | |r]]; [.. | apply Hret]; cbn.
  - destruct (TryRequest m s k) as [r m']. destruct (_ || _); [by eexists | apply Hblock].
  - by destruct (waiterLocked m).
  - by eexists.
  - destruct (TryRequest m s k) as [r m']. by destruct (bool_decide _).
  - by eexists.
Qed.

Lemma Request_returns env m s k timeout : is_Some (LockManager_Request env m s k timeout).1.
Proof.
  unfold LockManager_Request. generalize (MkWaiter s k timeout Starting) as w. revert m.
  induction env as [|[ops ch] env IH]; intros m w; [apply Request_expires |]. cbn [app Request_exec].
  destruct (wt_phase w); try (by eexists); destruct (Request_step _ w ch) as [[m' w']|]; apply IH.
Qed.

(** Without a timeout, or when the lock can be had or never will, a call is one
    attempt and does not wait. *)
Lemma Request_immediate env m s k timeout :
  timeout <= 0 \/ (TryRequest m s k).1 <> LockFailure ->
  LockManager_Request (([], ChRun) :: env) m s k timeout
    = (Some (TryRequest m s k).1, (TryRequest m s k).2).
Proof.
  intros Hi. unfold LockManager_Request. cbn [app Request_exec wt_phase run_ops snd].
  unfold Request_step. cbn [wt_phase wt_session wt_lockString wt_timeout].
  destruct (TryRequest m s k) as [r m']. cbn [fst snd] in *.
  replace (bool_decide (r <> LockFailure) || (timeout <=? 0)) with true.
  - by rewrite (Request_exec_returned _ _ _ r).
  - symmetry. apply orb_true_iff. rewrite bool_decide_eq_true, Z.leb_le. tauto.
Qed.

(** ** Blocked requests *)

(** A blocked request waits on the live channel or on one already closed. *)
Definition blocked_inv (y : wait_sys) : Prop :=
  forall i w c, y.(ws_waiters) !! i = Some w -> w.(wt_phase) = Blocked c ->
  y.(ws_locks).(lm_changed) = Some c \/ c ∈ y.(ws_locks).(lm_closed).

Lemma mgr_step_channel m m' c :
  mgr_step m m' -> m.(lm_changed) = Some c \/ c ∈ m.(lm_closed) ->
  m'.(lm_changed) = Some c \/ c ∈ m'.(lm_closed).
Proof. intros [Hsub [[_ Hk] | Hk]] [Hc | Hc]; auto. Qed.

Lemma Request_step_blocks m w ch m' w' c :
  Request_step m w ch = Some (m', w') -> w'.(wt_phase) = Blocked c -> m'.(lm_changed) = Some c.
Proof.
  unfold Request_step. intros H Hc.
  destruct (wt_phase w) eqn:Hp, ch; try done; repeat case_match; simplify_eq/=.
  match goal with E : waiterLocked m = _ |- _ => revert E end.
  unfold waiterLocked. destruct (lm_changed m) eqn:E; intros; by simplify_eq/=.
Qed.

Lemma wait_step_blocked_inv y e y' :
  wait_step y e = Some y' -> blocked_inv y -> blocked_inv y'.
Proof.
  intros H Hy i w c Hi Hc. destruct (wait_step_mgr _ _ _ H) as [Hm _].
  destruct e as [j s k t | j ch | o]; simpl in H.
  - case_match; simplify_eq/=. destruct (decide (i = j)) as [-> |].
    + rewrite lookup_insert_eq in Hi. by simplify_eq/=.
    + rewrite lookup_insert_ne in Hi by done. eauto.
  - destruct (ws_waiters y !! j) as [w0|] eqn:Hw0; simpl in H; [| done].
    destruct (Request_step (ws_locks y) w0 ch) as [[m w']|] eqn:E; simpl in H; [| done].
    simplify_eq/=. destruct (decide (i = j)) as [-> |].
    + rewrite lookup_insert_eq in Hi. simplify_eq. left. by eapply Request_step_blocks.
    + rewrite lookup_insert_ne in Hi by done. eapply mgr_step_channel; eauto.
  - simplify_eq/=. eapply mgr_step_channel; eauto.
Qed.

Lemma wait_run_blocked_inv y es y' : wait_run y es y' -> blocked_inv y -> blocked_inv y'.
Proof. induction 1; eauto using wait_step_blocked_inv. Qed.

(** C26: A blocked lock request is woken by every change. In every run from the
    initial state, once a request is blocked in its select, any change of the lock
    table makes the branch that retries it ready. *)
Theorem blocked_request_sees_every_change es1 y es2 y' i w c :
  wait_run wait_init es1 y ->
  y.(ws_waiters) !! i = Some w -> w.(wt_phase) = Blocked c ->
  wait_run y es2 y' ->
  lock_abs y'.(ws_locks) <> lock_abs y.(ws_locks) ->
  Request_step y'.(ws_locks) w ChWoken = Some (y'.(ws_locks), at_phase w Retrying).
Proof.
  intros H1 Hi Hc H2 Hne. unfold Request_step. rewrite Hc.
  assert (Hin : c ∈ lm_closed (ws_locks y')); [| by rewrite bool_decide_eq_true_2].
  destruct (wait_run_blocked_inv _ _ _ H1) with (i := i) (w := w) (c := c) as [Hch | Hcl]; try done.
  - destruct (run_wakes y es2 y' c H2 Hch) as [[? _] |]; done.
  - clear -H2 Hcl. induction H2 as [| y e y1 es y' He]; [done |].
    apply IHwait_run. by apply (wait_step_mgr _ _ _ He).
Qed.

(** The outcomes of an attempt. *)
Lemma TryRequest_outcome m s k :
  match TryRequest m s k with
  | (LockGranted, m') => Held m' s = true
  | (LockReleasedShared, _) => False
  | (_, m') => m' = m
  end.
Proof.
  unfold TryRequest, tryExclusiveLocked, trySharedLocked.
  repeat (case_match; simplify_eq; try done);
    apply Held_spec;
    match goal with |- context [notifyLocked ?m] =>
      destruct (notify_fields m) as (-> & -> & _ & ->) end; simpl; [by left | |]; set_solver.
Qed.

Lemma Request_step_returns m w ch m' w' result :
  Request_step m w ch = Some (m', w') -> w'.(wt_phase) = Returned result ->
  (result = LockFailure /\ m' = m) \/
  TryRequest m w.(wt_session) w.(wt_lockString) = (result, m').
Proof.
  unfold Request_step. intros H Hr.
  destruct (wt_phase w) eqn:Hp, ch; try done; repeat case_match; simplify_eq/=; auto.
Qed.

(** A request returns Granted or Error only as the result of an attempt in the same
    critical section, and a failure changes nothing. *)
Theorem Request_result_justified m w ch m' w' result :
  Request_step m w ch = Some (m', w') -> w'.(wt_phase) = Returned result ->
  match result with
  | LockGranted =>
      TryRequest m w.(wt_session) w.(wt_lockString) = (LockGranted, m') /\
      Held m' w.(wt_session) = true
  | LockError =>
      TryRequest m w.(wt_session) w.(wt_lockString) = (LockError, m') /\ m' = m
  | LockFailure => m' = m
  | LockReleasedShared => False
  end.
Proof.
  intros H Hr. pose proof (TryRequest_outcome m (wt_session w) (wt_lockString w)) as Ho.
  destruct (Request_step_returns _ _ _ _ _ _ H Hr) as [[-> ->] | E]; [done |].
  rewrite E in Ho. by destruct result.
Qed.

(** ** Concrete runs *)

(** Evaluate a run. *)
Fixpoint wait_exec (y : wait_sys) (es : list wait_event) : option wait_sys :=
  match es with
  | [] => Some y
  | e :: es => y ← wait_step y e; wait_exec y es
  end.

Lemma wait_exec_run y es y' : wait_exec y es = Some y' -> wait_run y es y'.
Proof.
  revert y. induction es as [|e es IH]; intros y H; simpl in H.
  - simplify_eq. constructor.
  - destruct (wait_step y e) as [y1|] eqn:E; simpl in H; [| done].
    econstructor; eauto.
Qed.

(** Session 1 holds the exclusive lock, the request of session 2 is blocked. *)
Definition blocked_run : list wait_event :=
  [EvOp (OpTryRequest 1 []); EvCall 0 2 [] 1000; EvWaiter 0 ChRun; EvWaiter 0 ChRun].
Definition blocked_sys : wait_sys := default wait_init (wait_exec wait_init blocked_run).
Definition released_sys : wait_sys :=
  default wait_init (wait_exec blocked_sys [EvOp (OpRelease 1)]).

Lemma blocked_request_sees_every_change_witness :
  let w := MkWaiter 2 [] 1000 (Blocked 0) in
  Request_step released_sys.(ws_locks) w ChWoken
    = Some (released_sys.(ws_locks), at_phase w Retrying).
Proof.
  intros w.
  exact (blocked_request_sees_every_change blocked_run blocked_sys [EvOp (OpRelease 1)]
    released_sys 0 w 0 ltac:(apply wait_exec_run; by vm_compute) ltac:(by vm_compute) eq_refl
    ltac:(apply wait_exec_run; by vm_compute) ltac:(by vm_compute)).
Defined.

Lemma Request_result_justified_witness :
  let w := MkWaiter 2 [] 1000 Retrying in
  exists m', Request_step released_sys.(ws_locks) w ChRun = Some (m', at_phase w (Returned LockGranted)) /\
  Held m' 2 = true.
Proof.
  intros w. eexists. split; [reflexivity |].
  pose proof (Request_result_justified released_sys.(ws_locks) w ChRun _ _ LockGranted
    eq_refl eq_refl) as H. exact (proj2 H).
Defined.

(** C36: A lock request can block although the lock is free: in a run where the holder
    releases between the request's first attempt and its registration as a waiter, the
    request ends up blocked on a channel nobody has closed, while an attempt would be
    granted. *)
Theorem request_can_miss_a_release :
  exists es y w c,
    wait_run wait_init es y /\
    y.(ws_waiters) !! 0%nat = Some w /\ w.(wt_phase) = Blocked c /\
    LockManager_State y.(ws_locks) = Unlocked /\
    (TryRequest y.(ws_locks) w.(wt_session) w.(wt_lockString)).1 = LockGranted /\
    Request_step y.(ws_locks) w ChWoken = None.
Proof.
  set (es := [EvOp (OpTryRequest 1 []); EvCall 0 2 [] 1000; EvWaiter 0 ChRun;
              EvOp (OpRelease 1); EvWaiter 0 ChRun]).
  set (y := default wait_init (wait_exec wait_init es)).
  exists es, y, (MkWaiter 2 [] 1000 (Blocked 0)), 0%nat.
  split; [apply wait_exec_run; by vm_compute | by vm_compute].
Qed.
