(* ===== verification/Config.v ===== *)
(** * Server configuration

    [src/server/config.go]: defaults, validation, and the answers the
    initialization and Device Clear transactions take from the profile. *)

From S2P Require Import Prelude Errors Version Constants MessageId Stream Header Policy.

(** [MaxSessions] is a Go [int]; the payload sizes are [uint64]. A nil policy
    factory is [None]; a factory returns a fresh policy each time, so it is the
    policy it returns. *)
Record Config : Type := MkConfig {
  cfg_SubAddresses : list bytes;
  cfg_MaxVersion : Version;
  cfg_SupportsOverlap : bool;
  cfg_MaxSessions : Z;
  cfg_MaxRxPayload : Z;
  cfg_MaxTxPayload : Z;
  cfg_Policy : option ResponsePolicy;
  cfg_VendorID : Z * Z;
}.

Definition DefaultMaxRxPayload : Z := 8192.
Definition DefaultMaxTxPayload : Z := 8192.

(** The zero value [Config{}]. *)
Definition Config_zero : Config := MkConfig [] (MkVersion 0 0) false 0 0 0 None (0, 0).

Definition Config_withDefaults (c : Config) : Config :=
  MkConfig
    (if bool_decide (c.(cfg_SubAddresses) = []) then [DefaultSubAddress] else c.(cfg_SubAddresses))
    (if bool_decide (c.(cfg_MaxVersion) = MkVersion 0 0) then Version10 else c.(cfg_MaxVersion))
    c.(cfg_SupportsOverlap)
    (if bool_decide (c.(cfg_MaxSessions) = 0) then 1 else c.(cfg_MaxSessions))
    (if bool_decide (c.(cfg_MaxRxPayload) = 0) then DefaultMaxRxPayload else c.(cfg_MaxRxPayload))
    (if bool_decide (c.(cfg_MaxTxPayload) = 0) then DefaultMaxTxPayload else c.(cfg_MaxTxPayload))
    c.(cfg_Policy)
    c.(cfg_VendorID).

Definition Config_validate (c : Config) : option error :=
  if bool_decide (c.(cfg_MaxSessions) < 1) then Some (serr ErrInvalidConfig)
  else if Version_Less c.(cfg_MaxVersion) Version10 then Some (serr ErrInvalidConfig)
  else if bool_decide (c.(cfg_MaxRxPayload) < HeaderSize)
          || bool_decide (c.(cfg_MaxTxPayload) < HeaderSize)
  then Some (serr ErrInvalidConfig)
  else if c.(cfg_SupportsOverlap) then Some (serr ErrOverlapNotImplemented)
  else None.

Definition Config_acceptsSubAddress (c : Config) (sub : bytes) : bool :=
  if bool_decide (sub = []) then true else bool_decide (sub ∈ c.(cfg_SubAddresses)).

Definition Config_preferOverlapBit (c : Config) : Z :=
  if c.(cfg_SupportsOverlap) then ControlPreferOverlap else 0.

Definition Config_featureBitmap (c : Config) (clientRequest : Z) : Z :=
  if c.(cfg_SupportsOverlap) && bool_decide (Z.land clientRequest FeatureOverlapped <> 0)
  then Z.lor 0 FeatureOverlapped else 0.

(** What construction establishes of a server's profile. *)
Record valid_config (c : Config) : Prop := {
  vc_sessions : 1 <= c.(cfg_MaxSessions);
  vc_version : version_le Version10 c.(cfg_MaxVersion);
  vc_rx : HeaderSize <= c.(cfg_MaxRxPayload);
  vc_tx : HeaderSize <= c.(cfg_MaxTxPayload);
  vc_overlap : c.(cfg_SupportsOverlap) = false;
}.

Lemma Config_validate_spec c : Config_validate c = None <-> valid_config c.
Proof.
  unfold Config_validate. split.
  - intros H. repeat (case_match; simplify_eq).
    apply orb_false_iff in H2 as [?%bool_decide_eq_false ?%bool_decide_eq_false].
    split; [case_bool_decide; lia | | lia | lia | done].
    apply Version_AtLeast_spec. unfold Version_AtLeast. by rewrite H1.
  - intros [H1 H2 H3 H4 H5]. rewrite bool_decide_eq_false_2 by lia.
    apply Version_AtLeast_spec in H2. unfold Version_AtLeast in H2.
    apply negb_true_iff in H2. rewrite H2, H5.
    by rewrite !bool_decide_eq_false_2 by lia.
Qed.
