(* ===== verification/Device.v ===== *)
(** * The instrument backend

    [src/server/device.go]: the [Device] interface, which the server is
    parametric in, and the remote/local modes with their effects. *)

From S2P Require Import Prelude Errors.

(** The operations of an instrument. The context of a call is represented by
    whether it is cancelled. The laws are what the Go types say of the results:
    a read stores at most [len(p)] bytes, and a status byte is a byte. *)
Class Device (D : Type) := {
  dev_Write : D -> bool -> bytes -> bool -> option error * D;
  (** [Read(ctx, p)] with [len(p) = n]: the bytes stored, [end] and the error. *)
  dev_Read : D -> bool -> Z -> bytes * bool * option error * D;
  dev_Clear : D -> bool -> option error * D;
  dev_Trigger : D -> bool -> option error * D;
  dev_ReadStatusByte : D -> bool -> Z * option error * D;
  dev_RemoteLocal : D -> bool -> Z -> option error * D;
  dev_Read_len : forall d c n, 0 <= n -> len (dev_Read d c n).1.1.1 <= n;
  dev_Status_byte : forall d c, is_u8 (dev_ReadStatusByte d c).1.1;
}.

(** ** Optional capabilities

    A backend may have them; the server core does not call them. *)

(** The channel of status bytes to report, of capacity one: the byte in it, if any. *)
Class ServiceRequestSource (D : Type) := { dev_ServiceRequests : D -> option Z }.

Class DeviceResetter (D : Type) := { dev_InterfaceClear : D -> bool -> option error * D }.

Class DeviceInfo (D : Type) := { dev_DeviceName : D -> bytes }.

(** The parameters of an explicit read request. *)
Record ReadOptions : Type := MkReadOptions {
  ro_MaxBytes : Z;
  ro_UseEOI : bool;
  ro_UseTermChar : bool;
  ro_SuppressTermChar : bool;
  ro_TermChar : Z;
}.

Class ReadRequester (D : Type) := {
  dev_ReadRequest : D -> bool -> Z -> ReadOptions -> bytes * bool * option error * D;
  dev_ReadRequest_len : forall d c n o, 0 <= n -> len (dev_ReadRequest d c n o).1.1.1 <= n;
}.

(** ** Remote and local *)

(** A remote/local mode is the control byte of the message that carries it. *)
Abbreviation RemoteLocalMode := Z (only parsing).

Definition DisableRemote : RemoteLocalMode := 0.
Definition EnableRemote : RemoteLocalMode := 1.
Definition DisableRemoteGoToLocal : RemoteLocalMode := 2.
Definition EnableRemoteGoToRemote : RemoteLocalMode := 3.
Definition EnableRemoteLockoutLocal : RemoteLocalMode := 4.
Definition EnableRemoteGoToRemoteLockoutLocal : RemoteLocalMode := 5.
Definition GoToLocal : RemoteLocalMode := 6.
Definition maxRemoteLocalMode : RemoteLocalMode := GoToLocal.

Inductive Effect : Type := EffectNoChange | EffectFalse | EffectTrue.
#[export] Instance Effect_eq_dec : EqDecision Effect.
Proof. solve_decision. Defined.

Record Effects : Type := MkEffects {
  eff_RemoteEnable : Effect;
  eff_LocalLockout : Effect;
  eff_Remote : Effect;
}.

Definition Effects_zero : Effects := MkEffects EffectNoChange EffectNoChange EffectNoChange.

Definition remoteLocalEffects : list Effects := [
  MkEffects EffectFalse EffectFalse EffectFalse;
  MkEffects EffectTrue EffectNoChange EffectNoChange;
  MkEffects EffectFalse EffectFalse EffectFalse;
  MkEffects EffectTrue EffectNoChange EffectTrue;
  MkEffects EffectTrue EffectTrue EffectNoChange;
  MkEffects EffectTrue EffectTrue EffectTrue;
  MkEffects EffectNoChange EffectNoChange EffectFalse
].

Definition RemoteLocalMode_Valid (m : RemoteLocalMode) : bool :=
  bool_decide (m <= maxRemoteLocalMode).

Definition RemoteLocalMode_Effects (m : RemoteLocalMode) : Effects :=
  if negb (RemoteLocalMode_Valid m) then Effects_zero
  else default Effects_zero (remoteLocalEffects !! Z.to_nat m).

Definition RemoteLocalMode_String (m : RemoteLocalMode) : bytes :=
  str (if bool_decide (m = DisableRemote) then "disable remote"
  else if bool_decide (m = EnableRemote) then "enable remote"
  else if bool_decide (m = DisableRemoteGoToLocal) then "disable remote and go to local"
  else if bool_decide (m = EnableRemoteGoToRemote) then "enable remote and go to remote"
  else if bool_decide (m = EnableRemoteLockoutLocal) then "enable remote and lock out local"
  else if bool_decide (m = EnableRemoteGoToRemoteLockoutLocal)
  then "enable remote, go to remote, and set local lockout"
  else if bool_decide (m = GoToLocal) then "go to local without changing remote enable"
  else "undefined remote/local mode").

(** The remote state of an interface and what a mode does to it. *)
Record RemoteState : Type := MkRemote {
  rs_enable : bool;
  rs_lockout : bool;
  rs_remote : bool;
}.

Definition apply_effect (e : Effect) (b : bool) : bool :=
  match e with EffectNoChange => b | EffectFalse => false | EffectTrue => true end.

Definition apply_mode (m : RemoteLocalMode) (r : RemoteState) : RemoteState :=
  let e := RemoteLocalMode_Effects m in
  MkRemote (apply_effect e.(eff_RemoteEnable) r.(rs_enable))
    (apply_effect e.(eff_LocalLockout) r.(rs_lockout))
    (apply_effect e.(eff_Remote) r.(rs_remote)).

(** The reading of a remote state that makes sense on a bus: lockout and remote
    need remote enable. *)
Definition remote_consistent (r : RemoteState) : bool :=
  implb (r.(rs_lockout) || r.(rs_remote)) r.(rs_enable).

(** The effects of the remote/local modes, applied to an interface, keep lockout and
    remote within remote enable, are idempotent, and are none for an undefined mode. *)
Theorem remote_local_modes_keep_consistency m r :
  is_u8 m -> remote_consistent r = true ->
  remote_consistent (apply_mode m r) = true /\
  apply_mode m (apply_mode m r) = apply_mode m r /\
  (RemoteLocalMode_Valid m = false -> apply_mode m r = r) /\
  (RemoteLocalMode_Valid m = true <-> m <= 6).
Proof.
  intros Hm Hr. split_and!; [| | |].
  4: unfold RemoteLocalMode_Valid, maxRemoteLocalMode, GoToLocal; apply bool_decide_eq_true.
  3: { intros Hv. unfold apply_mode, RemoteLocalMode_Effects. rewrite Hv. by destruct r. }
  - pose proof (u8_forall (fun m => forallb (fun r => implb (remote_consistent r)
      (remote_consistent (apply_mode m r)))
      [MkRemote true true true; MkRemote true true false; MkRemote true false true;
       MkRemote true false false; MkRemote false true true; MkRemote false true false;
       MkRemote false false true; MkRemote false false false]) ltac:(by vm_compute) m Hm) as H.
    rewrite forallb_forall in H. specialize (H r). rewrite Hr in H. apply H.
    destruct r as [[] [] []]; simpl; tauto.
  - unfold apply_mode. destruct (RemoteLocalMode_Effects m) as [[] [] []]; done.
Qed.

Lemma remote_local_modes_keep_consistency_witness :
  remote_consistent (apply_mode GoToLocal (MkRemote true true true)) = true.
Proof.
  exact (proj1 (remote_local_modes_keep_consistency GoToLocal (MkRemote true true true)
    ltac:(solve_range) eq_refl)).
Defined.
