(* ===== verification/TestDevice.v ===== *)
(** * The recording instrument

    [src/internal/testdevice/testdevice.go] as an instance of [Device]: a mock
    that records every operation and returns prepared responses. *)

From S2P Require Import Prelude Errors Device.

Inductive Op : Type :=
| OpWrite | OpRead | OpClear | OpTrigger | OpReadStatusByte | OpRemoteLocal | OpInterfaceClear.
#[export] Instance Op_eq_dec : EqDecision Op.
Proof. solve_decision. Defined.

Record Call : Type := MkCall {
  call_Op : Op;
  call_Data : bytes;
  call_End : bool;
  call_Mode : RemoteLocalMode;
}.

(** [td_Errors] lists the operations made to fail, with their errors;
    [td_Status] is a byte. *)
Record TestDevice : Type := MkTestDevice {
  td_Name : bytes;
  td_Responses : list bytes;
  td_Status : Z;
  td_Errors : list (Op * error);
  td_calls : list Call;
  td_written : bytes;
  td_pending : bytes;
  td_respIdx : nat;
  td_inFlight : bool;
}.

Definition TestDevice_New (responses : list bytes) : TestDevice :=
  MkTestDevice [] responses 0 [] [] [] [] 0 false.

Definition ErrNoResponse : error := Foreign (str "testdevice: no response queued") [].

(** [d.Errors[op]]. *)
Fixpoint errors_at (errs : list (Op * error)) (op : Op) : option error :=
  match errs with
  | [] => None
  | (o, e) :: errs => if bool_decide (o = op) then Some e else errors_at errs op
  end.

Definition TestDevice_fail (d : TestDevice) (op : Op) : option error := errors_at d.(td_Errors) op.

Definition TestDevice_record (c : Call) (d : TestDevice) : TestDevice :=
  let 'MkTestDevice nm a b e f g h i j := d in MkTestDevice nm a b e (f ++ [c]) g h i j.

Definition TestDevice_Write (d : TestDevice) (cancelled : bool) (p : bytes) (fin : bool)
  : option error * TestDevice :=
  match TestDevice_fail d OpWrite with
  | Some err => (Some err, d)
  | None =>
      let 'MkTestDevice nm a b e f g h i j := d in
      (None, TestDevice_record (MkCall OpWrite p fin 0) (MkTestDevice nm a b e f (g ++ p) h i j))
  end.

(** The response being delivered: the one in flight, or the next one. *)
Definition TestDevice_begin (d : TestDevice) : option TestDevice :=
  if d.(td_inFlight) then Some d
  else match d.(td_Responses) !! d.(td_respIdx) with
       | None => None
       | Some r => let 'MkTestDevice nm a b e f g _ i _ := d in
                   Some (MkTestDevice nm a b e f g r (S i) true)
       end.

Definition TestDevice_Read (d : TestDevice) (cancelled : bool) (n : Z)
  : bytes * bool * option error * TestDevice :=
  match TestDevice_fail d OpRead with
  | Some err => ([], false, Some err, d)
  | None =>
      match TestDevice_begin d with
      | None => ([], false, Some ErrNoResponse, d)
      | Some d =>
          let chunk := take (Z.to_nat n) d.(td_pending) in
          let 'MkTestDevice nm a b e f g h i j := d in
          let pending := drop (Z.to_nat n) h in
          let fin := bool_decide (pending = []) in
          (chunk, fin, None,
           TestDevice_record (MkCall OpRead chunk fin 0)
             (MkTestDevice nm a b e f g pending i (if fin then false else j)))
      end
  end.

Definition TestDevice_Clear (d : TestDevice) (cancelled : bool) : option error * TestDevice :=
  match TestDevice_fail d OpClear with
  | Some err => (Some err, d)
  | None =>
      let 'MkTestDevice nm a b e f g _ i _ := d in
      (None, TestDevice_record (MkCall OpClear [] false 0) (MkTestDevice nm a b e f g [] i false))
  end.

Definition TestDevice_Trigger (d : TestDevice) (cancelled : bool) : option error * TestDevice :=
  match TestDevice_fail d OpTrigger with
  | Some err => (Some err, d)
  | None => (None, TestDevice_record (MkCall OpTrigger [] false 0) d)
  end.

Definition TestDevice_ReadStatusByte (d : TestDevice) (cancelled : bool)
  : Z * option error * TestDevice :=
  match TestDevice_fail d OpReadStatusByte with
  | Some err => (0, Some err, d)
  | None =>
      (uint8 d.(td_Status), None,
       TestDevice_record (MkCall OpReadStatusByte [uint8 d.(td_Status)] false 0) d)
  end.

Definition TestDevice_RemoteLocal (d : TestDevice) (cancelled : bool) (mode : RemoteLocalMode)
  : option error * TestDevice :=
  match TestDevice_fail d OpRemoteLocal with
  | Some err => (Some err, d)
  | None => (None, TestDevice_record (MkCall OpRemoteLocal [] false mode) d)
  end.

Definition TestDevice_InterfaceClear (d : TestDevice) (cancelled : bool)
  : option error * TestDevice :=
  match TestDevice_fail d OpInterfaceClear with
  | Some err => (Some err, d)
  | None => (None, TestDevice_record (MkCall OpInterfaceClear [] false 0) d)
  end.

Definition TestDevice_DeviceName (d : TestDevice) : bytes := d.(td_Name).
Definition TestDevice_Calls (d : TestDevice) : list Call := d.(td_calls).
Definition TestDevice_Written (d : TestDevice) : bytes := d.(td_written).

Definition TestDevice_Ops (d : TestDevice) : list Op := map call_Op d.(td_calls).

Definition TestDevice_Count (d : TestDevice) (op : Op) : nat :=
  length (filter (fun c => c.(call_Op) = op) d.(td_calls)).

Definition TestDevice_Reset (d : TestDevice) : TestDevice :=
  let 'MkTestDevice nm a b e _ _ _ _ _ := d in MkTestDevice nm a b e [] [] [] 0 false.

#[export] Program Instance TestDevice_Device : Device TestDevice := {|
  dev_Write := TestDevice_Write;
  dev_Read := TestDevice_Read;
  dev_Clear := TestDevice_Clear;
  dev_Trigger := TestDevice_Trigger;
  dev_ReadStatusByte := TestDevice_ReadStatusByte;
  dev_RemoteLocal := TestDevice_RemoteLocal;
|}.
Next Obligation.
  intros d c n Hn. unfold TestDevice_Read.
  destruct (TestDevice_fail d OpRead); [done |].
  destruct (TestDevice_begin d) as [d'|]; [| done].
  destruct d'. unfold len. cbn [fst]. rewrite length_take. lia.
Qed.
Next Obligation.
  intros d c. unfold TestDevice_ReadStatusByte.
  destruct (TestDevice_fail d OpReadStatusByte); cbn [fst]; [u_lia | auto with hislip].
Qed.

#[export] Instance TestDevice_Info : DeviceInfo TestDevice := {| dev_DeviceName := TestDevice_DeviceName |}.
#[export] Instance TestDevice_Resetter : DeviceResetter TestDevice :=
  {| dev_InterfaceClear := TestDevice_InterfaceClear |}.
