(* ===== verification/Instrument.v ===== *)
(** * The simulated instrument

    [src/examples/server/main.go]: the SCPI instrument of the example server as an
    instance of [Device]. Floating-point numbers, their parsing and printing and the
    case table above ASCII belong to the Go runtime; the class [Runtime] names them,
    and every theorem holds whatever they do. Log output is not modelled. *)

From S2P Require Import Prelude Errors GoStrings Policy Device.

(** [float64], [strconv.ParseFloat(s, 64)] ([None] is an error),
    [fmt.Sprintf] with the format percent [.6E], and [unicode.ToUpper] above ASCII. *)
Class Runtime (F : Type) := {
  float_zero : F;
  ParseFloat : bytes -> option F;
  Sprintf_6E : F -> bytes;
  unicode_ToUpper : Z -> Z;
}.

(** [int] of a 64-bit host. *)
Definition int64 (z : Z) : Z := (z + 2 ^ 63) mod 2 ^ 64 - 2 ^ 63.

(** Evaluate the comparisons of literals in the goal. *)
Ltac eval_closed :=
  repeat match goal with
  | |- context [@bool_decide ?P ?d] =>
      let b := eval vm_compute in (@bool_decide P d) in
      lazymatch b with
      | true => change (@bool_decide P d) with true
      | false => change (@bool_decide P d) with false
      end
  end; cbn [orb]; cbv iota.

Section Instrument.
Context {F : Type} `{Runtime F}.

Record instrument : Type := MkInstrument {
  in_verbose : bool;
  in_input : bytes;
  in_response : bytes;
  in_status : Z;
  in_esr : Z;
  in_voltage : F;
  in_triggered : Z;
}.

(** [&instrument{verbose: v}]. *)
Definition instrument_zero (v : bool) : instrument := MkInstrument v [] [] 0 0 float_zero 0.

Definition statusESB : Z := Z.shiftl 1 5.
Definition esrCME : Z := Z.shiftl 1 5.

Definition set_input (b : bytes) (d : instrument) : instrument :=
  MkInstrument d.(in_verbose) b d.(in_response) d.(in_status) d.(in_esr) d.(in_voltage)
    d.(in_triggered).
Definition set_response (b : bytes) (d : instrument) : instrument :=
  MkInstrument d.(in_verbose) d.(in_input) b d.(in_status) d.(in_esr) d.(in_voltage)
    d.(in_triggered).
Definition set_status (s e : Z) (d : instrument) : instrument :=
  MkInstrument d.(in_verbose) d.(in_input) d.(in_response) s e d.(in_voltage) d.(in_triggered).
Definition set_voltage (v : F) (d : instrument) : instrument :=
  MkInstrument d.(in_verbose) d.(in_input) d.(in_response) d.(in_status) d.(in_esr) v
    d.(in_triggered).
Definition set_triggered (n : Z) (d : instrument) : instrument :=
  MkInstrument d.(in_verbose) d.(in_input) d.(in_response) d.(in_status) d.(in_esr)
    d.(in_voltage) n.

Definition newline : Z := 10.

Definition reply (s : bytes) (d : instrument) : instrument :=
  set_response ((d.(in_response) ++ s) ++ [newline]) d.

Definition commandError (d : instrument) : instrument :=
  set_status (Z.lor d.(in_status) statusESB) (Z.lor d.(in_esr) esrCME) d.

(** Go's [x &^ y]. *)
Definition and_not (x y : Z) : Z := Z.ldiff x y.

(** The payload of the waveform block. *)
Definition block_payload : bytes := map uint8 (seqZ 0 4096).

(** [fmt.Sprintf] with the format [#4], percent, [04d]. *)
Definition block_header (n : Z) : bytes :=
  let digits := Itoa n in str "#4" ++ replicate (4 - length digits) ch_0 ++ digits.

Definition executeOne (cmd : bytes) (d : instrument) : instrument :=
  let upper := ToUpper unicode_ToUpper cmd in
  let eqs s := bool_decide (upper = str s) in
  if eqs "*IDN?" then reply (str "GoTMC,HiSLIP Simulated Instrument,0,0.1.0") d
  else if eqs "*RST" then set_status 0 0 (set_triggered 0 (set_voltage float_zero d))
  else if eqs "*CLS" then set_status (and_not d.(in_status) statusESB) 0 d
  else if eqs "*OPC?" then reply (str "1") d
  else if eqs "*ESR?"
  then let d := reply (Itoa d.(in_esr)) d in
       set_status (and_not d.(in_status) statusESB) 0 d
  else if eqs "*STB?" then reply (Itoa d.(in_status)) d
  else if eqs "*TST?" then reply (str "0") d
  else if eqs "SYST:ERR?" || eqs "SYSTEM:ERROR?"
  then if bool_decide (Z.land d.(in_esr) esrCME <> 0)
       then let d := reply (str "-113," ++ ch_dquote :: str "Undefined header" ++ [ch_dquote]) d in
            set_status d.(in_status) (and_not d.(in_esr) esrCME) d
       else reply (str "0," ++ ch_dquote :: str "No error" ++ [ch_dquote]) d
  else if eqs "MEAS:VOLT?" || eqs "MEASURE:VOLTAGE?" then reply (Sprintf_6E d.(in_voltage)) d
  else if eqs "TRIG:COUNT?" then reply (Itoa d.(in_triggered)) d
  else if HasPrefix upper (str "SOUR:VOLT ") || HasPrefix upper (str "SOURCE:VOLTAGE ")
  then match Fields cmd with
       | [_; field] =>
           match ParseFloat field with
           | Some v => set_voltage v d
           | None => commandError d
           end
       | _ => commandError d
       end
  else if eqs "CURV?" || eqs "WAV:DATA?"
  then let payload := block_payload in
       set_response (((d.(in_response) ++ block_header (len payload)) ++ payload) ++ [newline]) d
  else commandError d.

Definition ch_semicolon : Z := 59.

(** The commands of a program message, in order. *)
Definition commands (program : bytes) : list bytes :=
  filter (fun cmd => cmd <> []) (map TrimSpace (Split ch_semicolon program)).

Definition execute (program : bytes) (d : instrument) : instrument :=
  fold_left (fun d cmd =>
    let cmd := TrimSpace cmd in if bool_decide (cmd = []) then d else executeOne cmd d)
    (Split ch_semicolon program) d.

Definition crlf : bytes := [13; 10].

Definition instrument_Write (d : instrument) (cancelled : bool) (p : bytes) (fin : bool)
  : option error * instrument :=
  let d := set_input (d.(in_input) ++ p) d in
  if negb fin then (None, d)
  else
    let program := TrimRight d.(in_input) crlf in
    let d := set_input [] d in
    (None, execute program d).

Definition errNoResponse : error := Foreign (str "instrument: no response available") [].

Definition instrument_Read (d : instrument) (cancelled : bool) (n : Z)
  : bytes * bool * option error * instrument :=
  if bool_decide (len d.(in_response) = 0) then ([], false, Some errNoResponse, d)
  else
    let p := take (Z.to_nat n) d.(in_response) in
    let d := set_response (drop (Z.to_nat n) d.(in_response)) d in
    (p, bool_decide (len d.(in_response) = 0), None, d).

Definition instrument_Clear (d : instrument) (cancelled : bool) : option error * instrument :=
  (None, set_response [] (set_input [] d)).

Definition instrument_Trigger (d : instrument) (cancelled : bool) : option error * instrument :=
  (None, set_triggered (int64 (d.(in_triggered) + 1)) d).

(** The field is a [byte]. *)
Definition instrument_ReadStatusByte (d : instrument) (cancelled : bool)
  : Z * option error * instrument := (uint8 d.(in_status), None, d).

Definition instrument_RemoteLocal (d : instrument) (cancelled : bool) (mode : RemoteLocalMode)
  : option error * instrument := (None, d).

Definition instrument_DeviceName (d : instrument) : bytes := str "GoTMC HiSLIP Simulated Instrument".

#[export] Program Instance instrument_Device : Device instrument := {|
  dev_Write := instrument_Write;
  dev_Read := instrument_Read;
  dev_Clear := instrument_Clear;
  dev_Trigger := instrument_Trigger;
  dev_ReadStatusByte := instrument_ReadStatusByte;
  dev_RemoteLocal := instrument_RemoteLocal;
|}.
Next Obligation.
  intros d c n Hn. unfold instrument_Read. case_bool_decide; [done |]. cbn [fst].
  unfold len. rewrite length_take. lia.
Qed.
Next Obligation. intros d c. apply uint8_range. Qed.

#[export] Instance instrument_Info : DeviceInfo instrument := {| dev_DeviceName := instrument_DeviceName |}.

(** ** Executing a program message *)

Lemma execute_commands program d :
  execute program d = fold_left (fun d cmd => executeOne cmd d) (commands program) d.
Proof.
  unfold execute, commands. revert d.
  induction (Split ch_semicolon program) as [|w ws IH]; intros d; [done |].
  cbn [fold_left map]. rewrite IH. case_bool_decide as Hw.
  - by rewrite filter_cons_False by (intros Hn; exact (Hn Hw)).
  - by rewrite filter_cons_True by done.
Qed.

(** The commands that are answered. *)
Definition query_headers : list bytes := map str
  ["*IDN?"; "*OPC?"; "*ESR?"; "*STB?"; "*TST?"; "SYST:ERR?"; "SYSTEM:ERROR?"; "MEAS:VOLT?";
   "MEASURE:VOLTAGE?"; "TRIG:COUNT?"; "CURV?"; "WAV:DATA?"]%string.

Definition is_answered (cmd : bytes) : bool :=
  bool_decide (ToUpper unicode_ToUpper cmd ∈ query_headers).

(** A command that is not answered. *)
Lemma executeOne_silent cmd d :
  is_answered cmd = false ->
  in_response (executeOne cmd d) = in_response d /\ in_input (executeOne cmd d) = in_input d.
Proof.
  unfold is_answered. intros Hq%bool_decide_eq_false.
  assert (Hf : forall s, str s ∈ query_headers ->
    bool_decide (ToUpper unicode_ToUpper cmd = str s) = false).
  { intros s Hs. apply bool_decide_eq_false. intros E. by rewrite E in Hq. }
  unfold executeOne. cbv zeta.
  rewrite (Hf "*IDN?"%string), (Hf "*OPC?"%string), (Hf "*ESR?"%string), (Hf "*STB?"%string),
    (Hf "*TST?"%string), (Hf "SYST:ERR?"%string), (Hf "SYSTEM:ERROR?"%string),
    (Hf "MEAS:VOLT?"%string), (Hf "MEASURE:VOLTAGE?"%string), (Hf "TRIG:COUNT?"%string),
    (Hf "CURV?"%string), (Hf "WAV:DATA?"%string)
    by (vm_compute; repeat (apply list_elem_of_here || apply list_elem_of_further)).
  by repeat case_match.
Qed.

Lemma response_set_status s e d : in_response (set_status s e d) = in_response d.
Proof. done. Qed.

Lemma response_reply l d : exists l', in_response (reply l d) = in_response d ++ l' ++ [newline].
Proof. exists l. unfold reply. simpl. by rewrite <- app_assoc. Qed.

Lemma response_block h p d :
  exists l', in_response (set_response (((in_response d ++ h) ++ p) ++ [newline]) d)
    = in_response d ++ l' ++ [newline].
Proof. exists (h ++ p). simpl. by rewrite <- !app_assoc. Qed.

(** A command that is answered appends a line. *)
Lemma executeOne_answers cmd d :
  is_answered cmd = true ->
  (exists l, in_response (executeOne cmd d) = in_response d ++ l ++ [newline]) /\
  in_input (executeOne cmd d) = in_input d.
Proof.
  unfold is_answered. intros Hq%bool_decide_eq_true. unfold executeOne, HasPrefix. cbv zeta.
  unfold query_headers in Hq. cbn [map] in Hq. rewrite !elem_of_cons, elem_of_nil in Hq.
  repeat (destruct Hq as [-> | Hq] || destruct Hq); eval_closed; try case_bool_decide;
    (split; [| reflexivity]); rewrite ?response_set_status;
    lazymatch goal with
    | |- context [block_payload] => apply response_block
    | _ => apply response_reply
    end.
Qed.

(** One command appends a line to the response exactly if it is answered, and does
    not touch the input. *)
Lemma executeOne_response cmd d :
  exists r, in_response (executeOne cmd d) = in_response d ++ r /\
    in_input (executeOne cmd d) = in_input d /\
    (if is_answered cmd then exists l, r = l ++ [newline] else r = []).
Proof.
  destruct (is_answered cmd) eqn:E.
  - destruct (executeOne_answers cmd d E) as [[l ->] ->]. eexists. split_and!; [done.. |]. by exists l.
  - destruct (executeOne_silent cmd d E) as [-> ->]. exists []. by rewrite app_nil_r.
Qed.

(** A program message appends one line for each command that is answered. *)
Lemma execute_response program d :
  exists rs, in_response (execute program d) = in_response d ++ concat rs /\
    in_input (execute program d) = in_input d /\
    length rs = length (List.filter is_answered (commands program)) /\
    Forall (fun r => exists l, r = l ++ [newline]) rs.
Proof.
  rewrite execute_commands. revert d. induction (commands program) as [|cmd cmds IH]; intros d.
  { exists []. by rewrite app_nil_r. }
  cbn [fold_left List.filter]. destruct (IH (executeOne cmd d)) as (rs & -> & -> & Hl & Hrs).
  destruct (executeOne_response cmd d) as (r & -> & -> & Hr). destruct (is_answered cmd).
  - exists (r :: rs). simpl. rewrite Hl, <- app_assoc. by auto.
  - subst r. exists rs. by rewrite app_nil_r.
Qed.

(** An answered command in ASCII contains a question mark. *)
Lemma answered_has_query cmd : ascii cmd -> is_answered cmd = true -> ch_query ∈ cmd.
Proof.
  unfold is_answered. intros Ha Hq%bool_decide_eq_true. rewrite ToUpper_ascii in Hq by done.
  assert (Hm : ch_query ∈ map upper_ascii cmd).
  { assert (Hall : forallb (fun h => bool_decide (ch_query ∈ h)) query_headers = true)
      by (vm_compute; reflexivity).
    rewrite forallb_forall in Hall. apply list_elem_of_In in Hq.
    by apply Hall, bool_decide_eq_true in Hq. }
  apply list_elem_of_In, in_map_iff in Hm as (c & Hc & Hin). apply list_elem_of_In in Hin.
  unfold upper_ascii, in_range, ch_query in *. repeat case_bool_decide; simpl in *; try lia; by subst.
Qed.

Lemma commands_incl program cmd c : cmd ∈ commands program -> c ∈ cmd -> c ∈ program.
Proof.
  unfold commands. rewrite list_elem_of_filter, list_elem_of_In, in_map_iff.
  intros [_ (w & <- & Hw)] Hc%TrimSpace_incl. apply list_elem_of_In in Hw. by eapply Split_incl.
Qed.

(** Without a question mark an ASCII program is not answered. *)
Lemma execute_silent program d :
  ascii program -> ch_query ∉ program -> in_response (execute program d) = in_response d.
Proof.
  intros Ha Hq. destruct (execute_response program d) as (rs & -> & _ & Hl & _).
  assert (E : List.filter is_answered (commands program) = []).
  { clear Hl. pose proof (commands_incl program) as Hi. induction (commands program) as [|cmd cmds IH]; [done |].
    simpl. destruct (is_answered cmd) eqn:E.
    - exfalso. apply Hq, (Hi cmd); [apply list_elem_of_here |]. apply answered_has_query; [| done].
      apply Forall_forall. intros c Hc. unfold ascii in Ha. rewrite Forall_forall in Ha.
      apply Ha, (Hi cmd); [apply list_elem_of_here | done].
    - apply IH. intros cmd' c Hc. apply Hi. by apply list_elem_of_further. }
  rewrite E in Hl. destruct rs; [by rewrite app_nil_r | done].
Qed.

(** ** The status registers *)

(** Both registers are clear or hold the one bit the instrument uses; a command error
    in the event register is summarised in the status byte; the trigger count is an
    [int]. *)
Record status_inv (d : instrument) : Prop := {
  si_esr : d.(in_esr) = 0 \/ d.(in_esr) = esrCME;
  si_status : d.(in_status) = 0 \/ d.(in_status) = statusESB;
  si_summary : d.(in_esr) = esrCME -> d.(in_status) = statusESB;
  si_triggered : - 2 ^ 63 <= d.(in_triggered) < 2 ^ 63;
}.

Lemma status_inv_zero v : status_inv (instrument_zero v).
Proof. split; simpl; auto; lia || done. Qed.

Lemma status_inv_set s e d :
  status_inv d -> (e = 0 \/ e = esrCME) -> (s = 0 \/ s = statusESB) ->
  (e = esrCME -> s = statusESB) -> status_inv (set_status s e d).
Proof. intros Hi He Hs Hx. split; try done. apply Hi. Qed.

Lemma status_inv_fields d d' :
  status_inv d -> in_status d' = in_status d -> in_esr d' = in_esr d ->
  in_triggered d' = in_triggered d -> status_inv d'.
Proof. intros [] E1 E2 E3. split; by rewrite ?E1, ?E2, ?E3. Qed.

Lemma status_inv_commandError d : status_inv d -> status_inv (commandError d).
Proof.
  intros Hi. apply status_inv_set; [done | | |].
  - destruct Hi as [[-> | ->] _ _ _]; by right.
  - destruct Hi as [_ [-> | ->] _ _]; by right.
  - destruct Hi as [_ [-> | ->] _ _]; done.
Qed.

Lemma and_not_status d : status_inv d -> and_not d.(in_status) statusESB = 0.
Proof. by intros [_ [-> | ->] _ _]. Qed.

Lemma status_inv_executeOne cmd d : status_inv d -> status_inv (executeOne cmd d).
Proof.
  intros Hi. unfold executeOne. cbv zeta.
  repeat (apply status_inv_commandError || case_match); try done;
    try (by apply (status_inv_fields d)); cbn [reply set_response in_status in_esr].
  - apply status_inv_set; [| by left | by left | done]. split; simpl; try apply Hi. lia.
  - rewrite and_not_status by done. by apply status_inv_set; [| left | left |].
  - rewrite and_not_status by done. apply status_inv_set; [| by left | by left | done].
    by apply (status_inv_fields d).
  - apply status_inv_set; [by apply (status_inv_fields d) | | apply Hi |];
      destruct (si_esr d Hi) as [-> | ->]; by try left.
Qed.

Lemma status_inv_execute program d : status_inv d -> status_inv (execute program d).
Proof.
  rewrite execute_commands. revert d. induction (commands program); simpl; auto using status_inv_executeOne.
Qed.

(** The operations of the instrument, with the arguments that matter. *)
Inductive inst_op : Type :=
| IWrite (p : bytes) (fin : bool)
| IRead (n : Z)
| IClear
| ITrigger
| IStatus
| IRemoteLocal (mode : Z).

Definition inst_step (d : instrument) (o : inst_op) : instrument :=
  match o with
  | IWrite p fin => (instrument_Write d false p fin).2
  | IRead n => (instrument_Read d false n).2
  | IClear => (instrument_Clear d false).2
  | ITrigger => (instrument_Trigger d false).2
  | IStatus => (instrument_ReadStatusByte d false).2
  | IRemoteLocal mode => (instrument_RemoteLocal d false mode).2
  end.

Lemma int64_range z : - 2 ^ 63 <= int64 z < 2 ^ 63.
Proof. unfold int64. pose proof (Z.mod_pos_bound (z + 2 ^ 63) (2 ^ 64)). lia. Qed.

Lemma status_inv_step d o : status_inv d -> status_inv (inst_step d o).
Proof.
  intros Hi. destruct o as [p fin | n | | | | m]; simpl; try done.
  - unfold instrument_Write. destruct fin; simpl; [apply status_inv_execute |];
      by apply (status_inv_fields d).
  - unfold instrument_Read. case_bool_decide; [done |]. by apply (status_inv_fields d).
  - by apply (status_inv_fields d).
  - split; try apply Hi. apply int64_range.
Qed.

(** The state after a sequence of operations. *)
Definition inst_run (d : instrument) (ops : list inst_op) : instrument := fold_left inst_step ops d.

Lemma status_inv_run d ops : status_inv d -> status_inv (inst_run d ops).
Proof. revert d. induction ops; simpl; auto using status_inv_step. Qed.

(** The three ways a client learns of a command error. *)
Lemma reported_status d : status_inv d -> (instrument_ReadStatusByte d false).1.1 = d.(in_status).
Proof. unfold instrument_ReadStatusByte. by intros [_ [-> | ->] _ _]. Qed.

Lemma executeOne_ESR d :
  executeOne (str "*esr?") d
  = set_status (and_not d.(in_status) statusESB) 0 (reply (Itoa d.(in_esr)) d).
Proof. unfold executeOne. replace (ToUpper _ _) with (str "*ESR?") by done. by eval_closed. Qed.

Lemma executeOne_SYSTERR d :
  executeOne (str "SYST:ERR?") d
  = if bool_decide (Z.land d.(in_esr) esrCME <> 0)
    then set_status d.(in_status) (and_not d.(in_esr) esrCME)
           (reply (str "-113," ++ ch_dquote :: str "Undefined header" ++ [ch_dquote]) d)
    else reply (str "0," ++ ch_dquote :: str "No error" ++ [ch_dquote]) d.
Proof. unfold executeOne. replace (ToUpper _ _) with (str "SYST:ERR?") by done. by eval_closed. Qed.

(** What the policy of the server says of plain text, the instrument honours. *)
Lemma silent_by_policy program d :
  ascii program -> plain_text program ->
  SCPIQueryPolicy_Disposition (SCPIQueryPolicy_Feed NewSCPIQueryPolicy program) <> ResponseExpected ->
  in_response (execute (TrimRight program crlf) d) = in_response d.
Proof.
  intros Ha Hp Hd. rewrite SCPIQueryPolicy_Feed_scan in Hd by done.
  unfold SCPIQueryPolicy_Disposition in Hd. rewrite scpi_scan_plain in Hd by done.
  case_bool_decide as Hq; [done |]. apply execute_silent.
  - apply Forall_forall. intros c Hc%TrimRight_incl. unfold ascii in Ha. rewrite Forall_forall in Ha. auto.
  - intros Hc%TrimRight_incl. done.
Qed.
End Instrument.
Arguments instrument F : clear implicits.

(** C28: The status registers of the simulated instrument stay within their bytes and
    report command errors. After any sequence of writes, reads, clears, triggers and
    polls the status byte is 0 or 32, so the bits the server adjusts are never set by
    the instrument, and the byte reported is exact; a command error sets both
    registers; the event register query answers 32 or 0 and clears both registers; the
    error query answers by the event register and clears it, leaving the status byte
    as it was. *)
Theorem instrument_reports_errors {F} `{Runtime F} v ops :
  let d := inst_run (instrument_zero v) ops in
  let bad := bool_decide (d.(in_esr) = esrCME) in
  (d.(in_status) = 0 \/ d.(in_status) = 32) /\
  instrument_ReadStatusByte d false = (d.(in_status), None, d) /\
  (bad = true -> d.(in_status) = 32) /\
  (commandError d).(in_status) = 32 /\ (commandError d).(in_esr) = 32 /\
  (executeOne (str "*esr?") d).(in_response)
    = d.(in_response) ++ str (if bad then "32" else "0") ++ [newline] /\
  (executeOne (str "*esr?") d).(in_status) = 0 /\ (executeOne (str "*esr?") d).(in_esr) = 0 /\
  (executeOne (str "SYST:ERR?") d).(in_response)
    = d.(in_response) ++ (if bad then str "-113," ++ ch_dquote :: str "Undefined header"
                          else str "0," ++ ch_dquote :: str "No error") ++ [ch_dquote; newline] /\
  (executeOne (str "SYST:ERR?") d).(in_esr) = 0 /\
  (executeOne (str "SYST:ERR?") d).(in_status) = d.(in_status).
Proof.
  intros d bad. assert (Hi : status_inv d) by apply status_inv_run, status_inv_zero.
  rewrite executeOne_ESR, executeOne_SYSTERR. subst bad.
  pose proof (reported_status d Hi) as Hr. unfold instrument_ReadStatusByte in *. simpl in Hr.
  rewrite Hr. clear Hr. destruct Hi as [He Hs Hx _]. clearbody d.
  destruct d as [vb inp resp st esr volt trig]; simpl in He, Hs, Hx.
  unfold reply, commandError. cbn [in_response in_status in_esr set_status set_response].
  split_and!; try done.
  1: intros Hb%bool_decide_eq_true; by apply Hx.
  all: destruct He as [-> | ->]; destruct Hs as [-> | ->]; try done; try (by specialize (Hx eq_refl));
    cbn -[str]; by rewrite <- ?app_assoc.
Qed.

(** C27: Text without quotes and blocks keeps the simulated instrument and the query
    detector in agreement. Executing an ASCII program message never fails, consumes
    the input, and appends one line to the response for each answered command; if the
    detector does not expect a response then nothing is appended, so the server is
    never left with a response it does not come to read. *)
Theorem instrument_answers_only_queries {F} `{Runtime F} (d : instrument F) program :
  d.(in_input) = [] -> ascii program -> plain_text program ->
  let '(err, d') := instrument_Write d false program true in
  err = None /\ d'.(in_input) = [] /\
  (SCPIQueryPolicy_Disposition (SCPIQueryPolicy_Feed NewSCPIQueryPolicy program) <> ResponseExpected ->
   d'.(in_response) = d.(in_response)) /\
  exists rs, d'.(in_response) = d.(in_response) ++ concat rs /\
    length rs = length (List.filter is_answered (commands (TrimRight program crlf))) /\
    Forall (fun r => exists l, r = l ++ [newline]) rs.
Proof.
  intros Hin Ha Hp. unfold instrument_Write. simpl. rewrite Hin, app_nil_l.
  destruct (execute_response (TrimRight program crlf) (set_input [] (set_input program d)))
    as (rs & Er & Ei & Hl & Hrs).
  split_and!; [done | by rewrite Ei | intros Hd; by rewrite silent_by_policy | by exists rs].
Qed.

(** The response to a waveform query is a definite-length block, which the query
    detector skips when it comes back. *)
Lemma waveform_is_a_block {F} `{Runtime F} (d : instrument F) :
  in_response (executeOne (str "curv?") d)
  = in_response d ++ render (TBlock 4 block_payload) ++ [newline] /\
  wf_token (TBlock 4 block_payload).
Proof.
  split; [| split; [lia | by vm_compute]].
  unfold executeOne, HasPrefix. replace (ToUpper _ _) with (str "CURV?") by done. eval_closed.
  replace (render (TBlock 4 block_payload))
    with (block_header (len block_payload) ++ block_payload) by (vm_compute; reflexivity).
  cbn [in_response set_response]. by rewrite <- !app_assoc.
Qed.

(** ** A concrete runtime: numbers are unsigned decimal integers *)
Definition parse_digits (s : bytes) : option Z :=
  fold_left (fun acc c => match acc with
    | Some v => if in_range ch_0 ch_9 c then Some (v * 10 + (c - ch_0)) else None
    | None => None end) s (Some 0).
#[export] Instance Runtime_Z : Runtime Z := {|
  float_zero := 0;
  ParseFloat := parse_digits;
  Sprintf_6E := Itoa;
  unicode_ToUpper := fun r => r;
|}.

(** The example session of the documentation. *)
Lemma instrument_session :
  let d := (instrument_Write (instrument_zero false) false
              (str " *idn? ; sour:volt 12;MEAS:VOLT?;bogus;*ESR?" ++ crlf) true).2 in
  d.(in_response) = str "GoTMC,HiSLIP Simulated Instrument,0,0.1.0" ++ [newline]
    ++ str "12" ++ [newline] ++ str "32" ++ [newline] /\ d.(in_voltage) = 12 /\ d.(in_status) = 0.
Proof. vm_compute. done. Qed.

(** The instrument splits a program message at every semicolon, also inside a string:
    here it answers, and the server does not come to read. *)
Lemma string_is_not_honoured :
  let program := ch_dquote :: str ";*IDN?" in
  SCPIQueryPolicy_Disposition (SCPIQueryPolicy_Feed NewSCPIQueryPolicy program) = NoResponseExpected /\
  (instrument_Write (instrument_zero false) false program true).2.(in_response) <> [].
Proof. vm_compute. done. Qed.

Lemma instrument_answers_only_queries_witness :
  (instrument_Write (instrument_zero false) false (str "*RST;SOUR:VOLT 3") true).2.(in_response) = [].
Proof.
  pose proof (instrument_answers_only_queries (instrument_zero false) (str "*RST;SOUR:VOLT 3") eq_refl
    (ascii_dec (str "*RST;SOUR:VOLT 3") eq_refl)
    ltac:(repeat apply Forall_cons_2; try (by apply Forall_nil_2); split_and!; vm_compute; discriminate))
    as Hw.
  destruct (instrument_Write _ _ _ _) as [err d']. destruct Hw as (_ & _ & Hs & _).
  exact (Hs ltac:(vm_compute; discriminate)).
Defined.
