(* ===== verification/InstrumentLog.v ===== *)
(** * What the simulated instrument logs

    The calls of [logf] in [src/examples/server/main.go], in the order in which the
    methods of the instrument make them. An entry is what is passed to [log.Printf], a
    format and its arguments; the line it becomes, with the time in front, is the
    logger's. *)

From S2P Require Import Prelude Errors GoStrings Device Instrument.

Inductive log_arg : Type :=
| ArgString (s : bytes)
| ArgInt (z : Z)
| ArgBool (b : bool)
| ArgMode (mode : Z).

Record log_entry : Type := MkEntry {
  le_format : bytes;
  le_args : list log_arg;
}.

(** A format of [logf] with the verb [c]: percent, and the rest. *)
Definition verb (c : string) : bytes := 37 :: str c.

Section Log.
Context {F : Type} `{Runtime F}.
Implicit Types d : instrument F.
Local Abbreviation logs A := (list log_entry * A)%type.

Definition logf d (format : bytes) (args : list log_arg) : list log_entry :=
  if d.(in_verbose) then [MkEntry (str "instrument: " ++ format) args] else [].

(** The branches of [executeOne] that end in [commandError]. *)
Definition is_command_error (cmd : bytes) : bool :=
  let upper := ToUpper unicode_ToUpper cmd in
  let eqs s := bool_decide (upper = str s) in
  if existsb eqs ["*IDN?"; "*RST"; "*CLS"; "*OPC?"; "*ESR?"; "*STB?"; "*TST?"; "SYST:ERR?"; "SYSTEM:ERROR?";
                  "MEAS:VOLT?"; "MEASURE:VOLTAGE?"; "TRIG:COUNT?"] then false
  else if HasPrefix upper (str "SOUR:VOLT ") || HasPrefix upper (str "SOURCE:VOLTAGE ")
  then match Fields cmd with [_; field] => bool_decide (ParseFloat field = None) | _ => true end
  else negb (eqs "CURV?" || eqs "WAV:DATA?").

Definition executeOne_logged (cmd : bytes) d : logs (instrument F) :=
  (if is_command_error cmd then logf d (str "command error") [] else [], executeOne cmd d).

Definition execute_logged (program : bytes) d : logs (instrument F) :=
  fold_left (fun '(log, d) cmd =>
    let cmd := TrimSpace cmd in
    if bool_decide (cmd = []) then (log, d)
    else let (log', d) := executeOne_logged cmd d in (log ++ log', d))
    (Split ch_semicolon program) ([], d).

Definition Write_logged d (p : bytes) (fin : bool) : logs (option error * instrument F) :=
  let d := set_input (d.(in_input) ++ p) d in
  if negb fin then ([], (None, d))
  else
    let program := TrimRight d.(in_input) crlf in
    let d := set_input [] d in
    let (log, d') := execute_logged program d in
    (logf d (str "write " ++ verb "q") [ArgString program] ++ log, (None, d')).

Definition Read_logged d (n : Z) : logs (bytes * bool * option error * instrument F) :=
  if bool_decide (len d.(in_response) = 0) then ([], ([], false, Some errNoResponse, d))
  else
    let p := take (Z.to_nat n) d.(in_response) in
    let d := set_response (drop (Z.to_nat n) d.(in_response)) d in
    let fin := bool_decide (len d.(in_response) = 0) in
    (logf d (str "read " ++ verb "d bytes, end=" ++ verb "v") [ArgInt (len p); ArgBool fin],
     (p, fin, None, d)).

Definition Clear_logged d : logs (option error * instrument F) :=
  (logf d (str "clear") [], (None, set_response [] (set_input [] d))).

Definition Trigger_logged d : logs (option error * instrument F) :=
  let d := set_triggered (int64 (d.(in_triggered) + 1)) d in
  (logf d (str "trigger (" ++ verb "d)") [ArgInt d.(in_triggered)], (None, d)).

Definition ReadStatusByte_logged d : logs (Z * option error * instrument F) :=
  (logf d (str "status byte " ++ verb "#02x") [ArgInt d.(in_status)], (uint8 d.(in_status), None, d)).

Definition RemoteLocal_logged d (mode : RemoteLocalMode) : logs (option error * instrument F) :=
  (logf d (str "remote/local: " ++ verb "v") [ArgMode mode], (None, d)).

(** ** The log and the instrument *)

(** The log of a command says whether it failed. *)
Lemma is_command_error_spec cmd d :
  if is_command_error cmd then executeOne cmd d = commandError d
  else Z.land (executeOne cmd d).(in_esr) esrCME <> 0 -> Z.land d.(in_esr) esrCME <> 0.
Proof.
  assert (H0 : Z.land 0 esrCME <> 0 -> Z.land (in_esr d) esrCME <> 0) by done.
  assert (H1 : Z.land (and_not (in_esr d) esrCME) esrCME <> 0 -> Z.land (in_esr d) esrCME <> 0).
  { intros []. unfold and_not. by rewrite Z.ldiff_land, <- Z.land_assoc, (Z.land_comm (Z.lnot _)), Z.land_lnot_diag, Z.land_0_r. }
  unfold is_command_error, executeOne. cbv zeta. cbn [existsb]. generalize (ToUpper unicode_ToUpper cmd) as upper.
  intros upper. generalize block_payload as payload. intros payload.
  repeat match goal with
  | |- context [bool_decide (upper = str ?s)] =>
      destruct (bool_decide (upper = str s)); cbn [orb negb]; cbv iota; [done || exact H0 || idtac |]
  end.
  1, 2: by case_bool_decide.
  all: destruct (_ || _); [| done].
  all: destruct (Fields cmd) as [|? [|field [|]]]; try done.
  all: destruct (ParseFloat field); [by rewrite bool_decide_eq_false_2 | by rewrite bool_decide_eq_true_2].
Qed.

Lemma verbose_executeOne cmd d : in_verbose (executeOne cmd d) = in_verbose d.
Proof.
  unfold executeOne. cbv zeta. generalize (ToUpper unicode_ToUpper cmd) as upper.
  intros upper. generalize block_payload as payload. intros payload.
  repeat match goal with
  | |- context [bool_decide (upper = str ?s)] => destruct (bool_decide (upper = str s)); cbn [orb]; cbv iota; [done || idtac |]
  end; repeat case_match; done.
Qed.

(** The log of a program message: what is executed, and one entry for every command
    that failed, in order. *)
Definition failures (program : bytes) : nat := length (List.filter is_command_error (commands program)).

Lemma execute_logged_spec program d :
  (execute_logged program d).2 = execute program d /\
  (execute_logged program d).1 = concat (replicate (failures program) (logf d (str "command error") [])).
Proof.
  unfold execute_logged, execute, failures, commands.
  assert (Hall : forall cmds log d0, in_verbose d0 = in_verbose d ->
    fold_left (fun '(log, d) cmd => let cmd := TrimSpace cmd in
      if bool_decide (cmd = []) then (log, d)
      else let (log', d) := executeOne_logged cmd d in (log ++ log', d)) cmds (log, d0)
    = (log ++ concat (replicate (length (List.filter is_command_error
         (filter (fun cmd => cmd <> []) (map TrimSpace cmds)))) (logf d (str "command error") [])),
       fold_left (fun d cmd => let cmd := TrimSpace cmd in
         if bool_decide (cmd = []) then d else executeOne cmd d) cmds d0)).
  { intros cmds. induction cmds as [|cmd cmds IH]; intros log d0 Hv; [by rewrite app_nil_r |].
    cbn [fold_left map]. cbv zeta. rewrite filter_cons. case_bool_decide as Hc.
    - rewrite decide_False by (by intros []). by apply IH.
    - rewrite decide_True by done. cbn [executeOne_logged]. rewrite IH by (by rewrite verbose_executeOne).
      cbn [List.filter]. destruct (is_command_error _); cbn [length replicate concat]; rewrite <- app_assoc; [| done].
      unfold logf. by rewrite Hv. }
  by rewrite Hall.
Qed.

(** The log is faithful. Whether the instrument logs or not, every method returns and
    does the same; a completed write logs its program message and then one line for
    each command that fails, in a verbose instrument, and nothing otherwise. *)
Theorem instrument_log_is_faithful d :
  (forall p fin, (Write_logged d p fin).2 = instrument_Write d false p fin) /\
  (forall n, (Read_logged d n).2 = instrument_Read d false n) /\
  (Clear_logged d).2 = instrument_Clear d false /\ (Trigger_logged d).2 = instrument_Trigger d false /\
  (ReadStatusByte_logged d).2 = instrument_ReadStatusByte d false /\
  (forall mode, (RemoteLocal_logged d mode).2 = instrument_RemoteLocal d false mode) /\
  (forall p, let program := TrimRight (d.(in_input) ++ p) crlf in
     (Write_logged d p true).1 =
       if d.(in_verbose)
       then MkEntry (str "instrument: write " ++ verb "q") [ArgString program]
            :: replicate (failures program) (MkEntry (str "instrument: command error") [])
       else []).
Proof.
  split_and!; try done.
  - intros p fin. unfold Write_logged, instrument_Write. destruct fin; [| done]. cbn [negb].
    pose proof (execute_logged_spec (TrimRight (in_input (set_input (in_input d ++ p) d)) crlf)
      (set_input [] (set_input (in_input d ++ p) d))) as [E _]. rewrite <- E. by destruct (execute_logged _ _).
  - intros n. unfold Read_logged, instrument_Read. by destruct (bool_decide _).
  - intros p. cbv zeta. unfold Write_logged. cbn [negb in_input set_input].
    pose proof (execute_logged_spec (TrimRight (in_input d ++ p) crlf)
      (set_input [] (set_input (in_input d ++ p) d))) as [_ E]. destruct (execute_logged _ _) as [log d'].
    simpl in E. subst log. unfold logf. cbn [in_verbose set_input]. destruct (in_verbose d).
    + simpl. f_equal. by induction (failures _); simpl; [| f_equal].
    + simpl. by induction (failures _).
Qed.
End Log.

(** ** The instrument with its log

    An instrument and what it has logged so far. *)
Section Logger.
Context {F : Type} `{Runtime F}.

Definition logger : Type := instrument F * list log_entry.

(** The result of a method, with the log it adds. *)
Definition add_log {A} (log : list log_entry) (r : list log_entry * (A * instrument F)) : A * logger :=
  (r.2.1, (r.2.2, log ++ r.1)).

#[export] Program Instance logger_Device : Device logger := {|
  dev_Write d c p fin := add_log d.2 (Write_logged d.1 p fin);
  dev_Read d c n := add_log d.2 (Read_logged d.1 n);
  dev_Clear d c := add_log d.2 (Clear_logged d.1);
  dev_Trigger d c := add_log d.2 (Trigger_logged d.1);
  dev_ReadStatusByte d c := add_log d.2 (ReadStatusByte_logged d.1);
  dev_RemoteLocal d c mode := add_log d.2 (RemoteLocal_logged d.1 mode);
|}.
Next Obligation.
  intros [d log] c n Hn. cbn [add_log fst snd]. destruct (instrument_log_is_faithful d) as (_ & E & _).
  specialize (E n). rewrite E. exact (@dev_Read_len _ instrument_Device d false n Hn).
Qed.
Next Obligation. intros [d log] c. apply uint8_range. Qed.
End Logger.
Arguments logger : clear implicits.
