(* ===== verification/Session.v ===== *)
(** * Sessions

    [src/server/session.go]: the state of one logical session and the methods
    that change it. The two streams of a session live next to it (see [Server]);
    the session records whether its own references to them are still set. *)

From S2P Require Import Prelude Errors Version Constants MessageId Stream Header Codec Writer.
From S2P Require Import Rmt Status Transaction Policy Config.

Inductive State : Type := StatePairing | StateReady | StateClearing | StateClosed.
#[export] Instance State_eq_dec : EqDecision State.
Proof. solve_decision. Defined.

Definition State_String (s : State) : bytes :=
  str match s with
  | StatePairing => "pairing"
  | StateReady => "ready"
  | StateClearing => "clearing"
  | StateClosed => "closed"
  end.

(** A context is the chain of cancellable contexts it was derived from,
    innermost first; it is done when one of them has been cancelled. *)
Abbreviation Context := (list nat).

Definition ctx_done (cancelled : gset nat) (ctx : Context) : bool :=
  existsb (fun c => bool_decide (c ∈ cancelled)) ctx.

(** [ss_sync] and [ss_async] say whether the references are non-nil;
    [ss_pending] whether a pending predicate is installed; [ss_opCancel] is the
    context the registered cancel function cancels. *)
Record Session : Type := MkSession {
  ss_id : Z;
  ss_version : Version;
  ss_overlap : bool;
  ss_state : State;
  ss_sync : bool;
  ss_async : bool;
  ss_rmt : RMT;
  ss_status : Status;
  ss_lastTx : MessageID;
  ss_maxRx : Z;
  ss_maxTx : Z;
  ss_opCancel : option nat;
  ss_tx : Transaction;
  ss_syncW : option MessageWriter;
  ss_asyncW : option MessageWriter;
  ss_pending : bool;
  ss_policy : option ResponsePolicy;
}.

(** ** Field assignments *)
Definition ss_set_overlap (v : bool) (s : Session) : Session :=
  MkSession s.(ss_id) s.(ss_version) v s.(ss_state) s.(ss_sync) s.(ss_async) s.(ss_rmt)
    s.(ss_status) s.(ss_lastTx) s.(ss_maxRx) s.(ss_maxTx) s.(ss_opCancel) s.(ss_tx) s.(ss_syncW)
    s.(ss_asyncW) s.(ss_pending) s.(ss_policy).
Definition ss_set_state (v : State) (s : Session) : Session :=
  MkSession s.(ss_id) s.(ss_version) s.(ss_overlap) v s.(ss_sync) s.(ss_async) s.(ss_rmt)
    s.(ss_status) s.(ss_lastTx) s.(ss_maxRx) s.(ss_maxTx) s.(ss_opCancel) s.(ss_tx) s.(ss_syncW)
    s.(ss_asyncW) s.(ss_pending) s.(ss_policy).
Definition ss_set_streams (v w : bool) (s : Session) : Session :=
  MkSession s.(ss_id) s.(ss_version) s.(ss_overlap) s.(ss_state) v w s.(ss_rmt) s.(ss_status)
    s.(ss_lastTx) s.(ss_maxRx) s.(ss_maxTx) s.(ss_opCancel) s.(ss_tx) s.(ss_syncW) s.(ss_asyncW)
    s.(ss_pending) s.(ss_policy).
Definition ss_set_rmt (v : RMT) (s : Session) : Session :=
  MkSession s.(ss_id) s.(ss_version) s.(ss_overlap) s.(ss_state) s.(ss_sync) s.(ss_async) v
    s.(ss_status) s.(ss_lastTx) s.(ss_maxRx) s.(ss_maxTx) s.(ss_opCancel) s.(ss_tx) s.(ss_syncW)
    s.(ss_asyncW) s.(ss_pending) s.(ss_policy).
Definition ss_set_status (v : Status) (s : Session) : Session :=
  MkSession s.(ss_id) s.(ss_version) s.(ss_overlap) s.(ss_state) s.(ss_sync) s.(ss_async)
    s.(ss_rmt) v s.(ss_lastTx) s.(ss_maxRx) s.(ss_maxTx) s.(ss_opCancel) s.(ss_tx) s.(ss_syncW)
    s.(ss_asyncW) s.(ss_pending) s.(ss_policy).
Definition ss_set_lastTx (v : MessageID) (s : Session) : Session :=
  MkSession s.(ss_id) s.(ss_version) s.(ss_overlap) s.(ss_state) s.(ss_sync) s.(ss_async)
    s.(ss_rmt) s.(ss_status) v s.(ss_maxRx) s.(ss_maxTx) s.(ss_opCancel) s.(ss_tx) s.(ss_syncW)
    s.(ss_asyncW) s.(ss_pending) s.(ss_policy).
Definition ss_set_maxTx (v : Z) (s : Session) : Session :=
  MkSession s.(ss_id) s.(ss_version) s.(ss_overlap) s.(ss_state) s.(ss_sync) s.(ss_async)
    s.(ss_rmt) s.(ss_status) s.(ss_lastTx) s.(ss_maxRx) v s.(ss_opCancel) s.(ss_tx) s.(ss_syncW)
    s.(ss_asyncW) s.(ss_pending) s.(ss_policy).
Definition ss_set_opCancel (v : option nat) (s : Session) : Session :=
  MkSession s.(ss_id) s.(ss_version) s.(ss_overlap) s.(ss_state) s.(ss_sync) s.(ss_async)
    s.(ss_rmt) s.(ss_status) s.(ss_lastTx) s.(ss_maxRx) s.(ss_maxTx) v s.(ss_tx) s.(ss_syncW)
    s.(ss_asyncW) s.(ss_pending) s.(ss_policy).
Definition ss_set_tx (v : Transaction) (s : Session) : Session :=
  MkSession s.(ss_id) s.(ss_version) s.(ss_overlap) s.(ss_state) s.(ss_sync) s.(ss_async)
    s.(ss_rmt) s.(ss_status) s.(ss_lastTx) s.(ss_maxRx) s.(ss_maxTx) s.(ss_opCancel) v
    s.(ss_syncW) s.(ss_asyncW) s.(ss_pending) s.(ss_policy).
Definition ss_set_pending (v : bool) (s : Session) : Session :=
  MkSession s.(ss_id) s.(ss_version) s.(ss_overlap) s.(ss_state) s.(ss_sync) s.(ss_async)
    s.(ss_rmt) s.(ss_status) s.(ss_lastTx) s.(ss_maxRx) s.(ss_maxTx) s.(ss_opCancel) s.(ss_tx)
    s.(ss_syncW) s.(ss_asyncW) v s.(ss_policy).
Definition ss_set_policy (v : option ResponsePolicy) (s : Session) : Session :=
  MkSession s.(ss_id) s.(ss_version) s.(ss_overlap) s.(ss_state) s.(ss_sync) s.(ss_async)
    s.(ss_rmt) s.(ss_status) s.(ss_lastTx) s.(ss_maxRx) s.(ss_maxTx) s.(ss_opCancel) s.(ss_tx)
    s.(ss_syncW) s.(ss_asyncW) s.(ss_pending) v.

Definition Session_setSyncWriter (v : option MessageWriter) (s : Session) : Session :=
  MkSession s.(ss_id) s.(ss_version) s.(ss_overlap) s.(ss_state) s.(ss_sync) s.(ss_async)
    s.(ss_rmt) s.(ss_status) s.(ss_lastTx) s.(ss_maxRx) s.(ss_maxTx) s.(ss_opCancel) s.(ss_tx) v
    s.(ss_asyncW) s.(ss_pending) s.(ss_policy).
Definition Session_setAsyncWriter (v : option MessageWriter) (s : Session) : Session :=
  MkSession s.(ss_id) s.(ss_version) s.(ss_overlap) s.(ss_state) s.(ss_sync) s.(ss_async)
    s.(ss_rmt) s.(ss_status) s.(ss_lastTx) s.(ss_maxRx) s.(ss_maxTx) s.(ss_opCancel) s.(ss_tx)
    s.(ss_syncW) v s.(ss_pending) s.(ss_policy).

(** ** Construction and accessors *)

Definition newSession (id : Z) (version : Version) (cfg : Config) : Session :=
  MkSession id version false StatePairing true false RMT_zero NewStatus NoMessageID
    cfg.(cfg_MaxRxPayload) cfg.(cfg_MaxTxPayload) None Transaction_zero None None false None.

Definition Session_ID (s : Session) : Z := s.(ss_id).
Definition Session_Version (s : Session) : Version := s.(ss_version).
Definition Session_Overlap (s : Session) : bool := s.(ss_overlap).
Definition Session_State (s : Session) : State := s.(ss_state).
Definition Session_MaxRxPayload (s : Session) : Z := s.(ss_maxRx).
Definition Session_MaxTxPayload (s : Session) : Z := s.(ss_maxTx).
Definition Session_LastTxMessageID (s : Session) : MessageID := s.(ss_lastTx).
Definition Session_Transaction (s : Session) : Transaction := s.(ss_tx).
Definition Session_RMT (s : Session) : RMT := s.(ss_rmt).
Definition Session_Status (s : Session) : Status := s.(ss_status).
Definition Session_SyncWriter (s : Session) : option MessageWriter := s.(ss_syncW).
Definition Session_AsyncWriter (s : Session) : option MessageWriter := s.(ss_asyncW).

Definition Session_setLastTxMessageID (id : MessageID) (s : Session) : Session :=
  ss_set_lastTx id s.

Definition Session_setSyncPending (s : Session) : Session := ss_set_pending true s.

(** The predicate [syncPending] returns, applied when the reader holds a message
    iff [queued]. *)
Definition Session_syncPending (s : Session) (queued : bool) : bool :=
  if s.(ss_pending) then queued else false.

(** ** The response policy *)

Definition Session_feedProgramMessage (p : bytes) (s : Session) : Session :=
  if bool_decide (len p = 0) then s
  else match s.(ss_policy) with
       | Some pol => ss_set_policy (Some (Policy_Feed pol p)) s
       | None => s
       end.

Definition Session_programDisposition (s : Session) : Disposition * Session :=
  match s.(ss_policy) with
  | None => (NoResponseExpected, s)
  | Some pol => (Policy_Disposition pol, ss_set_policy (Some (Policy_Reset pol)) s)
  end.

(** ** The lifecycle *)

Definition Session_attachAsync (s : Session) : option error * Session :=
  if bool_decide (s.(ss_state) <> StatePairing) then (Some (serr ErrInvalidSession), s)
  else if s.(ss_async) then (Some (serr ErrInvalidSession), s)
  else (None, ss_set_state StateReady (ss_set_streams s.(ss_sync) true s)).

Definition Session_Ready (s : Session) : bool := bool_decide (Session_State s = StateReady).

Definition Session_requireReady (s : Session) : option error :=
  match Session_State s with
  | StateReady | StateClearing => None
  | StateClosed => Some (serr ErrInvalidSession)
  | StatePairing => Some (serr ErrSessionNotReady)
  end.

Definition Session_beginClear (s : Session) : Session :=
  if bool_decide (s.(ss_state) = StateReady) then ss_set_state StateClearing s else s.

Definition Session_completeClear (overlap : bool) (s : Session) : Session :=
  let s := ss_set_overlap overlap s in
  let s := ss_set_rmt (RMT_Reset s.(ss_rmt)) s in
  let s := ss_set_status (Status_Reset s.(ss_status)) s in
  let s := ss_set_lastTx NoMessageID s in
  if bool_decide (s.(ss_state) = StateClearing) then ss_set_state StateReady s else s.

(** [close] also cancels the registered operation and closes the streams that
    were set: it returns the session, the context to cancel and which of the two
    streams to close. *)
Definition Session_close (s : Session) : Session * option nat * (bool * bool) :=
  (ss_set_opCancel None (ss_set_state StateClosed (ss_set_streams false false s)),
   s.(ss_opCancel), (s.(ss_sync), s.(ss_async))).

(** [Operation(parent)]: [fresh] is the identity of the new context. *)
Definition Session_Operation (parent : Context) (fresh : nat) (s : Session) : Context * Session :=
  (fresh :: parent, ss_set_opCancel (Some fresh) s).

(** The release function [Operation] returned for the context [ctx]. *)
Definition Operation_release (ctx : nat) (s : Session) (cancelled : gset nat)
  : Session * gset nat :=
  (if bool_decide (s.(ss_opCancel) <> None) then ss_set_opCancel None s else s,
   {[ctx]} ∪ cancelled).

Definition Session_abortOperation (s : Session) (cancelled : gset nat) : Session * gset nat :=
  match s.(ss_opCancel) with
  | Some c => (ss_set_opCancel None s, {[c]} ∪ cancelled)
  | None => (ss_set_opCancel None s, cancelled)
  end.

(** ** Reduction of setters *)

(** Reduce a projection of an updated session by naming its fields. *)
Ltac session_cases s :=
  destruct s as [?id ?ver ?ov ?st ?sy ?asy ?rmt ?stat ?ltx
    ?mrx ?mtx ?opc ?tx ?sw ?aw ?pend ?pol]; simpl in *.

Lemma ctx_done_In cancelled ctx c : c ∈ ctx -> c ∈ cancelled -> ctx_done cancelled ctx = true.
Proof.
  intros H1 H2. apply existsb_exists. exists c.
  split; [by apply list_elem_of_In | by apply bool_decide_eq_true].
Qed.

(** A session is live in the sense of the channel loops: its trackers are
    started, and its references agree with its state. *)
Record session_inv (s : Session) : Prop := {
  si_started : s.(ss_status).(status_started) = true;
  si_pairing : s.(ss_state) = StatePairing -> s.(ss_sync) = true /\ s.(ss_async) = false;
  si_paired : s.(ss_state) = StateReady \/ s.(ss_state) = StateClearing ->
              s.(ss_sync) = true /\ s.(ss_async) = true;
  si_closed : s.(ss_state) = StateClosed ->
              s.(ss_sync) = false /\ s.(ss_async) = false;
}.

Lemma newSession_inv id v cfg : session_inv (newSession id v cfg).
Proof. split; simpl; intuition discriminate. Qed.

Lemma attachAsync_inv s : session_inv s -> session_inv (Session_attachAsync s).2.
Proof.
  intros Hs. pose proof Hs as [H1 H2 H3 H4]. unfold Session_attachAsync.
  case_bool_decide; [done |]. destruct (ss_async s) eqn:E; [done |].
  session_cases s. split; simpl; try done; naive_solver.
Qed.

Lemma beginClear_inv s : session_inv s -> session_inv (Session_beginClear s).
Proof.
  intros Hs. pose proof Hs as [H1 H2 H3 H4]. unfold Session_beginClear. case_bool_decide; [| done].
  session_cases s. split; simpl; try done; naive_solver.
Qed.

Lemma completeClear_inv o s : session_inv s -> session_inv (Session_completeClear o s).
Proof.
  intros [H1 H2 H3 H4]. unfold Session_completeClear. session_cases s.
  case_bool_decide; split; simpl; try done; naive_solver.
Qed.

Lemma close_inv s : session_inv s -> session_inv (Session_close s).1.1.
Proof. intros [H1 H2 H3 H4]. session_cases s. split; simpl; naive_solver. Qed.

#[export] Hint Resolve newSession_inv attachAsync_inv beginClear_inv completeClear_inv close_inv : hislip.
