(* ===== verification/Server.v ===== *)
(** * The server: sessions and their registration

    [src/server/server.go], with the counters of [src/server/serve.go]. A
    [World] is the heap a server lives in: the server itself, the session objects
    with the streams they were given, and the contexts that have been cancelled.
    A session object outlives its registration, as it does in Go while a channel
    loop still holds a pointer to it. *)

From S2P Require Import Prelude Errors Version Constants MessageId Stream Header Codec Writer.
From S2P Require Import Rmt Status Transaction Policy Locks Config Device Session.

Record Counters : Type := MkCounters {
  SessionsOpened : Z;
  SessionsRefused : Z;
  FatalErrors : Z;
  NonFatalErrors : Z;
  WrongChannel : Z;
  SilentInterrupted : Z;
  InterruptedSent : Z;
  QueriesWithoutAnswer : Z;
  TruncatedResponses : Z;
  DeviceClears : Z;
  Triggers : Z;
  SerialPolls : Z;
  ServiceRequests : Z;
  OversizedMessages : Z;
}.

Definition Counters_zero : Counters := MkCounters 0 0 0 0 0 0 0 0 0 0 0 0 0 0.

(** The increments of the channel loops; a counter is a [uint64]. *)
Definition inc (z : Z) : Z := uint64 (z + 1).
Definition inc_SessionsOpened '(MkCounters a b c d e f g h i j k l m n) := MkCounters (inc a) b c d e f g h i j k l m n.
Definition inc_SessionsRefused '(MkCounters a b c d e f g h i j k l m n) := MkCounters a (inc b) c d e f g h i j k l m n.
Definition inc_FatalErrors '(MkCounters a b c d e f g h i j k l m n) := MkCounters a b (inc c) d e f g h i j k l m n.
Definition inc_NonFatalErrors '(MkCounters a b c d e f g h i j k l m n) := MkCounters a b c (inc d) e f g h i j k l m n.
Definition inc_WrongChannel '(MkCounters a b c d e f g h i j k l m n) := MkCounters a b c d (inc e) f g h i j k l m n.
Definition inc_SilentInterrupted '(MkCounters a b c d e f g h i j k l m n) := MkCounters a b c d e (inc f) g h i j k l m n.
Definition inc_InterruptedSent '(MkCounters a b c d e f g h i j k l m n) := MkCounters a b c d e f (inc g) h i j k l m n.
Definition inc_QueriesWithoutAnswer '(MkCounters a b c d e f g h i j k l m n) := MkCounters a b c d e f g (inc h) i j k l m n.
Definition inc_TruncatedResponses '(MkCounters a b c d e f g h i j k l m n) := MkCounters a b c d e f g h (inc i) j k l m n.
Definition inc_DeviceClears '(MkCounters a b c d e f g h i j k l m n) := MkCounters a b c d e f g h i (inc j) k l m n.
Definition inc_Triggers '(MkCounters a b c d e f g h i j k l m n) := MkCounters a b c d e f g h i j (inc k) l m n.
Definition inc_SerialPolls '(MkCounters a b c d e f g h i j k l m n) := MkCounters a b c d e f g h i j k (inc l) m n.
Definition inc_OversizedMessages '(MkCounters a b c d e f g h i j k l m n) := MkCounters a b c d e f g h i j k l m (inc n).

(** [srv_sessions] maps a session ID to the object registered under it;
    [srv_newPolicy] is the policy the factory returns. *)
Record Server (D : Type) : Type := MkServer {
  srv_cfg : Config;
  srv_dev : D;
  srv_sessions : gmap Z nat;
  srv_nextID : Z;
  srv_locks : LockManager;
  srv_newPolicy : ResponsePolicy;
  srv_counters : Counters;
}.
Arguments MkServer {D}.
Arguments srv_cfg {D}.
Arguments srv_dev {D}.
Arguments srv_sessions {D}.
Arguments srv_nextID {D}.
Arguments srv_locks {D}.
Arguments srv_newPolicy {D}.
Arguments srv_counters {D}.

Section Fields.
Context {D : Type}.
Definition srv_set_dev (v : D) (s : Server D) : Server D :=
  MkServer s.(srv_cfg) v s.(srv_sessions) s.(srv_nextID) s.(srv_locks) s.(srv_newPolicy)
    s.(srv_counters).
Definition srv_set_sessions (v : gmap Z nat) (s : Server D) : Server D :=
  MkServer s.(srv_cfg) s.(srv_dev) v s.(srv_nextID) s.(srv_locks) s.(srv_newPolicy)
    s.(srv_counters).
Definition srv_set_nextID (v : Z) (s : Server D) : Server D :=
  MkServer s.(srv_cfg) s.(srv_dev) s.(srv_sessions) v s.(srv_locks) s.(srv_newPolicy)
    s.(srv_counters).
Definition srv_set_locks (v : LockManager) (s : Server D) : Server D :=
  MkServer s.(srv_cfg) s.(srv_dev) s.(srv_sessions) s.(srv_nextID) v s.(srv_newPolicy)
    s.(srv_counters).
Definition srv_count (f : Counters -> Counters) (s : Server D) : Server D :=
  MkServer s.(srv_cfg) s.(srv_dev) s.(srv_sessions) s.(srv_nextID) s.(srv_locks)
    s.(srv_newPolicy) (f s.(srv_counters)).
End Fields.

(** [New(dev, cfg)]; a nil device is [None]. *)
Definition New {D} (dev : option D) (cfg : Config) : error + Server D :=
  match dev with
  | None => inl (serr ErrInvalidConfig)
  | Some dev =>
      let cfg := Config_withDefaults cfg in
      match Config_validate cfg with
      | Some err => inl err
      | None =>
          let newPolicy := match cfg.(cfg_Policy) with
                           | Some p => p
                           | None => PolicySCPI NewSCPIQueryPolicy
                           end in
          inr (MkServer cfg dev ∅ 1 LockManager_zero newPolicy Counters_zero)
      end
  end.

Definition Server_Config {D} (s : Server D) : Config := s.(srv_cfg).
Definition Server_Device {D} (s : Server D) : D := s.(srv_dev).
Definition Server_Sessions {D} (s : Server D) : Z := Z.of_nat (size s.(srv_sessions)).
Definition Server_Session {D} (s : Server D) (id : Z) : option nat := s.(srv_sessions) !! id.
Definition Server_Counters {D} (s : Server D) : Counters := s.(srv_counters).
Definition Server_Locks {D} (s : Server D) : LockManager := s.(srv_locks).

(** ** Allocation of session IDs *)

(** One round of the scan, on [s.nextID]. *)
Definition allocateID_round (sessions : gmap Z nat) (nextID : Z) : Z + Z * Z :=
  let id := nextID in
  let nextID := uint16 (nextID + 1) in
  let nextID := if bool_decide (nextID = 0) then 1 else nextID in
  match sessions !! id with
  | None => if bool_decide (id <> 0) then inr (id, nextID) else inl nextID
  | Some _ => inl nextID
  end.

(** [for range 1 << 16]. *)
Definition allocateIDLocked {D} (s : Server D) : option Z * Server D :=
  match loop (2 ^ 16) (allocateID_round s.(srv_sessions)) s.(srv_nextID) with
  | inr (id, nextID) => (Some id, srv_set_nextID nextID s)
  | inl nextID => (None, srv_set_nextID nextID s)
  end.

(** ** The heap *)

Record SessObj (S : Type) : Type := MkObj {
  so_sess : Session;
  so_syncS : S;
  so_asyncS : option S;
}.
Arguments MkObj {S}.
Arguments so_sess {S}.
Arguments so_syncS {S}.
Arguments so_asyncS {S}.

Record World (S D : Type) : Type := MkWorld {
  wd_srv : Server D;
  wd_heap : gmap nat (SessObj S);
  wd_nextloc : nat;
  wd_cancelled : gset nat;
  wd_nextctx : nat;
}.
Arguments MkWorld {S D}.
Arguments wd_srv {S D}.
Arguments wd_heap {S D}.
Arguments wd_nextloc {S D}.
Arguments wd_cancelled {S D}.
Arguments wd_nextctx {S D}.

Section World.
Context {S D : Type}.

(** A new server in an empty heap. Context 0 is the caller's. *)
Definition world_of (s : Server D) : World S D := MkWorld s ∅ 0 ∅ 1.

Definition wd_set_srv (v : Server D) (w : World S D) : World S D :=
  MkWorld v w.(wd_heap) w.(wd_nextloc) w.(wd_cancelled) w.(wd_nextctx).
Definition wd_set_heap (v : gmap nat (SessObj S)) (w : World S D) : World S D :=
  MkWorld w.(wd_srv) v w.(wd_nextloc) w.(wd_cancelled) w.(wd_nextctx).
Definition wd_set_cancelled (v : gset nat) (w : World S D) : World S D :=
  MkWorld w.(wd_srv) w.(wd_heap) w.(wd_nextloc) v w.(wd_nextctx).

Definition allocateSession (version : Version) (syncStream : S) (w : World S D)
  : (nat + error) * World S D :=
  let s := w.(wd_srv) in
  if bool_decide (s.(srv_cfg).(cfg_MaxSessions) <= Z.of_nat (size s.(srv_sessions)))
  then (inr (serr ErrMaxClients), w)
  else match allocateIDLocked s with
  | (None, s) => (inr (serr ErrMaxClients), wd_set_srv s w)
  | (Some id, s) =>
      let sess := ss_set_policy (Some s.(srv_newPolicy)) (newSession id version s.(srv_cfg)) in
      let loc := w.(wd_nextloc) in
      (inl loc,
       MkWorld (srv_set_sessions (<[id := loc]> s.(srv_sessions)) s)
         (<[loc := MkObj sess syncStream None]> w.(wd_heap))
         (Datatypes.S loc) w.(wd_cancelled) w.(wd_nextctx))
  end.

Context `{Stream S}.

(** [Stream.Close] on a reference that may be nil. *)
Definition close_opt (b : bool) (s : S) : option error * S :=
  if b then stream_Close s else (None, s).

(** [sess.close()]: the first error of the two closes is returned. *)
Definition close_session (loc : nat) (w : World S D) : option error * World S D :=
  match w.(wd_heap) !! loc with
  | None => (None, w)
  | Some o =>
      let '(sess, cancel, (hs, ha)) := Session_close o.(so_sess) in
      let w := match cancel with
               | Some c => wd_set_cancelled ({[c]} ∪ w.(wd_cancelled)) w
               | None => w
               end in
      let (e1, syncS) := close_opt hs o.(so_syncS) in
      let (e2, asyncS) := match o.(so_asyncS) with
                          | Some a => let (e, a) := close_opt ha a in (e, Some a)
                          | None => (None, None)
                          end in
      (match e1 with Some e => Some e | None => e2 end,
       wd_set_heap (<[loc := MkObj sess syncS asyncS]> w.(wd_heap)) w)
  end.

(** The ID of the session object at a location. *)
Definition sess_id (w : World S D) (loc : nat) : Z :=
  match w.(wd_heap) !! loc with Some o => o.(so_sess).(ss_id) | None => 0 end.

Definition removeSession (loc : nat) (w : World S D) : option error * World S D :=
  let s := w.(wd_srv) in
  let id := sess_id w loc in
  let s := srv_set_locks (ReleaseAll s.(srv_locks) id) s in
  let s := srv_set_sessions (delete id s.(srv_sessions)) s in
  close_session loc (wd_set_srv s w).

(** [CloseAll] over the registered sessions in the order the map yields them;
    the order is a parameter because Go's is unspecified. *)
Fixpoint closeAll_loop (all : list nat) (firstErr : option error) (w : World S D)
  : option error * World S D :=
  match all with
  | [] => (firstErr, w)
  | loc :: all =>
      let s := w.(wd_srv) in
      let w := wd_set_srv (srv_set_locks (ReleaseAll s.(srv_locks) (sess_id w loc)) s) w in
      let (err, w) := close_session loc w in
      closeAll_loop all (match firstErr with Some e => Some e | None => err end) w
  end.

Definition CloseAll (order : list nat) (w : World S D) : option error * World S D :=
  closeAll_loop order None (wd_set_srv (srv_set_sessions ∅ w.(wd_srv)) w).
End World.

(** ** The scan for an unused ID *)

Lemma next_id_cycle x :
  1 <= x < 2 ^ 16 ->
  (if bool_decide (uint16 (x + 1) = 0) then 1 else uint16 (x + 1)) = 1 + x mod 65535.
Proof.
  intros Hx. unfold uint16. destruct (decide (x = 65535)) as [-> |]; [done |].
  rewrite (Z.mod_small (x + 1)), (Z.mod_small x) by lia.
  rewrite bool_decide_eq_false_2 by lia. lia.
Qed.

Lemma allocateID_round_spec sessions x :
  1 <= x < 2 ^ 16 ->
  allocateID_round sessions x =
    match sessions !! x with
    | None => inr (x, 1 + x mod 65535)
    | Some _ => inl (1 + x mod 65535)
    end.
Proof.
  intros Hx. unfold allocateID_round. rewrite next_id_cycle by done.
  destruct (sessions !! x); [done |]. by rewrite bool_decide_eq_true_2 by lia.
Qed.

Lemma scan_found sessions n x id next :
  1 <= x < 2 ^ 16 ->
  loop_nat n (allocateID_round sessions) x = inr (id, next) ->
  sessions !! id = None /\ 1 <= id < 2 ^ 16 /\ 1 <= next < 2 ^ 16.
Proof.
  revert x. induction n as [|n IH]; intros x Hx; cbn [loop_nat]; [done |].
  rewrite allocateID_round_spec by done. pose proof (Z.mod_pos_bound x 65535 ltac:(lia)).
  destruct (sessions !! x) eqn:E; cbn [loop_bind].
  - apply IH. lia.
  - intros [= <- <-]. split_and!; try done; lia.
Qed.

(** The [i]-th candidate from [x]. *)
Definition candidate (x i : Z) : Z := 1 + (x - 1 + i) mod 65535.

Lemma scan_exhausted sessions n x y :
  1 <= x < 2 ^ 16 ->
  loop_nat n (allocateID_round sessions) x = inl y ->
  1 <= y < 2 ^ 16 /\ forall i, 0 <= i < Z.of_nat n -> is_Some (sessions !! candidate x i).
Proof.
  revert x. induction n as [|n IH]; intros x Hx; cbn [loop_nat].
  { intros [= <-]. split; [lia | intros; lia]. }
  rewrite allocateID_round_spec by done. pose proof (Z.mod_pos_bound x 65535 ltac:(lia)).
  destruct (sessions !! x) eqn:E; cbn [loop_bind]; [| done].
  intros Hl. destruct (IH (1 + x mod 65535)) as [Hy Hi]; [lia | done |].
  split; [done |]. intros i Hin. destruct (decide (i = 0)) as [-> |].
  - unfold candidate. rewrite Z.mod_small by lia. replace (1 + (x - 1 + 0)) with x by lia. eauto.
  - specialize (Hi (i - 1) ltac:(lia)). revert Hi. unfold candidate.
    replace (1 + x mod 65535 - 1 + (i - 1)) with (x mod 65535 + (i - 1)) by lia.
    rewrite Zplus_mod_idemp_l. by replace (x + (i - 1)) with (x - 1 + i) by lia.
Qed.

(** A full sweep without success means every ID is in use. *)
Lemma ids_exhausted (sessions : gmap Z nat) x :
  1 <= x < 2 ^ 16 ->
  (forall i, 0 <= i < 65535 -> is_Some (sessions !! candidate x i)) ->
  65535 <= Z.of_nat (size sessions).
Proof.
  intros Hx Hall.
  assert (Hsub : list_to_set (seqZ 1 65535) ⊆ dom sessions).
  { intros id Hid%elem_of_list_to_set. apply elem_of_seqZ in Hid. apply elem_of_dom.
    specialize (Hall ((id - x) mod 65535)). pose proof (Z.mod_pos_bound (id - x) 65535 ltac:(lia)).
    unfold candidate in Hall. rewrite Zplus_mod_idemp_r in Hall.
    replace (x - 1 + (id - x)) with (id - 1) in Hall by lia.
    rewrite (Z.mod_small (id - 1)) in Hall by lia. replace (1 + (id - 1)) with id in Hall by lia.
    apply Hall. lia. }
  apply subseteq_size in Hsub.
  rewrite size_list_to_set in Hsub by apply NoDup_seqZ.
  rewrite length_seqZ, size_dom in Hsub. lia.
Qed.

(** While one ID is free, fewer than all of them are in use. *)
Lemma free_id_size (sessions : gmap Z nat) id :
  (forall id' loc, sessions !! id' = Some loc -> 1 <= id' < 2 ^ 16) ->
  1 <= id < 2 ^ 16 -> sessions !! id = None -> Z.of_nat (size sessions) < 65535.
Proof.
  intros Hall Hid Hn.
  assert (Hsub : dom (<[id := O]> sessions) ⊆ (list_to_set (seqZ 1 65535) : gset Z)).
  { intros id' [loc Hl]%elem_of_dom. apply elem_of_list_to_set, elem_of_seqZ.
    apply lookup_insert_Some in Hl as [[<- _] | [_ Hl]]; [lia |]. specialize (Hall _ _ Hl). lia. }
  apply subseteq_size in Hsub.
  rewrite size_list_to_set, length_seqZ, size_dom, map_size_insert_None in Hsub
    by (done || apply NoDup_seqZ). lia.
Qed.

Lemma allocateIDLocked_spec {D} (s : Server D) :
  1 <= s.(srv_nextID) < 2 ^ 16 ->
  match allocateIDLocked s with
  | (Some id, s') =>
      s.(srv_sessions) !! id = None /\ 1 <= id < 2 ^ 16 /\
      exists next, s' = srv_set_nextID next s /\ 1 <= next < 2 ^ 16
  | (None, s') =>
      65535 <= Z.of_nat (size s.(srv_sessions)) /\
      exists next, s' = srv_set_nextID next s /\ 1 <= next < 2 ^ 16
  end.
Proof.
  intros Hn. unfold allocateIDLocked. rewrite loop_loop_nat.
  destruct (loop_nat _ _ _) as [y | [id next]] eqn:E.
  - apply scan_exhausted in E as [Hy Hall]; [| done]. split; [| eauto].
    apply (ids_exhausted _ (srv_nextID s)); [done |]. intros i Hi. apply Hall.
    rewrite positive_nat_Z. lia.
  - apply scan_found in E as (H1 & H2 & H3); [| done]. eauto.
Qed.

(** C34: The scan for a session ID ends and finds an unused ID from 1 to 65535
    whenever fewer than 65535 sessions are registered, and fails only when every ID is
    in use; the next candidate stays in range. *)
Theorem session_id_allocation {D} (s : Server D) :
  1 <= s.(srv_nextID) < 2 ^ 16 ->
  match (allocateIDLocked s).1 with
  | Some id => s.(srv_sessions) !! id = None /\ 1 <= id < 2 ^ 16
  | None => 65535 <= Server_Sessions s
  end /\
  1 <= (allocateIDLocked s).2.(srv_nextID) < 2 ^ 16 /\
  (Server_Sessions s < 65535 -> is_Some (allocateIDLocked s).1).
Proof.
  intros Hn. pose proof (allocateIDLocked_spec s Hn) as H. unfold Server_Sessions.
  destruct (allocateIDLocked s) as [[id|] s']; simpl.
  - destruct H as (H1 & H2 & next & -> & H3). destruct s. simpl in *. eauto.
  - destruct H as (H1 & next & -> & H2). destruct s. simpl in *. split_and!; auto; lia.
Qed.

(** The last ID wraps to 1, past a session that is still open. *)
Lemma session_id_allocation_witness :
  let s := MkServer Config_zero tt {[65535 := 0%nat; 1 := 1%nat]} 65535 LockManager_zero
             PolicyNeverRead Counters_zero in
  (allocateIDLocked s).1 = Some 2 /\ s.(srv_sessions) !! 2 = None.
Proof.
  intros s. assert (E : (allocateIDLocked s).1 = Some 2) by (vm_compute; reflexivity).
  pose proof (session_id_allocation s ltac:(vm_compute; split; [discriminate | reflexivity])) as H.
  rewrite E in H. split; [exact E | exact (proj1 (proj1 H))].
Defined.

(** ** The registration invariant *)
Section Inv.
Context {S D : Type} `{Stream S}.
Implicit Types w : World S D.

(** The registered sessions are exactly the open ones, under their own IDs;
    there are no more of them than configured; and only they hold locks. *)
Record world_inv w : Prop := {
  wi_cfg : valid_config w.(wd_srv).(srv_cfg);
  wi_next : 1 <= w.(wd_srv).(srv_nextID) < 2 ^ 16;
  wi_size : Server_Sessions w.(wd_srv) <= w.(wd_srv).(srv_cfg).(cfg_MaxSessions);
  wi_reg : forall id loc, w.(wd_srv).(srv_sessions) !! id = Some loc ->
    1 <= id < 2 ^ 16 /\
    exists o, w.(wd_heap) !! loc = Some o /\ o.(so_sess).(ss_id) = id /\
              o.(so_sess).(ss_state) <> StateClosed;
  wi_open : forall loc o, w.(wd_heap) !! loc = Some o ->
    session_inv o.(so_sess) /\ (loc < w.(wd_nextloc))%nat /\
    (o.(so_sess).(ss_state) <> StateClosed ->
     w.(wd_srv).(srv_sessions) !! o.(so_sess).(ss_id) = Some loc);
  wi_locks : lock_inv w.(wd_srv).(srv_locks);
  wi_held : forall id, Held w.(wd_srv).(srv_locks) id = true ->
    is_Some (w.(wd_srv).(srv_sessions) !! id);
}.

(** The object at [loc] is registered, or no other session has its ID. *)
Definition not_superseded (w : World S D) (loc : nat) : Prop :=
  forall o loc', w.(wd_heap) !! loc = Some o ->
  w.(wd_srv).(srv_sessions) !! o.(so_sess).(ss_id) = Some loc' -> loc' = loc.

Lemma set_locks_inv w l :
  world_inv w -> lock_inv l ->
  (forall id, Held l id = true -> is_Some (w.(wd_srv).(srv_sessions) !! id)) ->
  world_inv (wd_set_srv (srv_set_locks l w.(wd_srv)) w).
Proof. intros [C N Z0 R O L Hd] Hl Hh. destruct w as [[]]. by split. Qed.

Lemma New_world_inv (dev : option D) cfg s :
  New dev cfg = inr s -> world_inv (world_of s).
Proof.
  unfold New. destruct dev as [d|]; [| done].
  destruct (Config_validate (Config_withDefaults cfg)) eqn:E; [done |].
  apply Config_validate_spec in E. intros [= <-].
  split; cbn [world_of wd_srv wd_heap srv_sessions srv_locks srv_nextID srv_cfg]; try done; try lia.
  - unfold Server_Sessions. cbn [srv_sessions]. rewrite map_size_empty. pose proof (vc_sessions _ E). lia.
Qed.

Lemma allocateSession_ok w version st loc w' :
  world_inv w -> allocateSession version st w = (inl loc, w') ->
  exists id next,
  w.(wd_srv).(srv_sessions) !! id = None /\ 1 <= id < 2 ^ 16 /\ 1 <= next < 2 ^ 16 /\
  Server_Sessions w.(wd_srv) < w.(wd_srv).(srv_cfg).(cfg_MaxSessions) /\
  loc = w.(wd_nextloc) /\
  w' = MkWorld (srv_set_sessions (<[id := loc]> w.(wd_srv).(srv_sessions))
                  (srv_set_nextID next w.(wd_srv)))
         (<[loc := MkObj (ss_set_policy (Some w.(wd_srv).(srv_newPolicy))
                     (newSession id version w.(wd_srv).(srv_cfg))) st None]> w.(wd_heap))
         (Datatypes.S loc) w.(wd_cancelled) w.(wd_nextctx).
Proof.
  intros Hw. unfold allocateSession. case_bool_decide as Hm; [done |].
  pose proof (allocateIDLocked_spec (wd_srv w) (wi_next w Hw)) as Ha.
  destruct (allocateIDLocked (wd_srv w)) as [[id|] s']; [| done].
  destruct Ha as (H1 & H2 & next & -> & H3). intros [= <- <-].
  exists id, next. unfold Server_Sessions. destruct (wd_srv w); simpl in *.
  split_and!; try done; lia.
Qed.

Lemma allocateSession_inv w version st :
  world_inv w -> world_inv (allocateSession version st w).2.
Proof.
  intros Hw. destruct (allocateSession version st w) as [[loc | e] w'] eqn:E; simpl.
  - destruct (allocateSession_ok _ _ _ _ _ Hw E)
      as (id & next & Hid & Hr & Hn & Hsz & -> & ->). destruct Hw as [C N Z0 R O L Hd].
    destruct w as [srv heap nl can nc]. destruct srv as [cfg dev ses nx lk np ct]. simpl in *.
    split; simpl; try done; unfold Server_Sessions in *; simpl in *.
    + rewrite map_size_insert_None by done. lia.
    + intros id' loc'. destruct (decide (id' = id)) as [-> |].
      * rewrite lookup_insert_eq. intros [= <-]. split; [done |].
        eexists. rewrite lookup_insert_eq. split; [done |]. by simpl.
      * rewrite lookup_insert_ne by done. intros Hs.
        destruct (R id' loc' Hs) as (? & o & Ho & ? & ?). split; [done |].
        exists o. rewrite lookup_insert_ne; [done |]. intros <-.
        destruct (O _ _ Ho) as (_ & ? & _). lia.
    + intros loc' o. destruct (decide (loc' = nl)) as [-> |].
      * rewrite lookup_insert_eq. intros [= <-]. simpl. split_and!; [| lia |].
        -- split; simpl; intuition discriminate.
        -- intros _. by rewrite lookup_insert_eq.
      * rewrite lookup_insert_ne by done. intros Ho.
        destruct (O _ _ Ho) as (? & ? & Hreg). split_and!; [done | lia |].
        intros Hc. rewrite lookup_insert_ne; [auto |]. intros Heq.
        rewrite Heq, Hreg in Hid; done.
    + intros id' Hh. destruct (decide (id' = id)) as [-> |].
      * rewrite lookup_insert_eq. eauto.
      * rewrite lookup_insert_ne by done. auto.
  - revert E. unfold allocateSession. case_bool_decide; [by intros [= <- <-] |].
    pose proof (allocateIDLocked_spec (wd_srv w) (wi_next w Hw)) as Ha.
    destruct (allocateIDLocked (wd_srv w)) as [[id|] s']; [done |]. intros [= <- <-].
    destruct Ha as (_ & next & -> & Hn). destruct Hw as [C N Z0 R O L Hd].
    destruct w as [[]]. by split.
Qed.

(** What closing a session object does to the heap. *)
Lemma close_session_spec loc w o :
  w.(wd_heap) !! loc = Some o -> exists e s1 s2 can,
  close_session loc w = (e,
    MkWorld w.(wd_srv) (<[loc := MkObj (Session_close o.(so_sess)).1.1 s1 s2]> w.(wd_heap))
      w.(wd_nextloc) can w.(wd_nextctx)) /\
  w.(wd_cancelled) ⊆ can /\
  (forall c, o.(so_sess).(ss_opCancel) = Some c -> c ∈ can) /\
  s1 = (close_opt o.(so_sess).(ss_sync) o.(so_syncS)).2.
Proof.
  intros Ho. unfold close_session. rewrite Ho. simpl.
  destruct (close_opt _ (so_syncS o)) as [e1 s1].
  destruct (so_asyncS o) as [a|]; [destruct (close_opt _ a) as [e2 s2] |];
    destruct w as [srv heap nl can nc], (ss_opCancel (so_sess o)) as [c|]; simpl in *;
    do 4 eexists; (split; [reflexivity |]); set_solver.
Qed.

(** Releasing the locks of a session and closing its object. *)
Lemma retire_inv w loc o :
  world_inv w -> w.(wd_heap) !! loc = Some o -> not_superseded w loc ->
  world_inv (removeSession loc w).2.
Proof.
  intros Hw Ho Hns. unfold removeSession, sess_id. rewrite Ho. set (id := ss_id (so_sess o)) in *.
  destruct (close_session_spec loc (wd_set_srv (srv_set_sessions
      (delete id (srv_sessions (wd_srv w)))
      (srv_set_locks (ReleaseAll (srv_locks (wd_srv w)) id) (wd_srv w))) w) o)
    as (e & s1 & s2 & can & E & _); [by destruct w |].
  assert (Es : srv_sessions (srv_set_locks (ReleaseAll (srv_locks (wd_srv w)) id) (wd_srv w))
    = srv_sessions (wd_srv w)) by (by destruct (wd_srv w)).
  rewrite Es, E. clear E. cbn [snd]. destruct Hw as [C N Z0 R O L Hd].
  unfold not_superseded in Hns. destruct w as [srv heap nl can0 nc].
  destruct srv as [cfg dev ses nx lk np ct]. simpl in *.
  destruct (ReleaseAll_fields lk id) as (_ & _ & _ & _).
  split; simpl; try done; unfold Server_Sessions in *; simpl in *.
  - pose proof (map_size_delete id ses) as Hsz.
    rewrite Hsz. destruct (ses !! id); unfold Datatypes.id; lia.
  - intros id' loc' [Hne Hs]%lookup_delete_Some. destruct (R id' loc' Hs) as (? & o' & Ho' & Hi & ?).
    split; [done |]. exists o'. rewrite lookup_insert_ne; [done |]. intros <-.
    apply Hne. subst id. congruence.
  - intros loc' o'. destruct (decide (loc' = loc)) as [-> |].
    + rewrite lookup_insert_eq. intros [= <-]. destruct (O _ _ Ho) as (? & ? & _). simpl.
      split_and!; [by apply (close_inv (so_sess o)) | done |]. destruct o as [[] ? ?]. by simpl.
    + rewrite lookup_insert_ne by done. intros Ho'. destruct (O _ _ Ho') as (? & ? & Hreg).
      split_and!; [done | done |]. intros Hc. rewrite lookup_delete_ne; [auto |].
      intros Heq. specialize (Hreg Hc). rewrite <- Heq in Hreg.
      specialize (Hns o loc' Ho Hreg). done.
  - by apply ReleaseAll_inv.
  - intros id' Hh. destruct (decide (id' = id)) as [-> |].
    + rewrite ReleaseAll_not_held in Hh. done.
    + rewrite lookup_delete_ne by done. apply Hd. by rewrite ReleaseAll_held_other in Hh.
Qed.

(** The two assignments that make up [removeSession], as equations. *)
Lemma removeSession_fields w loc o :
  w.(wd_heap) !! loc = Some o ->
  let w' := (removeSession loc w).2 in
  w'.(wd_srv).(srv_sessions) = delete o.(so_sess).(ss_id) w.(wd_srv).(srv_sessions) /\
  w'.(wd_srv).(srv_locks) = ReleaseAll w.(wd_srv).(srv_locks) o.(so_sess).(ss_id) /\
  w'.(wd_srv).(srv_dev) = w.(wd_srv).(srv_dev) /\
  (exists s1 s2, w'.(wd_heap) = <[loc := MkObj (Session_close o.(so_sess)).1.1 s1 s2]> w.(wd_heap) /\
     s1 = (close_opt o.(so_sess).(ss_sync) o.(so_syncS)).2) /\
  (forall c, o.(so_sess).(ss_opCancel) = Some c -> c ∈ w'.(wd_cancelled)).
Proof.
  intros Ho. unfold removeSession, sess_id. rewrite Ho. cbv zeta.
  match goal with |- context [wd_set_srv ?s w] => set (srv := s) end.
  destruct (close_session_spec loc (wd_set_srv srv w) o) as (e & s1 & s2 & can & E & _ & Hc & Hs);
    [destruct w; exact Ho |].
  rewrite E. subst srv. clear E. cbn [snd]. destruct w as [[] heap nl can0 nc]. simpl in *. eauto 10.
Qed.
End Inv.

(** C19: What removing a session does, in every world. The table loses the entry under
    the session's ID, whoever it belongs to, and keeps every other; no lock is held
    under that ID any more, and those under other IDs are as before; the session
    object is closed, so that every later operation on it is refused, and no other
    object changes; the operation in progress is cancelled. The world invariant is
    kept if the ID has not been given to another session meanwhile, which the code
    does not check. *)
Theorem removeSession_spec {S D} `{Stream S} (w : World S D) loc o :
  w.(wd_heap) !! loc = Some o ->
  let w' := (removeSession loc w).2 in
  let id := o.(so_sess).(ss_id) in
  w'.(wd_srv).(srv_sessions) = delete id w.(wd_srv).(srv_sessions) /\
  Held (Server_Locks w'.(wd_srv)) id = false /\
  (forall id', id' <> id ->
     Held (Server_Locks w'.(wd_srv)) id' = Held (Server_Locks w.(wd_srv)) id') /\
  (exists o', w'.(wd_heap) = <[loc := o']> w.(wd_heap) /\ Session_State o'.(so_sess) = StateClosed /\
     Session_requireReady o'.(so_sess) = Some (serr ErrInvalidSession)) /\
  (forall c, o.(so_sess).(ss_opCancel) = Some c -> ctx_done w'.(wd_cancelled) [c; 0%nat] = true) /\
  (world_inv w -> not_superseded w loc -> world_inv w').
Proof.
  intros Ho. destruct (removeSession_fields w loc o Ho) as (E1 & E2 & _ & (s1 & s2 & E3 & _) & E4).
  unfold Server_Locks. cbv zeta. rewrite E1, E2. split_and!.
  - done.
  - apply ReleaseAll_not_held.
  - intros id Hid. by apply ReleaseAll_held_other.
  - eexists. split; [exact E3 |]. by destruct o as [[] ? ?].
  - intros c Hc. eapply ctx_done_In; [by left | auto].
  - intros Hw Hns. by apply (retire_inv w loc o).
Qed.

(** A server is created exactly from a device and a configuration that is valid after
    defaults are filled in. It runs with that configuration, filling in defaults again
    changes nothing, it never proposes or agrees to overlap mode, accepts the empty
    sub-address, and starts with no session and no lock. The zero configuration is
    valid. *)
Theorem New_profile {D} (dev : option D) cfg :
  match New dev cfg with
  | inr s =>
      valid_config (Server_Config s) /\ Server_Config s = Config_withDefaults cfg /\
      Config_withDefaults (Server_Config s) = Server_Config s /\
      Config_preferOverlapBit (Server_Config s) = 0 /\
      (forall clientRequest, Config_featureBitmap (Server_Config s) clientRequest = 0) /\
      Config_acceptsSubAddress (Server_Config s) [] = true /\
      Server_Sessions s = 0 /\ LockManager_State (Server_Locks s) = Unlocked
  | inl err =>
      (err = serr ErrInvalidConfig \/ err = serr ErrOverlapNotImplemented) /\
      (dev = None \/ ~ valid_config (Config_withDefaults cfg)) /\
      (dev <> None -> cfg <> Config_zero)
  end.
Proof.
  unfold New. destruct dev as [d|]; [| by split_and!; auto].
  destruct (Config_validate (Config_withDefaults cfg)) as [err|] eqn:E.
  - split_and!.
    + revert E. unfold Config_validate. repeat case_match; naive_solver.
    + right. intros Hv%Config_validate_spec. congruence.
    + intros _ ->. done.
  - apply Config_validate_spec in E. cbn [Server_Config srv_cfg]. pose proof (vc_overlap _ E) as Ho.
    split_and!; try done.
    + clear. unfold Config_withDefaults. cbn [cfg_SubAddresses cfg_MaxVersion cfg_SupportsOverlap
        cfg_MaxSessions cfg_MaxRxPayload cfg_MaxTxPayload cfg_Policy cfg_VendorID].
      f_equal; repeat case_bool_decide; done.
    + unfold Config_preferOverlapBit. by rewrite Ho.
    + intros r. unfold Config_featureBitmap. by rewrite Ho.
Qed.

(** ** Shutdown *)
Section CloseAll.
Context {S D : Type} `{Stream S}.
Implicit Types w : World S D.

(** The parts of the heap a shutdown leaves alone, and what it makes of the
    session objects it visits. *)
Record closed_of (all : list nat) w w' : Prop := {
  co_cfg : w'.(wd_srv).(srv_cfg) = w.(wd_srv).(srv_cfg);
  co_next : w'.(wd_srv).(srv_nextID) = w.(wd_srv).(srv_nextID);
  co_sess : w'.(wd_srv).(srv_sessions) = w.(wd_srv).(srv_sessions);
  co_nextloc : w'.(wd_nextloc) = w.(wd_nextloc);
  co_locks : lock_inv w.(wd_srv).(srv_locks) -> lock_inv w'.(wd_srv).(srv_locks);
  co_held : forall id, Held w'.(wd_srv).(srv_locks) id = true ->
    Held w.(wd_srv).(srv_locks) id = true /\
    forall loc o, loc ∈ all -> w.(wd_heap) !! loc = Some o -> o.(so_sess).(ss_id) <> id;
  co_heap : forall loc o', w'.(wd_heap) !! loc = Some o' ->
    exists o, w.(wd_heap) !! loc = Some o /\ o'.(so_sess).(ss_id) = o.(so_sess).(ss_id) /\
    (session_inv o.(so_sess) -> session_inv o'.(so_sess)) /\
    (loc ∈ all -> o'.(so_sess).(ss_state) = StateClosed) /\
    (loc ∉ all -> o' = o);
  co_dom : dom w.(wd_heap) ⊆ dom w'.(wd_heap);
}.

Lemma closed_of_refl w : closed_of [] w w.
Proof.
  split; try done; [intros; split; [done | set_solver] |].
  intros loc o Ho. exists o. split_and!; try done. set_solver.
Qed.

Lemma closed_of_trans all1 all2 w1 w2 w3 :
  closed_of all1 w1 w2 -> closed_of all2 w2 w3 -> closed_of (all1 ++ all2) w1 w3.
Proof.
  intros [J1 J2 J3 J4 J5 J6 J7 J8] [I1 I2 I3 I4 I5 I6 I7 I8].
  split; try congruence; [auto | | | set_solver].
  - intros id Hh. destruct (I6 id Hh) as [Hh2 Hn2]. destruct (J6 id Hh2) as [Hh1 Hn1].
    split; [done |]. intros l o [Hl | Hl]%elem_of_app Ho; [by eapply Hn1 |].
    assert (Hl2 : is_Some (wd_heap w2 !! l)) by (apply elem_of_dom, J8, elem_of_dom; eauto).
    destruct Hl2 as [o2 E2]. destruct (J7 l o2 E2) as (o3 & Ho3 & Hid & _).
    rewrite Ho in Ho3. injection Ho3 as <-. rewrite <- Hid. by apply (Hn2 l).
  - intros l o' Ho'. destruct (I7 l o' Ho') as (o2 & Ho2 & Hid & Hinv & Hin & Hout).
    destruct (J7 l o2 Ho2) as (o & Ho & Hid2 & Hinv2 & Hin2 & Hout2).
    exists o. split_and!; [done | congruence | auto | |].
    + intros Hl. destruct (decide (l ∈ all2)) as [|Hn]; [auto |].
      rewrite (Hout Hn). apply Hin2. by apply elem_of_app in Hl as [|].
    + intros [H1 H2]%not_elem_of_app. rewrite (Hout H2). auto.
Qed.

(** One round of the shutdown loop. *)
Definition retire (loc : nat) w : option error * World S D :=
  close_session loc (wd_set_srv (srv_set_locks
    (ReleaseAll w.(wd_srv).(srv_locks) (sess_id w loc)) w.(wd_srv)) w).

Lemma closed_of_retire loc w : closed_of [loc] w (retire loc w).2.
Proof.
  unfold retire. set (w1 := wd_set_srv _ w). destruct (wd_heap w !! loc) as [o|] eqn:Ho.
  - destruct (close_session_spec loc w1 o) as (e1 & s1 & s2 & can & -> & _); [by destruct w |].
    subst w1. unfold sess_id. rewrite Ho.
    destruct w as [[] heap nl can0 nc]. simpl in *. split; simpl; try done.
    + apply ReleaseAll_inv.
    + intros id Hh. destruct (decide (id = ss_id (so_sess o))) as [-> |].
      { by rewrite ReleaseAll_not_held in Hh. }
      rewrite ReleaseAll_held_other in Hh by done. split; [done |].
      intros l o' ->%list_elem_of_singleton. congruence.
    + intros l o'. destruct (decide (l = loc)) as [-> |].
      * rewrite lookup_insert_eq. intros [= <-]. exists o. simpl.
        split_and!; [done | by destruct o as [[]] | apply close_inv
          | by destruct o as [[]] | set_solver].
      * rewrite lookup_insert_ne by done. intros Ho'. exists o'.
        split_and!; try done. by intros ->%list_elem_of_singleton.
    + rewrite dom_insert. set_solver.
  - assert (Hc : close_session loc w1 = (None, w1)).
    { unfold close_session. subst w1. destruct w; simpl in *. by rewrite Ho. }
    rewrite Hc. subst w1. unfold sess_id. rewrite Ho.
    destruct w as [[] heap nl can0 nc]. simpl in *. split; simpl; try done.
    + apply ReleaseAll_inv.
    + intros id Hh. split; [| intros l o' ->%list_elem_of_singleton; congruence].
      destruct (decide (id = 0)) as [-> |]; [by rewrite ReleaseAll_not_held in Hh |].
      by rewrite ReleaseAll_held_other in Hh.
    + intros l o' Ho'. exists o'. split_and!; try done.
      intros ->%list_elem_of_singleton. congruence.
Qed.

Lemma closeAll_loop_spec all e w : closed_of all w (closeAll_loop all e w).2.
Proof.
  revert e w. induction all as [|loc all IH]; intros e w; [apply closed_of_refl |].
  cbn [closeAll_loop]. cbv zeta.
  pose proof (closed_of_retire loc w) as Hr. unfold retire in Hr.
  destruct (close_session loc _) as [err w2]. cbn [snd] in Hr.
  exact (closed_of_trans [loc] all w w2 _ Hr (IH _ w2)).
Qed.
End CloseAll.

Lemma CloseAll_closes {S D} `{Stream S} (w : World S D) order :
  world_inv w -> order ≡ₚ (map_to_list w.(wd_srv).(srv_sessions)).*2 ->
  let w' := (CloseAll order w).2 in
  world_inv w' /\
  Server_Sessions w'.(wd_srv) = 0 /\
  LockManager_State (Server_Locks w'.(wd_srv)) = Unlocked /\
  (forall loc o, w'.(wd_heap) !! loc = Some o -> Session_State o.(so_sess) = StateClosed).
Proof.
  intros Hw Hord. cbv zeta. unfold CloseAll.
  set (w0 := wd_set_srv _ w). pose proof (closeAll_loop_spec order None w0) as Hc.
  set (w' := (closeAll_loop order None w0).2) in *. clearbody w'.
  destruct Hw as [C N Z0 R O L Hd], Hc as [H1 H2 H3 H4 H5 H6 H7 H8].
  assert (Hin : forall id loc, srv_sessions (wd_srv w) !! id = Some loc -> loc ∈ order).
  { intros id loc Hs. rewrite Hord. apply list_elem_of_fmap. exists (id, loc).
    split; [done |]. by apply elem_of_map_to_list. }
  assert (Hclosed : forall loc o, w'.(wd_heap) !! loc = Some o ->
    ss_state (so_sess o) = StateClosed).
  { intros loc o' Ho'. destruct (H7 loc o' Ho') as (o & Ho & _ & _ & Hi & Hn).
    destruct (decide (loc ∈ order)) as [|Hno]; [auto |]. rewrite (Hn Hno).
    destruct (decide (ss_state (so_sess o) = StateClosed)) as [|Hop]; [done |].
    destruct Hno. destruct w as [[] ? ? ? ?]. destruct (O loc o Ho) as (_ & _ & Hreg). eauto. }
  assert (Hfree : forall id, Held (srv_locks (wd_srv w')) id = false).
  { intros id. destruct (Held _ id) eqn:E; [| done]. exfalso.
    destruct (H6 id E) as [Hh Hn]. destruct w as [[] heap ? ? ?]. simpl in *.
    destruct (Hd id Hh) as [loc Hs]. destruct (R id loc Hs) as (_ & o & Ho & Hid & _).
    by apply (Hn loc o (Hin _ _ Hs) Ho). }
  assert (Hs : srv_sessions (wd_srv w') = ∅) by (rewrite H3; by destruct w as [[] ? ? ? ?]).
  assert (Hlk : lock_inv (srv_locks (wd_srv w')))
    by (apply H5; by destruct w as [[] ? ? ? ?]).
  split_and!; [| by unfold Server_Sessions; rewrite Hs | | done].
  - destruct w as [[] heap nl can nc]. simpl in *. split; rewrite ?Hs, ?H1, ?H2; try done.
    + unfold Server_Sessions. rewrite Hs, map_size_empty. destruct C. lia.
    + intros loc o' Ho'. destruct (H7 loc o' Ho') as (o & Ho & _ & Hinv & _).
      destruct (O loc o Ho) as (? & ? & _). rewrite H4. split_and!; [auto | done |].
      by rewrite (Hclosed loc o' Ho').
    + intros id. by rewrite Hfree.
  - by apply unlocked_when_free.
Qed.

(** After CloseAll, in whatever order the sessions are visited, no session is
    registered, no lock is held, every session object is closed, and the world
    invariant holds. *)
Theorem CloseAll_spec {S D} `{Stream S} (w : World S D) order :
  world_inv w -> order ≡ₚ (map_to_list w.(wd_srv).(srv_sessions)).*2 ->
  let w' := (CloseAll order w).2 in
  world_inv w' /\
  Server_Sessions w'.(wd_srv) = 0 /\
  LockManager_State (Server_Locks w'.(wd_srv)) = Unlocked /\
  (forall loc o, w'.(wd_heap) !! loc = Some o -> Session_State o.(so_sess) = StateClosed).
Proof. exact (CloseAll_closes w order). Qed.
