(* ===== verification/Initialize.v ===== *)
(** * Session initialization

    [src/server/initialize.go]: the Initialize and AsyncInitialize transactions
    and the maximum message size exchange. *)

From S2P Require Import Prelude Errors Version Constants MessageId Stream Header Codec.
From S2P Require Import WireErrors Writer Rmt Status Transaction Policy Locks Config Device.
From S2P Require Import TestDevice Session Server.

Definition minMaximumMessageSize : Z := 256.

Section Initialize.
Context {S D : Type}.
Implicit Types w : World S D.

Definition Server_Initialize (h : Header) (subAddress : bytes) (syncStream : S) w
  : (nat * Header + error) * World S D :=
  let cfg := w.(wd_srv).(srv_cfg) in
  if bool_decide (h.(h_Type) <> Initialize) then (inr (serr ErrInvalidInitSequence), w)
  else if negb (MessageType_LegalOn h.(h_Type) ChannelSynchronous)
  then (inr (perr ErrWrongChannel), w)
  else if negb (Config_acceptsSubAddress cfg subAddress)
  then (inr (serr ErrInvalidSubAddress), w)
  else
    let (clientVersion, _) := DecodeInitializeParameter h.(h_Parameter) in
    if Version_Less clientVersion Version10 then (inr (perr ErrProtocolVersion), w)
    else
      let negotiated := Negotiate clientVersion cfg.(cfg_MaxVersion) in
      match allocateSession negotiated syncStream w with
      | (inr err, w) => (inr err, w)
      | (inl loc, w) =>
          (inl (loc, MkHeader InitializeResponse (Config_preferOverlapBit cfg)
                       (EncodeInitializeResponseParameter negotiated (sess_id w loc)) 0), w)
      end.

Definition asyncInitializeResponse (cfg : Config) (sess : Session) : Header :=
  let control := if Version_AtLeast sess.(ss_version) Version20 then 0 else 0 in
  let vendor := Z.lor (Z.shiftl cfg.(cfg_VendorID).1 8) cfg.(cfg_VendorID).2 in
  MkHeader AsyncInitializeResponse control vendor 0.

Definition Server_AsyncInitialize (h : Header) (asyncStream : S) w
  : (nat * Header + error) * World S D :=
  if bool_decide (h.(h_Type) <> AsyncInitialize) then (inr (serr ErrInvalidInitSequence), w)
  else if negb (MessageType_LegalOn h.(h_Type) ChannelAsynchronous)
  then (inr (perr ErrWrongChannel), w)
  else
    let id := uint16 h.(h_Parameter) in
    match Server_Session w.(wd_srv) id with
    | None => (inr (serr ErrInvalidSession), w)
    | Some loc =>
        match w.(wd_heap) !! loc with
        | None => (inr (serr ErrInvalidSession), w)
        | Some o =>
            match Session_attachAsync o.(so_sess) with
            | (Some err, _) => (inr err, w)
            | (None, sess) =>
                (inl (loc, asyncInitializeResponse w.(wd_srv).(srv_cfg) sess),
                 wd_set_heap (<[loc := MkObj sess o.(so_syncS) (Some asyncStream)]>
                                w.(wd_heap)) w)
            end
        end
    end.

(** The session keeps the size the client announces, unless it is absurdly
    small; the reply carries the server's own limit. *)
Definition Server_MaximumMessageSize (cfg : Config) (sess : Session) (clientMax : Z)
  : Header * Z * Session :=
  let sess := if bool_decide (minMaximumMessageSize <= clientMax)
              then ss_set_maxTx clientMax sess else sess in
  (MkHeader AsyncMaximumMessageSizeResponse 0 0 8, cfg.(cfg_MaxRxPayload), sess).
End Initialize.

(** The scan over the ID space is reasoned about by its specification only. *)
#[local] Opaque allocateIDLocked.

Section InitFacts.
Context {S D : Type} `{Stream S}.
Implicit Types w : World S D.

(** A refused initialization leaves the registered sessions alone. *)
Lemma Server_Initialize_inv h sub st w :
  world_inv w -> world_inv (Server_Initialize h sub st w).2.
Proof.
  intros Hw. unfold Server_Initialize. case_bool_decide; [done |].
  case_match; [done |]. case_match; [done |].
  cbn [DecodeInitializeParameter]. case_match; [done |].
  pose proof (allocateSession_inv w (Negotiate (versionFromParameter (h_Parameter h))
    (cfg_MaxVersion (srv_cfg (wd_srv w)))) st Hw) as Ha.
  by destruct (allocateSession _ st w) as [[loc|err] w'].
Qed.

Lemma Server_Initialize_fail h sub st w err :
  world_inv w -> (Server_Initialize h sub st w).1 = inr err ->
  (WireErrorFor err).(we_Fatal) = true /\
  (Server_Initialize h sub st w).2.(wd_srv).(srv_sessions) = w.(wd_srv).(srv_sessions) /\
  (Server_Initialize h sub st w).2.(wd_heap) = w.(wd_heap).
Proof.
  intros Hw. unfold Server_Initialize. case_bool_decide as Ht.
  { by intros [= <-]. }
  assert (Et : h.(h_Type) = Initialize) by (by destruct (decide (h.(h_Type) = Initialize))).
  rewrite Et. change (MessageType_LegalOn Initialize ChannelSynchronous) with true. cbn [negb DecodeInitializeParameter].
  case_match; [by intros [= <-] |]. case_match; [by intros [= <-] |].
  unfold allocateSession. case_bool_decide; [by intros [= <-] |].
  pose proof (allocateIDLocked_spec (wd_srv w) (wi_next w Hw)) as Ha.
  destruct (allocateIDLocked (wd_srv w)) as [[id|] s']; simpl; [done |].
  intros [= <-]. destruct Ha as (_ & next & -> & _). by destruct w as [[] ? ? ? ?].
Qed.

(** The conditions under which a synchronous channel is accepted. *)
Definition initialize_accepts w (h : Header) (sub : bytes) : Prop :=
  h.(h_Type) = Initialize /\
  (sub = [] \/ sub ∈ w.(wd_srv).(srv_cfg).(cfg_SubAddresses)) /\
  version_le Version10 (DecodeInitializeParameter h.(h_Parameter)).1 /\
  Server_Sessions w.(wd_srv) < w.(wd_srv).(srv_cfg).(cfg_MaxSessions) /\
  Server_Sessions w.(wd_srv) < 65535.

Lemma accepts_sub_spec c sub :
  Config_acceptsSubAddress c sub = true <-> sub = [] \/ sub ∈ c.(cfg_SubAddresses).
Proof.
  unfold Config_acceptsSubAddress. case_bool_decide; [naive_solver |].
  rewrite bool_decide_eq_true. naive_solver.
Qed.

Lemma Version_Less_false v : Version_Less v Version10 = false <-> version_le Version10 v.
Proof. rewrite <- Version_AtLeast_spec. unfold Version_AtLeast. by rewrite negb_true_iff. Qed.

Lemma Server_Initialize_success h sub st w :
  world_inv w -> initialize_accepts w h sub -> exists loc id next,
  let v := Negotiate (DecodeInitializeParameter h.(h_Parameter)).1
             w.(wd_srv).(srv_cfg).(cfg_MaxVersion) in
  w.(wd_srv).(srv_sessions) !! id = None /\ 1 <= id < 2 ^ 16 /\
  Server_Initialize h sub st w =
    (inl (loc, MkHeader InitializeResponse 0 (EncodeInitializeResponseParameter v id) 0),
     MkWorld (srv_set_sessions (<[id := loc]> w.(wd_srv).(srv_sessions))
                (srv_set_nextID next w.(wd_srv)))
       (<[loc := MkObj (ss_set_policy (Some w.(wd_srv).(srv_newPolicy))
                   (newSession id v w.(wd_srv).(srv_cfg))) st None]> w.(wd_heap))
       (Datatypes.S loc) w.(wd_cancelled) w.(wd_nextctx)).
Proof.
  intros Hw (Ht & Hsub & Hv & Hs1 & Hs2).
  set (v := Negotiate (DecodeInitializeParameter (h_Parameter h)).1
              (cfg_MaxVersion (srv_cfg (wd_srv w)))).
  assert (Ha : exists loc w', allocateSession v st w = (inl loc, w')).
  { unfold allocateSession. unfold Server_Sessions in *. rewrite bool_decide_eq_false_2 by lia.
    pose proof (allocateIDLocked_spec (wd_srv w) (wi_next w Hw)) as Hal.
    destruct (allocateIDLocked (wd_srv w)) as [[id|] s']; [eauto | lia]. }
  destruct Ha as (loc & w' & Ha).
  destruct (allocateSession_ok w v st loc w' Hw Ha) as (id & next & H1 & H2 & _ & _ & -> & Hw').
  exists (wd_nextloc w), id, next. cbv zeta. fold v. split; [done |]. split; [done |].
  unfold Server_Initialize. rewrite Ht. rewrite bool_decide_eq_false_2 by auto.
  change (MessageType_LegalOn Initialize ChannelSynchronous) with true.
  apply accepts_sub_spec in Hsub. apply Version_Less_false in Hv.
  unfold DecodeInitializeParameter in *. cbn [fst] in *. rewrite Hsub, Hv. cbn [negb].
  fold v. rewrite Ha, Hw'. unfold sess_id. cbn [wd_heap]. rewrite lookup_insert_eq.
  unfold Config_preferOverlapBit. by rewrite (vc_overlap _ (wi_cfg w Hw)).
Qed.

Lemma Server_Initialize_accepts h sub st w loc resp w' :
  world_inv w -> Server_Initialize h sub st w = (inl (loc, resp), w') ->
  initialize_accepts w h sub /\ loc = w.(wd_nextloc).
Proof.
  intros Hw. unfold Server_Initialize. case_bool_decide as Ht; [done |].
  assert (Et : h.(h_Type) = Initialize) by (by destruct (decide (h.(h_Type) = Initialize))).
  case_match; [done |].
  destruct (Config_acceptsSubAddress _ sub) eqn:Es; [cbn [negb] | done].
  destruct (DecodeInitializeParameter (h_Parameter h)) as [cv x] eqn:Ed.
  destruct (Version_Less cv Version10) eqn:Ev; [done |].
  destruct (allocateSession _ st w) as [[l | err] w1] eqn:Ea; [| done].
  intros [= -> _ _]. destruct (allocateSession_ok w _ st loc w1 Hw Ea)
    as (id & next & H1 & H2 & _ & Hs & -> & _).
  split; [| done]. apply accepts_sub_spec in Es. apply Version_Less_false in Ev.
  split_and!; try done; [by rewrite Ed |].
  apply (free_id_size _ id); [| done | done]. intros id' loc' Hs'. by apply (wi_reg w Hw id' loc').
Qed.
End InitFacts.

(** Initialize succeeds exactly when the acceptance conditions hold (message type,
    known sub-address, client version at least 1.0, a free slot and a free ID). Then
    one new session is registered under an unused ID, it is not ready until its second
    channel arrives, the response decodes to its version and ID, and the version is at
    most the client's and the server's. Otherwise the error is fatal and no session is
    touched. The invariant is kept either way. *)
Theorem Initialize_outcome {S D} `{Stream S} (w : World S D) h sub st :
  world_inv w -> wf_version w.(wd_srv).(srv_cfg).(cfg_MaxVersion) ->
  let client := (DecodeInitializeParameter h.(h_Parameter)).1 in
  match Server_Initialize h sub st w with
  | (inl (loc, resp), w') =>
      initialize_accepts w h sub /\ world_inv w' /\ w.(wd_heap) !! loc = None /\
      Server_Sessions w'.(wd_srv) = Server_Sessions w.(wd_srv) + 1 /\
      exists sess, w'.(wd_heap) !! loc = Some (MkObj sess st None) /\
        Server_Session w.(wd_srv) sess.(ss_id) = None /\
        Server_Session w'.(wd_srv) sess.(ss_id) = Some loc /\
        Session_requireReady sess = Some (serr ErrSessionNotReady) /\
        resp.(h_Type) = InitializeResponse /\ resp.(h_Control) = 0 /\
        DecodeInitializeResponseParameter resp.(h_Parameter) = (sess.(ss_version), sess.(ss_id)) /\
        version_le sess.(ss_version) client /\
        version_le sess.(ss_version) w.(wd_srv).(srv_cfg).(cfg_MaxVersion)
  | (inr err, w') =>
      ~ initialize_accepts w h sub /\ world_inv w' /\
      (WireErrorFor err).(we_Fatal) = true /\
      w'.(wd_srv).(srv_sessions) = w.(wd_srv).(srv_sessions) /\ w'.(wd_heap) = w.(wd_heap)
  end.
Proof.
  intros Hw Hv client. pose proof (Server_Initialize_inv h sub st w Hw) as Hinv.
  destruct (Server_Initialize h sub st w) as [[[loc resp] | err] w'] eqn:E; cbn [snd] in Hinv.
  - destruct (Server_Initialize_accepts h sub st w loc resp w' Hw E) as [Hacc Hloc].
    destruct (Server_Initialize_success h sub st w Hw Hacc) as (l & id & nx & H1 & H2 & E2).
    rewrite E in E2. injection E2 as -> -> ->. split; [done |]. split; [done |].
    cbn [wd_heap wd_srv]. split.
    { destruct (wd_heap w !! l) as [o|] eqn:Eo; [| done]. exfalso.
      destruct (wi_open w Hw l o Eo) as (_ & Hlt & _). lia. }
    split; [destruct (wd_srv w); unfold Server_Sessions; simpl; rewrite map_size_insert_None by done; lia |].
    eexists. rewrite lookup_insert_eq. split; [done |]. cbn [ss_id ss_version].
    destruct (response_parameter_decode (Negotiate client (cfg_MaxVersion (srv_cfg (wd_srv w)))) id)
      as [Hd _]; [apply wf_Negotiate; [apply wf_versionFromParameter | done] | u_lia |].
    destruct (Negotiate_le client (cfg_MaxVersion (srv_cfg (wd_srv w)))).
    split_and!; try done. destruct (wd_srv w). apply lookup_insert_eq.
  - destruct (Server_Initialize_fail h sub st w err Hw) as (Hf & Hs & Hh); [by rewrite E |].
    rewrite E in Hs, Hh. split_and!; try done. intros Hacc.
    destruct (Server_Initialize_success h sub st w Hw Hacc) as (l & id & nx & H1 & H2 & E2).
    by rewrite E in E2.
Qed.

(** A server over the recording instrument, with [n] sessions allowed. *)
Definition demo_config (n : Z) : Config :=
  MkConfig [str "hislip0"] Version10 false n 8192 8192 None (0, 0).
Definition demo_server (n : Z) : Server TestDevice :=
  MkServer (demo_config n) (TestDevice_New [str "FLUKE,8846A"]) ∅ 1 LockManager_zero
    (PolicySCPI NewSCPIQueryPolicy) Counters_zero.
Definition demo_world (n : Z) : World Canned TestDevice := world_of (demo_server n).

Lemma demo_world_inv n : 1 <= n -> world_inv (demo_world n).
Proof.
  intros Hn. apply (New_world_inv (Some (TestDevice_New [str "FLUKE,8846A"])) (demo_config n)).
  unfold New, demo_server.
  assert (E : Config_withDefaults (demo_config n) = demo_config n).
  { unfold Config_withDefaults, demo_config. cbn -[Z.eqb].
    by rewrite (bool_decide_eq_false_2 (n = 0)) by lia. }
  rewrite E.
  assert (V : Config_validate (demo_config n) = None).
  { apply Config_validate_spec. split; simpl; unfold version_le, HeaderSize; simpl; try done; lia. }
  by rewrite V.
Qed.

(** A client of version 2.0 asks for the conventional sub-address. *)
Definition demo_initialize : Header :=
  MkHeader Initialize 0 (EncodeInitializeParameter Version20 (75, 69)) 7.

Lemma Initialize_outcome_witness :
  match Server_Initialize demo_initialize (str "hislip0") (NewCanned []) (demo_world 1) with
  | (inl (loc, resp), w') => Server_Sessions w'.(wd_srv) = 1
  | (inr _, _) => False
  end.
Proof.
  pose proof (Initialize_outcome (demo_world 1) demo_initialize (str "hislip0") (NewCanned [])
    (demo_world_inv 1 ltac:(lia)) ltac:(vm_compute; repeat split; discriminate)) as H.
  assert (E : exists loc resp w', Server_Initialize demo_initialize (str "hislip0") (NewCanned [])
    (demo_world 1) = (inl (loc, resp), w')) by (vm_compute; eauto).
  destruct E as (loc & resp & w' & E). cbv zeta in H. rewrite E in H |- *.
  exact (proj1 (proj2 (proj2 (proj2 H)))).
Defined.

Section AsyncFacts.
Context {S D : Type} `{Stream S}.
Implicit Types w : World S D.

(** Replacing a registered session object by another of the same ID. *)
Lemma update_object_inv w loc o o' :
  world_inv w -> w.(wd_heap) !! loc = Some o ->
  o'.(so_sess).(ss_id) = o.(so_sess).(ss_id) ->
  session_inv o'.(so_sess) ->
  (o'.(so_sess).(ss_state) = StateClosed <-> o.(so_sess).(ss_state) = StateClosed) ->
  world_inv (wd_set_heap (<[loc := o']> w.(wd_heap)) w).
Proof.
  intros [C N Z0 R O L Hd] Ho Hid Hinv Hst. destruct w as [srv heap nl can nc]. simpl in *.
  split; simpl; try done.
  - intros id loc' Hs. destruct (R id loc' Hs) as (? & o1 & Ho1 & ? & ?). split; [done |].
    destruct (decide (loc' = loc)) as [-> |].
    + exists o'. rewrite lookup_insert_eq. rewrite Ho in Ho1. simplify_eq. split_and!; try done.
      by rewrite Hst.
    + exists o1. by rewrite lookup_insert_ne.
  - intros loc' o1. destruct (decide (loc' = loc)) as [-> |].
    + rewrite lookup_insert_eq. intros [= <-]. destruct (O loc o Ho) as (? & ? & Hreg).
      split_and!; try done. rewrite Hst, Hid. done.
    + rewrite lookup_insert_ne by done. apply O.
Qed.

(** Pairing an open session that has no second channel. *)
Lemma pairing_inv w loc o sess' st :
  world_inv w -> w.(wd_heap) !! loc = Some o ->
  Session_attachAsync o.(so_sess) = (None, sess') ->
  world_inv (wd_set_heap (<[loc := MkObj sess' o.(so_syncS) (Some st)]> w.(wd_heap)) w) /\
  o.(so_sess).(ss_state) = StatePairing /\ Session_Ready sess' = true /\
  sess'.(ss_id) = o.(so_sess).(ss_id).
Proof.
  intros Hw Ho E. destruct (wi_open w Hw loc o Ho) as (Hinv & _ & _).
  pose proof (attachAsync_inv _ Hinv) as Hinv'. rewrite E in Hinv'. cbn [snd] in Hinv'.
  revert E. unfold Session_attachAsync.
  destruct (decide (ss_state (so_sess o) = StatePairing)) as [Hp | Hp]; bd_known; [| done].
  destruct (ss_async (so_sess o)); [done |]. intros [= <-].
  split_and!; [| done | done | done].
  apply (update_object_inv w loc o); try done.
  by rewrite Hp.
Qed.

Lemma Server_AsyncInitialize_inv w h st :
  world_inv w -> world_inv (Server_AsyncInitialize h st w).2.
Proof.
  intros Hw. unfold Server_AsyncInitialize. case_bool_decide; [done |]. case_match; [done |].
  destruct (Server_Session _ _) as [loc|]; [| done].
  destruct (wd_heap w !! loc) as [o|] eqn:Ho; [| done].
  destruct (Session_attachAsync (so_sess o)) as [[err|] sess'] eqn:E; [done |].
  by destruct (pairing_inv w loc o sess' st Hw Ho E).
Qed.
End AsyncFacts.


(** ** Concrete worlds *)

(** One client opens a session and pairs its second channel. *)
Definition opened_world (n : Z) : World Canned TestDevice :=
  (Server_Initialize demo_initialize (str "hislip0") (NewCanned []) (demo_world n)).2.
Definition demo_async_initialize (id : Z) : Header := MkHeader AsyncInitialize 0 id 0.
Definition paired_world (n : Z) : World Canned TestDevice :=
  (Server_AsyncInitialize (demo_async_initialize 1) (NewCanned []) (opened_world n)).2.

Lemma opened_world_inv n : 1 <= n -> world_inv (opened_world n).
Proof. intros Hn. by apply Server_Initialize_inv, demo_world_inv. Qed.
Lemma paired_world_inv n : 1 <= n -> world_inv (paired_world n).
Proof. intros Hn. by apply Server_AsyncInitialize_inv, opened_world_inv. Qed.


(** The paired session holds the exclusive lock when its connection ends. *)
Definition locked_world : World Canned TestDevice :=
  let w := paired_world 2 in
  wd_set_srv (srv_set_locks (TryRequest w.(wd_srv).(srv_locks) 1 []).2 w.(wd_srv)) w.

Lemma locked_world_inv : world_inv locked_world.
Proof.
  apply set_locks_inv; [apply paired_world_inv; lia | by vm_compute |].
  intros id Hh. apply Held_spec in Hh as [[_ <-] | Hh]; [vm_compute; eauto |].
  vm_compute in Hh. done.
Qed.

Lemma removeSession_spec_witness :
  Held (Server_Locks locked_world.(wd_srv)) 1 = true /\
  Held (Server_Locks (removeSession 0 locked_world).2.(wd_srv)) 1 = false.
Proof.
  split; [vm_compute; reflexivity |].
  assert (E : exists o, locked_world.(wd_heap) !! 0%nat = Some o /\ o.(so_sess).(ss_id) = 1)
    by (vm_compute; eauto).
  destruct E as (o & Eo & Hid).
  pose proof (removeSession_spec locked_world 0 o Eo) as H.
  rewrite Hid in H. exact (proj1 (proj2 H)).
Defined.

Lemma CloseAll_spec_witness :
  Server_Sessions (CloseAll [0%nat] locked_world).2.(wd_srv) = 0.
Proof.
  exact (proj1 (proj2 (CloseAll_spec locked_world [0%nat] locked_world_inv
    ltac:(vm_compute; reflexivity)))).
Defined.

(** The maximum message size exchange keeps the two directions apart: the reply
    carries the server's own receive limit, which holds at least a header; the
    session's transmit limit becomes the client's announcement if that is at least 256
    and is otherwise unchanged; the receive limit never changes; and a transmit limit
    of at least 256 stays so. *)
Theorem MaximumMessageSize_directions cfg sess clientMax :
  valid_config cfg ->
  let '(resp, answer, sess') := Server_MaximumMessageSize cfg sess clientMax in
  resp.(h_Type) = AsyncMaximumMessageSizeResponse /\ resp.(h_Length) = 8 /\
  answer = cfg.(cfg_MaxRxPayload) /\ HeaderSize <= answer /\
  Session_MaxRxPayload sess' = Session_MaxRxPayload sess /\
  Session_MaxTxPayload sess'
    = (if bool_decide (256 <= clientMax) then clientMax else Session_MaxTxPayload sess) /\
  (256 <= Session_MaxTxPayload sess -> 256 <= Session_MaxTxPayload sess').
Proof.
  intros [_ _ Hrx _ _]. unfold Server_MaximumMessageSize, minMaximumMessageSize.
  case_bool_decide; destruct sess; by simpl.
Qed.

Lemma MaximumMessageSize_directions_witness :
  let '(_, answer, sess') := Server_MaximumMessageSize (demo_config 1)
    (newSession 1 Version10 (demo_config 1)) 4096 in
  answer = 8192 /\ Session_MaxTxPayload sess' = 4096.
Proof.
  assert (Hv : valid_config (demo_config 1)) by (apply (Config_validate_spec (demo_config 1)); reflexivity).
  pose proof (MaximumMessageSize_directions (demo_config 1)
    (newSession 1 Version10 (demo_config 1)) 4096 Hv) as H.
  exact (conj (proj1 (proj2 (proj2 H))) (proj1 (proj2 (proj2 (proj2 (proj2 (proj2 H))))))).
Defined.
