(* ===== verification/Handler.v ===== *)
(** * The state a channel handler works on

    The handlers of [src/server] take the server and one session. [HState] holds
    what they can reach: the server, the session with its writers, the two
    streams, and the contexts that have been cancelled. [hs_queued] is what the
    reader of the synchronous channel reports: whether a message is waiting. *)

From S2P Require Import Prelude Errors Version Constants MessageId Stream Header Codec Writer.
From S2P Require Import Rmt Status Transaction Policy Locks Config Device Session Server.

Record HState (S D : Type) : Type := MkHState {
  hs_srv : Server D;
  hs_sess : Session;
  hs_syncS : S;
  hs_asyncS : option S;
  hs_cancelled : gset nat;
  hs_nextctx : nat;
  hs_queued : bool;
}.
Arguments MkHState {S D}.
Arguments hs_srv {S D}.
Arguments hs_sess {S D}.
Arguments hs_syncS {S D}.
Arguments hs_asyncS {S D}.
Arguments hs_cancelled {S D}.
Arguments hs_nextctx {S D}.
Arguments hs_queued {S D}.

(** The two channels of a session; a [*MessageWriter] is one of them. *)
Inductive side : Type := SyncSide | AsyncSide.
#[export] Instance side_eq_dec : EqDecision side.
Proof. solve_decision. Defined.

(** What a call on a nil writer would end in; the lemmas on [live] sessions show
    that no handler of a paired session gets there. *)
Definition nil_dereference : error :=
  Foreign (str "runtime error: invalid memory address or nil pointer dereference") [].

(** [if err := m; err != nil { return onerr(err) }; k] *)
Definition check {X A} (m : M X (option error)) (onerr : error -> M X A) (k : M X A) : M X A :=
  err ← m; match err with Some e => onerr e | None => k end.

Section Handler.
Context {S D : Type}.
Local Abbreviation HM := (M (HState S D)).

Definition sess_gets {A} (f : Session -> A) : HM A := gets (fun st => f st.(hs_sess)).
Definition sess_modify (f : Session -> Session) : HM unit :=
  modify (fun st => MkHState st.(hs_srv) (f st.(hs_sess)) st.(hs_syncS)
    st.(hs_asyncS) st.(hs_cancelled) st.(hs_nextctx) st.(hs_queued)).
Definition srv_gets {A} (f : Server D -> A) : HM A := gets (fun st => f st.(hs_srv)).
Definition srv_modify (f : Server D -> Server D) : HM unit :=
  modify (fun st => MkHState (f st.(hs_srv)) st.(hs_sess) st.(hs_syncS)
    st.(hs_asyncS) st.(hs_cancelled) st.(hs_nextctx) st.(hs_queued)).

(** [s.count(f)] *)
Definition count (f : Counters -> Counters) : HM unit := srv_modify (srv_count f).

(** A method of the transaction. *)
Definition on_tx (f : Transaction -> option error * Transaction) : HM (option error) :=
  tx ← sess_gets ss_tx;
  let (err, tx) := f tx in
  _ ← sess_modify (ss_set_tx tx);
  mret err.

(** Is a context done? *)
Definition ctx_Err (ctx : Context) : HM bool := gets (fun st => ctx_done st.(hs_cancelled) ctx).

(** A call of the instrument under a context. *)
Definition on_dev {A} (ctx : Context) (f : D -> bool -> A * D) : HM A :=
  done ← ctx_Err ctx;
  d ← srv_gets srv_dev;
  let (a, d) := f d done in
  _ ← srv_modify (srv_set_dev d);
  mret a.

Definition writer_of (sd : side) (sess : Session) : option MessageWriter :=
  match sd with SyncSide => sess.(ss_syncW) | AsyncSide => sess.(ss_asyncW) end.
Definition stream_of (sd : side) (st : HState S D) : option S :=
  match sd with SyncSide => Some st.(hs_syncS) | AsyncSide => st.(hs_asyncS) end.
Definition set_channel (sd : side) (w : MessageWriter) (s : S) (st : HState S D) : HState S D :=
  match sd with
  | SyncSide => MkHState st.(hs_srv) (Session_setSyncWriter (Some w) st.(hs_sess)) s
      st.(hs_asyncS) st.(hs_cancelled) st.(hs_nextctx) st.(hs_queued)
  | AsyncSide => MkHState st.(hs_srv) (Session_setAsyncWriter (Some w) st.(hs_sess)) st.(hs_syncS)
      (Some s) st.(hs_cancelled) st.(hs_nextctx) st.(hs_queued)
  end.

Context `{Stream S}.

(** [w.Write(h, payload)] for the session's writer on a side. *)
Definition writer_Write (sd : side) (h : Header) (payload : bytes) : HM (option error) :=
  fun st =>
    match writer_of sd st.(hs_sess), stream_of sd st with
    | Some w, Some s =>
        match MessageWriter_Write w s h payload with
        | (err, w, s) => (err, set_channel sd w s st)
        end
    | _, _ => (Some nil_dereference, st)
    end.

(** [w.WriteError(code, description)] *)
Definition writer_WriteError (sd : side) (code : Z) (description : bytes) : HM (option error) :=
  writer_Write sd (MkHeader Error code 0 0) description.

(** [w.WriteFatalError(code, description)] *)
Definition writer_WriteFatalError (sd : side) (code : Z) (description : bytes)
  : HM (option error) :=
  writer_Write sd (MkHeader FatalError code 0 0) description.
End Handler.

(** ** Running a handler *)

Lemma bind_run {X A B} (m : M X A) (k : A -> M X B) x a x' :
  m x = (a, x') -> (m ≫= k) x = k a x'.
Proof. unfold mbind, M_bind. by intros ->. Qed.

Lemma check_ok {X A} (m : M X (option error)) onerr (k : M X A) x x' :
  m x = (None, x') -> check m onerr k x = k x'.
Proof. unfold check, mbind, M_bind. by intros ->. Qed.

Lemma check_err {X A} (m : M X (option error)) onerr (k : M X A) x e x' :
  m x = (Some e, x') -> check m onerr k x = onerr e x'.
Proof. unfold check, mbind, M_bind. by intros ->. Qed.

(** ** A session with both channels up

    [live srv sess ch e] is the state of a session whose two writers are
    installed: [sess] with the writers of [ch], over the streams of [ch]. *)

Record Chans (S : Type) : Type := MkChans {
  ch_w : MessageWriter;
  ch_s : S;
  ch_wa : MessageWriter;
  ch_sa : S;
}.
Arguments MkChans {S}.
Arguments ch_w {S}.
Arguments ch_s {S}.
Arguments ch_wa {S}.
Arguments ch_sa {S}.

Record Env : Type := MkEnv { e_cancelled : gset nat; e_nextctx : nat; e_queued : bool }.

Section Live.
Context {S D : Type} `{StreamModel S}.

Definition live (srv : Server D) (sess : Session) (ch : Chans S) (e : Env) : HState S D :=
  MkHState srv
    (Session_setSyncWriter (Some ch.(ch_w)) (Session_setAsyncWriter (Some ch.(ch_wa)) sess))
    ch.(ch_s) (Some ch.(ch_sa)) e.(e_cancelled) e.(e_nextctx) e.(e_queued).

Record chans_up (ch : Chans S) : Prop := {
  cu_w : wf_writer ch.(ch_w);
  cu_wc : ch.(ch_w).(mw_channel) = ChannelSynchronous;
  cu_s : st_open ch.(ch_s);
  cu_wa : wf_writer ch.(ch_wa);
  cu_wac : ch.(ch_wa).(mw_channel) = ChannelAsynchronous;
  cu_sa : st_open ch.(ch_sa);
}.

(** What the client has been sent. *)
Definition sent_sync (ch : Chans S) : bytes := st_output ch.(ch_s).
Definition sent_async (ch : Chans S) : bytes := st_output ch.(ch_sa).

(** Both channels of a state are up. *)
Definition up (st : HState S D) : Prop := exists srv sess ch e, st = live srv sess ch e /\ chans_up ch.

(** [ch'] is [ch] after the given bytes have gone out on the two channels. *)
Definition sends (ch ch' : Chans S) (b ba : bytes) : Prop :=
  chans_up ch' /\ sent_sync ch' = sent_sync ch ++ b /\ sent_async ch' = sent_async ch ++ ba.

Lemma sends_nil ch : chans_up ch -> sends ch ch [] [].
Proof. intros Hc. unfold sends. by rewrite !app_nil_r. Qed.

Lemma sends_trans ch1 ch2 ch3 b1 ba1 b2 ba2 :
  sends ch1 ch2 b1 ba1 -> sends ch2 ch3 b2 ba2 -> sends ch1 ch3 (b1 ++ b2) (ba1 ++ ba2).
Proof.
  intros (_ & E1 & E2) (Hc & E3 & E4). unfold sends. rewrite E3, E4, E1, E2, !app_assoc. done.
Qed.

Lemma sends_up ch ch' b ba : sends ch ch' b ba -> chans_up ch'.
Proof. by intros [? _]. Qed.

Implicit Types (srv : Server D) (ch : Chans S).

Lemma live_on_tx f srv sess ch e :
  on_tx f (live srv sess ch e)
    = ((f sess.(ss_tx)).1, live srv (ss_set_tx (f sess.(ss_tx)).2 sess) ch e).
Proof.
  unfold on_tx, mbind, M_bind, sess_gets, gets, sess_modify, modify. simpl.
  by destruct (f (ss_tx sess)).
Qed.

Lemma live_on_dev {A} ctx (f : D -> bool -> A * D) srv sess ch e :
  let r := f srv.(srv_dev) (ctx_done e.(e_cancelled) ctx) in
  on_dev ctx f (live srv sess ch e) = (r.1, live (srv_set_dev r.2 srv) sess ch e).
Proof.
  unfold on_dev, mbind, M_bind, ctx_Err, srv_gets, gets, srv_modify, modify. simpl.
  by destruct (f (srv_dev srv) _).
Qed.

Lemma live_write_sync srv sess ch e h payload :
  chans_up ch -> MessageType_LegalOn h.(h_Type) ChannelSynchronous = true ->
  (h.(h_Length) = 0 \/ h.(h_Length) = len payload) -> exists ch',
  writer_Write SyncSide h payload (live srv sess ch e) = (None, live srv sess ch' e) /\
  sends ch ch' (message_bytes h payload) [].
Proof.
  intros [H1 H2 H3 H4 H5 H6] Hl Hp. rewrite <- H2 in Hl.
  destruct (MessageWriter_Write_ok (ch_w ch) (ch_s ch) h payload H3 H1 Hl Hp)
    as (w' & s' & E & Hout & _ & Ho & Hw & Hc & _).
  exists (MkChans w' s' (ch_wa ch) (ch_sa ch)). split.
  - unfold writer_Write. simpl. by rewrite E.
  - split; [split; simpl; congruence || done |]. unfold sent_sync, sent_async. simpl.
    by rewrite app_nil_r.
Qed.

Lemma live_write_async srv sess ch e h payload :
  chans_up ch -> MessageType_LegalOn h.(h_Type) ChannelAsynchronous = true ->
  (h.(h_Length) = 0 \/ h.(h_Length) = len payload) -> exists ch',
  writer_Write AsyncSide h payload (live srv sess ch e) = (None, live srv sess ch' e) /\
  sends ch ch' [] (message_bytes h payload).
Proof.
  intros [H1 H2 H3 H4 H5 H6] Hl Hp. rewrite <- H5 in Hl.
  destruct (MessageWriter_Write_ok (ch_wa ch) (ch_sa ch) h payload H6 H4 Hl Hp)
    as (w' & s' & E & Hout & _ & Ho & Hw & Hc & _).
  exists (MkChans (ch_w ch) (ch_s ch) w' s'). split.
  - unfold writer_Write. simpl. by rewrite E.
  - split; [split; simpl; congruence || done |]. unfold sent_sync, sent_async. simpl.
    by rewrite app_nil_r.
Qed.
End Live.

(** The wire image of a message without a payload, and of an Error message. *)
Definition plain_message (t : MessageType) (control parameter : Z) : bytes :=
  message_bytes (MkHeader t control parameter 0) [].
Definition error_message (code : Z) (description : bytes) : bytes :=
  message_bytes (MkHeader Error code 0 0) description.
Definition fatal_message (code : Z) (description : bytes) : bytes :=
  message_bytes (MkHeader FatalError code 0 0) description.
