(* ===== verification/Dispatch.v ===== *)
(** * Dispatch

    [src/server/dispatch.go]: the dispatch class of a message and the checks an
    incoming message has to pass. *)

From S2P Require Import Prelude Errors Version Constants MessageId Stream Header Codec.
From S2P Require Import WireErrors Config Session.

Inductive Class : Type :=
| ClassNoBus
| ClassPreemptAbandon
| ClassPreemptResume
| ClassBoundary
| ClassSyncOrdered
| ClassLifecycle
| ClassUndefined.
#[export] Instance Class_eq_dec : EqDecision Class.
Proof. solve_decision. Defined.

Definition Class_String (c : Class) : bytes :=
  str match c with
  | ClassNoBus => "no bus access"
  | ClassPreemptAbandon => "preempt and abandon"
  | ClassPreemptResume => "preempt and resume"
  | ClassBoundary => "transfer boundary"
  | ClassSyncOrdered => "synchronous, ordered"
  | ClassLifecycle => "lifecycle"
  | ClassUndefined => "undefined"
  end.

Definition Class_Queued (c : Class) : bool :=
  match c with
  | ClassPreemptAbandon | ClassPreemptResume | ClassBoundary | ClassSyncOrdered => true
  | _ => false
  end.

Definition Class_Preempts (c : Class) : bool :=
  bool_decide (c = ClassPreemptAbandon) || bool_decide (c = ClassPreemptResume).

Definition Class_Ordered (c : Class) : bool := bool_decide (c = ClassSyncOrdered).

Definition ClassOf (t : MessageType) : Class :=
  if bool_decide (t ∈ [AsyncLock; AsyncLockInfo; AsyncMaximumMessageSize]) then ClassNoBus
  else if bool_decide (t = AsyncDeviceClear) then ClassPreemptAbandon
  else if bool_decide (t = AsyncStatusQuery) then ClassPreemptResume
  else if bool_decide (t = AsyncRemoteLocalControl) then ClassBoundary
  else if bool_decide (t ∈ [Data; DataEnd; Trigger]) then ClassSyncOrdered
  else if bool_decide (t ∈ [Initialize; AsyncInitialize; DeviceClearComplete; Error; FatalError])
  then ClassLifecycle
  else if MessageType_VendorSpecific t then ClassSyncOrdered
  else ClassUndefined.

(** [s.Accept(sess, h, channel)]; a nil session is [None]. *)
Definition Server_Accept (cfg : Config) (sess : option Session) (h : Header) (channel : Channel)
  : Class * option error :=
  let t := h.(h_Type) in
  if MessageType_Reserved t then (ClassUndefined, Some (perr ErrReservedMessageType))
  else if negb (MessageType_Defined t) && negb (MessageType_VendorSpecific t)
  then (ClassUndefined, Some (perr ErrUnknownMessageType))
  else if negb (MessageType_LegalOn t channel) then (ClassUndefined, Some (perr ErrWrongChannel))
  else if match sess with
          | Some sess => Version_Less sess.(ss_version) (MessageType_MinVersion t)
          | None => false
          end
  then (ClassUndefined, Some (perr ErrProtocolVersion))
  else
    let class := ClassOf t in
    if bool_decide (class = ClassUndefined) then (class, Some (perr ErrUnknownMessageType))
    else
      let limit := match sess with
                   | Some sess => sess.(ss_maxRx)
                   | None => cfg.(cfg_MaxRxPayload)
                   end in
      match CheckLength h.(h_Length) limit with
      | Some err => (class, Some err)
      | None =>
          match sess with
          | Some sess =>
              if bool_decide (class <> ClassLifecycle)
              then (class, Session_requireReady sess) else (class, None)
          | None => (class, None)
          end
      end.

(** ** What acceptance means *)

(** The messages a client may send on a channel of an established session. *)
Definition client_message (t : MessageType) (channel : Channel) : Prop :=
  MessageType_LegalOn t channel = true /\ ClassOf t <> ClassUndefined.

(** A type byte the checks before the class lookup let through. *)
Lemma legal_not_reserved t c :
  is_u8 t -> MessageType_LegalOn t c = true ->
  MessageType_Reserved t = false /\
  negb (MessageType_Defined t) && negb (MessageType_VendorSpecific t) = false.
Proof.
  intros Ht Hl.
  pose proof (u8_forall (fun t =>
    implb (MessageType_LegalOn t ChannelSynchronous || MessageType_LegalOn t ChannelAsynchronous)
      (negb (MessageType_Reserved t) &&
       negb (negb (MessageType_Defined t) && negb (MessageType_VendorSpecific t))))
    ltac:(by vm_compute) t Ht) as H.
  assert (Hor : MessageType_LegalOn t ChannelSynchronous || MessageType_LegalOn t ChannelAsynchronous
    = true).
  { destruct c; try done; rewrite Hl; [done | apply orb_true_r]. }
  cbv beta in H. rewrite Hor in H. simpl in H. apply andb_true_iff in H as [H1 H2].
  by apply negb_true_iff in H1, H2.
Qed.

Lemma requireReady_spec s :
  Session_requireReady s = None <->
  Session_State s = StateReady \/ Session_State s = StateClearing.
Proof. unfold Session_requireReady. destruct (Session_State s); naive_solver. Qed.

(** C22: Which messages are accepted on a channel of a session: exactly those that are
    legal there, have a dispatch class, are allowed by the negotiated version, fit the
    receive limit, and come when the session is ready or need not be. A refusal is
    fatal exactly for a version, not-ready or invalid-session error. No ordered
    operation of the standard is legal on the asynchronous channel. *)
Theorem Accept_decision cfg sess h channel :
  is_u8 h.(h_Type) ->
  let t := h.(h_Type) in
  (Server_Accept cfg (Some sess) h channel = (ClassOf t, None) <->
     client_message t channel /\
     Version_AtLeast sess.(ss_version) (MessageType_MinVersion t) = true /\
     (sess.(ss_maxRx) = 0 \/ h.(h_Length) <= sess.(ss_maxRx)) /\
     (ClassOf t = ClassLifecycle \/ Session_State sess = StateReady \/
      Session_State sess = StateClearing)) /\
  (forall err, (Server_Accept cfg (Some sess) h channel).2 = Some err ->
     ((WireErrorFor err).(we_Fatal) = true <->
      err = perr ErrProtocolVersion \/ err = serr ErrSessionNotReady \/
      err = serr ErrInvalidSession)) /\
  (ClassOf t = ClassSyncOrdered -> MessageType_VendorSpecific t = false ->
     MessageType_LegalOn t ChannelAsynchronous = false).
Proof.
  intros Ht t. split_and!.
  - unfold Server_Accept, client_message, Version_AtLeast. fold t.
    destruct (MessageType_LegalOn t channel) eqn:El.
    + destruct (legal_not_reserved t channel Ht El) as [-> ->]. simpl.
      destruct (Version_Less (ss_version sess) (MessageType_MinVersion t)); simpl; [naive_solver |].
      rewrite <- CheckLength_spec, <- requireReady_spec.
      destruct (decide (ClassOf t = ClassUndefined)) as [Hu | Hu];
        [rewrite bool_decide_eq_true_2 by done; naive_solver
        | rewrite bool_decide_eq_false_2 by done].
      destruct (CheckLength (h_Length h) (ss_maxRx sess)) as [err|]; [naive_solver |].
      destruct (decide (ClassOf t = ClassLifecycle)) as [Hl | Hl];
        [rewrite bool_decide_eq_false_2 by auto; by split_and!; auto | rewrite bool_decide_eq_true_2 by done].
      split; [intros [= ->]; split_and!; by auto | intros (_ & _ & _ & [? | ->]); done].
    + simpl. split; [| naive_solver]. destruct (MessageType_Reserved t); [done |].
      by destruct (negb (MessageType_Defined t) && negb (MessageType_VendorSpecific t)).
  - intros err. unfold Server_Accept, CheckLength, Session_requireReady.
    repeat (case_match; simplify_eq/=; try (intros [= <-])); naive_solver.
  - pose proof (u8_forall (fun t => implb (bool_decide (ClassOf t = ClassSyncOrdered) &&
      negb (MessageType_VendorSpecific t)) (negb (MessageType_LegalOn t ChannelAsynchronous)))
      ltac:(by vm_compute) t Ht) as H. intros Hc Hv.
    cbv beta in H. rewrite bool_decide_eq_true_2, Hv in H by done. simpl in H. by apply negb_true_iff in H.
Qed.

Lemma Accept_decision_witness :
  let sess := newSession 1 Version10 Config_zero in
  let h := MkHeader DataEnd 0 InitialMessageID 4 in
  Server_Accept Config_zero (Some sess) h ChannelSynchronous
    = (ClassSyncOrdered, Some (serr ErrSessionNotReady)) /\
  ((WireErrorFor (serr ErrSessionNotReady)).(we_Fatal) = true).
Proof.
  intros sess h.
  assert (E : Server_Accept Config_zero (Some sess) h ChannelSynchronous
    = (ClassSyncOrdered, Some (serr ErrSessionNotReady))) by (vm_compute; reflexivity).
  pose proof (Accept_decision Config_zero sess h ChannelSynchronous ltac:(solve_range)) as H.
  split; [exact E |]. apply (proj1 (proj2 H) (serr ErrSessionNotReady)).
  - rewrite E. reflexivity.
  - right. left. reflexivity.
Defined.
