(* ===== verification/Data.v ===== *)
(** * Program messages and responses

    [src/server/data.go]: what a Data, DataEnd or Trigger message does, and how
    a response is streamed back, interrupted, truncated or reported absent. *)

From S2P Require Import Prelude Errors Version Constants MessageId Stream Header Codec.
From S2P Require Import WireErrors Writer Rmt Status Transaction Policy Locks Config Device.
From S2P Require Import TestDevice Session Server Initialize Handler.

Inductive ResponseOutcome : Type :=
| ResponseComplete | ResponseTruncated | ResponseAbsent | ResponseInterrupted.
#[export] Instance ResponseOutcome_eq_dec : EqDecision ResponseOutcome.
Proof. solve_decision. Defined.

Definition ResponseOutcome_String (o : ResponseOutcome) : bytes :=
  str match o with
  | ResponseComplete => "complete"
  | ResponseTruncated => "truncated"
  | ResponseAbsent => "absent"
  | ResponseInterrupted => "interrupted"
  end.

(** [r_Sync] and [r_Async] say which writers of the session are supplied,
    [r_Scratch] is the length of the scratch buffer, and [r_InputQueued] the
    predicate, applied to what the reader reports. *)
Record Response : Type := MkResponse {
  r_Sync : bool;
  r_Async : bool;
  r_MessageID : MessageID;
  r_Scratch : Z;
  r_InputQueued : option (bool -> bool);
}.

Definition Response_validate (r : Response) (sess : Session) : option error :=
  if negb r.(r_Sync) || negb r.(r_Async) then Some (serr ErrInvalidConfig)
  else if bool_decide (r.(r_Scratch) = 0) then Some (perr ErrShortBuffer)
  else if bool_decide (Session_MaxTxPayload sess < r.(r_Scratch))
  then Some (perr ErrMessageTooLarge)
  else match r.(r_InputQueued) with
       | None => Some (serr ErrInputQueuedRequired)
       | Some _ => None
       end.

Section Data.
Context {S D : Type} `{Stream S} `{Device D}.
Local Abbreviation HM := (M (HState S D)).

(** [sess.RMT().ReceivedSyncMessage(..)] and [sess.Status().ReceivedSyncMessage(..)]. *)
Definition receivedSyncMessage (h : Header) : HM InterruptedKind :=
  rmt ← sess_gets ss_rmt;
  let (interrupted, rmt) := RMT_ReceivedSyncMessage rmt (Header_RMTDelivered h) in
  _ ← sess_modify (ss_set_rmt rmt);
  _ ← sess_modify (fun s =>
        ss_set_status (Status_ReceivedSyncMessage s.(ss_status) (Header_MessageID h)) s);
  mret interrupted.

Definition setResponsePending (b : bool) : HM unit :=
  sess_modify (fun s => ss_set_status (Status_SetResponsePending s.(ss_status) b) s).

Definition Server_ReceiveData (ctx : Context) (h : Header) (payload : bytes)
  : HM (InterruptedKind * option error) :=
  let fin := bool_decide (h.(h_Type) = DataEnd) in
  if bool_decide (h.(h_Type) <> Data) && negb fin
  then mret (NotInterrupted, Some (perr ErrUnknownMessageType))
  else
    interrupted ← receivedSyncMessage h;
    check (on_tx (fun tx => if fin then Transaction_CompleteInput tx (Header_MessageID h)
                            else Transaction_BeginInput tx))
      (fun err => mret (interrupted, Some err)) $
    check (on_dev ctx (fun d c => dev_Write d c payload fin))
      (fun err => mret (interrupted, Some err)) $
    mret (interrupted, None).

Definition terminate (r : Response) (final : bytes) : HM (option error) :=
  check (writer_Write SyncSide (MkHeader DataEnd 0 r.(r_MessageID) (len final)) final)
    (fun err => mret (Some err)) $
  (_ ← sess_modify (fun s => ss_set_rmt (RMT_SentDataEnd s.(ss_rmt)) s);
   _ ← sess_modify (Session_setLastTxMessageID r.(r_MessageID));
   on_tx Transaction_Complete).

Definition completeAbsentResponse (r : Response) : HM (ResponseOutcome * option error) :=
  check (writer_WriteError SyncSide CodeResponseTimeout (str "no response from instrument"))
    (fun err => mret (ResponseAbsent, Some err)) $
  check (on_tx Transaction_BeginResponse) (fun err => mret (ResponseAbsent, Some err)) $
  check (terminate r []) (fun err => mret (ResponseAbsent, Some err)) $
  mret (ResponseAbsent, None).

Definition sendInterrupted (r : Response) : HM (option error) :=
  check (on_tx Transaction_Interrupt) (fun err => mret (Some err)) $
  (_ ← setResponsePending false;
   check (writer_Write AsyncSide (MkHeader AsyncInterrupted 0 r.(r_MessageID) 0) [])
     (fun err => mret (Some err)) $
   check (writer_Write SyncSide (MkHeader Interrupted 0 r.(r_MessageID) 0) [])
     (fun err => mret (Some err)) $
   on_tx Transaction_Complete).

(** What is done with the bytes of one read: nothing, or the transition to the
    sending state and, for an intermediate chunk, a Data message. The result is
    the count delivered so far. *)
Definition deliver_chunk (r : Response) (b : bytes) (fin : bool) (readErr : option error)
    (delivered : Z) : HM (ResponseOutcome * error + Z) :=
  if bool_decide (0 < len b) then
    check (on_tx Transaction_BeginResponse) (fun err => mret (inl (ResponseAbsent, err))) $
    if negb fin || bool_decide (readErr <> None) then
      check (writer_Write SyncSide (MkHeader Data 0 r.(r_MessageID) (len b)) b)
        (fun err => mret (inl (ResponseTruncated, err))) $
      mret (inr (uint64 (delivered + len b)))
    else mret (inr delivered)
  else mret (inr delivered).

(** The loop of [SendResponse]. It runs as long as the instrument keeps
    returning chunks, so it is bounded by fuel; [None] is a loop that has not
    ended yet. *)
Fixpoint SendResponse_loop (fuel : nat) (ctx : Context) (r : Response) (delivered : Z)
  : HM (option (ResponseOutcome * option error)) :=
  match fuel with
  | O => mret None
  | Datatypes.S fuel =>
      '(b, fin, readErr) ← on_dev ctx (fun d c => dev_Read d c r.(r_Scratch));
      res ← deliver_chunk r b fin readErr delivered;
      match res with
      | inl (out, err) => mret (Some (out, Some err))
      | inr delivered =>
          if bool_decide (readErr <> None) then
            if bool_decide (delivered = 0) then
              res ← completeAbsentResponse r; mret (Some res)
            else
              check (writer_WriteError SyncSide CodeResponseTimeout (str "response truncated"))
                (fun err => mret (Some (ResponseTruncated, Some err))) $
              check (terminate r []) (fun err => mret (Some (ResponseTruncated, Some err))) $
              mret (Some (ResponseTruncated, None))
          else if negb fin then SendResponse_loop fuel ctx r delivered
          else
            queued ← gets (fun st => match r.(r_InputQueued) with
                                     | Some f => f st.(hs_queued)
                                     | None => false
                                     end);
            if queued : bool then
              check (sendInterrupted r) (fun err => mret (Some (ResponseInterrupted, Some err))) $
              mret (Some (ResponseInterrupted, None))
            else
              check (on_tx Transaction_BeginResponse)
                (fun err => mret (Some (ResponseAbsent, Some err))) $
              check (terminate r b) (fun err => mret (Some (ResponseComplete, Some err))) $
              mret (Some (ResponseComplete, None))
      end
  end.

Definition Server_SendResponse (fuel : nat) (ctx : Context) (r : Response)
  : HM (option (ResponseOutcome * option error)) :=
  sess ← sess_gets id;
  check (mret (Response_validate r sess)) (fun err => mret (Some (ResponseAbsent, Some err))) $
  check (on_tx Transaction_ExpectResponse)
    (fun err => mret (Some (ResponseAbsent, Some err))) $
  (_ ← setResponsePending true;
   res ← SendResponse_loop fuel ctx r 0;
   match res with
   | None => mret None
   | Some res => _ ← setResponsePending false; mret (Some res)
   end).

Definition Server_Trigger (ctx : Context) (h : Header) : HM (InterruptedKind * option error) :=
  if bool_decide (h.(h_Type) <> Trigger)
  then mret (NotInterrupted, Some (perr ErrUnknownMessageType))
  else
    sess ← sess_gets id;
    check (mret (Session_requireReady sess)) (fun err => mret (NotInterrupted, Some err)) $
    (interrupted ← receivedSyncMessage h;
     check (on_tx (fun tx => Transaction_CompleteInput tx (Header_MessageID h)))
       (fun err => mret (interrupted, Some err)) $
     check (on_dev ctx dev_Trigger) (fun err => mret (interrupted, Some err)) $
     (err ← on_tx Transaction_Complete; mret (interrupted, err))).
End Data.

(** ** The response on the wire *)

(** How the instrument ends a response: with a last chunk, or with an error,
    perhaps after some last bytes. *)
Inductive script_end : Type :=
| Ends (b : bytes)
| Fails (b : bytes) (fin : bool) (err : error).

(** The instrument, read with a buffer of [n] bytes, returns the chunks [bs] and
    then ends as [fin] says. *)
Inductive response_script {D} `{Device D} (c : bool) (n : Z)
  : D -> list bytes -> script_end -> D -> Prop :=
| script_ends d b d' :
    dev_Read d c n = (b, true, None, d') -> response_script c n d [] (Ends b) d'
| script_fails d b fin err d' :
    dev_Read d c n = (b, fin, Some err, d') -> response_script c n d [] (Fails b fin err) d'
| script_more d b d1 bs fin d' :
    dev_Read d c n = (b, false, None, d1) -> response_script c n d1 bs fin d' ->
    response_script c n d (b :: bs) fin d'.

Definition data_message (id : MessageID) (b : bytes) : bytes :=
  if bool_decide (0 < len b) then message_bytes (MkHeader Data 0 id (len b)) b else [].
Definition data_messages (id : MessageID) (bs : list bytes) : bytes :=
  concat (map (data_message id) bs).
Definition data_end (id : MessageID) (b : bytes) : bytes :=
  message_bytes (MkHeader DataEnd 0 id (len b)) b.

(** The outcome, what goes out on the two channels, and whether a DataEnd is
    among it. *)
Definition expected_rest (id : MessageID) (delivered : Z) (bs : list bytes) (fin : script_end)
    (queued : bool) : ResponseOutcome * bytes * bytes * bool :=
  match fin with
  | Ends b =>
      if queued
      then (ResponseInterrupted, data_messages id bs ++ plain_message Interrupted 0 id,
            plain_message AsyncInterrupted 0 id, false)
      else (ResponseComplete, data_messages id bs ++ data_end id b, [], true)
  | Fails b _ _ =>
      if bool_decide (delivered + len (concat (bs ++ [b])) = 0)
      then (ResponseAbsent,
            error_message CodeResponseTimeout (str "no response from instrument")
              ++ data_end id [], [], true)
      else (ResponseTruncated,
            data_messages id (bs ++ [b])
              ++ error_message CodeResponseTimeout (str "response truncated")
              ++ data_end id [], [], true)
  end.

Definition expected_response (id : MessageID) : list bytes -> script_end -> bool ->
    ResponseOutcome * bytes * bytes * bool :=
  expected_rest id 0.

(** The bytes the instrument returned. *)
Definition script_size (bs : list bytes) (fin : script_end) : Z :=
  len (concat bs) + len match fin with Ends b => b | Fails b _ _ => b end.

(** The session afterwards: the transaction is idle, and the server claims to
    have delivered a terminator only if it has. *)
Definition after_response (id : MessageID) (delivered : bool) (sess : Session) : Session :=
  let sess := ss_set_tx (MkTx TxIdle NoMessageID) sess in
  if delivered then ss_set_lastTx id (ss_set_rmt (MkRMT true) sess) else sess.

Section ResponseFacts.
Context {S D : Type} `{StreamModel S} `{Device D}.
Implicit Types (srv : Server D) (ch : Chans S).

(** A transaction that may still send or give up a response. *)
Definition owes_response (sess : Session) : Prop :=
  sess.(ss_tx).(tx_state) = TxResponsePending \/ sess.(ss_tx).(tx_state) = TxSendingResponse.

Lemma begin_response sess :
  owes_response sess ->
  Transaction_BeginResponse sess.(ss_tx) = (None, MkTx TxSendingResponse sess.(ss_tx).(tx_id)).
Proof. unfold owes_response. destruct (ss_tx sess) as [s i]. simpl. by intros [-> | ->]. Qed.

Lemma terminate_ok srv sess ch e r b :
  chans_up ch -> sess.(ss_tx).(tx_state) = TxSendingResponse -> exists ch',
  terminate r b (live srv sess ch e)
    = (None, live srv (after_response r.(r_MessageID) true sess) ch' e) /\
  sends ch ch' (data_end r.(r_MessageID) b) [].
Proof.
  intros Hc Ht.
  destruct (live_write_sync srv sess ch e (MkHeader DataEnd 0 (r_MessageID r) (len b)) b)
    as (ch' & E & Hs); [done | done | by right |].
  exists ch'. split; [| done]. unfold terminate. rewrite (check_ok _ _ _ _ _ E).
  unfold sess_modify, modify, mbind, M_bind. simpl.
  unfold on_tx, mbind, M_bind, sess_gets, gets, sess_modify, modify. simpl.
  destruct sess as [? ? ? ? ? ? ? ? ? ? ? ? [s i] ? ? ? ?]. simpl in *. by subst s.
Qed.

Lemma sendInterrupted_ok srv sess ch e r :
  chans_up ch -> owes_response sess -> exists ch',
  sendInterrupted r (live srv sess ch e)
    = (None, live srv (ss_set_status (Status_SetResponsePending sess.(ss_status) false)
                         (after_response r.(r_MessageID) false sess)) ch' e) /\
  sends ch ch' (plain_message Interrupted 0 r.(r_MessageID))
    (plain_message AsyncInterrupted 0 r.(r_MessageID)).
Proof.
  intros Hc Ht. set (s1 := ss_set_tx (MkTx TxInterrupted sess.(ss_tx).(tx_id)) sess).
  set (s2 := ss_set_status (Status_SetResponsePending s1.(ss_status) false) s1).
  destruct (live_write_async srv s2 ch e (MkHeader AsyncInterrupted 0 (r_MessageID r) 0) [])
    as (ch1 & E1 & Hs1); [done | done | by left |].
  destruct (live_write_sync srv s2 ch1 e (MkHeader Interrupted 0 (r_MessageID r) 0) [])
    as (ch2 & E2 & Hs2); [by eapply sends_up | done | by left |].
  exists ch2. split; [| exact (sends_trans _ _ _ _ _ _ _ Hs1 Hs2)].
  assert (Ei : on_tx Transaction_Interrupt (live srv sess ch e) = (None, live srv s1 ch e)).
  { rewrite live_on_tx. subst s1. unfold owes_response in Ht.
    destruct (ss_tx sess) as [s i]. destruct Ht as [Ht | Ht]; simpl in Ht; by subst s. }
  unfold sendInterrupted. rewrite (check_ok _ _ _ _ _ Ei).
  rewrite (bind_run _ _ _ tt (live srv s2 ch e)) by reflexivity.
  rewrite (check_ok _ _ _ _ _ E1), (check_ok _ _ _ _ _ E2), live_on_tx. done.
Qed.

Lemma completeAbsentResponse_ok srv sess ch e r :
  chans_up ch -> owes_response sess -> exists ch',
  completeAbsentResponse r (live srv sess ch e)
    = (ResponseAbsent, None, live srv (after_response r.(r_MessageID) true sess) ch' e) /\
  sends ch ch' (error_message CodeResponseTimeout (str "no response from instrument")
                  ++ data_end r.(r_MessageID) []) [].
Proof.
  intros Hc Ht. set (s1 := ss_set_tx (MkTx TxSendingResponse sess.(ss_tx).(tx_id)) sess).
  destruct (live_write_sync srv sess ch e (MkHeader Error CodeResponseTimeout 0 0)
    (str "no response from instrument")) as (ch1 & E1 & Hs1); [done | done | by left |].
  assert (E2 : on_tx Transaction_BeginResponse (live srv sess ch1 e) = (None, live srv s1 ch1 e))
    by (by rewrite live_on_tx, begin_response).
  destruct (terminate_ok srv s1 ch1 e r []) as (ch2 & E3 & Hs2); [by eapply sends_up | done |].
  exists ch2. split; [| exact (sends_trans _ _ _ _ _ _ _ Hs1 Hs2)].
  unfold completeAbsentResponse, writer_WriteError.
  rewrite (check_ok _ _ _ _ _ E1), (check_ok _ _ _ _ _ E2), (check_ok _ _ _ _ _ E3). done.
Qed.

(** One read delivered: an intermediate chunk is a Data message. *)
Lemma deliver_chunk_ok srv sess ch e r b fin readErr delivered :
  chans_up ch -> owes_response sess -> 0 <= delivered -> delivered + len b < 2 ^ 64 ->
  let mid := negb fin || bool_decide (readErr <> None) in
  exists ch' t,
  deliver_chunk r b fin readErr delivered (live srv sess ch e)
    = (inr (if mid then delivered + len b else delivered), live srv (ss_set_tx t sess) ch' e) /\
  sends ch ch' (if mid then data_message r.(r_MessageID) b else []) [] /\
  owes_response (ss_set_tx t sess) /\
  (0 < len b -> t.(tx_state) = TxSendingResponse) /\ (len b = 0 -> t = sess.(ss_tx)).
Proof.
  intros Hc Ht Hd Hlt mid. unfold deliver_chunk, data_message. pose proof (len_nonneg b).
  case_bool_decide as Hb.
  2: { exists ch, sess.(ss_tx). replace (len b) with 0 by lia. rewrite Z.add_0_r.
       destruct sess, mid; (split; [done | split_and!; [by apply sends_nil | done | lia | done]]). }
  set (t := MkTx TxSendingResponse sess.(ss_tx).(tx_id)).
  assert (E1 : on_tx Transaction_BeginResponse (live srv sess ch e)
    = (None, live srv (ss_set_tx t sess) ch e)) by (by rewrite live_on_tx, begin_response).
  rewrite (check_ok _ _ _ _ _ E1). fold mid. destruct mid.
  - destruct (live_write_sync srv (ss_set_tx t sess) ch e
      (MkHeader Data 0 (r_MessageID r) (len b)) b) as (ch1 & E2 & Hs1); [done | done | by right |].
    exists ch1, t. rewrite (check_ok _ _ _ _ _ E2). unfold uint64.
    rewrite Z.mod_small by lia. split_and!; [done | done | by right | done | lia].
  - exists ch, t. split_and!; [done | by apply sends_nil | by right | done | lia].
Qed.

Lemma after_response_tx id b t sess :
  after_response id b (ss_set_tx t sess) = after_response id b sess.
Proof. by destruct b. Qed.

(** The end of the loop, reached with nothing left to read. *)
Lemma response_fails_ok srv sess ch e r delivered :
  chans_up ch -> owes_response sess -> (delivered <> 0 -> sess.(ss_tx).(tx_state) = TxSendingResponse) ->
  exists ch',
  (if bool_decide (delivered = 0) then
     res ← completeAbsentResponse r; mret (Some res)
   else
     check (writer_WriteError SyncSide CodeResponseTimeout (str "response truncated"))
       (fun err => mret (Some (ResponseTruncated, Some err))) $
     check (terminate r []) (fun err => mret (Some (ResponseTruncated, Some err))) $
     mret (Some (ResponseTruncated, None))) (live srv sess ch e)
  = (Some (if bool_decide (delivered = 0) then ResponseAbsent else ResponseTruncated, None),
     live srv (after_response r.(r_MessageID) true sess) ch' e) /\
  sends ch ch' (error_message CodeResponseTimeout
    (if bool_decide (delivered = 0) then str "no response from instrument"
     else str "response truncated") ++ data_end r.(r_MessageID) []) [].
Proof.
  intros Hc Ht Hsend. case_bool_decide as Hd.
  - destruct (completeAbsentResponse_ok srv sess ch e r Hc Ht) as (ch' & E & Hs).
    exists ch'. split; [| done]. by rewrite (bind_run _ _ _ _ _ E).
  - destruct (live_write_sync srv sess ch e (MkHeader Error CodeResponseTimeout 0 0)
      (str "response truncated")) as (ch1 & E1 & Hs1); [done | done | by left |].
    destruct (terminate_ok srv sess ch1 e r []) as (ch2 & E2 & Hs2); [by eapply sends_up | auto |].
    exists ch2. split; [| exact (sends_trans _ _ _ _ _ _ _ Hs1 Hs2)].
    unfold writer_WriteError. by rewrite (check_ok _ _ _ _ _ E1), (check_ok _ _ _ _ _ E2).
Qed.

(** Clearing the pending flag, which is what the deferred call does. *)
Definition not_pending (sess : Session) : Session :=
  ss_set_status (Status_SetResponsePending sess.(ss_status) false) sess.

Lemma data_messages_cons id b bs : data_messages id (b :: bs) = data_message id b ++ data_messages id bs.
Proof. done. Qed.

Lemma data_messages_empty id bs : len (concat bs) = 0 -> data_messages id bs = [].
Proof.
  induction bs as [|b bs IH]; [done |]. simpl. rewrite len_app.
  pose proof (len_nonneg b). pose proof (len_nonneg (concat bs)). intros Hl.
  rewrite data_messages_cons, IH by lia. unfold data_message.
  by rewrite bool_decide_eq_false_2 by lia.
Qed.

(** A read that is not the last moves the rest of the expectation along. *)
Lemma expected_rest_cons id delivered b bs fin queued :
  0 <= delivered ->
  expected_rest id delivered (b :: bs) fin queued =
    let '(out, s, a, dl) := expected_rest id (delivered + len b) bs fin queued in
    (out, data_message id b ++ s, a, dl).
Proof.
  intros Hd. destruct fin as [b' | b' f err]; simpl.
  - destruct queued; by rewrite data_messages_cons, app_assoc.
  - rewrite len_app, Z.add_assoc. pose proof (len_nonneg b).
    pose proof (len_nonneg (concat (bs ++ [b']))). case_bool_decide.
    + unfold data_message. by rewrite bool_decide_eq_false_2 by lia.
    + by rewrite data_messages_cons, <- app_assoc.
Qed.

Lemma response_ends_ok srv sess ch e r q b delivered :
  r.(r_InputQueued) = Some q -> chans_up ch -> owes_response sess ->
  let '(out, bs, ba, dl) := expected_rest r.(r_MessageID) delivered [] (Ends b) (q e.(e_queued)) in
  exists ch' sess',
  (queued ← gets (fun st => match r.(r_InputQueued) with
                            | Some f => f st.(hs_queued)
                            | None => false
                            end);
   if queued : bool then
     check (sendInterrupted r) (fun err => mret (Some (ResponseInterrupted, Some err))) $
     mret (Some (ResponseInterrupted, None))
   else
     check (on_tx Transaction_BeginResponse)
       (fun err => mret (Some (ResponseAbsent, Some err))) $
     check (terminate r b) (fun err => mret (Some (ResponseComplete, Some err))) $
     mret (Some (ResponseComplete, None))) (live srv sess ch e)
  = (Some (out, None), live srv sess' ch' e) /\
  sends ch ch' bs ba /\
  not_pending sess' = not_pending (after_response r.(r_MessageID) dl sess).
Proof.
  intros Hq Hc Ht. unfold expected_rest, mbind, M_bind, gets. rewrite Hq. simpl.
  destruct (q (e_queued e)).
  - destruct (sendInterrupted_ok srv sess ch e r Hc Ht) as (ch' & E & Hs).
    rewrite (check_ok _ _ _ _ _ E). eexists ch', _. split_and!; [done | done | done].
  - set (s1 := ss_set_tx (MkTx TxSendingResponse sess.(ss_tx).(tx_id)) sess).
    assert (E1 : on_tx Transaction_BeginResponse (live srv sess ch e) = (None, live srv s1 ch e))
      by (by rewrite live_on_tx, begin_response).
    destruct (terminate_ok srv s1 ch e r b) as (ch' & E2 & Hs); [done | done |].
    rewrite (check_ok _ _ _ _ _ E1), (check_ok _ _ _ _ _ E2).
    eexists ch', _. split_and!; [done | done | done].
Qed.

(** Once something was delivered, the transaction is in the sending state. *)
Lemma sending_after_chunk sess t (b : bytes) delivered :
  (0 < len b -> t.(tx_state) = TxSendingResponse) -> (len b = 0 -> t = sess.(ss_tx)) ->
  (delivered <> 0 -> sess.(ss_tx).(tx_state) = TxSendingResponse) ->
  delivered + len b <> 0 -> t.(tx_state) = TxSendingResponse.
Proof.
  intros Hpos Hz Hd Hne. pose proof (len_nonneg b). destruct (decide (len b = 0)) as [Hb | Hb].
  - rewrite (Hz Hb). apply Hd. lia.
  - apply Hpos. lia.
Qed.

Lemma SendResponse_loop_ok (c : bool) n d bs fin d' :
  response_script c n d bs fin d' ->
  forall fuel ctx srv sess ch e r q delivered,
  srv.(srv_dev) = d -> r.(r_Scratch) = n -> ctx_done e.(e_cancelled) ctx = c ->
  r.(r_InputQueued) = Some q -> chans_up ch -> owes_response sess ->
  (delivered <> 0 -> sess.(ss_tx).(tx_state) = TxSendingResponse) ->
  0 <= delivered -> delivered + script_size bs fin < 2 ^ 64 -> (length bs < fuel)%nat ->
  let '(out, b, ba, dl) := expected_rest r.(r_MessageID) delivered bs fin (q e.(e_queued)) in
  exists ch' sess',
  SendResponse_loop fuel ctx r delivered (live srv sess ch e)
    = (Some (out, None), live (srv_set_dev d' srv) sess' ch' e) /\
  sends ch ch' b ba /\
  not_pending sess' = not_pending (after_response r.(r_MessageID) dl sess).
Proof.
  induction 1 as [d b d' E | d b f err d' E | d b d1 bs fin d' E Hscript IH];
    intros fuel ctx srv sess ch e r q delivered Hdev Hn Hctx Hq Hc Ht Hsend Hd Hsz Hfuel;
    (destruct fuel as [|fuel]; [simpl in Hfuel; lia |]); cbn [SendResponse_loop];
    (rewrite (bind_run _ _ _ _ _ (live_on_dev ctx
        (fun d c => dev_Read d c r.(r_Scratch)) srv sess ch e)));
    rewrite Hdev, Hn, Hctx, E; cbn [fst snd]; unfold script_size in Hsz; simpl in Hsz.
  - destruct (deliver_chunk_ok (srv_set_dev d' srv) sess ch e r b true None delivered)
      as (ch1 & t & E1 & Hs1 & Ht1 & _); [done | done | done | unfold len in *; lia |].
    rewrite (bind_run _ _ _ _ _ E1).
    pose proof (response_ends_ok (srv_set_dev d' srv) _ ch1 e r q b delivered Hq
      (sends_up _ _ _ _ Hs1) Ht1) as Hend.
    destruct (expected_rest _ _ _ _ _) as [[[out s] a] dl].
    destruct Hend as (ch' & sess' & Er & Hs & Hp). exists ch', sess'.
    rewrite after_response_tx in Hp.
    split_and!; [exact Er | exact (sends_trans _ _ _ _ _ _ _ Hs1 Hs) | exact Hp].
  - destruct (deliver_chunk_ok (srv_set_dev d' srv) sess ch e r b f (Some err) delivered)
      as (ch1 & t & E1 & Hs1 & Ht1 & Hlen & Hz); [done | done | done | unfold len in *; lia |].
    rewrite (bind_run _ _ _ _ _ E1). change (bool_decide (Some err <> None)) with true in *.
    rewrite orb_true_r in *. simpl.
    destruct (response_fails_ok (srv_set_dev d' srv) (ss_set_tx t sess) ch1 e r (delivered + len b))
      as (ch2 & E2 & Hs2); [by eapply sends_up | done | |].
    { by apply (sending_after_chunk sess t b delivered). }
    pose proof (sends_trans _ _ _ _ _ _ _ Hs1 Hs2) as Hs.
    unfold data_messages. simpl. rewrite !app_nil_r in *. rewrite after_response_tx in E2.
    case_bool_decide as Hz0.
    + exists ch2, (after_response (r_MessageID r) true sess). split_and!; [exact E2 | | done].
      unfold data_message in Hs. pose proof (len_nonneg b).
      by rewrite (bool_decide_eq_false_2 (0 < len b)) in Hs by lia.
    + exists ch2, (after_response (r_MessageID r) true sess). split_and!; [exact E2 | exact Hs | done].
  - destruct (deliver_chunk_ok (srv_set_dev d1 srv) sess ch e r b false None delivered)
      as (ch1 & t & E1 & Hs1 & Ht1 & Hlen & Hz); try done.
    { unfold script_size in *. rewrite len_app in Hsz. pose proof (len_nonneg (concat bs)).
      destruct fin; unfold len in *; lia. }
    rewrite (bind_run _ _ _ _ _ E1). simpl. rewrite expected_rest_cons by done.
    specialize (IH fuel ctx (srv_set_dev d1 srv) (ss_set_tx t sess) ch1 e r q (delivered + len b)
      eq_refl Hn Hctx Hq (sends_up _ _ _ _ Hs1) Ht1).
    destruct (expected_rest _ (delivered + len b) _ _ _) as [[[out s] a] dl].
    destruct IH as (ch' & sess' & Er & Hs & Hp).
    { by apply (sending_after_chunk sess t b delivered). }
    { pose proof (len_nonneg b). lia. }
    { unfold script_size. rewrite len_app in Hsz. lia. }
    { simpl in Hfuel. lia. }
    exists ch', sess'. rewrite after_response_tx in Hp.
    split_and!; [exact Er | exact (sends_trans _ _ _ _ _ _ _ Hs1 Hs) | exact Hp].
Qed.

(** Every chunk fits the buffer it was read into. *)
Lemma script_chunks_fit (c : bool) n d bs fin d' :
  0 <= n -> response_script c n d bs fin d' ->
  Forall (fun b => len b <= n) (bs ++ [match fin with Ends b => b | Fails b _ _ => b end]).
Proof.
  intros Hn. induction 1 as [d b d' E | d b f err d' E | d b d1 bs fin d' E Hs IH]; simpl;
    pose proof (dev_Read_len d c n Hn) as Hl; rewrite E in Hl; simpl in Hl; by constructor.
Qed.
End ResponseFacts.

(** The whole of [SendResponse] on a live session. *)
Lemma SendResponse_live {S D} `{StreamModel S} `{Device D}
    fuel ctx (srv : Server D) sess (ch : Chans S) e r q bs fin d' :
  chans_up ch -> sess.(ss_tx).(tx_state) = TxInputComplete ->
  r.(r_Sync) = true -> r.(r_Async) = true -> r.(r_InputQueued) = Some q ->
  0 < r.(r_Scratch) <= Session_MaxTxPayload sess ->
  response_script (ctx_done e.(e_cancelled) ctx) r.(r_Scratch) srv.(srv_dev) bs fin d' ->
  script_size bs fin < 2 ^ 64 -> (length bs < fuel)%nat ->
  let '(out, b, ba, terminated) := expected_response r.(r_MessageID) bs fin (q e.(e_queued)) in
  (exists ch', Server_SendResponse fuel ctx r (live srv sess ch e)
     = (Some (out, None),
        live (srv_set_dev d' srv) (not_pending (after_response r.(r_MessageID) terminated sess)) ch' e) /\
     sends ch ch' b ba) /\
  Forall (fun c => len c <= Session_MaxTxPayload sess) bs.
Proof.
  intros Hc Ht Hrs Hra Hq Hscr Hscript Hsz Hfuel.
  pose proof (script_chunks_fit _ r.(r_Scratch) _ _ _ _ ltac:(lia) Hscript) as Hfit.
  apply Forall_app in Hfit as [Hfit _].
  assert (Hmax : Forall (fun c => len c <= Session_MaxTxPayload sess) bs)
    by (eapply Forall_impl; [exact Hfit |]; simpl; lia).
  set (t := MkTx TxResponsePending sess.(ss_tx).(tx_id)).
  set (s1 := ss_set_tx t sess).
  set (s2 := ss_set_status (Status_SetResponsePending s1.(ss_status) true) s1).
  pose proof (SendResponse_loop_ok _ _ _ _ _ _ Hscript fuel ctx srv s2 ch e r q 0
    eq_refl eq_refl eq_refl Hq Hc ltac:(by left) ltac:(done) ltac:(lia) ltac:(lia) Hfuel) as Hloop.
  unfold expected_response. destruct (expected_rest _ _ _ _ _) as [[[out b] ba] dl].
  destruct Hloop as (ch' & sess' & E & Hs & Hp). split; [| done]. exists ch'. split; [| done].
  unfold Server_SendResponse.
  rewrite (bind_run _ _ _ (hs_sess (live srv sess ch e)) (live srv sess ch e)) by reflexivity.
  assert (Ev : Response_validate r (hs_sess (live srv sess ch e)) = None).
  { unfold Response_validate. rewrite Hrs, Hra, Hq. simpl.
    unfold Session_MaxTxPayload in *. simpl. by rewrite !bool_decide_eq_false_2 by lia. }
  rewrite Ev. erewrite check_ok by reflexivity.
  assert (Ex : on_tx Transaction_ExpectResponse (live srv sess ch e) = (None, live srv s1 ch e)).
  { rewrite live_on_tx. subst s1 t. destruct (ss_tx sess) as [st i]. simpl in Ht. by subst st. }
  rewrite (check_ok _ _ _ _ _ Ex).
  rewrite (bind_run _ _ _ tt (live srv s2 ch e)) by reflexivity.
  rewrite (bind_run _ _ _ _ _ E).
  rewrite (bind_run _ _ _ tt (live (srv_set_dev d' srv) (not_pending sess') ch' e)) by reflexivity.
  rewrite Hp. do 2 f_equal. by destruct dl.
Qed.

(** C2: What [SendResponse] puts on the wire. For every way an instrument can answer
    (chunks followed by a last chunk or by an error, perhaps with last bytes), and
    given fuel for the reads it makes, the call returns; the outcome, the bytes on the
    synchronous channel and those on the asynchronous channel are those of
    [expected_response]; the transaction is idle again, no response is pending, and
    the terminator is recorded exactly if a DataEnd was written. Every chunk fits the
    negotiated transmit limit. *)
Theorem SendResponse_wire {S D} `{StreamModel S} `{Device D}
    fuel ctx (srv : Server D) sess (ch : Chans S) e r q bs fin d' :
  chans_up ch -> sess.(ss_tx).(tx_state) = TxInputComplete ->
  r.(r_Sync) = true -> r.(r_Async) = true -> r.(r_InputQueued) = Some q ->
  0 < r.(r_Scratch) <= Session_MaxTxPayload sess ->
  response_script (ctx_done e.(e_cancelled) ctx) r.(r_Scratch) srv.(srv_dev) bs fin d' ->
  script_size bs fin < 2 ^ 64 -> (length bs < fuel)%nat ->
  let '(out, b, ba, terminated) := expected_response r.(r_MessageID) bs fin (q e.(e_queued)) in
  (exists ch', Server_SendResponse fuel ctx r (live srv sess ch e)
     = (Some (out, None),
        live (srv_set_dev d' srv) (not_pending (after_response r.(r_MessageID) terminated sess)) ch' e) /\
     sends ch ch' b ba) /\
  Forall (fun c => len c <= Session_MaxTxPayload sess) bs.
Proof. exact (SendResponse_live fuel ctx srv sess ch e r q bs fin d'). Qed.

(** ** Program messages *)

(** The session after the arrival of a flag-carrying message. *)
Definition arrived (h : Header) (sess : Session) : Session :=
  ss_set_status (Status_ReceivedSyncMessage sess.(ss_status) (Header_MessageID h))
    (ss_set_rmt (RMT_ReceivedSyncMessage sess.(ss_rmt) (Header_RMTDelivered h)).2 sess).

Section ReceiveFacts.
Context {S D : Type} `{StreamModel S} `{Device D}.
Implicit Types (srv : Server D) (ch : Chans S).

Lemma receivedSyncMessage_live h srv sess ch e :
  receivedSyncMessage h (live srv sess ch e)
    = ((RMT_ReceivedSyncMessage sess.(ss_rmt) (Header_RMTDelivered h)).1,
       live srv (arrived h sess) ch e).
Proof.
  unfold receivedSyncMessage, mbind, M_bind, sess_gets, gets, sess_modify, modify, arrived. simpl.
  by destruct (RMT_ReceivedSyncMessage _ _).
Qed.

(** The whole of [ReceiveData] on a live session. *)
Lemma ReceiveData_live ctx h payload srv sess ch e fin :
  h.(h_Type) = (if fin : bool then DataEnd else Data) ->
  let k := (RMT_ReceivedSyncMessage sess.(ss_rmt) (Header_RMTDelivered h)).1 in
  Server_ReceiveData ctx h payload (live srv sess ch e) =
    match (if fin then Transaction_CompleteInput sess.(ss_tx) (Header_MessageID h)
           else Transaction_BeginInput sess.(ss_tx)) with
    | (Some err, tx) => ((k, Some err), live srv (ss_set_tx tx (arrived h sess)) ch e)
    | (None, tx) =>
        let (err, d) := dev_Write srv.(srv_dev) (ctx_done e.(e_cancelled) ctx) payload fin in
        ((k, err), live (srv_set_dev d srv) (ss_set_tx tx (arrived h sess)) ch e)
    end.
Proof.
  intros Ht k. unfold Server_ReceiveData. rewrite Ht.
  assert (Ef : bool_decide ((if fin then DataEnd else Data) = DataEnd) = fin) by (by destruct fin).
  rewrite Ef. replace (bool_decide ((if fin then DataEnd else Data) <> Data) && negb fin) with false
    by (by destruct fin).
  rewrite (bind_run _ _ _ _ _ (receivedSyncMessage_live h srv sess ch e)). fold k.
  set (f := fun tx : Transaction => if fin then Transaction_CompleteInput tx (Header_MessageID h)
                                    else Transaction_BeginInput tx).
  change (if fin then Transaction_CompleteInput (ss_tx sess) (Header_MessageID h)
          else Transaction_BeginInput (ss_tx sess)) with (f (ss_tx sess)).
  pose proof (live_on_tx f srv (arrived h sess) ch e) as E1.
  change (ss_tx (arrived h sess)) with (ss_tx sess) in E1.
  destruct (f (ss_tx sess)) as [[err|] tx] eqn:Ef2; cbn [fst snd] in E1.
  - by rewrite (check_err _ _ _ _ _ _ E1).
  - rewrite (check_ok _ _ _ _ _ E1).
    pose proof (live_on_dev ctx (fun d c => dev_Write d c payload fin) srv
      (ss_set_tx tx (arrived h sess)) ch e) as E2. cbv zeta beta in E2.
    destruct (dev_Write _ _ payload fin) as [[err|] d] eqn:Ed; cbn [fst snd] in E2.
    + by rewrite (check_err _ _ _ _ _ _ E2).
    + by rewrite (check_ok _ _ _ _ _ E2).
Qed.

(** A program message arriving as Data messages and a DataEnd. *)
Fixpoint receive_all (ctx : Context) (msgs : list (Header * bytes))
  : M (HState S D) (list (InterruptedKind * option error)) :=
  match msgs with
  | [] => mret []
  | (h, p) :: msgs =>
      r ← Server_ReceiveData ctx h p;
      rs ← receive_all ctx msgs;
      mret (r :: rs)
  end.

(** The instrument accepts the chunks in order, the last one with [end] set. *)
Inductive device_accepts (c : bool) : D -> list bytes -> D -> Prop :=
| accepts_last d b d' : dev_Write d c b true = (None, d') -> device_accepts c d [b] d'
| accepts_more d b d1 bs d' :
    dev_Write d c b false = (None, d1) -> device_accepts c d1 bs d' ->
    device_accepts c d (b :: bs) d'.

(** The messages of a program message: all but the last are Data. *)
Inductive program_message : list (Header * bytes) -> MessageID -> Prop :=
| pm_last h b : h.(h_Type) = DataEnd -> program_message [(h, b)] (Header_MessageID h)
| pm_more h b msgs id :
    h.(h_Type) = Data -> program_message msgs id -> program_message ((h, b) :: msgs) id.

(** The transaction states in which input may start or go on. *)
Definition input_open (s : TxState) : Prop := s = TxIdle \/ s = TxReceivingInput.

Lemma begin_input t : input_open t.(tx_state) ->
  Transaction_BeginInput t = (None, MkTx TxReceivingInput t.(tx_id)).
Proof. destruct t as [s i]. simpl. by intros [-> | ->]. Qed.
Lemma complete_input t id : input_open t.(tx_state) ->
  Transaction_CompleteInput t id = (None, MkTx TxInputComplete id).
Proof. destruct t as [s i]. simpl. by intros [-> | ->]. Qed.

Definition arrive_all (msgs : list (Header * bytes)) (sess : Session) : Session :=
  fold_left (fun s m => arrived m.1 s) msgs sess.

Lemma arrived_set_tx h t s : arrived h (ss_set_tx t s) = ss_set_tx t (arrived h s).
Proof. done. Qed.
Lemma arrive_all_set_tx msgs t s :
  arrive_all msgs (ss_set_tx t s) = ss_set_tx t (arrive_all msgs s).
Proof. revert s. induction msgs as [|[h b] msgs IH]; intros s; [done |].
  exact (IH (arrived h s)).
Qed.

Lemma receive_all_ok msgs id :
  program_message msgs id -> forall ctx srv sess ch e d',
  input_open sess.(ss_tx).(tx_state) ->
  device_accepts (ctx_done e.(e_cancelled) ctx) srv.(srv_dev) msgs.*2 d' ->
  exists rs, receive_all ctx msgs (live srv sess ch e)
    = (rs, live (srv_set_dev d' srv) (ss_set_tx (MkTx TxInputComplete id) (arrive_all msgs sess)) ch e) /\
  Forall (fun r => r.2 = None) rs.
Proof.
  induction 1 as [h b Ht | h b msgs id Ht Hm IH]; intros ctx srv sess ch e d' Ho Ha; cbn [receive_all].
  - inversion Ha as [d0 b0 d1 Ew | d0 b0 d1 bs d2 Ew Ha1]; subst; [| by inversion Ha1].
    pose proof (ReceiveData_live ctx h b srv sess ch e true Ht) as E1. cbv zeta in E1.
    rewrite complete_input, Ew in E1 by done. rewrite (bind_run _ _ _ _ _ E1). eexists. split; [reflexivity |]. by constructor.
  - assert (Hd : exists d1, dev_Write (srv_dev srv) (ctx_done (e_cancelled e) ctx) b false = (None, d1)
      /\ device_accepts (ctx_done (e_cancelled e) ctx) d1 msgs.*2 d').
    { inversion Ha as [d0 b0 d1 Ew Hb | d0 b0 d1 bs d2 Ew Ha1]; subst; [| by eauto].
      destruct msgs; [by inversion Hm | done]. }
    destruct Hd as (d1 & Ew & Ha1).
    pose proof (ReceiveData_live ctx h b srv sess ch e false Ht) as E1. cbv zeta in E1.
    rewrite begin_input, Ew in E1 by done. rewrite (bind_run _ _ _ _ _ E1).
    destruct (IH ctx (srv_set_dev d1 srv)
      (ss_set_tx (MkTx TxReceivingInput sess.(ss_tx).(tx_id)) (arrived h sess)) ch e d')
      as (rs & E & Hrs); [by right | done |].
    rewrite (bind_run _ _ _ _ _ E). rewrite arrive_all_set_tx.
    eexists. split; [reflexivity | by constructor].
Qed.
End ReceiveFacts.

(** A program message reaches the instrument: its messages are received without error,
    its transaction is attributed to the last MessageID, which also becomes the last
    one received, and the RMT state is consumed. *)
Theorem program_message_delivered {S D} `{StreamModel S} `{Device D}
    msgs id ctx (srv : Server D) sess (ch : Chans S) e d' :
  program_message msgs id -> input_open sess.(ss_tx).(tx_state) ->
  sess.(ss_status).(status_started) = true ->
  device_accepts (ctx_done e.(e_cancelled) ctx) srv.(srv_dev) msgs.*2 d' ->
  exists rs sess', receive_all ctx msgs (live srv sess ch e)
      = (rs, live (srv_set_dev d' srv) sess' ch e) /\
    Forall (fun r => r.2 = None) rs /\
    sess'.(ss_tx) = MkTx TxInputComplete id /\
    RMT_Expected sess'.(ss_rmt) = false /\
    (Status_LastReceived sess'.(ss_status)).1 = id /\
    Status_ResponsePending sess'.(ss_status) = Status_ResponsePending sess.(ss_status) /\
    sess'.(ss_state) = sess.(ss_state) /\ sess'.(ss_lastTx) = sess.(ss_lastTx).
Proof.
  intros Hm Ho Hst Ha. destruct (receive_all_ok msgs id Hm ctx srv sess ch e d' Ho Ha) as (rs & E & Hrs).
  eexists rs, _. split; [exact E |]. split; [done |]. clear E Hrs Ha Ho.
  assert (Hl : forall sess, status_started (ss_status sess) = true ->
    let s' := arrive_all msgs sess in
    rmt_expected (ss_rmt s') = false /\ lastReceived (ss_status s') = id /\
    status_started (ss_status s') = true /\
    responsePending (ss_status s') = responsePending (ss_status sess) /\
    ss_state s' = ss_state sess /\ ss_lastTx s' = ss_lastTx sess).
  { clear -Hm. induction Hm as [h b Ht | h b msgs id Ht Hm IH]; intros sess Hs; simpl.
    - unfold Status_ReceivedSyncMessage. rewrite Hs. simpl. split_and!; try done.
      unfold RMT_ReceivedSyncMessage. by case_match.
    - destruct (IH (arrived h sess)) as (A & B & C & D1 & E & F).
      { unfold arrived, Status_ReceivedSyncMessage. simpl. by rewrite Hs. }
      simpl in *. split_and!; try done. rewrite D1. unfold Status_ReceivedSyncMessage. by rewrite Hs. }
  destruct (Hl sess Hst) as (A & B & C & D1 & E & F). simpl.
  unfold Status_LastReceived, RMT_Expected, Status_ResponsePending. simpl. rewrite C. simpl.
  split_and!; done.
Qed.

(** With a transaction whose input is complete, one DataEnd after the other is refused. *)
Lemma ends_refused {S D} `{StreamModel S} `{Device D} ctx msgs (srv : Server D) sess (ch : Chans S) e :
  sess.(ss_tx).(tx_state) = TxInputComplete -> Forall (fun m => m.1.(h_Type) = DataEnd) msgs ->
  exists rs sess', receive_all ctx msgs (live srv sess ch e) = (rs, live srv sess' ch e) /\
    sess'.(ss_tx) = sess.(ss_tx) /\ length rs = length msgs /\
    Forall (fun r => r.2 = Some (serr ErrInvalidTransition)) rs.
Proof.
  intros Ht Hm. revert sess Ht. induction Hm as [|[h p] msgs Hh Hm IH]; intros sess Ht; cbn [receive_all].
  { by exists [], sess. }
  pose proof (ReceiveData_live ctx h p srv sess ch e true Hh) as E1. cbv zeta in E1.
  destruct (ss_tx sess) as [st id] eqn:Etx. simpl in Ht. subst st.
  replace (Transaction_CompleteInput (MkTx TxInputComplete id) (Header_MessageID h))
    with (Some (serr ErrInvalidTransition), MkTx TxInputComplete id) in E1 by done.
  destruct (IH (ss_set_tx (MkTx TxInputComplete id) (arrived h sess)) eq_refl) as (rs & sess' & E & Htx & Hl & Hf).
  rewrite (bind_run _ _ _ _ _ E1), (bind_run _ _ _ _ _ E). eexists _, sess'. split; [reflexivity |].
  split_and!; [done | by simpl; f_equal | by constructor].
Qed.

(** C35: After a failed write whole program messages are refused. If the instrument
    fails to accept a DataEnd, its error is returned, and any number of DataEnd
    messages that follow are each refused with ErrInvalidTransition, without reaching
    the instrument and without changing the server or the transaction. A Data message
    that the instrument accepts afterwards opens the input again, so a program message
    in several pieces gets through. *)
Theorem failed_write_refuses_whole_messages {S D} `{StreamModel S} `{Device D}
    ctx (srv : Server D) sess (ch : Chans S) e h p err d' msgs :
  h.(h_Type) = DataEnd -> input_open sess.(ss_tx).(tx_state) ->
  dev_Write srv.(srv_dev) (ctx_done e.(e_cancelled) ctx) p true = (Some err, d') ->
  Forall (fun m => m.1.(h_Type) = DataEnd) msgs ->
  let failed := Server_ReceiveData ctx h p (live srv sess ch e) in
  let later := receive_all ctx msgs failed.2 in
  failed.1.2 = Some err /\
  length later.1 = length msgs /\ Forall (fun r => r.2 = Some (serr ErrInvalidTransition)) later.1 /\
  later.2.(hs_srv) = failed.2.(hs_srv) /\ later.2.(hs_sess).(ss_tx) = failed.2.(hs_sess).(ss_tx) /\
  (forall h2 p2 d2, h2.(h_Type) = Data ->
     dev_Write d' (ctx_done e.(e_cancelled) ctx) p2 false = (None, d2) ->
     let reopened := Server_ReceiveData ctx h2 p2 later.2 in
     reopened.1.2 = None /\ reopened.2.(hs_srv).(srv_dev) = d2 /\
     input_open reopened.2.(hs_sess).(ss_tx).(tx_state)).
Proof.
  intros Ht Ho Ew Hm. pose proof (ReceiveData_live ctx h p srv sess ch e true Ht) as E1. cbv zeta in E1.
  rewrite complete_input, Ew in E1 by done. cbv zeta. rewrite E1. cbn [fst snd].
  set (sess1 := ss_set_tx (MkTx TxInputComplete (Header_MessageID h)) (arrived h sess)).
  destruct (ends_refused ctx msgs (srv_set_dev d' srv) sess1 ch e eq_refl Hm) as (rs & sess2 & E & Htx & Hl & Hf).
  rewrite E. cbn [fst snd]. split_and!; try done.
  intros h2 p2 d2 Hh2 Ew2. pose proof (ReceiveData_live ctx h2 p2 (srv_set_dev d' srv) sess2 ch e false Hh2) as E2.
  cbv zeta in E2. rewrite Htx in E2. cbn [sess1 ss_tx ss_set_tx] in E2.
  replace (Transaction_BeginInput (MkTx TxInputComplete (Header_MessageID h)))
    with (@None error, MkTx TxReceivingInput (Header_MessageID h)) in E2 by done.
  cbn [srv_dev srv_set_dev] in E2. rewrite Ew2 in E2. rewrite E2. split_and!; [done | done | by right].
Qed.

(** ** Concrete runs *)

Definition demo_chans : Chans Canned :=
  MkChans (NewMessageWriter ChannelSynchronous) (NewCanned [])
    (NewMessageWriter ChannelAsynchronous) (NewCanned []).
Lemma demo_chans_up : chans_up demo_chans.
Proof. by split. Qed.

Definition demo_env : Env := MkEnv ∅ 1 false.

(** A paired session, and one that has just completed a query. *)
Definition demo_session : Session :=
  ss_set_policy (Some (PolicySCPI NewSCPIQueryPolicy))
    (ss_set_pending true (ss_set_state StateReady (ss_set_streams true true
      (newSession 1 Version10 (demo_config 1))))).
Definition asked_session : Session := ss_set_tx (MkTx TxInputComplete 0xffffff00) demo_session.

(** Eleven bytes read four at a time. *)
Definition demo_response : Response := MkResponse true true 0xffffff00 4 (Some id).
Definition demo_dev : TestDevice := TestDevice_New [str "FLUKE,8846A"].
Definition demo_dev_after : TestDevice :=
  (TestDevice_Read (TestDevice_Read (TestDevice_Read demo_dev false 4).2 false 4).2 false 4).2.

Lemma SendResponse_wire_witness :
  exists ch', Server_SendResponse 3 [0%nat] demo_response (live (demo_server 1) asked_session demo_chans demo_env)
    = (Some (ResponseComplete, None),
       live (srv_set_dev demo_dev_after (demo_server 1))
         (not_pending (after_response 0xffffff00 true asked_session)) ch' demo_env) /\
  sends demo_chans ch'
    (data_messages 0xffffff00 [str "FLUK"; str "E,88"] ++ data_end 0xffffff00 (str "46A")) [].
Proof.
  assert (Hs : response_script false 4 demo_dev [str "FLUK"; str "E,88"] (Ends (str "46A")) demo_dev_after).
  { eapply script_more; [vm_compute; reflexivity |].
    eapply script_more; [vm_compute; reflexivity |].
    eapply script_ends. vm_compute. reflexivity. }
  exact (proj1 (SendResponse_wire 3 [0%nat] (demo_server 1) asked_session demo_chans demo_env
    demo_response id _ _ _ demo_chans_up eq_refl eq_refl eq_refl eq_refl
    ltac:(vm_compute; split; [reflexivity | discriminate]) Hs ltac:(reflexivity) ltac:(simpl; lia))).
Defined.

(** A query in two pieces. *)
Definition demo_program : list (Header * bytes) :=
  [(MkHeader Data 0 0xffffff00 3, str "*ID"); (MkHeader DataEnd 0 0xffffff02 2, str "N?")].

Lemma program_message_delivered_witness :
  exists rs sess', receive_all [0%nat] demo_program
      (live (demo_server 1) demo_session demo_chans demo_env)
    = (rs, live (srv_set_dev (TestDevice_Write (TestDevice_Write demo_dev false (str "*ID") false).2
                                false (str "N?") true).2 (demo_server 1)) sess' demo_chans demo_env) /\
  sess'.(ss_tx) = MkTx TxInputComplete 0xffffff02.
Proof.
  assert (Hm : program_message demo_program 0xffffff02).
  { apply pm_more; [reflexivity |]. apply (pm_last (MkHeader DataEnd 0 0xffffff02 2)). reflexivity. }
  assert (Ha : device_accepts false demo_dev demo_program.*2
    (TestDevice_Write (TestDevice_Write demo_dev false (str "*ID") false).2 false (str "N?") true).2).
  { eapply accepts_more; [vm_compute; reflexivity |]. eapply accepts_last. vm_compute. reflexivity. }
  destruct (program_message_delivered demo_program 0xffffff02 [0%nat] (demo_server 1) demo_session
    demo_chans demo_env _ Hm (or_introl eq_refl) eq_refl Ha) as (rs & sess' & E & _ & Ht & _).
  exists rs, sess'. exact (conj E Ht).
Defined.

(** An instrument whose writes fail. *)
Definition broken_dev : TestDevice :=
  MkTestDevice [] [] 0 [(OpWrite, Foreign (str "handshake timeout") [])] [] [] [] 0 false.

Lemma failed_write_refuses_whole_messages_witness :
  let h := MkHeader DataEnd 0 0xffffff00 4 in
  let failed := Server_ReceiveData [0%nat] h (str "*RST")
    (live (srv_set_dev broken_dev (demo_server 1)) demo_session demo_chans demo_env) in
  failed.1.2 = Some (Foreign (str "handshake timeout") []) /\
  Forall (fun r => r.2 = Some (serr ErrInvalidTransition))
    (receive_all [0%nat] [(h, str "*CLS"); (h, str "*RST")] failed.2).1.
Proof.
  assert (Hm : Forall (fun m : Header * bytes => m.1.(h_Type) = DataEnd)
    [(MkHeader DataEnd 0 0xffffff00 4, str "*CLS"); (MkHeader DataEnd 0 0xffffff00 4, str "*RST")])
    by (by repeat constructor).
  assert (Hw : dev_Write (srv_dev (srv_set_dev broken_dev (demo_server 1)))
      (ctx_done (e_cancelled demo_env) [0%nat]) (str "*RST") true
    = (Some (Foreign (str "handshake timeout") []), broken_dev)) by (vm_compute; reflexivity).
  destruct (failed_write_refuses_whole_messages [0%nat] (srv_set_dev broken_dev (demo_server 1))
    demo_session demo_chans demo_env (MkHeader DataEnd 0 0xffffff00 4) (str "*RST")
    (Foreign (str "handshake timeout") []) broken_dev _ eq_refl (or_introl eq_refl) Hw Hm)
    as (He & _ & Hf & _).
  exact (conj He Hf).
Defined.
