(* ===== verification/Clear.v ===== *)
(** * Device Clear

    [src/server/clear.go]: the two server halves of the Device Clear transaction
    and the rule for messages that arrive in between. *)

From S2P Require Import Prelude Errors Version Constants MessageId Stream Header Codec.
From S2P Require Import WireErrors Writer Rmt Status Transaction Policy Locks Config Device.
From S2P Require Import TestDevice Session Server Initialize Handler Data.

Section Clear.
Context {S D : Type} `{Device D}.
Local Abbreviation HM := (M (HState S D)).

(** [sess.abortOperation()] *)
Definition abortOperation : HM unit :=
  modify (fun st =>
    let (sess, cancelled) := Session_abortOperation st.(hs_sess) st.(hs_cancelled) in
    MkHState st.(hs_srv) sess st.(hs_syncS) st.(hs_asyncS) cancelled st.(hs_nextctx)
      st.(hs_queued)).

Definition Server_BeginDeviceClear : HM (Header * option error) :=
  sess ← sess_gets id;
  check (mret (Session_requireReady sess)) (fun err => mret (Header_zero, Some err)) $
  (_ ← abortOperation;
   _ ← setResponsePending false;
   check (on_tx Transaction_Clear) (fun err => mret (Header_zero, Some err)) $
   (_ ← sess_modify Session_beginClear;
    cfg ← srv_gets srv_cfg;
    mret (MkHeader AsyncDeviceClearAcknowledge (Config_featureBitmap cfg FeatureOverlapped) 0 0,
          None))).

Definition Server_CompleteDeviceClear (ctx : Context) (h : Header)
  : HM (Header * option error) :=
  if bool_decide (h.(h_Type) <> DeviceClearComplete)
  then mret (Header_zero, Some (perr ErrUnknownMessageType))
  else
    cfg ← srv_gets srv_cfg;
    let agreed := Config_featureBitmap cfg h.(h_Control) in
    let overlap := bool_decide (Z.land agreed FeatureOverlapped <> 0) in
    _ ← sess_modify (Session_completeClear overlap);
    _ ← sess_modify (fun s => ss_set_tx (Transaction_Reset s.(ss_tx)) s);
    err ← on_dev ctx dev_Clear;
    match err with
    | Some err => mret (MkHeader DeviceClearAcknowledge agreed 0 0, Some err)
    | None => mret (MkHeader DeviceClearAcknowledge agreed 0 0, None)
    end.
End Clear.

Definition DiscardDuringClear (sess : Session) (h : Header) : bool :=
  if bool_decide (Session_State sess <> StateClearing) then false
  else bool_decide (h.(h_Type) <> DeviceClearComplete).

(** ** The transaction *)

(** A session as Device Clear leaves it: as it was opened, apart from what the
    client negotiated and the policy. *)
Definition cleared (sess : Session) : Prop :=
  sess.(ss_state) = StateReady /\ sess.(ss_tx) = MkTx TxIdle NoMessageID /\
  sess.(ss_rmt) = RMT_zero /\ sess.(ss_status) = NewStatus /\
  sess.(ss_lastTx) = NoMessageID /\ sess.(ss_overlap) = false /\ sess.(ss_opCancel) = None.

Section ClearFacts.
Context {S D : Type} `{StreamModel S} `{Device D}.
Implicit Types (srv : Server D) (ch : Chans S).

Lemma BeginDeviceClear_live srv sess ch e :
  srv.(srv_cfg).(cfg_SupportsOverlap) = false ->
  sess.(ss_state) = StateReady -> sess.(ss_tx).(tx_state) <> TxClearing ->
  exists sess' e',
  Server_BeginDeviceClear (live srv sess ch e)
    = ((MkHeader AsyncDeviceClearAcknowledge 0 0 0, None), live srv sess' ch e') /\
  sess'.(ss_state) = StateClearing /\ sess'.(ss_tx) = MkTx TxClearing sess.(ss_tx).(tx_id) /\
  sess'.(ss_opCancel) = None /\ Status_ResponsePending sess'.(ss_status) = false /\
  e.(e_cancelled) ⊆ e'.(e_cancelled) /\
  (forall c, sess.(ss_opCancel) = Some c -> c ∈ e'.(e_cancelled)) /\
  e'.(e_nextctx) = e.(e_nextctx) /\ e'.(e_queued) = e.(e_queued) /\
  sess'.(ss_policy) = sess.(ss_policy) /\ sess'.(ss_id) = sess.(ss_id).
Proof.
  intros Hov Hst Htx. unfold Server_BeginDeviceClear.
  rewrite (bind_run _ _ _ (hs_sess (live srv sess ch e)) (live srv sess ch e)) by reflexivity.
  rewrite (check_ok _ _ _ _ (live srv sess ch e))
    by (unfold mret, M_ret, Session_requireReady, Session_State; simpl; by rewrite Hst).
  set (can := match sess.(ss_opCancel) with Some c => {[c]} ∪ e.(e_cancelled) | None => e.(e_cancelled) end).
  set (e1 := MkEnv can e.(e_nextctx) e.(e_queued)).
  set (s1 := not_pending (ss_set_opCancel None sess)).
  rewrite (bind_run _ _ _ tt (live srv (ss_set_opCancel None sess) ch e1)).
  2: { unfold abortOperation, modify, Session_abortOperation. simpl. subst e1 can.
       by destruct (ss_opCancel sess). }
  rewrite (bind_run _ _ _ tt (live srv s1 ch e1)) by reflexivity.
  set (s2 := ss_set_tx (MkTx TxClearing sess.(ss_tx).(tx_id)) s1).
  assert (Ex : on_tx Transaction_Clear (live srv s1 ch e1) = (None, live srv s2 ch e1)).
  { rewrite live_on_tx. subst s2. change (ss_tx s1) with (ss_tx sess). destruct (ss_tx sess) as [t i].
    simpl in Htx. by destruct t. }
  rewrite (check_ok _ _ _ _ _ Ex).
  rewrite (bind_run _ _ _ tt (live srv (ss_set_state StateClearing s2) ch e1)).
  2: { unfold sess_modify, modify, Session_beginClear. simpl. rewrite Hst. done. }
  exists (ss_set_state StateClearing s2), e1. split.
  - unfold mbind, M_bind, srv_gets, gets, Config_featureBitmap. simpl. by rewrite Hov.
  - clear Ex. split_and!; try reflexivity; clear; subst e1 can; simpl;
      destruct (ss_opCancel sess); [set_solver | done | set_solver | done].
Qed.

(** The reset of the transaction and the instrument's own clear. *)
Lemma clear_instrument_live ctx agreed srv sess ch e :
  (_ ← sess_modify (fun s => ss_set_tx (Transaction_Reset s.(ss_tx)) s);
   err ← on_dev ctx dev_Clear;
   match err with
   | Some err => mret (MkHeader DeviceClearAcknowledge agreed 0 0, Some err)
   | None => mret (MkHeader DeviceClearAcknowledge agreed 0 0, None)
   end) (live srv sess ch e)
  = (let (err, d) := dev_Clear srv.(srv_dev) (ctx_done e.(e_cancelled) ctx) in
     ((MkHeader DeviceClearAcknowledge agreed 0 0, err),
      live (srv_set_dev d srv) (ss_set_tx (Transaction_Reset sess.(ss_tx)) sess) ch e)).
Proof.
  set (s2 := ss_set_tx (Transaction_Reset sess.(ss_tx)) sess).
  rewrite (bind_run _ _ _ tt (live srv s2 ch e)) by reflexivity.
  rewrite (bind_run _ _ _ _ _ (live_on_dev ctx dev_Clear srv s2 ch e)).
  by destruct (dev_Clear _ _) as [[err|] d].
Qed.

Lemma CompleteDeviceClear_live ctx h srv sess ch e :
  srv.(srv_cfg).(cfg_SupportsOverlap) = false -> h.(h_Type) = DeviceClearComplete ->
  sess.(ss_state) = StateClearing -> sess.(ss_opCancel) = None ->
  exists sess',
  Server_CompleteDeviceClear ctx h (live srv sess ch e)
    = (let (err, d) := dev_Clear srv.(srv_dev) (ctx_done e.(e_cancelled) ctx) in
       ((MkHeader DeviceClearAcknowledge 0 0 0, err), live (srv_set_dev d srv) sess' ch e)) /\
  cleared sess' /\ sess'.(ss_policy) = sess.(ss_policy) /\ sess'.(ss_id) = sess.(ss_id).
Proof.
  intros Hov Ht Hst Hop. unfold Server_CompleteDeviceClear. rewrite Ht.
  rewrite bool_decide_eq_false_2 by auto.
  rewrite (bind_run _ _ _ (srv_cfg srv) (live srv sess ch e)) by reflexivity.
  unfold Config_featureBitmap. rewrite Hov. cbn [andb]. change (Z.land 0 FeatureOverlapped) with 0.
  change (bool_decide (0 <> 0)) with false.
  set (s1 := Session_completeClear false sess).
  rewrite (bind_run _ _ _ tt (live srv s1 ch e)).
  2: { unfold sess_modify, modify. subst s1. unfold Session_completeClear. simpl. by rewrite Hst. }
  rewrite clear_instrument_live.
  exists (ss_set_tx (Transaction_Reset s1.(ss_tx)) s1). split; [done |].
  subst s1. unfold cleared, Session_completeClear. simpl. by rewrite Hst.
Qed.
End ClearFacts.

(** C3: A Device Clear transaction works from every ready session whose transaction is
    not already clearing. The first half cancels the operation in progress and
    acknowledges; until DeviceClearComplete every other synchronous message is to be
    discarded. The second half calls the instrument's Clear, acknowledges, and whether
    or not the instrument fails leaves the session as it was opened (ready, idle, no
    MessageID delivered or received, no response pending, synchronized mode), keeping
    its ID. *)
Theorem device_clear_resets {S D} `{StreamModel S} `{Device D}
    ctx (srv : Server D) sess (ch : Chans S) e h :
  srv.(srv_cfg).(cfg_SupportsOverlap) = false ->
  sess.(ss_state) = StateReady -> sess.(ss_tx).(tx_state) <> TxClearing ->
  h.(h_Type) = DeviceClearComplete ->
  exists mid e1,
  Server_BeginDeviceClear (live srv sess ch e)
    = ((MkHeader AsyncDeviceClearAcknowledge 0 0 0, None), live srv mid ch e1) /\
  (forall c parent, sess.(ss_opCancel) = Some c -> ctx_done e1.(e_cancelled) (c :: parent) = true) /\
  (forall m, DiscardDuringClear mid m = bool_decide (m.(h_Type) <> DeviceClearComplete)) /\
  exists sess' err d,
  Server_CompleteDeviceClear ctx h (live srv mid ch e1)
    = ((MkHeader DeviceClearAcknowledge 0 0 0, err), live (srv_set_dev d srv) sess' ch e1) /\
  dev_Clear srv.(srv_dev) (ctx_done e1.(e_cancelled) ctx) = (err, d) /\
  cleared sess' /\ sess'.(ss_id) = sess.(ss_id) /\
  (forall m, DiscardDuringClear sess' m = false).
Proof.
  intros Hov Hst Htx Ht.
  destruct (BeginDeviceClear_live srv sess ch e Hov Hst Htx)
    as (mid & e1 & E1 & Hm & _ & Hop & _ & _ & Hcan & _ & _ & _ & Hid).
  exists mid, e1. split; [done |]. split.
  { intros c parent Hc. apply (ctx_done_In _ _ c); [by left | auto]. }
  split.
  { intros m. unfold DiscardDuringClear, Session_State. rewrite Hm. done. }
  destruct (CompleteDeviceClear_live ctx h srv mid ch e1 Hov Ht Hm Hop) as (sess' & E2 & Hcl & _ & Hid2).
  destruct (dev_Clear (srv_dev srv) _) as [err d] eqn:Ed. exists sess', err, d.
  split_and!; [done | done | done | congruence |].
  intros m. unfold DiscardDuringClear, Session_State. by rewrite (proj1 Hcl).
Qed.

(** A clear while a response is being read under context 5. *)
Lemma device_clear_resets_witness :
  let sess := ss_set_opCancel (Some 5%nat) asked_session in
  exists mid e1,
  Server_BeginDeviceClear (live (demo_server 1) sess demo_chans demo_env)
    = ((MkHeader AsyncDeviceClearAcknowledge 0 0 0, None), live (demo_server 1) mid demo_chans e1) /\
  (forall c parent, sess.(ss_opCancel) = Some c -> ctx_done e1.(e_cancelled) (c :: parent) = true).
Proof.
  intros sess.
  destruct (device_clear_resets [0%nat] (demo_server 1) sess demo_chans demo_env
    (MkHeader DeviceClearComplete 1 0 0) eq_refl eq_refl ltac:(discriminate) eq_refl)
    as (mid & e1 & E & Hc & _).
  exists mid, e1. exact (conj E Hc).
Defined.

(** Device Clear keeps what the policy has seen of an unfinished program
    message. *)
Theorem device_clear_keeps_the_policy {S D} `{StreamModel S} `{Device D}
    ctx (srv : Server D) sess (ch : Chans S) e h :
  srv.(srv_cfg).(cfg_SupportsOverlap) = false ->
  sess.(ss_state) = StateReady -> sess.(ss_tx).(tx_state) <> TxClearing ->
  h.(h_Type) = DeviceClearComplete ->
  exists mid e1 sess' err d ack,
  Server_BeginDeviceClear (live srv sess ch e) = ((ack, None), live srv mid ch e1) /\
  Server_CompleteDeviceClear ctx h (live srv mid ch e1)
    = ((MkHeader DeviceClearAcknowledge 0 0 0, err), live (srv_set_dev d srv) sess' ch e1) /\
  sess'.(ss_policy) = sess.(ss_policy).
Proof.
  intros Hov Hst Htx Ht.
  destruct (BeginDeviceClear_live srv sess ch e Hov Hst Htx)
    as (mid & e1 & E1 & Hm & _ & Hop & _ & _ & _ & _ & _ & Hpol & _).
  destruct (CompleteDeviceClear_live ctx h srv mid ch e1 Hov Ht Hm Hop) as (sess' & E2 & _ & Hp2 & _).
  destruct (dev_Clear (srv_dev srv) _) as [err d].
  exists mid, e1, sess', err, d, (MkHeader AsyncDeviceClearAcknowledge 0 0 0).
  split_and!; [done | done | congruence].
Qed.
