(* ===== verification/Async.v ===== *)
(** * The asynchronous channel's operations

    [src/server/async.go]: status queries, service requests, remote/local
    control, and the lock transactions. *)

From S2P Require Import Prelude Errors Version Constants MessageId Stream Header Codec.
From S2P Require Import WireErrors Writer Rmt Status Transaction Policy Locks LockWait Config.
From S2P Require Import Device TestDevice Session Server Initialize Handler Data.

Definition lockRelease : Z := 0.
Definition lockRequest : Z := 1.

(** [time.Millisecond], in nanoseconds. *)
Definition Millisecond : Z := 1000000.

Section Async.
Context {S D : Type} `{Device D}.
Local Abbreviation HM := (M (HState S D)).

Definition Server_StatusQuery (ctx : Context) (h : Header) : HM (Header * option error) :=
  if bool_decide (h.(h_Type) <> AsyncStatusQuery)
  then mret (Header_zero, Some (perr ErrUnknownMessageType))
  else
    sess ← sess_gets id;
    check (mret (Session_requireReady sess)) (fun err => mret (Header_zero, Some err)) $
    (let rmtDelivered := Header_RMTDelivered h in
     _ ← sess_modify (fun s => ss_set_rmt (RMT_ReceivedStatusQuery s.(ss_rmt) rmtDelivered) s);
     '(device, err) ← on_dev ctx dev_ReadStatusByte;
     match err with
     | Some err => mret (Header_zero, Some err)
     | None =>
         status ← sess_gets ss_status;
         let (stb, status) := Status_Byte status device (Header_MessageID h) rmtDelivered in
         let (taken, status) := Status_TakeServiceRequest status in
         _ ← sess_modify (ss_set_status status);
         let stb := if taken : bool then Z.lor stb StatusRQS else stb in
         mret (MkHeader AsyncStatusResponse stb 0 0, None)
     end).

Definition Server_ServiceRequest (status : Z) : HM (Header * bool) :=
  sess ← sess_gets id;
  if negb (Session_Ready sess) then mret (Header_zero, false)
  else
    let (latched, st) := Status_LatchServiceRequest sess.(ss_status) status in
    _ ← sess_modify (ss_set_status st);
    if negb latched then mret (Header_zero, false)
    else mret (MkHeader AsyncServiceRequest status 0 0, true).

Definition Server_RemoteLocal (ctx : Context) (h : Header) : HM (Header * option error) :=
  if bool_decide (h.(h_Type) <> AsyncRemoteLocalControl)
  then mret (Header_zero, Some (perr ErrUnknownMessageType))
  else
    sess ← sess_gets id;
    check (mret (Session_requireReady sess)) (fun err => mret (Header_zero, Some err)) $
    (let mode := h.(h_Control) in
     if negb (RemoteLocalMode_Valid mode)
     then mret (Header_zero, Some (serr ErrUnrecognizedControlCode))
     else
       check (on_dev ctx (fun d c => dev_RemoteLocal d c mode))
         (fun err => mret (Header_zero, Some err)) $
       mret (MkHeader AsyncRemoteLocalResponse 0 0 0, None)).

(** [env] is what happens around a waiting request; [None] is a call that is
    still waiting when it ends. *)
Definition Server_Lock (env : list (list lock_op * wait_choice)) (h : Header)
    (lockString : bytes) : HM (option (Header * option error)) :=
  if bool_decide (h.(h_Type) <> AsyncLock)
  then mret (Some (Header_zero, Some (perr ErrUnknownMessageType)))
  else
    sess ← sess_gets id;
    check (mret (Session_requireReady sess)) (fun err => mret (Some (Header_zero, Some err))) $
    (locks ← srv_gets srv_locks;
     if bool_decide (h.(h_Control) = lockRequest) then
       let timeout := h.(h_Parameter) * Millisecond in
       let (result, locks) :=
         LockManager_Request env locks (Session_ID sess) lockString timeout in
       _ ← srv_modify (srv_set_locks locks);
       match result with
       | None => mret None
       | Some result =>
           mret (Some (MkHeader AsyncLockResponse (LockResult_code result) 0 0, None))
       end
     else if bool_decide (h.(h_Control) = lockRelease) then
       let (result, locks) := Release locks (Session_ID sess) in
       _ ← srv_modify (srv_set_locks locks);
       mret (Some (MkHeader AsyncLockResponse (LockResult_code result) 0 0, None))
     else mret (Some (Header_zero, Some (serr ErrUnrecognizedControlCode)))).

Definition Server_LockInfo (h : Header) : HM (Header * option error) :=
  if bool_decide (h.(h_Type) <> AsyncLockInfo)
  then mret (Header_zero, Some (perr ErrUnknownMessageType))
  else
    sess ← sess_gets id;
    check (mret (Session_requireReady sess)) (fun err => mret (Header_zero, Some err)) $
    (locks ← srv_gets srv_locks;
     let (exclusive, holders) := Info locks in
     let control := if exclusive : bool then 1 else 0 in
     mret (MkHeader AsyncLockInfoResponse control (uint32 (Z.of_nat holders)) 0, None)).
End Async.

Section AsyncFacts.
Context {S D : Type} `{StreamModel S} `{Device D}.
Implicit Types (srv : Server D) (ch : Chans S).

Lemma StatusQuery_live ctx h srv sess ch e :
  h.(h_Type) = AsyncStatusQuery -> Session_requireReady sess = None ->
  sess.(ss_status).(status_started) = true ->
  let del := Header_RMTDelivered h in
  let s1 := ss_set_rmt (RMT_ReceivedStatusQuery sess.(ss_rmt) del) sess in
  let st := sess.(ss_status) in
  Server_StatusQuery ctx h (live srv sess ch e)
  = match dev_ReadStatusByte srv.(srv_dev) (ctx_done e.(e_cancelled) ctx) with
    | (_, Some err, d) => ((Header_zero, Some err), live (srv_set_dev d srv) s1 ch e)
    | (b, None, d) =>
        let stb := (Status_Byte st b (Header_MessageID h) del).1 in
        ((MkHeader AsyncStatusResponse (if st.(srqLatched) then Z.lor stb StatusRQS else stb) 0 0,
          None),
         live (srv_set_dev d srv) (ss_set_status (Status_TakeServiceRequest st).2 s1) ch e)
    end.
Proof.
  intros Ht Hr Hst del s1 st. unfold Server_StatusQuery. rewrite Ht.
  rewrite bool_decide_eq_false_2 by auto.
  rewrite (bind_run _ _ _ (hs_sess (live srv sess ch e)) (live srv sess ch e)) by reflexivity.
  rewrite (check_ok _ _ _ _ (live srv sess ch e)).
  2: { unfold mret, M_ret. by rewrite <- Hr. }
  fold del. rewrite (bind_run _ _ _ tt (live srv s1 ch e)) by reflexivity.
  rewrite (bind_run _ _ _ _ _ (live_on_dev ctx dev_ReadStatusByte srv s1 ch e)).
  destruct (dev_ReadStatusByte _ _) as [[b [err|]] d]; [done |]. cbn [fst snd].
  rewrite (bind_run _ _ _ st (live (srv_set_dev d srv) s1 ch e)) by reflexivity.
  assert (Es : (Status_Byte st b (Header_MessageID h) del).2 = st).
  { unfold Status_Byte. rewrite Status_MAV_started by done. by case_match. }
  destruct (Status_Byte st b (Header_MessageID h) del) as [stb st'] eqn:Eb. simpl in Es. subst st'.
  done.
Qed.
End AsyncFacts.

(** C21: The status byte of an AsyncStatusQuery. Bit 4 (MAV) is set exactly if a
    response is pending, the query names the last message received, and the client has
    not just read a response; bit 6 also reports an outstanding service request, which
    is consumed; every other bit is the instrument's. The query takes a delivered
    response off the RMT state and leaves the transaction alone; an instrument failure
    is reported and consumes no service request. *)
Theorem StatusQuery_reports {S D} `{StreamModel S} `{Device D}
    ctx h (srv : Server D) sess (ch : Chans S) e :
  h.(h_Type) = AsyncStatusQuery -> Session_requireReady sess = None ->
  sess.(ss_status).(status_started) = true ->
  let st := sess.(ss_status) in
  match Server_StatusQuery ctx h (live srv sess ch e) with
  | (resp, None, st') =>
      let b := (dev_ReadStatusByte srv.(srv_dev) (ctx_done e.(e_cancelled) ctx)).1.1 in
      resp.(h_Type) = AsyncStatusResponse /\ is_u8 resp.(h_Control) /\
      (Z.testbit resp.(h_Control) 4 = true <->
         Header_MessageID h = st.(lastReceived) /\ Header_RMTDelivered h = false /\
         st.(responsePending) = true) /\
      Z.testbit resp.(h_Control) 6 = Z.testbit b 6 || Status_ServiceRequestOutstanding st /\
      (forall i, 0 <= i -> i <> 4 -> i <> 6 -> Z.testbit resp.(h_Control) i = Z.testbit b i) /\
      Status_ServiceRequestOutstanding st'.(hs_sess).(ss_status) = false /\
      RMT_Expected st'.(hs_sess).(ss_rmt)
        = RMT_Expected sess.(ss_rmt) && negb (Header_RMTDelivered h) /\
      st'.(hs_sess).(ss_tx) = sess.(ss_tx)
  | (resp, Some err, st') =>
      (dev_ReadStatusByte srv.(srv_dev) (ctx_done e.(e_cancelled) ctx)).1.2 = Some err /\
      st'.(hs_sess).(ss_status) = st
  end.
Proof.
  intros Ht Hr Hst st. rewrite StatusQuery_live by done.
  pose proof (dev_Status_byte srv.(srv_dev) (ctx_done e.(e_cancelled) ctx)) as Hb.
  destruct (dev_ReadStatusByte _ _) as [[b [err|]] d]; cbn [fst snd] in *; [done |].
  fold st. destruct (Status_Byte_bits st b (Header_MessageID h) (Header_RMTDelivered h) Hst Hb)
    as (Hu & Hbits & H4 & _).
  set (stb := (Status_Byte st b (Header_MessageID h) (Header_RMTDelivered h)).1) in *.
  assert (Hbit : forall i, 0 <= i ->
    Z.testbit (if srqLatched st then Z.lor stb StatusRQS else stb) i
      = Z.testbit stb i || (srqLatched st && bool_decide (i = 6))).
  { intros i Hi. destruct (srqLatched st); [| by rewrite orb_false_r]. rewrite Z.lor_spec.
    f_equal. change StatusRQS with (2 ^ 6). rewrite Z.pow2_bits_eqb by lia.
    destruct (Z.eqb_spec 6 i); case_bool_decide; lia || done. }
  cbn [h_Type h_Control hs_sess live ss_status ss_rmt ss_tx]. split_and!; try done.
  - destruct (srqLatched st); [| done]. apply u8_of_bits.
    + apply Z.lor_nonneg. destruct Hu. unfold StatusRQS. lia.
    + intros i Hi. rewrite Hbit by lia. rewrite (testbit_above 8) by (done || lia). simpl.
      apply bool_decide_eq_false_2. lia.
  - rewrite Hbit by lia. simpl. rewrite andb_false_r, orb_false_r. done.
  - rewrite Hbit by lia. rewrite (Hbits 6) by lia. simpl. by rewrite andb_true_r.
  - intros i Hi H1i H2i. rewrite Hbit by done. rewrite (Hbits i), (bool_decide_eq_false_2 (i = 6)) by done.
    by rewrite andb_false_r, orb_false_r.
  - simpl. unfold RMT_ReceivedStatusQuery, RMT_Expected. destruct (Header_RMTDelivered h); simpl;
      by rewrite ?andb_true_r, ?andb_false_r.
Qed.

Lemma StatusQuery_reports_witness :
  let sess := ss_set_status (Status_SetResponsePending
    (Status_ReceivedSyncMessage NewStatus 0xffffff00) true) demo_session in
  match Server_StatusQuery [0%nat] (MkHeader AsyncStatusQuery 0 0xffffff00 0)
          (live (demo_server 1) sess demo_chans demo_env) with
  | (resp, None, _) => resp.(h_Type) = AsyncStatusResponse /\ is_u8 resp.(h_Control)
  | (_, Some _, _) => False
  end.
Proof.
  intros sess.
  pose proof (StatusQuery_reports [0%nat] (MkHeader AsyncStatusQuery 0 0xffffff00 0) (demo_server 1)
    sess demo_chans demo_env eq_refl eq_refl eq_refl) as H.
  assert (E : exists resp st', Server_StatusQuery [0%nat] (MkHeader AsyncStatusQuery 0 0xffffff00 0)
    (live (demo_server 1) sess demo_chans demo_env) = (resp, None, st')) by (vm_compute; eauto).
  destruct E as (resp & st' & E). cbv zeta in H. rewrite E in H |- *.
  exact (conj (proj1 H) (proj1 (proj2 H))).
Defined.

(** C20: The AsyncLock transaction answers as the lock table does. For a request with
    no timeout, or with any timeout if the first attempt is not a failure, and for a
    release of any kind (by a holder or not, whatever its MessageID and whoever else
    holds a lock), the response carries the code of the abstract table's answer and
    the manager's new state abstracts to the table's new state; any other control code
    is refused and changes nothing. Requests that wait are the subject of the
    lock-waiting system. *)
Theorem Lock_transaction {S D} `{StreamModel S} `{Device D}
    env h lockString (srv : Server D) sess (ch : Chans S) e :
  h.(h_Type) = AsyncLock -> Session_requireReady sess = None -> lock_inv srv.(srv_locks) ->
  (h.(h_Control) = lockRequest ->
   h.(h_Parameter) = 0 \/ (TryRequest srv.(srv_locks) sess.(ss_id) lockString).1 <> LockFailure) ->
  exists resp err locks,
  Server_Lock (([], ChRun) :: env) h lockString (live srv sess ch e)
    = (Some (resp, err), live (srv_set_locks locks srv) sess ch e) /\
  lock_inv locks /\
  (h.(h_Control) = lockRequest -> exists r,
     err = None /\ resp = MkHeader AsyncLockResponse (LockResult_code r) 0 0 /\
     table_request (lock_abs srv.(srv_locks)) sess.(ss_id) lockString = (r, lock_abs locks)) /\
  (h.(h_Control) = lockRelease -> exists r,
     err = None /\ resp = MkHeader AsyncLockResponse (LockResult_code r) 0 0 /\
     table_release (lock_abs srv.(srv_locks)) sess.(ss_id) = (r, lock_abs locks)) /\
  (h.(h_Control) <> lockRequest -> h.(h_Control) <> lockRelease ->
     err = Some (serr ErrUnrecognizedControlCode) /\ locks = srv.(srv_locks)).
Proof.
  intros Ht Hr Hl Hi. unfold Server_Lock. rewrite Ht.
  rewrite bool_decide_eq_false_2 by auto.
  rewrite (bind_run _ _ _ (hs_sess (live srv sess ch e)) (live srv sess ch e)) by reflexivity.
  rewrite (check_ok _ _ _ _ (live srv sess ch e))
    by (unfold mret, M_ret; by rewrite <- Hr).
  rewrite (bind_run _ _ _ (srv_locks srv) (live srv sess ch e)) by reflexivity.
  change (Session_ID (hs_sess (live srv sess ch e))) with (ss_id sess).
  destruct (decide (h.(h_Control) = lockRequest)) as [Hc | Hc].
  - rewrite (bool_decide_eq_true_2 _ Hc).
    rewrite Request_immediate by (destruct (Hi Hc) as [-> |]; [left; unfold Millisecond; lia | by right]).
    pose proof (TryRequest_refines (srv_locks srv) (ss_id sess) lockString Hl) as Href.
    pose proof (TryRequest_inv (srv_locks srv) (ss_id sess) lockString Hl) as Hinv.
    destruct (TryRequest _ _ _) as [r l']. cbn [fst snd] in *.
    eexists _, _, l'. split; [reflexivity |]. split; [done |]. rewrite Hc.
    split_and!; [by eauto | done | done].
  - rewrite (bool_decide_eq_false_2 _ Hc).
    destruct (decide (h.(h_Control) = lockRelease)) as [Hc2 | Hc2].
    + rewrite (bool_decide_eq_true_2 _ Hc2).
      pose proof (Release_refines (srv_locks srv) (ss_id sess) Hl) as Href.
      pose proof (Release_inv (srv_locks srv) (ss_id sess) Hl) as Hinv.
      destruct (Release _ _) as [r l']. cbn [fst snd] in *.
      eexists _, _, l'. split; [reflexivity |]. split; [done |].
      split_and!; [done | by eauto | done].
    + rewrite (bool_decide_eq_false_2 _ Hc2).
      eexists _, _, srv.(srv_locks). split; [by destruct srv |]. by split_and!.
Qed.

Lemma Lock_transaction_witness :
  exists resp err locks,
  Server_Lock [([], ChRun)] (MkHeader AsyncLock 1 0 0) [] (live (demo_server 1) demo_session demo_chans demo_env)
    = (Some (resp, err), live (srv_set_locks locks (demo_server 1)) demo_session demo_chans demo_env) /\
  lock_inv locks.
Proof.
  destruct (Lock_transaction [] (MkHeader AsyncLock 1 0 0) [] (demo_server 1) demo_session demo_chans
    demo_env eq_refl eq_refl lock_inv_zero (fun _ => or_introl eq_refl)) as (resp & err & locks & E & Hi & _).
  exists resp, err, locks. exact (conj E Hi).
Defined.
