(* ===== verification/Reader.v ===== *)
(** * The channel reader

    [src/server/reader.go]: reading one message into a buffer, and the
    read-ahead loop that hands buffers between the reading goroutine and the
    consumer. *)

From S2P Require Import Prelude Errors Version Constants MessageId Stream Header Codec.

Definition readAheadSlots : nat := 2.

(** [payload] is the slice of the buffer at the time the message was read;
    [msg_buf] is the identity of the buffer. *)
Record message : Type := MkMessage {
  msg_header : Header;
  msg_payload : bytes;
  msg_buf : nat;
  msg_err : option error;
}.

Definition max64 (a b : Z) : Z := if bool_decide (b < a) then a else b.

Section ReadOne.
Context {S : Type} `{Stream S}.

(** [readOne(buf)]: the message, the buffer as it is left, and the stream. *)
Definition readOne (s : S) (id : nat) (buf : bytes) : message * bytes * S :=
  match ReadHeader s with
  | (_, Some err, s) => (MkMessage Header_zero [] id (Some err), buf, s)
  | (h, None, s) =>
      if bool_decide (len buf < h.(h_Length)) then
        match DiscardPayload s h.(h_Length) buf with
        | (Some derr, buf, s) => (MkMessage h [] id (Some derr), buf, s)
        | (None, buf, s) => (MkMessage h [] id (Some (perr ErrMessageTooLarge)), buf, s)
        end
      else
        let n := h.(h_Length) in
        let scratch := take (Z.to_nat (max64 n 1)) buf in
        match ReadPayload s n scratch None tt with
        | (err, st) =>
            let buf := overlay buf st.(pl_scratch) in
            match err with
            | Some err => (MkMessage h [] id (Some err), buf, st.(pl_stream))
            | None => (MkMessage h (take (Z.to_nat n) buf) id None, buf, st.(pl_stream))
            end
        end
  end.
End ReadOne.

Definition recoverable (err : error) : bool := bool_decide (err = perr ErrMessageTooLarge).

(** ** Staying synchronised *)

(** A message as the peer sent it. *)
Record sent_message : Type := MkSent { sm_header : Header; sm_payload : bytes }.

Definition wf_sent (m : sent_message) : Prop :=
  wf_header m.(sm_header) /\ is_u64 (len m.(sm_payload)).

Definition sent_bytes (m : sent_message) : bytes := message_bytes m.(sm_header) m.(sm_payload).

(** The header as received: its length field is the payload's length. *)
Definition received_header (m : sent_message) : Header :=
  MkHeader m.(sm_header).(h_Type) m.(sm_header).(h_Control) m.(sm_header).(h_Parameter)
    (len m.(sm_payload)).

(** What the consumer gets for a message, with buffers of [limit] bytes. *)
Definition received (limit : Z) (id : nat) (m : sent_message) : message :=
  if bool_decide (limit < len m.(sm_payload))
  then MkMessage (received_header m) [] id (Some (perr ErrMessageTooLarge))
  else MkMessage (received_header m) m.(sm_payload) id None.

Section ReadOneFacts.
Context {S : Type} `{StreamModel S}.
Implicit Types s : S.

Lemma wf_received m : wf_sent m -> wf_header (received_header m).
Proof. intros [(Ht & Hc & Hp & _) Hu]. by split_and!. Qed.

Lemma take_nonempty {A} n (l : list A) : 0 < n -> l <> [] -> take (Z.to_nat n) l <> [].
Proof.
  intros Hn Hl Heq. destruct l as [|x l]; [done |].
  destruct (Z.to_nat n) eqn:E; [lia | done].
Qed.

Lemma overlay_whole buf src n :
  (n <= length buf)%nat -> length src = n ->
  length (overlay buf src) = length buf /\ take n (overlay buf src) = src.
Proof.
  intros Hn Hs. unfold overlay. rewrite length_app, length_drop. split; [lia |].
  by rewrite <- Hs, take_app_length.
Qed.

Lemma readOne_oversized s id buf m rest :
  st_open s -> wf_sent m -> buf <> [] -> len buf < len m.(sm_payload) ->
  st_input s = sent_bytes m ++ rest -> exists buf' s',
  readOne s id buf = (received (len buf) id m, buf', s') /\ length buf' = length buf /\
  st_input s' = rest /\ st_output s' = st_output s /\ st_open s'.
Proof.
  intros Ho Hm Hb Hl Hi. unfold sent_bytes, message_bytes in Hi. rewrite <- app_assoc in Hi.
  destruct (ReadHeader_ok s (received_header m) (sm_payload m ++ rest) Ho (wf_received m Hm) Hi)
    as (s1 & E1 & Hi1 & Hout1 & Ho1).
  destruct (ReadPayload_ok (fun (c : unit) _ => (None, c)) None (len (sm_payload m)) buf tt s1)
    as (bs & sc' & s2 & E2 & _ & _ & Hlen & Hi2 & Hout2 & Ho2); [by left | done | done | |].
  { rewrite Hi1, len_app. pose proof (len_nonneg (sm_payload m)). pose proof (len_nonneg rest). lia. }
  exists sc', s2. unfold readOne, received, DiscardPayload. rewrite E1.
  change (h_Length (received_header m)) with (len (sm_payload m)).
  rewrite !bool_decide_eq_true_2 by done. rewrite E2. simpl.
  split_and!; try done; [| congruence]. rewrite Hi2, Hi1. unfold len.
  by rewrite Nat2Z.id, drop_app_length.
Qed.

Lemma readOne_fits s id buf m rest :
  st_open s -> wf_sent m -> buf <> [] -> len m.(sm_payload) <= len buf ->
  st_input s = sent_bytes m ++ rest -> exists buf' s',
  readOne s id buf = (received (len buf) id m, buf', s') /\ length buf' = length buf /\
  st_input s' = rest /\ st_output s' = st_output s /\ st_open s' /\
  take (length m.(sm_payload)) buf' = m.(sm_payload).
Proof.
  intros Ho Hm Hb Hl Hi. unfold sent_bytes, message_bytes in Hi. rewrite <- app_assoc in Hi.
  destruct (ReadHeader_ok s (received_header m) (sm_payload m ++ rest) Ho (wf_received m Hm) Hi)
    as (s1 & E1 & Hi1 & Hout1 & Ho1).
  set (n := len (sm_payload m)) in *. pose proof (len_nonneg (sm_payload m)).
  assert (Hbl : 0 < len buf).
  { pose proof (len_nonneg buf). enough (len buf <> 0) by lia. by rewrite len_nil_iff. }
  assert (Hmx : 0 < max64 n 1 <= len buf) by (unfold max64; case_bool_decide; lia).
  set (scratch := take (Z.to_nat (max64 n 1)) buf).
  assert (Hsl : len scratch = max64 n 1) by (subst scratch; unfold len in *; rewrite length_take; lia).
  destruct (ReadPayload_single (fun (c : unit) _ => (None, c)) n scratch tt s1) as (s2 & E2 & Hi2 & Hout2 & Ho2);
    [done | apply take_nonempty; [lia | done] | unfold max64 in Hsl; case_bool_decide; lia
    | rewrite Hi1, len_app; pose proof (len_nonneg rest); lia |].
  assert (Htk : take (Z.to_nat n) (st_input s1) = sm_payload m).
  { rewrite Hi1. subst n. unfold len. by rewrite Nat2Z.id, take_app_length. }
  rewrite Htk in E2.
  assert (Hov : length (overlay scratch (sm_payload m)) = Z.to_nat (max64 n 1)).
  { unfold overlay. rewrite length_app, length_drop. unfold len in *.
    unfold max64 in *. case_bool_decide; lia. }
  destruct (overlay_whole buf (overlay scratch (sm_payload m)) (Z.to_nat (max64 n 1)))
    as [Hlb Htb]; [unfold len in *; lia | done |].
  assert (Hpay : take (length (sm_payload m)) (overlay buf (overlay scratch (sm_payload m))) = sm_payload m).
  { unfold overlay at 1. rewrite take_app_le by (rewrite Hov; subst n; unfold max64, len; case_bool_decide; lia).
    unfold overlay. by rewrite take_app_length. }
  eexists _, s2. unfold readOne, received. rewrite E1.
  change (h_Length (received_header m)) with n. rewrite !bool_decide_eq_false_2 by lia.
  fold scratch. rewrite E2. cbn [pl_scratch pl_stream].
  split; [| split_and!; try done; [rewrite Hi2, Hi1; subst n; unfold len; by rewrite Nat2Z.id, drop_app_length
    | congruence]].
  subst n. unfold len at 1. by rewrite Nat2Z.id, Hpay.
Qed.

(** Reading a whole conversation with one buffer. *)
Fixpoint read_messages (k : nat) (s : S) (buf : bytes) : list message * S :=
  match k with
  | O => ([], s)
  | Datatypes.S k =>
      let '(m, buf, s) := readOne s 0 buf in
      let (ms, s) := read_messages k s buf in (m :: ms, s)
  end.
End ReadOneFacts.

(** C10: The reader stays synchronised with the peer. Whatever messages the peer
    sends, and however the transport fragments them, reading them one by one yields
    each message in order with its exact header and payload, or ErrMessageTooLarge for
    one that exceeds the buffer, and leaves the stream at the first byte after them. *)
Theorem reader_stays_synchronised {S} `{StreamModel S} (s : S) buf ms rest :
  st_open s -> Forall wf_sent ms -> buf <> [] ->
  st_input s = concat (map sent_bytes ms) ++ rest -> exists s',
  read_messages (length ms) s buf = (map (received (len buf) 0) ms, s') /\
  st_input s' = rest /\ st_output s' = st_output s /\ st_open s'.
Proof.
  revert s buf. induction ms as [|m ms IH]; intros s buf Ho Hms Hb Hi; simpl in *.
  { exists s. by split_and!. }
  apply Forall_cons in Hms as [Hm Hms]. rewrite <- app_assoc in Hi.
  assert (E : exists buf' s1, readOne s 0 buf = (received (len buf) 0 m, buf', s1) /\
    length buf' = length buf /\ st_input s1 = concat (map sent_bytes ms) ++ rest /\
    st_output s1 = st_output s /\ st_open s1).
  { destruct (Z.lt_ge_cases (len buf) (len m.(sm_payload))) as [Hl | Hl].
    - by apply readOne_oversized.
    - destruct (readOne_fits s 0 buf m _ Ho Hm Hb Hl Hi) as (b & s1 & ? & ? & ? & ? & ? & _). eauto 10. }
  destruct E as (buf' & s1 & E1 & Hlen & Hi1 & Ho1 & Hop1). rewrite E1.
  assert (Hl : len buf' = len buf) by (unfold len; by rewrite Hlen).
  destruct (IH s1 buf' Hop1 Hms) as (s2 & E2 & Hi2 & Ho2 & Hop2); [| done |].
  { rewrite <- len_nil_iff in *. by rewrite Hl. }
  rewrite E2, Hl. exists s2. split_and!; [done | done | congruence | done].
Qed.

(** The second of three messages is too large for a four-byte buffer. *)
Lemma reader_stays_synchronised_witness :
  let ms := [MkSent (MkHeader Data 0 0xffffff00 0) (str "abc");
             MkSent (MkHeader Data 0 0xffffff02 0) (str "abcdefghij");
             MkSent (MkHeader DataEnd 0 0xffffff04 0) (str "*RST")] in
  exists s', read_messages 3 (NewCanned (concat (map sent_bytes ms) ++ [7])) [0; 0; 0; 0]
    = (map (received 4 0) ms, s') /\ st_input s' = [7].
Proof.
  intros ms.
  destruct (reader_stays_synchronised (NewCanned (concat (map sent_bytes ms) ++ [7])) [0; 0; 0; 0] ms [7])
    as (s' & E & Hi & _).
  - done.
  - repeat (apply Forall_cons; split; [solve_range |]). by apply Forall_nil.
  - done.
  - reflexivity.
  - exists s'. exact (conj E Hi).
Defined.

(** ** Read-ahead

    The reading goroutine and the consumer share two buffers. A system state
    holds the two Go channels ([rs_free] with capacity two, [rs_msgs] with
    capacity one), the contents of the buffers, and where each party stands. *)

Inductive reader_phase : Type :=
| WantBuffer                    (* before the first select of run *)
| Reading (id : nat)            (* owns a buffer, about to readOne *)
| Sending (m : message)         (* before the second select *)
| Stopped.

Record reader_sys (S : Type) : Type := MkReader {
  rs_stream : S;
  rs_bufs : gmap nat bytes;
  rs_free : list nat;
  rs_msgs : list message;
  rs_closed : bool;
  rs_done : bool;
  rs_phase : reader_phase;
  rs_held : option message;
  rs_dropped : nat;
}.
Arguments MkReader {S}.
Arguments rs_stream {S}.
Arguments rs_bufs {S}.
Arguments rs_free {S}.
Arguments rs_msgs {S}.
Arguments rs_closed {S}.
Arguments rs_done {S}.
Arguments rs_phase {S}.
Arguments rs_held {S}.
Arguments rs_dropped {S}.

(** [newReader(stream, channel, limit)] *)
Definition newReader {S} (s : S) (limit : Z) : reader_sys S :=
  let buf := replicate (Z.to_nat limit) 0 in
  MkReader s {[0%nat := buf; 1%nat := buf]} [0%nat; 1%nat] [] false false WantBuffer None 0.

(** [release(buf)]: a full channel drops the buffer. *)
Definition reader_release {S} (id : nat) (r : reader_sys S) : reader_sys S :=
  if bool_decide (length r.(rs_free) < readAheadSlots)%nat
  then MkReader r.(rs_stream) r.(rs_bufs) (r.(rs_free) ++ [id]) r.(rs_msgs) r.(rs_closed)
         r.(rs_done) r.(rs_phase) r.(rs_held) r.(rs_dropped)
  else MkReader r.(rs_stream) r.(rs_bufs) r.(rs_free) r.(rs_msgs) r.(rs_closed)
         r.(rs_done) r.(rs_phase) r.(rs_held) (Datatypes.S r.(rs_dropped)).

(** [pending()] *)
Definition reader_pending {S} (r : reader_sys S) : bool := bool_decide (0 < length r.(rs_msgs))%nat.

Definition set_phase {S} (p : reader_phase) (r : reader_sys S) : reader_sys S :=
  MkReader r.(rs_stream) r.(rs_bufs) r.(rs_free) r.(rs_msgs) r.(rs_closed) r.(rs_done) p
    r.(rs_held) r.(rs_dropped).

(** The goroutine returns: [defer close(r.msgs)]. *)
Definition stop_reading {S} (r : reader_sys S) : reader_sys S :=
  MkReader r.(rs_stream) r.(rs_bufs) r.(rs_free) r.(rs_msgs) true r.(rs_done) Stopped
    r.(rs_held) r.(rs_dropped).

(** [next()] when a message is there; the consumer has released the last one. *)
Definition reader_next {S} (r : reader_sys S) : option (reader_sys S) :=
  match r.(rs_held), r.(rs_msgs) with
  | None, m :: ms =>
      Some (MkReader r.(rs_stream) r.(rs_bufs) r.(rs_free) ms r.(rs_closed) r.(rs_done)
              r.(rs_phase) (Some m) r.(rs_dropped))
  | _, _ => None
  end.

(** [stop()]: closing [done] a second time is avoided. *)
Definition reader_stop {S} (r : reader_sys S) : reader_sys S :=
  MkReader r.(rs_stream) r.(rs_bufs) r.(rs_free) r.(rs_msgs) r.(rs_closed) true
    r.(rs_phase) r.(rs_held) r.(rs_dropped).

Inductive reader_event : Type :=
| RdTake      (* case buf = <-r.free *)
| RdRead      (* msg := r.readOne(buf) *)
| RdSend      (* case r.msgs <- msg *)
| RdQuit      (* case <-r.done *)
| RdNext      (* the consumer receives from r.msgs *)
| RdRelease   (* the consumer is finished with its message *)
| RdStop.     (* the consumer calls stop *)

Definition reader_step {S} `{Stream S} (r : reader_sys S) (ev : reader_event)
  : option (reader_sys S) :=
  match ev, r.(rs_phase) with
  | RdTake, WantBuffer =>
      match r.(rs_free) with
      | [] => None
      | id :: free =>
          Some (MkReader r.(rs_stream) r.(rs_bufs) free r.(rs_msgs) r.(rs_closed) r.(rs_done)
                  (Reading id) r.(rs_held) r.(rs_dropped))
      end
  | RdRead, Reading id =>
      let '(m, buf, s) := readOne r.(rs_stream) id (default [] (r.(rs_bufs) !! id)) in
      Some (MkReader s (<[id := buf]> r.(rs_bufs)) r.(rs_free) r.(rs_msgs) r.(rs_closed)
              r.(rs_done) (Sending m) r.(rs_held) r.(rs_dropped))
  | RdSend, Sending m =>
      if bool_decide (length r.(rs_msgs) < 1)%nat then
        let r := MkReader r.(rs_stream) r.(rs_bufs) r.(rs_free) (r.(rs_msgs) ++ [m]) r.(rs_closed)
                   r.(rs_done) WantBuffer r.(rs_held) r.(rs_dropped) in
        Some match m.(msg_err) with
             | Some err => if recoverable err then r else stop_reading r
             | None => r
             end
      else None
  | RdQuit, WantBuffer | RdQuit, Sending _ =>
      if r.(rs_done) then Some (stop_reading r) else None
  | RdNext, _ => reader_next r
  | RdRelease, _ =>
      match r.(rs_held) with
      | Some m =>
          Some (reader_release m.(msg_buf)
            (MkReader r.(rs_stream) r.(rs_bufs) r.(rs_free) r.(rs_msgs) r.(rs_closed) r.(rs_done)
               r.(rs_phase) None r.(rs_dropped)))
      | None => None
      end
  | RdStop, _ => Some (reader_stop r)
  | _, _ => None
  end.

Inductive reader_run {S} `{Stream S} : reader_sys S -> list reader_event -> reader_sys S -> Prop :=
| reader_run_nil r : reader_run r [] r
| reader_run_cons r ev r' evs r'' :
    reader_step r ev = Some r' -> reader_run r' evs r'' -> reader_run r (ev :: evs) r''.

(** The messages that have been read and whose buffers are still in use. *)
Definition phase_messages (p : reader_phase) : list message :=
  match p with Sending m => [m] | _ => [] end.
Definition live_messages {S} (r : reader_sys S) : list message :=
  phase_messages r.(rs_phase) ++ r.(rs_msgs) ++ option_list r.(rs_held).

(** Who owns which buffer. *)
Definition phase_buffer (p : reader_phase) : list nat :=
  match p with Reading id => [id] | _ => [] end.
Definition owners {S} (r : reader_sys S) : list nat :=
  r.(rs_free) ++ phase_buffer r.(rs_phase) ++ map msg_buf (live_messages r).

Record reader_inv {S} (limit : Z) (r : reader_sys S) : Prop := {
  ri_owned : NoDup (owners r);
  ri_two : Forall (fun id => id < 2)%nat (owners r);
  ri_bufs : forall id, (id < 2)%nat -> exists b, r.(rs_bufs) !! id = Some b /\ len b = limit;
  ri_payload : forall m, m ∈ live_messages r -> m.(msg_err) = None ->
    exists b, r.(rs_bufs) !! m.(msg_buf) = Some b /\
      take (length m.(msg_payload)) b = m.(msg_payload);
  ri_queued : (length r.(rs_msgs) <= 1)%nat;
  ri_dropped : r.(rs_dropped) = 0%nat;
}.

(** ** Buffers keep their length on any stream *)
Section Lengths.
Context {S : Type} `{Stream S}.
Implicit Types s : S.

Lemma readfull_loop_len fuel s need acc :
  0 <= need -> len (readfull_loop fuel s need acc).1.1 <= len acc + need.
Proof.
  revert s need acc. induction fuel as [|fuel IH]; intros s need acc Hn; simpl; [lia |].
  case_bool_decide; simpl; [lia |].
  pose proof (stream_Read_len s need Hn) as Hl.
  destruct (stream_Read s need) as [[b [e|]] s']; simpl in *; rewrite ?len_app; [lia |].
  specialize (IH s' (need - len b) (acc ++ b) ltac:(lia)). rewrite len_app in IH. lia.
Qed.

Lemma io_ReadFull_len s n : 0 <= n -> len (io_ReadFull s n).1.1 <= n.
Proof.
  intros Hn. unfold io_ReadFull. pose proof (readfull_loop_len (Z.to_nat n) s n [] Hn) as Hl.
  destruct (readfull_loop _ _ _ _) as [[b e] s']. unfold len in *. simpl in *.
  repeat case_match; simpl; lia.
Qed.

Lemma ReadPayload_round_scratch (C : Type) st r :
  ReadPayload_round (S := S) (C := C) None st = r -> 0 < len st.(pl_scratch) ->
  match r with
  | inl st' => length st'.(pl_scratch) = length st.(pl_scratch)
  | inr (_, st') => length st'.(pl_scratch) = length st.(pl_scratch)
  end.
Proof.
  intros <- Hs. destruct st as [rem sc c s]. unfold ReadPayload_round. simpl in *.
  case_bool_decide as Hr; [done |].
  pose proof (io_ReadFull_len s (Z.min rem (len sc)) ltac:(lia)) as Hl.
  destruct (io_ReadFull s _) as [[b [e|]] s']; simpl in *; apply overlay_length; unfold len in *; lia.
Qed.

Lemma ReadPayload_scratch (C : Type) s n sc (c : C) :
  length (ReadPayload s n sc None c).2.(pl_scratch) = length sc.
Proof.
  unfold ReadPayload. case_bool_decide as Hz; [done |].
  assert (Hp : 0 < len sc) by (pose proof (len_nonneg sc); lia).
  rewrite loop_loop_nat.
  enough (G : forall k st, 0 < len st.(pl_scratch) ->
    match loop_nat k (ReadPayload_round (S := S) (C := C) None) st with
    | inl st' | inr (_, st') => length st'.(pl_scratch) = length st.(pl_scratch)
    end).
  { specialize (G (Pos.to_nat (Z.to_pos (n + 1))) (MkPayload n sc c s) Hp).
    by destruct (loop_nat _ _ _) as [|[]]. }
  clear. induction k as [|k IH]; intros st Hst; [done |]. cbn [loop_nat].
  pose proof (ReadPayload_round_scratch C st _ eq_refl Hst) as Hr.
  destruct (ReadPayload_round None st) as [st1 | [e st1]]; cbn [loop_bind]; [| done].
  specialize (IH st1). unfold len in *. rewrite Hr in IH. specialize (IH Hst).
  by destruct (loop_nat k _ st1) as [|[]].
Qed.

(** What any call of [readOne] guarantees about its buffer. *)
Lemma readOne_buffer s id buf m buf' s' :
  readOne s id buf = (m, buf', s') ->
  m.(msg_buf) = id /\ length buf' = length buf /\
  (m.(msg_err) = None -> take (length m.(msg_payload)) buf' = m.(msg_payload)).
Proof.
  unfold readOne. destruct (ReadHeader s) as [[h [err|]] s1]; [by intros [= <- <- <-] |].
  case_bool_decide as Hl.
  - unfold DiscardPayload. pose proof (ReadPayload_scratch unit s1 (h_Length h) buf tt) as Hsc.
    destruct (ReadPayload _ _ _ _ _) as [[err|] st]; by intros [= <- <- <-].
  - pose proof (ReadPayload_scratch unit s1 (h_Length h)
      (take (Z.to_nat (max64 (h_Length h) 1)) buf) tt) as Hsc. rewrite length_take in Hsc.
    destruct (ReadPayload _ _ _ _ _) as [[err|] st]; simpl in Hsc; intros [= <- <- <-]; simpl;
      (split; [done |]; split; [apply overlay_length; lia | intros Hn; try done]).
    rewrite length_take. symmetry. rewrite <- firstn_firstn, firstn_all. done.
Qed.
End Lengths.

Section ReaderInv.
Context {S : Type} `{Stream S}.
Implicit Types r : reader_sys S.

Lemma newReader_inv (s : S) limit : 0 <= limit -> reader_inv limit (newReader s limit).
Proof.
  intros Hl. split; simpl; try done.
  - repeat constructor; set_solver.
  - repeat constructor; lia.
  - intros id Hid. unfold len.
    destruct id as [|[|]]; [| | lia]; eexists; (split; [reflexivity |]); rewrite length_replicate; lia.
  - set_solver.
  - lia.
Qed.

(** At most two buffers have an owner. *)
Lemma owners_two r limit : reader_inv limit r -> (length (owners r) <= 2)%nat.
Proof.
  intros [Hn H2 _ _ _ _]. change 2%nat with (length (seq 0 2)). apply submseteq_length, NoDup_submseteq; [done |].
  intros x Hx. rewrite Forall_forall in H2. specialize (H2 x Hx).
  apply elem_of_seq. lia.
Qed.

(** Ownership moves: the invariant's first two clauses. *)
Lemma owners_perm (l k : list nat) :
  l ≡ₚ k -> NoDup k -> Forall (fun id => id < 2)%nat k ->
  NoDup l /\ Forall (fun id => id < 2)%nat l.
Proof. intros E Hn Hf. by rewrite E. Qed.

Lemma owners_sublist (l k : list nat) :
  l `sublist_of` k -> NoDup k -> Forall (fun id => id < 2)%nat k ->
  NoDup l /\ Forall (fun id => id < 2)%nat l.
Proof.
  intros E Hn Hf. split; [by eapply sublist_NoDup |]. rewrite Forall_forall in *.
  intros x Hx. apply Hf. by eapply elem_of_submseteq, sublist_submseteq.
Qed.

(** A step that reads nothing keeps the invariant if buffers only change
    hands. *)
Lemma reader_inv_move limit r r' :
  reader_inv limit r -> r'.(rs_bufs) = r.(rs_bufs) ->
  (owners r' ≡ₚ owners r \/ owners r' `sublist_of` owners r) ->
  (forall m, m ∈ live_messages r' -> m ∈ live_messages r) ->
  (length r'.(rs_msgs) <= 1)%nat -> r'.(rs_dropped) = 0%nat -> reader_inv limit r'.
Proof.
  intros [Hn H2 Hb Hp Hq Hd] Eb Ho Hm Hq' Hd'.
  assert (Hown : NoDup (owners r') /\ Forall (fun id => id < 2)%nat (owners r')).
  { destruct Ho as [Ho | Ho]; [by eapply owners_perm | by eapply owners_sublist]. }
  destruct Hown. split; try done; rewrite Eb; auto.
Qed.

(** Filling a buffer the reader owns. *)
Lemma reader_inv_read limit r id r' :
  reader_inv limit r -> r.(rs_phase) = Reading id -> reader_step r RdRead = Some r' ->
  reader_inv limit r'.
Proof.
  intros [Hn H2 Hb Hp Hq Hd] Hph E. destruct r as [s bufs free msgs cl dn ph held dr].
  simpl in Hph. subst ph. unfold reader_step in E. simpl in E.
  destruct (readOne s id (default [] (bufs !! id))) as [[m buf] s1] eqn:Er. simplify_eq.
  apply readOne_buffer in Er as (Hid & Hlen & Hpay).
  assert (Hid2 : (id < 2)%nat).
  { rewrite Forall_forall in H2. apply H2. unfold owners. simpl. set_solver. }
  destruct (Hb id Hid2) as (b0 & Eb0 & Hl0). simpl in Eb0. rewrite Eb0 in Hlen. simpl in Hlen.
  assert (Hne : forall m', m' ∈ msgs ++ option_list held -> msg_buf m' <> id).
  { intros m' Hm' <-. unfold owners in Hn. simpl in Hn.
    apply NoDup_app in Hn as (_ & _ & Hn). apply NoDup_cons in Hn as [Hn _].
    apply Hn. by apply list_elem_of_fmap_2. }
  unfold owners, live_messages in *. simpl in *.
  split; simpl; try done; unfold owners, live_messages; simpl; rewrite ?Hid; try done.
  - intros id' Hid'. destruct (decide (id' = id)) as [-> |].
    + exists buf. rewrite lookup_insert_eq. split; [done |]. unfold len in *. lia.
    + rewrite lookup_insert_ne by done. auto.
  - intros m' [-> | Hm']%elem_of_cons Herr.
    + exists buf. rewrite Hid, lookup_insert_eq. auto.
    + rewrite lookup_insert_ne by (apply not_eq_sym; auto). auto.
Qed.

Lemma reader_step_inv limit r ev r' :
  reader_step r ev = Some r' -> reader_inv limit r -> reader_inv limit r'.
Proof.
  intros E Hr. pose proof Hr as [Hn H2 Hb Hp Hq Hd].
  destruct r as [s bufs free msgs cl dn ph held dr]. unfold reader_step, reader_next, reader_stop in E.
  simpl in E. destruct ev; simpl in E.
  - destruct ph; try done. destruct free as [|id free]; [done |]. simplify_eq.
    apply (reader_inv_move _ _ _ Hr); try done. left. unfold owners. simpl.
    by rewrite <- Permutation_middle.
  - destruct ph as [|id| |]; try done.
    by apply (reader_inv_read limit (MkReader s bufs free msgs cl dn (Reading id) held dr) id).
  - destruct ph as [| |m|]; try done. case_bool_decide as Hl; [| done]. simplify_eq.
    destruct msgs; [| simpl in Hl; lia].
    assert (Hmv : forall r', rs_bufs r' = bufs -> owners r' = owners (MkReader s bufs free [] cl dn (Sending m) held dr) ->
      live_messages r' = live_messages (MkReader s bufs free [] cl dn (Sending m) held dr) ->
      (length (rs_msgs r') <= 1)%nat -> rs_dropped r' = 0%nat -> reader_inv limit r').
    { intros r' E1 E2 E3 E4 E5. apply (reader_inv_move _ _ _ Hr); try done; [left; by rewrite E2 | by rewrite E3]. }
    destruct (msg_err m) as [err|]; [destruct (recoverable err) |]; by apply Hmv.
  - destruct ph as [| |m|]; try done; destruct dn; try done; simplify_eq;
      apply (reader_inv_move _ _ _ Hr); try done.
    + by left.
    + right. unfold owners. simpl. apply sublist_app; [done |]. by apply sublist_cons.
    + unfold live_messages. simpl. set_solver.
  - destruct held; [done |]. destruct msgs as [|m ms]; [done |]. simplify_eq.
    apply (reader_inv_move _ _ _ Hr); try done.
    + left. unfold owners, live_messages. simpl. rewrite app_nil_r, !map_app. simpl.
      by rewrite <- Permutation_cons_append.
    + unfold live_messages. simpl. set_solver.
    + simpl in *. lia.
  - destruct held as [m|]; [| done]. simplify_eq.
    assert (Hf : (length free < readAheadSlots)%nat).
    { pose proof (owners_two _ limit Hr) as Ho. unfold owners, live_messages in Ho. simpl in Ho.
      rewrite !length_app, length_map, !length_app in Ho. simpl in Ho. unfold readAheadSlots. lia. }
    unfold reader_release. simpl. rewrite bool_decide_eq_true_2 by done.
    apply (reader_inv_move _ _ _ Hr); try done.
    + left. unfold owners, live_messages. simpl. rewrite app_nil_r, !map_app. simpl.
      rewrite <- !app_assoc. apply Permutation_app_head. rewrite !app_assoc.
      by rewrite <- Permutation_cons_append.
    + unfold live_messages. simpl. set_solver.
  - simplify_eq. apply (reader_inv_move _ _ _ Hr); try done. by left.
Qed.

Lemma reader_run_inv limit r evs r' :
  reader_run r evs r' -> reader_inv limit r -> reader_inv limit r'.
Proof. induction 1; eauto using reader_step_inv. Qed.
End ReaderInv.

(** C11: Read-ahead never overwrites a message in use. In every interleaving of the
    reading goroutine and the consumer, the two buffers have at most one owner each,
    at most one message is queued, no buffer is ever dropped by release, pending
    reports exactly whether a message is queued, and the message the consumer holds
    still has its payload intact in its buffer while the reader fills another one. *)
Theorem read_ahead_never_reuses_a_buffer {S} `{Stream S} (s : S) limit evs r :
  0 <= limit -> reader_run (newReader s limit) evs r ->
  NoDup (owners r) /\ r.(rs_dropped) = 0%nat /\ (length r.(rs_msgs) <= 1)%nat /\
  (reader_pending r = true <-> r.(rs_msgs) <> []) /\
  forall m, r.(rs_held) = Some m -> m.(msg_err) = None ->
    exists b, r.(rs_bufs) !! m.(msg_buf) = Some b /\
      take (length m.(msg_payload)) b = m.(msg_payload) /\
      (forall id, r.(rs_phase) = Reading id -> id <> m.(msg_buf)) /\
      (length r.(rs_free) < readAheadSlots)%nat.
Proof.
  intros Hl Hrun. pose proof (reader_run_inv limit _ _ _ Hrun (newReader_inv s limit Hl)) as Hr.
  pose proof (owners_two r limit Hr) as Htwo. destruct Hr as [Hn H2 Hb Hp Hq Hd].
  split_and!; try done.
  - unfold reader_pending. rewrite bool_decide_eq_true. destruct (rs_msgs r); simpl; split; intros; try done; lia.
  - intros m Hm Herr. destruct (Hp m) as (b & Eb & Ht); [| done |].
    { unfold live_messages. rewrite Hm. set_solver. }
    exists b. split_and!; [done | done | |].
    + intros id Hph ->. unfold owners, live_messages in Hn. rewrite Hph, Hm in Hn. simpl in Hn.
      apply NoDup_app in Hn as (_ & _ & Hn). apply NoDup_cons in Hn as [Hn _]. apply Hn.
      rewrite map_app. simpl. set_solver.
    + unfold owners, live_messages in Htwo. rewrite Hm in Htwo.
      rewrite !length_app, length_map, !length_app in Htwo. simpl in Htwo. unfold readAheadSlots. lia.
Qed.

(** The reader is a message ahead of the consumer. *)
Lemma read_ahead_never_reuses_a_buffer_witness :
  let s := NewCanned (sent_bytes (MkSent (MkHeader Data 0 2 0) (str "ab")) ++
                      sent_bytes (MkSent (MkHeader DataEnd 0 4 0) (str "cd"))) in
  let evs := [RdTake; RdRead; RdSend; RdNext; RdTake; RdRead; RdSend] in
  exists r, reader_run (newReader s 16) evs r /\ reader_pending r = true /\ NoDup (owners r).
Proof.
  intros s evs.
  assert (E : exists r, reader_run (newReader s 16) evs r /\ reader_pending r = true).
  { eexists. split.
    - repeat (eapply reader_run_cons; [vm_compute; reflexivity |]). apply reader_run_nil.
    - vm_compute. reflexivity. }
  destruct E as (r & Hr & Hp). exists r.
  exact (conj Hr (conj Hp (proj1 (read_ahead_never_reuses_a_buffer s 16 evs r ltac:(lia) Hr)))).
Defined.
