(* ===== verification/Serve.v ===== *)
(** * The channel loops

    [src/server/serve.go]: how each message of the two channels is handled, what
    is reported back, and how a connection becomes a channel. *)

From S2P Require Import Prelude Errors Version Constants MessageId Stream Header Codec.
From S2P Require Import WireErrors Writer Rmt Status Transaction Policy Locks LockWait Config.
From S2P Require Import Device TestDevice Session Server Initialize Handler Dispatch Data Clear.
From S2P Require Import Async Reader.

(** ** Helpers *)

Definition responseScratch (buf limit : Z) : Z :=
  if bool_decide (limit = 0) || bool_decide (buf <= limit) then buf else limit.

(** The loop [v = v<<8 | uint64(payload[i])] over the first eight bytes. *)
Definition decodeMaxSize (payload : bytes) : Z :=
  if bool_decide (len payload < 8) then 0
  else fold_left (fun v b => Z.lor (uint64 (Z.shiftl v 8)) b) (take 8 payload) 0.

(** The loop [b[i] = byte(v); v >>= 8] from the last byte down. *)
Fixpoint putUint64_loop (n : nat) (v : Z) (acc : bytes) : bytes :=
  match n with
  | O => acc
  | S n => putUint64_loop n (Z.shiftr v 8) (uint8 v :: acc)
  end.
Definition putUint64 (v : Z) : bytes := putUint64_loop 8 v [].

Definition countInterrupted_of (i : InterruptedKind) : Counters -> Counters :=
  match i with
  | InterruptedRMTMismatch => inc_SilentInterrupted
  | InterruptedInputQueued => inc_InterruptedSent
  | NotInterrupted => id
  end.

Definition countOutcome_of (o : ResponseOutcome) : Counters -> Counters :=
  match o with
  | ResponseAbsent => inc_QueriesWithoutAnswer
  | ResponseTruncated => inc_TruncatedResponses
  | ResponseInterrupted => inc_InterruptedSent
  | ResponseComplete => id
  end.

Section Reports.
Context {S D : Type} `{Stream S}.
Local Abbreviation HM := (M (HState S D)).

(** Is the writer of a side installed? *)
Definition has_writer (sd : side) : HM bool :=
  sess_gets (fun s => bool_decide (writer_of sd s <> None)).

Definition countInterrupted (i : InterruptedKind) : HM unit := count (countInterrupted_of i).
Definition countOutcome (o : ResponseOutcome) : HM unit := count (countOutcome_of o).

Definition reportReadError (sd : side) (err : error) : HM (option error) :=
  if errors_Is err (Proto ErrMessageTooLarge) then
    _ ← count (fun c => inc_NonFatalErrors (inc_OversizedMessages c));
    ok ← has_writer sd;
    if ok : bool then writer_WriteError sd NonFatalMessageTooLarge (str "message too large")
    else mret None
  else mret (Some err).

(** The common tail: a fatal error is sent and ends the loop. *)
Definition report_fatal (sd : side) (wire : WireError) (err : error) : HM (option error) :=
  _ ← count inc_FatalErrors;
  ok ← has_writer sd;
  _ ← (if ok : bool then writer_WriteFatalError sd wire.(we_FatalCode) (error_text err)
       else mret None);
  mret (Some err).

Definition reportAcceptError (sd : side) (err : error) : HM (option error) :=
  let wire := WireErrorFor err in
  _ ← (if errors_Is err (Proto ErrWrongChannel) then count inc_WrongChannel else mret tt);
  if wire.(we_Fatal) then report_fatal sd wire err
  else
    _ ← count inc_NonFatalErrors;
    ok ← has_writer sd;
    if ok : bool then writer_WriteError sd wire.(we_Code) (error_text err) else mret None.

Definition reportOperationError (sd : side) (err : error) : HM (option error) :=
  let wire := WireErrorFor err in
  if wire.(we_Fatal) then report_fatal sd wire err
  else
    _ ← count inc_NonFatalErrors;
    ok ← has_writer sd;
    if negb ok then mret None
    else
      let code := if bool_decide (wire.(we_Code) = NonFatalUnidentified)
                  then CodeHandshakeTimeout else wire.(we_Code) in
      writer_WriteError sd code (error_text err).
End Reports.

(** ** Handlers

    A handler returns the error that ends its loop, if any. [None] is a handler
    that has not returned: an instrument that keeps answering, or a lock request
    that is still waiting. [fuel] bounds the former and [env] describes the
    latter. *)
Section Handlers.
Context {S D : Type} `{Stream S} `{Device D}.
Local Abbreviation HM := (M (HState S D)).

(** [sess.Operation(ctx)] with a fresh context. *)
Definition begin_operation (ctx : Context) : HM Context := fun st =>
  let (opCtx, sess) := Session_Operation ctx st.(hs_nextctx) st.(hs_sess) in
  (opCtx, MkHState st.(hs_srv) sess st.(hs_syncS) st.(hs_asyncS) st.(hs_cancelled)
            (Datatypes.S st.(hs_nextctx)) st.(hs_queued)).

(** The deferred [release()]. *)
Definition end_operation (opCtx : Context) : HM unit := modify (fun st =>
  match opCtx with
  | [] => st
  | c :: _ =>
      let (sess, cancelled) := Operation_release c st.(hs_sess) st.(hs_cancelled) in
      MkHState st.(hs_srv) sess st.(hs_syncS) st.(hs_asyncS) cancelled st.(hs_nextctx)
        st.(hs_queued)
  end).

(** The end of [handleData]: the response to a completed query, under an
    operation of its own. *)
Definition handleData_respond (fuel : nat) (ctx : Context) (id : MessageID) (buf : Z)
  : HM (option (option error)) :=
  opCtx ← begin_operation ctx;
  sess ← sess_gets Datatypes.id;
  let r := MkResponse (bool_decide (sess.(ss_syncW) <> None))
             (bool_decide (Session_AsyncWriter sess <> None)) id
             (responseScratch buf (Session_MaxTxPayload sess))
             (Some (Session_syncPending sess)) in
  res ← Server_SendResponse fuel opCtx r;
  match res with
  | None => mret None
  | Some (outcome, err) =>
      _ ← countOutcome outcome;
      res ← match err with
            | Some err => reportOperationError SyncSide err
            | None => mret None
            end;
      _ ← end_operation opCtx;
      mret (Some res)
  end.

(** The part of [handleData] after a DataEnd has been delivered. *)
Definition handleData_end (fuel : nat) (ctx : Context) (id : MessageID) (buf : Z)
  : HM (option (option error)) :=
  sess ← sess_gets Datatypes.id;
  let (disposition, sess') := Session_programDisposition sess in
  _ ← sess_modify (fun _ => sess');
  if bool_decide (disposition <> ResponseExpected) then
    err ← on_tx Transaction_Complete; mret (Some err)
  else handleData_respond fuel ctx id buf.

Definition handleData (fuel : nat) (ctx : Context) (msg : message) (buf : Z)
  : HM (option (option error)) :=
  '(interrupted, err) ← Server_ReceiveData ctx msg.(msg_header) msg.(msg_payload);
  _ ← countInterrupted interrupted;
  match err with
  | Some err => res ← reportOperationError SyncSide err; mret (Some res)
  | None =>
      _ ← sess_modify (Session_feedProgramMessage msg.(msg_payload));
      if bool_decide (msg.(msg_header).(h_Type) <> DataEnd) then mret (Some None)
      else handleData_end fuel ctx (Header_MessageID msg.(msg_header)) buf
  end.

Definition handleSync (fuel : nat) (ctx : Context) (msg : message) (buf : Z)
  : HM (option (option error)) :=
  let h := msg.(msg_header) in
  match msg.(msg_err) with
  | Some err => res ← reportReadError SyncSide err; mret (Some res)
  | None =>
      sess ← sess_gets id;
      if DiscardDuringClear sess h then mret (Some None)
      else
        cfg ← srv_gets srv_cfg;
        let (class, err) := Server_Accept cfg (Some sess) h ChannelSynchronous in
        match err with
        | Some err => res ← reportAcceptError SyncSide err; mret (Some res)
        | None =>
            let t := h.(h_Type) in
            if bool_decide (t = Data) || bool_decide (t = DataEnd)
            then handleData fuel ctx msg buf
            else if bool_decide (t = Trigger) then
              '(interrupted, err) ← Server_Trigger ctx h;
              _ ← countInterrupted interrupted;
              match err with
              | Some err => res ← reportOperationError SyncSide err; mret (Some res)
              | None => _ ← count inc_Triggers; mret (Some None)
              end
            else if bool_decide (t = DeviceClearComplete) then
              '(ack, clearErr) ← Server_CompleteDeviceClear ctx h;
              check (writer_Write SyncSide ack []) (fun werr => mret (Some (Some werr))) $
              (_ ← count inc_DeviceClears;
               match clearErr with
               | Some err => res ← reportOperationError SyncSide err; mret (Some res)
               | None => mret (Some None)
               end)
            else if bool_decide (t = FatalError) then
              _ ← count inc_FatalErrors; mret (Some (Some (serr errClientFatal)))
            else if bool_decide (t = Error) then
              _ ← count inc_NonFatalErrors; mret (Some None)
            else if bool_decide (t = Initialize) then
              _ ← writer_WriteFatalError SyncSide FatalInvalidInitSequence
                    (str "already initialized");
              mret (Some (Some (serr ErrInvalidInitSequence)))
            else if bool_decide (class = ClassSyncOrdered) && MessageType_VendorSpecific t then
              _ ← count inc_NonFatalErrors;
              res ← writer_WriteError SyncSide NonFatalUnrecognizedVendorMsg
                      (str "vendor extension not enabled");
              mret (Some res)
            else
              _ ← count inc_NonFatalErrors;
              res ← writer_WriteError SyncSide NonFatalUnrecognizedMessageType
                      (str "unsupported message");
              mret (Some res)
        end
  end.

(** [if err != nil { return s.reportOperationError(sess, w, err) }; return w.Write(resp, nil)] *)
Definition answer (res : Header * option error) : HM (option error) :=
  match res with
  | (_, Some err) => reportOperationError AsyncSide err
  | (resp, None) => writer_Write AsyncSide resp []
  end.

Definition handleAsync (env : list (list lock_op * wait_choice)) (ctx : Context) (msg : message)
  : HM (option (option error)) :=
  let h := msg.(msg_header) in
  ok ← has_writer AsyncSide;
  if negb ok then mret (Some (Some (serr ErrSessionNotReady)))
  else
    match msg.(msg_err) with
    | Some err => res ← reportReadError AsyncSide err; mret (Some res)
    | None =>
        sess ← sess_gets id;
        cfg ← srv_gets srv_cfg;
        match (Server_Accept cfg (Some sess) h ChannelAsynchronous).2 with
        | Some err => res ← reportAcceptError AsyncSide err; mret (Some res)
        | None =>
            let t := h.(h_Type) in
            if bool_decide (t = AsyncDeviceClear) then
              res ← Server_BeginDeviceClear; res ← answer res; mret (Some res)
            else if bool_decide (t = AsyncStatusQuery) then
              res ← Server_StatusQuery ctx h;
              _ ← count inc_SerialPolls;
              res ← answer res; mret (Some res)
            else if bool_decide (t = AsyncLock) then
              res ← Server_Lock env h msg.(msg_payload);
              match res with
              | None => mret None
              | Some res => res ← answer res; mret (Some res)
              end
            else if bool_decide (t = AsyncLockInfo) then
              res ← Server_LockInfo h; res ← answer res; mret (Some res)
            else if bool_decide (t = AsyncRemoteLocalControl) then
              res ← Server_RemoteLocal ctx h; res ← answer res; mret (Some res)
            else if bool_decide (t = AsyncMaximumMessageSize) then
              let '(resp, agreed, sess') :=
                Server_MaximumMessageSize cfg sess (decodeMaxSize msg.(msg_payload)) in
              _ ← sess_modify (fun _ => sess');
              res ← writer_Write AsyncSide resp (putUint64 agreed); mret (Some res)
            else if bool_decide (t = AsyncInitialize) then
              _ ← writer_Write AsyncSide (MkHeader FatalError FatalInvalidInitSequence 0 0) [];
              mret (Some (Some (serr ErrInvalidInitSequence)))
            else if bool_decide (t = FatalError) then
              _ ← count inc_FatalErrors; mret (Some (Some (serr errClientFatal)))
            else if bool_decide (t = Error) then
              _ ← count inc_NonFatalErrors; mret (Some None)
            else
              _ ← count inc_NonFatalErrors;
              res ← writer_WriteError AsyncSide NonFatalUnrecognizedMessageType
                      (str "unsupported message");
              mret (Some res)
        end
    end.

(** ** The loops

    A loop is given the messages its reader hands it, each with what the reader
    reports as waiting while it is handled. [ctx.Err()] is looked at before each
    message. *)
Definition context_canceled : error := Sentinel Canceled.

Definition set_queued (q : bool) : HM unit :=
  modify (fun st => MkHState st.(hs_srv) st.(hs_sess) st.(hs_syncS) st.(hs_asyncS)
                      st.(hs_cancelled) st.(hs_nextctx) q).

Fixpoint serve_loop {A} (handle : A -> HM (option (option error))) (ctx : Context)
    (inputs : list (A * bool)) : HM (option (option error)) :=
  done ← ctx_Err ctx;
  if done : bool then mret (Some (Some context_canceled))
  else match inputs with
       | [] => mret (Some None)
       | (msg, queued) :: inputs =>
           _ ← set_queued queued;
           res ← handle msg;
           match res with
           | Some None => serve_loop handle ctx inputs
           | res => mret res
           end
       end.

(** [runSync]: the predicate is installed, and [buf] is allocated at the
    server's maximum. *)
Definition runSync (fuel : nat) (ctx : Context) (inputs : list (message * bool))
  : HM (option (option error)) :=
  _ ← sess_modify Session_setSyncPending;
  buf ← srv_gets (fun s => s.(srv_cfg).(cfg_MaxTxPayload));
  serve_loop (fun msg => handleSync fuel ctx msg buf) ctx inputs.

(** [runAsync]: each message comes with what happens while it waits for a lock. *)
Definition runAsync (ctx : Context)
    (inputs : list (message * list (list lock_op * wait_choice) * bool))
  : HM (option (option error)) :=
  serve_loop (fun '(msg, env) => handleAsync env ctx msg) ctx inputs.
End Handlers.

(** ** The maximum message size on the wire *)

Lemma putUint64_loop_bytes n v acc :
  wf_bytes acc -> wf_bytes (putUint64_loop n v acc) /\
  length (putUint64_loop n v acc) = (n + length acc)%nat.
Proof.
  revert v acc. induction n as [|n IH]; intros v acc Ha; simpl; [done |].
  destruct (IH (Z.shiftr v 8) (uint8 v :: acc)) as [H1 H2]; [by constructor; auto with hislip |].
  split; [done |]. rewrite H2. simpl. lia.
Qed.

(** The bytes written before [acc] are those of [v], most significant first. *)
Lemma putUint64_loop_value n v acc k :
  Z.of_nat n * 8 <= 64 -> 0 <= v < 2 ^ (Z.of_nat n * 8) -> k = 0 ->
  fold_left (fun v b => Z.lor (uint64 (Z.shiftl v 8)) b) (putUint64_loop n v acc) k
  = fold_left (fun v b => Z.lor (uint64 (Z.shiftl v 8)) b) acc v.
Proof.
  revert v acc. induction n as [|n IH]; intros v acc Hn Hv ->; simpl.
  { f_equal. change (2 ^ (Z.of_nat 0 * 8)) with 1 in Hv. lia. }
  assert (Hp : 2 ^ (Z.of_nat (S n) * 8) = 2 ^ (Z.of_nat n * 8) * 2 ^ 8)
    by (rewrite <- Z.pow_add_r by lia; f_equal; lia).
  rewrite Z.shiftr_div_pow2 by lia.
  assert (Hq : 0 <= v / 2 ^ 8 < 2 ^ (Z.of_nat n * 8)).
  { split; [apply Z.div_pos; lia |]. apply Z.div_lt_upper_bound; lia. }
  rewrite IH by (done || lia). simpl. f_equal.
  assert (Hm : 2 ^ (Z.of_nat (S n) * 8) <= 2 ^ 64) by (apply Z.pow_le_mono_r; lia).
  pose proof (Z.div_mod v (2 ^ 8) ltac:(done)) as Hd. pose proof (uint8_range v) as Hr.
  assert (Hs : Z.shiftl (v / 2 ^ 8) 8 = v / 2 ^ 8 * 2 ^ 8) by (by rewrite Z.shiftl_mul_pow2).
  rewrite uint64_id by (rewrite Hs; unfold is_u8, uint8 in *; u_lia).
  rewrite lor_shiftl_add by (done || lia). unfold uint8. lia.
Qed.

(** The eight-byte size on the wire: reading what putUint64 wrote, whatever follows
    it, gives the number back for every 64-bit number; eight bytes are written; and a
    short payload reads as zero. *)
Theorem maximum_message_size_roundtrip v rest :
  is_u64 v ->
  decodeMaxSize (putUint64 v ++ rest) = v /\ len (putUint64 v) = 8 /\ wf_bytes (putUint64 v) /\
  (forall p, len p < 8 -> decodeMaxSize p = 0).
Proof.
  intros Hv. destruct (putUint64_loop_bytes 8 v [] ltac:(by constructor)) as [Hw Hl].
  fold (putUint64 v) in Hw, Hl. split_and!; [| unfold len; rewrite Hl; done | done |].
  - unfold decodeMaxSize. rewrite bool_decide_eq_false_2
      by (unfold len; rewrite length_app, Hl; simpl; lia).
    rewrite take_app_length' by done. unfold putUint64.
    rewrite putUint64_loop_value by (done || lia). done.
  - intros p Hp. unfold decodeMaxSize. by rewrite bool_decide_eq_true_2.
Qed.

Lemma maximum_message_size_roundtrip_witness :
  decodeMaxSize (putUint64 0x0102030405060708) = 0x0102030405060708.
Proof.
  pose proof (maximum_message_size_roundtrip 0x0102030405060708 [] ltac:(solve_range)) as [H _].
  rewrite app_nil_r in H. exact H.
Defined.

