(* ===== verification/Programs.v ===== *)
(** * The handlers as programs of atomic actions

    The two channel loops of a session run as goroutines of their own and share it.
    The handlers of [src/server], as in [Data], [Clear], [Async] and [Serve], are
    written here again at the granularity at which the goroutines can interleave. An
    action is a call of the instrument, a method of the transaction, of the RMT or of
    the status tracker, a critical section of the session or of the lock manager, a
    write of a message, or a count.

    Run alone, the programs are the handlers of those files. *)

From S2P Require Import Prelude Interleave Errors Version Constants MessageId Stream Header Codec.
From S2P Require Import WireErrors Writer Rmt Status Transaction Policy Locks LockWait Config.
From S2P Require Import Device TestDevice Session Server Initialize Handler Dispatch Data Clear.
From S2P Require Import Async Reader Serve.

Section Programs.
Context {S D : Type} `{Stream S} `{Device D}.
Local Abbreviation HP := (prog (HState S D)).

Definition p_check {A} (p : HP (option error)) (onerr : error -> HP A) (k : HP A) : HP A :=
  err ← p; match err with Some e => onerr e | None => k end.

(** *** Reports *)

Definition p_reportReadError (sd : side) (err : error) : HP (option error) :=
  if errors_Is err (Proto ErrMessageTooLarge) then
    _ ← act (count (fun c => inc_NonFatalErrors (inc_OversizedMessages c)));
    ok ← act (has_writer sd);
    if ok : bool then act (writer_WriteError sd NonFatalMessageTooLarge (str "message too large"))
    else Ret None
  else Ret (Some err).

Definition p_report_fatal (sd : side) (wire : WireError) (err : error) : HP (option error) :=
  _ ← act (count inc_FatalErrors);
  ok ← act (has_writer sd);
  _ ← (if ok : bool then act (writer_WriteFatalError sd wire.(we_FatalCode) (error_text err))
       else Ret None);
  Ret (Some err).

Definition p_reportAcceptError (sd : side) (err : error) : HP (option error) :=
  let wire := WireErrorFor err in
  _ ← (if errors_Is err (Proto ErrWrongChannel) then act (count inc_WrongChannel) else Ret tt);
  if wire.(we_Fatal) then p_report_fatal sd wire err
  else
    _ ← act (count inc_NonFatalErrors);
    ok ← act (has_writer sd);
    if ok : bool then act (writer_WriteError sd wire.(we_Code) (error_text err)) else Ret None.

Definition p_reportOperationError (sd : side) (err : error) : HP (option error) :=
  let wire := WireErrorFor err in
  if wire.(we_Fatal) then p_report_fatal sd wire err
  else
    _ ← act (count inc_NonFatalErrors);
    ok ← act (has_writer sd);
    if negb ok then Ret None
    else
      let code := if bool_decide (wire.(we_Code) = NonFatalUnidentified)
                  then CodeHandshakeTimeout else wire.(we_Code) in
      act (writer_WriteError sd code (error_text err)).

(** *** The response *)

Definition p_terminate (r : Response) (final : bytes) : HP (option error) :=
  p_check (act (writer_Write SyncSide (MkHeader DataEnd 0 r.(r_MessageID) (len final)) final))
    (fun err => Ret (Some err)) $
  (_ ← act (sess_modify (fun s => ss_set_rmt (RMT_SentDataEnd s.(ss_rmt)) s));
   _ ← act (sess_modify (Session_setLastTxMessageID r.(r_MessageID)));
   act (on_tx Transaction_Complete)).

Definition p_completeAbsentResponse (r : Response) : HP (ResponseOutcome * option error) :=
  p_check (act (writer_WriteError SyncSide CodeResponseTimeout (str "no response from instrument")))
    (fun err => Ret (ResponseAbsent, Some err)) $
  p_check (act (on_tx Transaction_BeginResponse)) (fun err => Ret (ResponseAbsent, Some err)) $
  p_check (p_terminate r []) (fun err => Ret (ResponseAbsent, Some err)) $
  Ret (ResponseAbsent, None).

Definition p_sendInterrupted (r : Response) : HP (option error) :=
  p_check (act (on_tx Transaction_Interrupt)) (fun err => Ret (Some err)) $
  (_ ← act (setResponsePending false);
   p_check (act (writer_Write AsyncSide (MkHeader AsyncInterrupted 0 r.(r_MessageID) 0) []))
     (fun err => Ret (Some err)) $
   p_check (act (writer_Write SyncSide (MkHeader Interrupted 0 r.(r_MessageID) 0) []))
     (fun err => Ret (Some err)) $
   act (on_tx Transaction_Complete)).

Definition p_deliver_chunk (r : Response) (b : bytes) (fin : bool) (readErr : option error)
    (delivered : Z) : HP (ResponseOutcome * error + Z) :=
  if bool_decide (0 < len b) then
    p_check (act (on_tx Transaction_BeginResponse)) (fun err => Ret (inl (ResponseAbsent, err))) $
    if negb fin || bool_decide (readErr <> None) then
      p_check (act (writer_Write SyncSide (MkHeader Data 0 r.(r_MessageID) (len b)) b))
        (fun err => Ret (inl (ResponseTruncated, err))) $
      Ret (inr (uint64 (delivered + len b)))
    else Ret (inr delivered)
  else Ret (inr delivered).

(** What follows a read in the loop of [SendResponse]: [None] is another round. *)
Definition p_after_read (r : Response) (b : bytes) (fin : bool) (readErr : option error) (delivered : Z)
  : HP (option (ResponseOutcome * option error)) :=
  if bool_decide (readErr <> None) then
    if bool_decide (delivered = 0) then res ← p_completeAbsentResponse r; Ret (Some res)
    else
      p_check (act (writer_WriteError SyncSide CodeResponseTimeout (str "response truncated")))
        (fun err => Ret (Some (ResponseTruncated, Some err))) $
      p_check (p_terminate r []) (fun err => Ret (Some (ResponseTruncated, Some err))) $
      Ret (Some (ResponseTruncated, None))
  else if negb fin then Ret None
  else
    queued ← act (gets (fun st => match r.(r_InputQueued) with
                                  | Some f => f st.(hs_queued)
                                  | None => false
                                  end));
    if queued : bool then
      p_check (p_sendInterrupted r) (fun err => Ret (Some (ResponseInterrupted, Some err))) $
      Ret (Some (ResponseInterrupted, None))
    else
      p_check (act (on_tx Transaction_BeginResponse))
        (fun err => Ret (Some (ResponseAbsent, Some err))) $
      p_check (p_terminate r b) (fun err => Ret (Some (ResponseComplete, Some err))) $
      Ret (Some (ResponseComplete, None)).

Fixpoint p_loop (fuel : nat) (ctx : Context) (r : Response) (delivered : Z)
  : HP (option (ResponseOutcome * option error)) :=
  match fuel with
  | O => Ret None
  | Datatypes.S fuel =>
      '(b, fin, readErr) ← act (on_dev ctx (fun d c => dev_Read d c r.(r_Scratch)));
      res ← p_deliver_chunk r b fin readErr delivered;
      match res with
      | inl (out, err) => Ret (Some (out, Some err))
      | inr delivered =>
          res ← p_after_read r b fin readErr delivered;
          match res with
          | Some res => Ret (Some res)
          | None => p_loop fuel ctx r delivered
          end
      end
  end.

Definition p_SendResponse (fuel : nat) (ctx : Context) (r : Response)
  : HP (option (ResponseOutcome * option error)) :=
  sess ← act (sess_gets id);
  p_check (Ret (Response_validate r sess)) (fun err => Ret (Some (ResponseAbsent, Some err))) $
  p_check (act (on_tx Transaction_ExpectResponse))
    (fun err => Ret (Some (ResponseAbsent, Some err))) $
  (_ ← act (setResponsePending true);
   res ← p_loop fuel ctx r 0;
   match res with
   | None => Ret None
   | Some res => _ ← act (setResponsePending false); Ret (Some res)
   end).

(** The response of [handleData], with the report of an error. *)
Definition p_respond (fuel : nat) (ctx : Context) (id : MessageID) (buf : Z)
  : HP (option (option error)) :=
  opCtx ← act (begin_operation ctx);
  sess ← act (sess_gets Datatypes.id);
  let r := MkResponse (bool_decide (sess.(ss_syncW) <> None))
             (bool_decide (Session_AsyncWriter sess <> None)) id
             (responseScratch buf (Session_MaxTxPayload sess))
             (Some (Session_syncPending sess)) in
  res ← p_SendResponse fuel opCtx r;
  match res with
  | None => Ret None
  | Some (outcome, err) =>
      _ ← act (countOutcome outcome);
      res ← match err with
            | Some err => p_reportOperationError SyncSide err
            | None => Ret None
            end;
      _ ← act (end_operation opCtx);
      Ret (Some res)
  end.

Definition p_BeginDeviceClear : HP (Header * option error) :=
  sess ← act (sess_gets id);
  p_check (Ret (Session_requireReady sess)) (fun err => Ret (Header_zero, Some err)) $
  (_ ← act abortOperation;
   _ ← act (setResponsePending false);
   p_check (act (on_tx Transaction_Clear)) (fun err => Ret (Header_zero, Some err)) $
   (_ ← act (sess_modify Session_beginClear);
    cfg ← act (srv_gets srv_cfg);
    Ret (MkHeader AsyncDeviceClearAcknowledge (Config_featureBitmap cfg FeatureOverlapped) 0 0,
         None))).

(** [if err != nil { return s.reportOperationError(sess, w, err) }; return w.Write(resp, nil)] *)
Definition p_answer (res : Header * option error) : HP (option error) :=
  match res with
  | (_, Some err) => p_reportOperationError AsyncSide err
  | (resp, None) => act (writer_Write AsyncSide resp [])
  end.

(** The case of [handleAsync] for AsyncDeviceClear. *)
Definition p_handleClear : HP (option error) := res ← p_BeginDeviceClear; p_answer res.

(** *** Input *)

(** [sess.RMT().ReceivedSyncMessage(..)] *)
Definition rmt_received (h : Header) : M (HState S D) InterruptedKind :=
  rmt ← sess_gets ss_rmt;
  let (interrupted, rmt) := RMT_ReceivedSyncMessage rmt (Header_RMTDelivered h) in
  _ ← sess_modify (ss_set_rmt rmt);
  mret interrupted.

(** [sess.Status().ReceivedSyncMessage(..)] *)
Definition status_received (h : Header) : M (HState S D) unit :=
  sess_modify (fun s =>
    ss_set_status (Status_ReceivedSyncMessage s.(ss_status) (Header_MessageID h)) s).

Definition p_ReceiveData (ctx : Context) (h : Header) (payload : bytes)
  : HP (InterruptedKind * option error) :=
  let fin := bool_decide (h.(h_Type) = DataEnd) in
  if bool_decide (h.(h_Type) <> Data) && negb fin
  then Ret (NotInterrupted, Some (perr ErrUnknownMessageType))
  else
    interrupted ← act (rmt_received h);
    _ ← act (status_received h);
    p_check (act (on_tx (fun tx => if fin then Transaction_CompleteInput tx (Header_MessageID h)
                                   else Transaction_BeginInput tx)))
      (fun err => Ret (interrupted, Some err)) $
    p_check (act (on_dev ctx (fun d c => dev_Write d c payload fin)))
      (fun err => Ret (interrupted, Some err)) $
    Ret (interrupted, None).

Definition p_Trigger (ctx : Context) (h : Header) : HP (InterruptedKind * option error) :=
  if bool_decide (h.(h_Type) <> Trigger)
  then Ret (NotInterrupted, Some (perr ErrUnknownMessageType))
  else
    sess ← act (sess_gets id);
    p_check (Ret (Session_requireReady sess)) (fun err => Ret (NotInterrupted, Some err)) $
    (interrupted ← act (rmt_received h);
     _ ← act (status_received h);
     p_check (act (on_tx (fun tx => Transaction_CompleteInput tx (Header_MessageID h))))
       (fun err => Ret (interrupted, Some err)) $
     p_check (act (on_dev ctx dev_Trigger)) (fun err => Ret (interrupted, Some err)) $
     (err ← act (on_tx Transaction_Complete); Ret (interrupted, err))).

Definition p_CompleteDeviceClear (ctx : Context) (h : Header) : HP (Header * option error) :=
  if bool_decide (h.(h_Type) <> DeviceClearComplete)
  then Ret (Header_zero, Some (perr ErrUnknownMessageType))
  else
    cfg ← act (srv_gets srv_cfg);
    let agreed := Config_featureBitmap cfg h.(h_Control) in
    let overlap := bool_decide (Z.land agreed FeatureOverlapped <> 0) in
    _ ← act (sess_modify (Session_completeClear overlap));
    _ ← act (sess_modify (fun s => ss_set_tx (Transaction_Reset s.(ss_tx)) s));
    err ← act (on_dev ctx dev_Clear);
    match err with
    | Some err => Ret (MkHeader DeviceClearAcknowledge agreed 0 0, Some err)
    | None => Ret (MkHeader DeviceClearAcknowledge agreed 0 0, None)
    end.

(** *** The asynchronous operations *)

(** [sess.Status().Byte(..)] *)
Definition status_byte (device : Z) (h : Header) : M (HState S D) Z :=
  status ← sess_gets ss_status;
  let (stb, status) := Status_Byte status device (Header_MessageID h) (Header_RMTDelivered h) in
  _ ← sess_modify (ss_set_status status);
  mret stb.

(** [sess.Status().TakeServiceRequest()] *)
Definition status_take : M (HState S D) bool :=
  status ← sess_gets ss_status;
  let (taken, status) := Status_TakeServiceRequest status in
  _ ← sess_modify (ss_set_status status);
  mret taken.

Definition p_StatusQuery (ctx : Context) (h : Header) : HP (Header * option error) :=
  if bool_decide (h.(h_Type) <> AsyncStatusQuery)
  then Ret (Header_zero, Some (perr ErrUnknownMessageType))
  else
    sess ← act (sess_gets id);
    p_check (Ret (Session_requireReady sess)) (fun err => Ret (Header_zero, Some err)) $
    (_ ← act (sess_modify (fun s =>
           ss_set_rmt (RMT_ReceivedStatusQuery s.(ss_rmt) (Header_RMTDelivered h)) s));
     '(device, err) ← act (on_dev ctx dev_ReadStatusByte);
     match err with
     | Some err => Ret (Header_zero, Some err)
     | None =>
         stb ← act (status_byte device h);
         taken ← act status_take;
         let stb := if taken : bool then Z.lor stb StatusRQS else stb in
         Ret (MkHeader AsyncStatusResponse stb 0 0, None)
     end).

Definition p_RemoteLocal (ctx : Context) (h : Header) : HP (Header * option error) :=
  if bool_decide (h.(h_Type) <> AsyncRemoteLocalControl)
  then Ret (Header_zero, Some (perr ErrUnknownMessageType))
  else
    sess ← act (sess_gets id);
    p_check (Ret (Session_requireReady sess)) (fun err => Ret (Header_zero, Some err)) $
    (let mode := h.(h_Control) in
     if negb (RemoteLocalMode_Valid mode)
     then Ret (Header_zero, Some (serr ErrUnrecognizedControlCode))
     else
       p_check (act (on_dev ctx (fun d c => dev_RemoteLocal d c mode)))
         (fun err => Ret (Header_zero, Some err)) $
       Ret (MkHeader AsyncRemoteLocalResponse 0 0 0, None)).

(** One critical section, or one branch of the [select], of a waiting [Request]. *)
Definition request_step (w : Waiter) (ch : wait_choice) : M (HState S D) Waiter :=
  locks ← srv_gets srv_locks;
  match Request_step locks w ch with
  | Some (locks, w) => _ ← srv_modify (srv_set_locks locks); mret w
  | None => mret w
  end.

(** [Request], by what is chosen at its steps. *)
Fixpoint p_Request (choices : list wait_choice) (w : Waiter) : HP (option LockResult) :=
  match w.(wt_phase), choices with
  | Returned result, _ => Ret (Some result)
  | _, [] => Ret None
  | _, ch :: choices => w ← act (request_step w ch); p_Request choices w
  end.

Definition lock_release (id : SessionID) : M (HState S D) LockResult :=
  locks ← srv_gets srv_locks;
  let (result, locks) := Release locks id in
  _ ← srv_modify (srv_set_locks locks);
  mret result.

Definition p_Lock (choices : list wait_choice) (h : Header) (lockString : bytes)
  : HP (option (Header * option error)) :=
  if bool_decide (h.(h_Type) <> AsyncLock)
  then Ret (Some (Header_zero, Some (perr ErrUnknownMessageType)))
  else
    sess ← act (sess_gets id);
    p_check (Ret (Session_requireReady sess)) (fun err => Ret (Some (Header_zero, Some err))) $
    (if bool_decide (h.(h_Control) = lockRequest) then
       let timeout := h.(h_Parameter) * Millisecond in
       result ← p_Request (choices ++ expiry) (MkWaiter (Session_ID sess) lockString timeout Starting);
       match result with
       | None => Ret None
       | Some result => Ret (Some (MkHeader AsyncLockResponse (LockResult_code result) 0 0, None))
       end
     else if bool_decide (h.(h_Control) = lockRelease) then
       result ← act (lock_release (Session_ID sess));
       Ret (Some (MkHeader AsyncLockResponse (LockResult_code result) 0 0, None))
     else Ret (Some (Header_zero, Some (serr ErrUnrecognizedControlCode)))).

Definition p_LockInfo (h : Header) : HP (Header * option error) :=
  if bool_decide (h.(h_Type) <> AsyncLockInfo)
  then Ret (Header_zero, Some (perr ErrUnknownMessageType))
  else
    sess ← act (sess_gets id);
    p_check (Ret (Session_requireReady sess)) (fun err => Ret (Header_zero, Some err)) $
    (locks ← act (srv_gets srv_locks);
     let (exclusive, holders) := Info locks in
     let control := if exclusive : bool then 1 else 0 in
     Ret (MkHeader AsyncLockInfoResponse control (uint32 (Z.of_nat holders)) 0, None)).

(** [sess.programDisposition()] *)
Definition disposition_act : M (HState S D) Disposition :=
  sess ← sess_gets id;
  let (disposition, sess') := Session_programDisposition sess in
  _ ← sess_modify (fun _ => sess');
  mret disposition.

(** [s.MaximumMessageSize(..)] *)
Definition maxsize_act (clientMax : Z) : M (HState S D) (Header * Z) :=
  sess ← sess_gets id;
  cfg ← srv_gets srv_cfg;
  let '(resp, agreed, sess') := Server_MaximumMessageSize cfg sess clientMax in
  _ ← sess_modify (fun _ => sess');
  mret (resp, agreed).

(** *** The handlers *)

Definition p_handleData_end (fuel : nat) (ctx : Context) (id : MessageID) (buf : Z)
  : HP (option (option error)) :=
  disposition ← act disposition_act;
  if bool_decide (disposition <> ResponseExpected) then
    err ← act (on_tx Transaction_Complete); Ret (Some err)
  else p_respond fuel ctx id buf.

Definition p_handleData (fuel : nat) (ctx : Context) (msg : message) (buf : Z)
  : HP (option (option error)) :=
  '(interrupted, err) ← p_ReceiveData ctx msg.(msg_header) msg.(msg_payload);
  _ ← act (countInterrupted interrupted);
  match err with
  | Some err => res ← p_reportOperationError SyncSide err; Ret (Some res)
  | None =>
      _ ← act (sess_modify (Session_feedProgramMessage msg.(msg_payload)));
      if bool_decide (msg.(msg_header).(h_Type) <> DataEnd) then Ret (Some None)
      else p_handleData_end fuel ctx (Header_MessageID msg.(msg_header)) buf
  end.

(** The switch of [handleSync]. *)
Definition p_handleSync_case (fuel : nat) (ctx : Context) (msg : message) (buf : Z)
    (class : Class) : HP (option (option error)) :=
  let h := msg.(msg_header) in
  let t := h.(h_Type) in
  if bool_decide (t = Data) || bool_decide (t = DataEnd)
  then p_handleData fuel ctx msg buf
  else if bool_decide (t = Trigger) then
    '(interrupted, err) ← p_Trigger ctx h;
    _ ← act (countInterrupted interrupted);
    match err with
    | Some err => res ← p_reportOperationError SyncSide err; Ret (Some res)
    | None => _ ← act (count inc_Triggers); Ret (Some None)
    end
  else if bool_decide (t = DeviceClearComplete) then
    '(ack, clearErr) ← p_CompleteDeviceClear ctx h;
    p_check (act (writer_Write SyncSide ack [])) (fun werr => Ret (Some (Some werr))) $
    (_ ← act (count inc_DeviceClears);
     match clearErr with
     | Some err => res ← p_reportOperationError SyncSide err; Ret (Some res)
     | None => Ret (Some None)
     end)
  else if bool_decide (t = FatalError) then
    _ ← act (count inc_FatalErrors); Ret (Some (Some (serr errClientFatal)))
  else if bool_decide (t = Error) then
    _ ← act (count inc_NonFatalErrors); Ret (Some None)
  else if bool_decide (t = Initialize) then
    _ ← act (writer_WriteFatalError SyncSide FatalInvalidInitSequence
               (str "already initialized"));
    Ret (Some (Some (serr ErrInvalidInitSequence)))
  else if bool_decide (class = ClassSyncOrdered) && MessageType_VendorSpecific t then
    _ ← act (count inc_NonFatalErrors);
    res ← act (writer_WriteError SyncSide NonFatalUnrecognizedVendorMsg
                 (str "vendor extension not enabled"));
    Ret (Some res)
  else
    _ ← act (count inc_NonFatalErrors);
    res ← act (writer_WriteError SyncSide NonFatalUnrecognizedMessageType
                 (str "unsupported message"));
    Ret (Some res).

Definition p_handleSync (fuel : nat) (ctx : Context) (msg : message) (buf : Z)
  : HP (option (option error)) :=
  let h := msg.(msg_header) in
  match msg.(msg_err) with
  | Some err => res ← p_reportReadError SyncSide err; Ret (Some res)
  | None =>
      sess ← act (sess_gets id);
      if DiscardDuringClear sess h then Ret (Some None)
      else
        cfg ← act (srv_gets srv_cfg);
        sess ← act (sess_gets id);
        let (class, err) := Server_Accept cfg (Some sess) h ChannelSynchronous in
        match err with
        | Some err => res ← p_reportAcceptError SyncSide err; Ret (Some res)
        | None => p_handleSync_case fuel ctx msg buf class
        end
  end.

(** The switch of [handleAsync]. *)
Definition p_handleAsync_case (choices : list wait_choice) (ctx : Context) (msg : message)
  : HP (option (option error)) :=
  let h := msg.(msg_header) in
  let t := h.(h_Type) in
  if bool_decide (t = AsyncDeviceClear) then
    res ← p_handleClear; Ret (Some res)
  else if bool_decide (t = AsyncStatusQuery) then
    res ← p_StatusQuery ctx h;
    _ ← act (count inc_SerialPolls);
    res ← p_answer res; Ret (Some res)
  else if bool_decide (t = AsyncLock) then
    res ← p_Lock choices h msg.(msg_payload);
    match res with
    | None => Ret None
    | Some res => res ← p_answer res; Ret (Some res)
    end
  else if bool_decide (t = AsyncLockInfo) then
    res ← p_LockInfo h; res ← p_answer res; Ret (Some res)
  else if bool_decide (t = AsyncRemoteLocalControl) then
    res ← p_RemoteLocal ctx h; res ← p_answer res; Ret (Some res)
  else if bool_decide (t = AsyncMaximumMessageSize) then
    '(resp, agreed) ← act (maxsize_act (decodeMaxSize msg.(msg_payload)));
    res ← act (writer_Write AsyncSide resp (putUint64 agreed)); Ret (Some res)
  else if bool_decide (t = AsyncInitialize) then
    _ ← act (writer_Write AsyncSide (MkHeader FatalError FatalInvalidInitSequence 0 0) []);
    Ret (Some (Some (serr ErrInvalidInitSequence)))
  else if bool_decide (t = FatalError) then
    _ ← act (count inc_FatalErrors); Ret (Some (Some (serr errClientFatal)))
  else if bool_decide (t = Error) then
    _ ← act (count inc_NonFatalErrors); Ret (Some None)
  else
    _ ← act (count inc_NonFatalErrors);
    res ← act (writer_WriteError AsyncSide NonFatalUnrecognizedMessageType
                 (str "unsupported message"));
    Ret (Some res).

Definition p_handleAsync (choices : list wait_choice) (ctx : Context) (msg : message)
  : HP (option (option error)) :=
  let h := msg.(msg_header) in
  ok ← act (has_writer AsyncSide);
  if negb ok then Ret (Some (Some (serr ErrSessionNotReady)))
  else
    match msg.(msg_err) with
    | Some err => res ← p_reportReadError AsyncSide err; Ret (Some res)
    | None =>
        sess ← act (sess_gets id);
        cfg ← act (srv_gets srv_cfg);
        match (Server_Accept cfg (Some sess) h ChannelAsynchronous).2 with
        | Some err => res ← p_reportAcceptError AsyncSide err; Ret (Some res)
        | None => p_handleAsync_case choices ctx msg
        end
    end.

(** *** The loops *)

(** One message after the other, until a handler ends the loop. [before] is what the
    reader of the channel makes known with the message. *)
Fixpoint p_serve_loop {A} (before : A -> M (HState S D) unit)
    (handle : A -> HP (option (option error))) (ctx : Context) (inputs : list A)
  : HP (option (option error)) :=
  done ← act (ctx_Err ctx);
  if done : bool then Ret (Some (Some context_canceled))
  else match inputs with
       | [] => Ret (Some None)
       | msg :: inputs =>
           _ ← act (before msg);
           res ← handle msg;
           match res with
           | Some None => p_serve_loop before handle ctx inputs
           | res => Ret res
           end
       end.

Definition p_runSync (fuel : nat) (ctx : Context) (inputs : list (message * bool))
  : HP (option (option error)) :=
  _ ← act (sess_modify Session_setSyncPending);
  buf ← act (srv_gets (fun s => s.(srv_cfg).(cfg_MaxTxPayload)));
  p_serve_loop (fun x => set_queued x.2) (fun x => p_handleSync fuel ctx x.1 buf) ctx inputs.

(** What waits on the synchronous channel is not affected by the asynchronous loop. *)
Definition p_runAsync (ctx : Context) (inputs : list (message * list wait_choice))
  : HP (option (option error)) :=
  p_serve_loop (fun _ => mret tt) (fun x => p_handleAsync x.2 ctx x.1) ctx inputs.
End Programs.

(** What [validate] asks for. *)
Lemma validate_ok r sess :
  r.(r_Sync) = true -> r.(r_Async) = true -> 0 < r.(r_Scratch) <= sess.(ss_maxTx) ->
  is_Some r.(r_InputQueued) -> Response_validate r sess = None.
Proof.
  intros Hs Ha Hb [q Hq]. unfold Response_validate, Session_MaxTxPayload. rewrite Hs, Ha, Hq.
  by rewrite !bool_decide_eq_false_2 by lia.
Qed.

Lemma responseScratch_fits buf mt : 0 < buf -> 0 < mt -> 0 < responseScratch buf mt <= mt.
Proof.
  intros Hb Hm. unfold responseScratch. rewrite (bool_decide_eq_false_2 (mt = 0)) by lia. simpl.
  case_bool_decide; lia.
Qed.

(** ** Run alone, they are the handlers *)
Create HintDb agree.

Section Alone.
Context {S D : Type} `{Stream S} `{Device D}.
Local Abbreviation HP := (prog (HState S D)).

(** Two operations that agree in every state. *)
Definition agrees {A} (p : HP A) (m : M (HState S D) A) : Prop := forall st, run p st = m st.

Lemma agrees_ret {A} (a : A) : agrees (Ret a) (mret a).
Proof. done. Qed.
Lemma agrees_act {A} (m : M (HState S D) A) : agrees (act m) m.
Proof. intros st. apply run_act. Qed.

Lemma agrees_bind {A B} (p : HP A) m (f : A -> HP B) g :
  agrees p m -> (forall a, agrees (f a) (g a)) -> agrees (p ≫= f) (m ≫= g).
Proof.
  intros Hp Hf st. rewrite run_bind. unfold mbind, M_bind. rewrite Hp.
  destruct (m st) as [a st']. apply Hf.
Qed.

Lemma agrees_check {A} p m (f : error -> HP A) g k k' :
  agrees p m -> (forall e, agrees (f e) (g e)) -> agrees k k' ->
  agrees (p_check p f k) (check m g k').
Proof. intros Hp Hf Hk. apply agrees_bind; [done |]. by intros [e|]. Qed.

Ltac agree :=
  repeat first
    [ apply agrees_ret | apply agrees_act
    | apply agrees_check; [| intros ?e |] | apply agrees_bind; [| intros ?a]
    | case_bool_decide | case_match | done ].

Lemma agrees_terminate r b : agrees (p_terminate r b) (terminate r b).
Proof. unfold p_terminate, terminate. agree. Qed.

Lemma agrees_absent r : agrees (p_completeAbsentResponse r) (completeAbsentResponse r).
Proof. unfold p_completeAbsentResponse, completeAbsentResponse. agree. Qed.

Lemma agrees_interrupted r : agrees (p_sendInterrupted r) (sendInterrupted r).
Proof. unfold p_sendInterrupted, sendInterrupted. agree. Qed.

Lemma agrees_deliver r b fin err n :
  agrees (p_deliver_chunk r b fin err n) (deliver_chunk r b fin err n).
Proof. unfold p_deliver_chunk, deliver_chunk. agree. Qed.

(** Reassociation, for the loop. *)
Lemma agrees_assoc {A B C} (p : HP A) (f : A -> HP B) (g : B -> HP C) m :
  agrees (p ≫= fun a => f a ≫= g) m -> agrees ((p ≫= f) ≫= g) m.
Proof.
  intros Hp st. rewrite <- (Hp st), !run_seq. destruct (run p st) as [a st'].
  by rewrite run_seq.
Qed.

Lemma agrees_assoc_check {A B} p (f : error -> HP A) k (g : A -> HP B) m :
  agrees (p_check p (fun e => f e ≫= g) (k ≫= g)) m -> agrees (p_check p f k ≫= g) m.
Proof.
  intros Hp. apply agrees_assoc. intros st. rewrite <- (Hp st). unfold p_check. rewrite !run_seq.
  by destruct (run p st) as [[e|] st'].
Qed.

Lemma agrees_loop fuel ctx r n : agrees (p_loop fuel ctx r n) (SendResponse_loop fuel ctx r n).
Proof.
  revert n. induction fuel as [|fuel IH]; intros n; [done |]. cbn [p_loop SendResponse_loop].
  apply agrees_bind; [apply agrees_act |]. intros [[b fin] err].
  apply agrees_bind; [apply agrees_deliver |]. intros [[out e] | n']; [done |].
  unfold p_after_read. case_bool_decide.
  - case_bool_decide.
    + apply agrees_assoc, agrees_bind; [apply agrees_absent | done].
    + apply agrees_assoc_check, agrees_check; [apply agrees_act | done |].
      apply agrees_assoc_check, agrees_check; [apply agrees_terminate | done | done].
  - destruct fin; cbn [negb]; [| apply IH].
    apply agrees_assoc, agrees_bind; [apply agrees_act |]. intros [|].
    + apply agrees_assoc_check, agrees_check; [apply agrees_interrupted | done | done].
    + apply agrees_assoc_check, agrees_check; [apply agrees_act | done |].
      apply agrees_assoc_check, agrees_check; [apply agrees_terminate | done | done].
Qed.

Lemma agrees_SendResponse fuel ctx r :
  agrees (p_SendResponse fuel ctx r) (Server_SendResponse fuel ctx r).
Proof.
  unfold p_SendResponse, Server_SendResponse. apply agrees_bind; [apply agrees_act |]. intros sess.
  apply agrees_check; [done | done |]. apply agrees_check; [apply agrees_act | done |].
  apply agrees_bind; [apply agrees_act |]. intros _.
  apply agrees_bind; [apply agrees_loop |]. intros [res|]; [| done].
  apply agrees_bind; [apply agrees_act | done].
Qed.

Lemma agrees_ext {A} (p : HP A) m m' : agrees p m -> (forall st, m st = m' st) -> agrees p m'.
Proof. intros Hp Hm st. by rewrite Hp. Qed.

Lemma agrees_reportReadError sd err : agrees (p_reportReadError sd err) (reportReadError sd err).
Proof. unfold p_reportReadError, reportReadError. agree. Qed.

Lemma agrees_report_fatal sd wire err : agrees (p_report_fatal sd wire err) (report_fatal sd wire err).
Proof. unfold p_report_fatal, report_fatal. agree. Qed.

Lemma agrees_reportAcceptError sd err :
  agrees (p_reportAcceptError sd err) (reportAcceptError sd err).
Proof.
  unfold p_reportAcceptError, reportAcceptError. cbv zeta. apply agrees_bind; [agree |]. intros _.
  destruct (we_Fatal _); [apply agrees_report_fatal | agree].
Qed.

Lemma agrees_reportOperationError sd err :
  agrees (p_reportOperationError sd err) (reportOperationError sd err).
Proof.
  unfold p_reportOperationError, reportOperationError. cbv zeta.
  destruct (we_Fatal _); [apply agrees_report_fatal | agree].
Qed.
Hint Resolve agrees_reportReadError agrees_reportAcceptError agrees_reportOperationError
  agrees_ret agrees_act : agree.

Lemma agrees_respond fuel ctx id buf :
  agrees (p_respond fuel ctx id buf) (handleData_respond fuel ctx id buf).
Proof.
  unfold p_respond, handleData_respond. apply agrees_bind; [apply agrees_act |]. intros opCtx.
  apply agrees_bind; [apply agrees_act |]. intros sess. cbv zeta.
  apply agrees_bind; [apply agrees_SendResponse |]. intros [[out err]|]; [| done].
  apply agrees_bind; [apply agrees_act |]. intros _.
  apply agrees_bind; [destruct err; auto with agree |]. intros res.
  apply agrees_bind; [apply agrees_act | done].
Qed.

Lemma agrees_answer res : agrees (p_answer res) (answer res).
Proof. destruct res as [ack [err|]]; unfold p_answer, answer; auto with agree. Qed.

Lemma agrees_begin : agrees p_BeginDeviceClear Server_BeginDeviceClear.
Proof. unfold p_BeginDeviceClear, Server_BeginDeviceClear. agree. Qed.
Hint Resolve agrees_answer : agree.

(** What the reads and writes of the handlers come to when nothing is in between. *)
Lemma agrees_received {A} h (f : InterruptedKind -> HP A) k :
  (forall i, agrees (f i) (k i)) ->
  agrees (i ← act (rmt_received h); _ ← act (status_received h); f i) (receivedSyncMessage h ≫= k).
Proof.
  intros Hf st. rewrite run_seq, run_act.
  unfold receivedSyncMessage, rmt_received, mbind, M_bind, sess_gets, gets, sess_modify, modify, mret, M_ret.
  cbn. destruct (RMT_ReceivedSyncMessage _ _) as [i rmt]. cbn. apply Hf.
Qed.

Lemma agrees_ReceiveData ctx h b : agrees (p_ReceiveData ctx h b) (Server_ReceiveData ctx h b).
Proof.
  unfold p_ReceiveData, Server_ReceiveData. cbv zeta. destruct (_ && _); [done |].
  apply agrees_received. intros i. agree.
Qed.

Lemma agrees_Trigger ctx h : agrees (p_Trigger ctx h) (Server_Trigger ctx h).
Proof.
  unfold p_Trigger, Server_Trigger. case_bool_decide; [done |].
  apply agrees_bind; [apply agrees_act |]. intros sess. apply agrees_check; [done | done |].
  apply agrees_received. intros i. agree.
Qed.

Lemma agrees_CompleteDeviceClear ctx h :
  agrees (p_CompleteDeviceClear ctx h) (Server_CompleteDeviceClear ctx h).
Proof. unfold p_CompleteDeviceClear, Server_CompleteDeviceClear. agree. Qed.

Lemma agrees_StatusQuery ctx h : agrees (p_StatusQuery ctx h) (Server_StatusQuery ctx h).
Proof.
  unfold p_StatusQuery, Server_StatusQuery. case_bool_decide; [done |].
  apply agrees_bind; [apply agrees_act |]. intros sess. apply agrees_check; [done | done |]. cbv zeta.
  apply agrees_bind; [apply agrees_act |]. intros _.
  apply agrees_bind; [apply agrees_act |]. intros [device [err|]]; [done |]. intros st.
  rewrite run_seq, run_act. unfold status_byte, status_take, mbind, M_bind, sess_gets, gets, sess_modify, modify.
  cbn. destruct (Status_Byte _ _ _ _) as [stb status]. cbn.
  reflexivity.
Qed.

Lemma agrees_RemoteLocal ctx h : agrees (p_RemoteLocal ctx h) (Server_RemoteLocal ctx h).
Proof. unfold p_RemoteLocal, Server_RemoteLocal. cbv zeta. agree. Qed.

Lemma agrees_LockInfo h : agrees (p_LockInfo h) (Server_LockInfo h).
Proof. unfold p_LockInfo, Server_LockInfo. agree. Qed.

(** Alone, nobody operates on the locks while a request waits. *)
Lemma run_Request choices w (st : HState S D) :
  let (result, locks) := Request_exec (undisturbed choices) st.(hs_srv).(srv_locks) w in
  run (p_Request choices w) st = (result, (srv_modify (srv_set_locks locks) st).2).
Proof.
  revert w st. induction choices as [|ch choices IH]; intros w st.
  - destruct st as [[]]. simpl. by destruct (wt_phase w).
  - assert (Hstep : let (result, locks) :=
        match Request_step st.(hs_srv).(srv_locks) w ch with
        | None => Request_exec (undisturbed choices) st.(hs_srv).(srv_locks) w
        | Some (m, w) => Request_exec (undisturbed choices) m w
        end in
      run (w ← act (request_step w ch); p_Request choices w) st
        = (result, (srv_modify (srv_set_locks locks) st).2)).
    { rewrite run_seq, run_act. unfold request_step, mbind, M_bind, srv_gets, gets. cbn.
      destruct (Request_step _ w ch) as [[m w']|]; [| apply IH]. cbn.
      specialize (IH w' (srv_modify (srv_set_locks m) st).2). cbn in IH.
      by destruct (Request_exec _ m w'). }
    cbn [undisturbed map Request_exec p_Request]. destruct (wt_phase w); try exact Hstep. by destruct st as [[]].
Qed.

Lemma agrees_Lock choices h k : agrees (p_Lock choices h k) (Server_Lock (undisturbed choices) h k).
Proof.
  unfold p_Lock, Server_Lock. case_bool_decide; [done |].
  apply agrees_bind; [apply agrees_act |]. intros sess. apply agrees_check; [done | done |]. intros st.
  rewrite (bind_run (srv_gets srv_locks) _ st (srv_locks (hs_srv st)) st) by reflexivity.
  cbv zeta. case_bool_decide.
  - rewrite run_seq. unfold LockManager_Request.
    pose proof (run_Request (choices ++ expiry) (MkWaiter (Session_ID sess) k (h_Parameter h * Millisecond) Starting) st) as E.
    unfold undisturbed in E |- *. rewrite map_app in E.
    destruct (Request_exec _ _ _) as [result locks]. rewrite E. by destruct result.
  - case_bool_decide; [| done]. rewrite run_seq, run_act.
    unfold lock_release, mbind, M_bind, srv_gets, gets. cbn. by destruct (Release _ _) as [result locks].
Qed.
Hint Resolve agrees_respond agrees_ReceiveData agrees_Trigger
  agrees_CompleteDeviceClear agrees_StatusQuery agrees_RemoteLocal agrees_LockInfo agrees_Lock : agree.

Lemma agrees_handleData_end fuel ctx id buf :
  agrees (p_handleData_end fuel ctx id buf) (handleData_end fuel ctx id buf).
Proof.
  unfold p_handleData_end, handleData_end. intros st. rewrite run_seq, run_act.
  unfold disposition_act.
  rewrite !(bind_run (sess_gets Datatypes.id) _ st (hs_sess st) st) by reflexivity.
  destruct (Session_programDisposition (hs_sess st)) as [disposition sess'].
  set (st1 := (sess_modify (fun _ => sess') st).2).
  rewrite !(bind_run (sess_modify (fun _ => sess')) _ st tt st1) by reflexivity. cbn.
  destruct (bool_decide _); [| apply agrees_respond].
  exact (agrees_bind (act (on_tx Transaction_Complete)) _ _ _ (agrees_act _) (fun _ => agrees_ret _) st1).
Qed.
Hint Resolve agrees_handleData_end : agree.

(** Walk through a program and its handler side by side. *)
Ltac agree_step :=
  match goal with
  | |- agrees (p_check _ _ _) _ => apply agrees_check; [| intros ? |]
  | |- agrees (_ ≫= _) _ => apply agrees_bind; [| intros ?]
  | |- agrees (match ?x with _ => _ end) _ => destruct x
  | |- agrees _ _ => solve [auto with agree]
  end.
Ltac agree_all := cbv zeta; repeat agree_step.

Lemma agrees_handleData fuel ctx msg buf :
  agrees (p_handleData fuel ctx msg buf) (handleData fuel ctx msg buf).
Proof. unfold p_handleData, handleData. agree_all. Qed.
Hint Resolve agrees_handleData : agree.

(** The goal for one state, for all of them. *)
Ltac every_state st :=
  generalize st;
  match goal with |- forall st, run ?p st = ?m st => change (agrees p m) end.

Lemma agrees_handleSync fuel ctx msg buf :
  agrees (p_handleSync fuel ctx msg buf) (handleSync fuel ctx msg buf).
Proof.
  unfold p_handleSync, handleSync, p_handleSync_case. cbv zeta.
  destruct (msg_err msg) as [err|]; [agree_all |].
  intros st. rewrite !run_seq, !run_act.
  rewrite (bind_run (sess_gets id) _ st (hs_sess st) st) by reflexivity. cbn [sess_gets gets id].
  destruct (DiscardDuringClear _ _); [done |]. rewrite !run_seq, !run_act. cbn [srv_gets gets].
  rewrite (bind_run (srv_gets srv_cfg) _ st (srv_cfg (hs_srv st)) st) by reflexivity.
  rewrite run_seq, run_act. cbn [sess_gets gets id].
  destruct (Server_Accept _ _ _ _) as [class err]. every_state st. agree_all.
Qed.

(** The size of [handleAsync] is exchanged from the session it looked at before. *)
Lemma maxsize_alone (st : HState S D) n :
  maxsize_act n st =
    let '(resp, agreed, sess') := Server_MaximumMessageSize st.(hs_srv).(srv_cfg) st.(hs_sess) n in
    ((resp, agreed), (sess_modify (fun _ => sess') st).2).
Proof. reflexivity. Qed.

Lemma agrees_handleAsync choices ctx msg :
  agrees (p_handleAsync choices ctx msg) (handleAsync (undisturbed choices) ctx msg).
Proof.
  unfold p_handleAsync, handleAsync. cbv zeta. apply agrees_bind; [apply agrees_act |]. intros ok.
  destruct (negb ok); [done |]. destruct (msg_err msg) as [err|]; [agree_all |].
  intros st. rewrite !run_seq, !run_act. cbn [sess_gets srv_gets gets id].
  rewrite (bind_run (sess_gets id) _ st (hs_sess st) st) by reflexivity.
  rewrite run_seq, run_act. cbn [sess_gets srv_gets gets id].
  rewrite (bind_run (srv_gets srv_cfg) _ st (srv_cfg (hs_srv st)) st) by reflexivity.
  destruct (Server_Accept _ _ _ _).2 as [err|]; [every_state st; agree_all |].
  unfold p_handleAsync_case. cbv zeta. set (t := h_Type (msg_header msg)).
  destruct (bool_decide (t = AsyncDeviceClear)).
  { every_state st. unfold p_handleClear. apply agrees_assoc.
    apply agrees_bind; [| intros res; agree_all]. apply agrees_begin. }
  destruct (bool_decide (t = AsyncStatusQuery)); [every_state st; agree_all |].
  destruct (bool_decide (t = AsyncLock)); [every_state st; agree_all |].
  destruct (bool_decide (t = AsyncLockInfo)); [every_state st; agree_all |].
  destruct (bool_decide (t = AsyncRemoteLocalControl)); [every_state st; agree_all |].
  destruct (bool_decide (t = AsyncMaximumMessageSize)); [| every_state st; agree_all].
  rewrite run_seq, run_act, maxsize_alone. destruct (Server_MaximumMessageSize _ _ _) as [[resp agreed] sess'].
  rewrite (bind_run (sess_modify (fun _ => sess')) _ st tt (sess_modify (fun _ => sess') st).2) by reflexivity.
  every_state (sess_modify (S := S) (D := D) (fun _ => sess') st).2. agree_all.
Qed.

Lemma agrees_runSync fuel ctx inputs : agrees (p_runSync fuel ctx inputs) (runSync fuel ctx inputs).
Proof.
  unfold p_runSync, runSync. apply agrees_bind; [apply agrees_act |]. intros _.
  apply agrees_bind; [apply agrees_act |]. intros buf.
  induction inputs as [|[msg queued] inputs IH]; cbn [p_serve_loop serve_loop fst snd];
    (apply agrees_bind; [apply agrees_act |]); intros [|]; try done.
  apply agrees_bind; [apply agrees_act |]. intros _.
  apply agrees_bind; [apply agrees_handleSync |]. by intros [[err|]|].
Qed.

(** The handlers of the asynchronous channel do not touch what the reader of the
    synchronous one reports. *)
Fixpoint quiet {A} (p : HP A) : Prop :=
  match p with
  | Ret _ => True
  | Act m k => forall st, (m st).2.(hs_queued) = st.(hs_queued) /\ quiet (k (m st).1)
  end.

Lemma quiet_bind {A B} (p : HP A) (f : A -> HP B) : quiet p -> (forall a, quiet (f a)) -> quiet (p ≫= f).
Proof.
  intros Hp Hf. induction p as [a | C m k IH]; [apply Hf |].
  intros st. destruct (Hp st) as [Hm Hk]. split; [done | by apply IH].
Qed.
Lemma quiet_check {A} p (onerr : error -> HP A) k :
  quiet p -> (forall err, quiet (onerr err)) -> quiet k -> quiet (p_check p onerr k).
Proof. intros Hp He Hk. apply quiet_bind; [done |]. by intros [err|]. Qed.
Lemma run_quiet {A} (p : HP A) st : quiet p -> (run p st).2.(hs_queued) = st.(hs_queued).
Proof.
  revert st. induction p as [a | C m k IH]; intros st Hp; [done |]. cbn. unfold mbind, M_bind.
  destruct (Hp st) as [Hm Hk]. destruct (m st) as [c st']. by rewrite IH.
Qed.

Lemma quiet_tx f : quiet (act (on_tx f)).
Proof.
  intros st. split; [| done]. unfold on_tx, mbind, M_bind, sess_gets, gets. cbn. by destruct (f _).
Qed.
Lemma quiet_dev {A} ctx (f : D -> bool -> A * D) : quiet (act (on_dev ctx f)).
Proof.
  intros st. split; [| done]. unfold on_dev, mbind, M_bind, ctx_Err, srv_gets, gets. cbn. by destruct (f _ _).
Qed.
Lemma quiet_write sd h b : quiet (act (writer_Write sd h b)).
Proof.
  intros st. split; [| done]. unfold writer_Write. destruct (writer_of _ _); [| done].
  destruct (stream_of sd st); [| done]. destruct (MessageWriter_Write _ _ _ _) as [[err w] s']. by destruct sd.
Qed.
Lemma quiet_plain {A} (m : M (HState S D) A) : (forall st, (m st).2.(hs_queued) = st.(hs_queued)) -> quiet (act m).
Proof. intros Hm st. split; [apply Hm | done]. Qed.

Lemma quiet_Request choices w : quiet (p_Request choices w).
Proof.
  revert w. induction choices as [|ch choices IH]; intros w; cbn; [by destruct (wt_phase w) |].
  assert (Hs : quiet (w ← act (request_step w ch); p_Request choices w)).
  { apply quiet_bind; [| done]. apply quiet_plain. intros st. unfold request_step, mbind, M_bind, srv_gets, gets.
    cbn. by destruct (Request_step _ w ch) as [[m w']|]. }
  by destruct (wt_phase w).
Qed.

(** Walk through a program. *)
Ltac quiet_step :=
  match goal with
  | |- quiet (p_check _ _ _) => apply quiet_check; [| intros ? |]
  | |- quiet (_ ≫= _) => apply quiet_bind; [| intros ?]
  | |- quiet (Ret _) => exact I
  | |- quiet (act (on_tx _)) => apply quiet_tx
  | |- quiet (act (on_dev _ _)) => apply quiet_dev
  | |- quiet (act (writer_Write _ _ _)) => apply quiet_write
  | |- quiet (act (writer_WriteError _ _ _)) => apply quiet_write
  | |- quiet (act (writer_WriteFatalError _ _ _)) => apply quiet_write
  | |- quiet (p_Request _ _) => apply quiet_Request
  | |- quiet (act _) => apply quiet_plain; intros ?; reflexivity
  | |- quiet (match ?x with _ => _ end) => destruct x
  end.

Lemma quiet_report sd err : quiet (p_reportOperationError sd err).
Proof. unfold p_reportOperationError, p_report_fatal. cbv zeta. repeat quiet_step. Qed.

Lemma quiet_handleAsync_case choices ctx msg : quiet (p_handleAsync_case choices ctx msg).
Proof.
  assert (Ha : forall res, quiet (p_answer res)).
  { intros [h [err|]]; [apply quiet_report | apply quiet_write]. }
  unfold p_handleAsync_case, p_handleClear, p_BeginDeviceClear, p_StatusQuery, p_Lock, p_LockInfo, p_RemoteLocal.
  cbv zeta. repeat (quiet_step || apply Ha); apply quiet_plain; intros st.
  - unfold abortOperation, mbind, M_bind, sess_gets, gets. cbn. by destruct (Session_abortOperation _ _).
  - unfold status_byte, mbind, M_bind, sess_gets, gets. cbn. by destruct (Status_Byte _ _ _ _).
  - unfold lock_release, mbind, M_bind, srv_gets, gets. cbn. by destruct (Release _ _).
Qed.

Lemma quiet_handleAsync choices ctx msg : quiet (p_handleAsync choices ctx msg).
Proof.
  unfold p_handleAsync, p_reportReadError, p_reportAcceptError, p_report_fatal. cbv zeta.
  repeat (quiet_step || apply quiet_handleAsync_case).
Qed.

(** Messages that come while what waits on the other channel stays the same. *)
Definition steady_inputs (queued : bool) (inputs : list (message * list wait_choice))
  : list (message * list (list lock_op * wait_choice) * bool) :=
  map (fun x => (x.1, undisturbed x.2, queued)) inputs.

Lemma run_runAsync ctx inputs (st : HState S D) :
  run (p_runAsync ctx inputs) st = runAsync ctx (steady_inputs st.(hs_queued) inputs) st.
Proof.
  unfold p_runAsync, runAsync. revert st. induction inputs as [|[msg choices] inputs IH]; intros st;
    cbn [p_serve_loop serve_loop steady_inputs map fst snd]; rewrite run_seq, run_act;
    rewrite (bind_run (ctx_Err ctx) _ st (ctx_done st.(hs_cancelled) ctx) st) by reflexivity;
    cbn [ctx_Err gets]; destruct (ctx_done _ _); try done.
  rewrite run_seq, run_act. cbn [mret M_ret]. rewrite run_seq.
  pose proof (run_quiet (p_handleAsync choices ctx msg) st (quiet_handleAsync _ _ _)) as Hq.
  rewrite (bind_run (set_queued st.(hs_queued)) _ st tt st) by (by destruct st).
  pose proof (agrees_handleAsync choices ctx msg st) as E.
  destruct (run (p_handleAsync choices ctx msg) st) as [res st'] eqn:Er. simpl in Hq.
  rewrite (bind_run _ _ st res st') by done. destruct res as [[err|]|]; try done.
  rewrite IH, Hq. done.
Qed.
End Alone.

(** Run alone, the programs of the two loops are, in every state, the handlers and the
    loops of [Serve]. *)
Theorem goroutines_alone {S D} `{Stream S} `{Device D} (st : HState S D) :
  (forall fuel ctx msg buf, run (p_handleSync fuel ctx msg buf) st = handleSync fuel ctx msg buf st) /\
  (forall choices ctx msg,
     run (p_handleAsync choices ctx msg) st = handleAsync (undisturbed choices) ctx msg st) /\
  (forall fuel ctx inputs, run (p_runSync fuel ctx inputs) st = runSync fuel ctx inputs st) /\
  (forall ctx inputs,
     run (p_runAsync ctx inputs) st = runAsync ctx (steady_inputs st.(hs_queued) inputs) st).
Proof.
  split_and!; intros;
    [apply agrees_handleSync | apply agrees_handleAsync | apply agrees_runSync | apply run_runAsync].
Qed.
