(* ===== verification/ClearRace.v ===== *)
(** * A Device Clear during a response

    The synchronous goroutine streams a response ([handleData] in
    [src/server/serve.go], [SendResponse] in [src/server/data.go]) while the
    asynchronous one handles an AsyncDeviceClear ([BeginDeviceClear] in
    [src/server/clear.go]): the programs of [Programs], interleaved. Together they
    never end the session, and the Device Clear always takes effect. *)

From S2P Require Import Prelude Interleave Errors Version Constants MessageId Stream Header Codec.
From S2P Require Import WireErrors Writer Rmt Status Transaction Policy Locks LockWait Config.
From S2P Require Import Device TestDevice Session Server Initialize Handler Dispatch Data Clear.
From S2P Require Import Async Reader Serve Programs.

(** ** Together *)
Section Together.
Context {S D : Type} `{StreamModel S} `{Device D}.
Implicit Types st : HState S D.
Local Abbreviation HP := (prog (HState S D)).

Definition is_clearing st : Prop := st.(hs_sess).(ss_tx).(tx_state) = TxClearing.

(** What the response may do to the session, and what the Device Clear may. *)
Definition resp_does st st' : Prop :=
  up st -> up st' /\ st'.(hs_sess).(ss_maxTx) = st.(hs_sess).(ss_maxTx) /\
  st'.(hs_sess).(ss_state) = st.(hs_sess).(ss_state) /\ (is_clearing st' -> is_clearing st) /\
  st'.(hs_srv).(srv_cfg) = st.(hs_srv).(srv_cfg).
Definition clear_does st st' : Prop :=
  up st -> up st' /\ st'.(hs_sess).(ss_maxTx) = st.(hs_sess).(ss_maxTx) /\
  st'.(hs_srv).(srv_dev) = st.(hs_srv).(srv_dev) /\
  (st.(hs_sess).(ss_opCancel) = None -> st'.(hs_sess).(ss_opCancel) = None).

Context (mt : Z).

(** What the response knows between its actions. *)
Definition knows (d : D) st : Prop :=
  up st /\ st.(hs_sess).(ss_maxTx) = mt /\ st.(hs_srv).(srv_dev) = d.

Lemma knows_stable d st st' : knows d st -> clear_does st st' -> knows d st'.
Proof. intros (Hu & Hm & Hd) Hc. destruct (Hc Hu) as (Hu' & Hm' & Hd' & _). unfold knows. naive_solver. Qed.

Lemma knows_stable_rtc d st st' : rtc clear_does st st' -> knows d st -> knows d st'.
Proof. induction 1; eauto using knows_stable. Qed.

(** The condition of a part of the response: it starts from a device and ends with
    a result and a device. *)
Definition part {A} (d : D) (p : HP A) (Q : A -> D -> Prop) : Prop :=
  forall st, knows d st ->
    wp clear_does resp_does p (fun a st' => exists d', Q a d' /\ knows d' st') st.

Lemma part_ret {A} d (a : A) (Q : A -> D -> Prop) : Q a d -> part d (Ret a) Q.
Proof. intros Ha st Hk st' Hr. exists d. split; [done | by eapply knows_stable_rtc]. Qed.

Lemma part_bind {A B} d (p : HP A) (f : A -> HP B) Q R :
  part d p Q -> (forall a d', Q a d' -> part d' (f a) R) -> part d (p ≫= f) R.
Proof.
  intros Hp Hf st Hk. apply wp_bind. eapply wp_mono; [| by apply Hp].
  intros a st' (d' & Ha & Hk'). by eapply Hf.
Qed.

Lemma part_mono {A} d (p : HP A) (Q R : A -> D -> Prop) :
  (forall a d', Q a d' -> R a d') -> part d p Q -> part d p R.
Proof. intros HQ Hp st Hk. eapply wp_mono; [| by apply Hp]. intros a st' (d' & ? & ?). eauto. Qed.

(** An action on a session with its channels up. *)
Definition keeps_up {A} (m : M (HState S D) A) (Q : A -> D -> D -> Prop) : Prop :=
  forall srv sess ch e, chans_up ch -> exists a srv' sess' ch' e',
    m (live srv sess ch e) = (a, live srv' sess' ch' e') /\ chans_up ch' /\
    sess'.(ss_maxTx) = sess.(ss_maxTx) /\ sess'.(ss_state) = sess.(ss_state) /\
    (sess'.(ss_tx).(tx_state) = TxClearing -> sess.(ss_tx).(tx_state) = TxClearing) /\
    srv'.(srv_cfg) = srv.(srv_cfg) /\ Q a srv.(srv_dev) srv'.(srv_dev).

Lemma keeps_up_does {A} (m : M (HState S D) A) Q d st :
  keeps_up m Q -> knows d st ->
  resp_does st (m st).2 /\ exists d', Q (m st).1 d d' /\ knows d' (m st).2.
Proof.
  intros Hm ((srv & sess & ch & e & -> & Hc) & Hmt & Hd).
  destruct (Hm srv sess ch e Hc) as (a & srv' & sess' & ch' & e' & E & Hc' & E1 & E2 & E3 & E4 & HQ).
  rewrite E. simpl in *. split.
  - intros _. split_and!; try done. by exists srv', sess', ch', e'.
  - exists (srv_dev srv'). subst d. split; [done |]. split_and!; [by exists srv', sess', ch', e' | | done].
    simpl. congruence.
Qed.

Lemma part_act {A} d (m : M (HState S D) A) Q :
  keeps_up m Q -> part d (act m) (fun a d' => Q a d d').
Proof.
  intros Hm st Hk st' Hr. apply (knows_stable_rtc d) in Hr; [| done].
  destruct (keeps_up_does m Q d st' Hm Hr) as [HG (d' & HQ & Hk')]. split; [done |].
  intros st'' Hr'. exists d'. split; [done | by eapply knows_stable_rtc].
Qed.

(** The errors a response can meet on live channels. *)
Definition benign (err : option error) : Prop :=
  err = None \/ err = Some (serr ErrInvalidTransition).
Definition same_dev {A} (P : A -> Prop) (a : A) (d d' : D) : Prop := P a /\ d' = d.

Lemma part_check {A} d (m : M (HState S D) (option error)) P onerr (k : HP A) Q :
  keeps_up m (same_dev P) -> (forall err, P (Some err) -> part d (onerr err) Q) ->
  (P None -> part d k Q) -> part d (p_check (act m) onerr k) Q.
Proof.
  intros Hm He Hk. eapply part_bind; [by apply part_act |].
  intros [err|] d' [HP ->]; auto.
Qed.

(** *** The actions *)

Lemma To_benign t next : benign (Transaction_To t next).1.
Proof. unfold Transaction_To, benign. repeat case_match; auto. Qed.

Lemma To_not_clearing t next :
  next <> TxClearing -> (Transaction_To t next).2.(tx_state) = TxClearing -> t.(tx_state) = TxClearing.
Proof. intros Hn. unfold Transaction_To. repeat case_match; simpl; intros; congruence. Qed.

(** A transaction method of the response. *)
Definition resp_method (f : Transaction -> option error * Transaction) : Prop :=
  forall t, benign (f t).1 /\ ((f t).2.(tx_state) = TxClearing -> t.(tx_state) = TxClearing).

Lemma method_To next : next <> TxClearing -> resp_method (fun t => Transaction_To t next).
Proof. intros Hn t. split; [apply To_benign | by apply To_not_clearing]. Qed.
Lemma method_Complete : resp_method Transaction_Complete.
Proof.
  intros t. unfold Transaction_Complete. pose proof (To_benign t TxIdle) as Hb.
  pose proof (To_not_clearing t TxIdle ltac:(done)) as Hc.
  destruct (Transaction_To t TxIdle) as [[e|] t']; simpl in *; [done |]. split; [by left | done].
Qed.

Lemma upkeep_tx f : resp_method f -> keeps_up (on_tx f) (same_dev benign).
Proof.
  intros Hf srv sess ch e Hc. destruct (Hf (ss_tx sess)) as [Hb Hn]. rewrite live_on_tx.
  eexists _, srv, _, ch, e. split_and!; try done.
Qed.

Lemma upkeep_write_sync h payload :
  MessageType_LegalOn h.(h_Type) ChannelSynchronous = true ->
  (h.(h_Length) = 0 \/ h.(h_Length) = len payload) ->
  keeps_up (writer_Write SyncSide h payload) (same_dev (eq None)).
Proof.
  intros Hl Hp srv sess ch e Hc. destruct (live_write_sync srv sess ch e h payload Hc Hl Hp) as (ch' & -> & Hs).
  eexists _, srv, sess, ch', e. split_and!; try done. by eapply sends_up.
Qed.

Lemma upkeep_write_async h payload :
  MessageType_LegalOn h.(h_Type) ChannelAsynchronous = true ->
  (h.(h_Length) = 0 \/ h.(h_Length) = len payload) ->
  keeps_up (writer_Write AsyncSide h payload) (same_dev (eq None)).
Proof.
  intros Hl Hp srv sess ch e Hc. destruct (live_write_async srv sess ch e h payload Hc Hl Hp) as (ch' & -> & Hs).
  eexists _, srv, sess, ch', e. split_and!; try done. by eapply sends_up.
Qed.

(** An assignment to other fields than the writers. *)
Lemma upkeep_modify f :
  (forall w w' s, f (Session_setSyncWriter w (Session_setAsyncWriter w' s))
     = Session_setSyncWriter w (Session_setAsyncWriter w' (f s))) ->
  (forall s, (f s).(ss_maxTx) = s.(ss_maxTx) /\ (f s).(ss_state) = s.(ss_state) /\ (f s).(ss_tx) = s.(ss_tx)) ->
  keeps_up (sess_modify f) (same_dev (fun _ => True)).
Proof.
  intros Hw Hf srv sess ch e Hc. destruct (Hf sess) as (E1 & E2 & E3).
  exists tt, srv, (f sess), ch, e. split_and!; try done; [| congruence].
  unfold sess_modify, modify, live. simpl. by rewrite Hw.
Qed.

Lemma upkeep_pending b : keeps_up (setResponsePending b) (same_dev (fun _ => True)).
Proof. by apply upkeep_modify. Qed.

Lemma upkeep_gets {A} (f : HState S D -> A) : keeps_up (gets f) (same_dev (fun _ => True)).
Proof. intros srv sess ch e Hc. by eexists _, srv, sess, ch, e. Qed.

Lemma upkeep_has_writer sd : keeps_up (has_writer sd) (same_dev (fun ok => ok = true)).
Proof.
  intros srv sess ch e Hc. exists true, srv, sess, ch, e.
  split_and!; try done. by destruct sd.
Qed.

Lemma upkeep_count f : keeps_up (count f) (same_dev (fun _ => True)).
Proof. intros srv sess ch e Hc. by eexists _, (srv_count f srv), sess, ch, e. Qed.

Lemma upkeep_read ctx n :
  keeps_up (on_dev ctx (fun d c => dev_Read d c n)) (fun a d d' => exists c, dev_Read d c n = (a, d')).
Proof.
  intros srv sess ch e Hc. rewrite live_on_dev.
  eexists _, _, sess, ch, e. split_and!; try done. simpl.
  exists (ctx_done (e_cancelled e) ctx). by destruct (dev_Read _ _ _).
Qed.

Lemma upkeep_begin ctx : keeps_up (begin_operation ctx) (same_dev (fun c => exists n, c = n :: ctx)).
Proof.
  intros srv sess ch e Hc. eexists _, srv, (ss_set_opCancel (Some (e_nextctx e)) sess), ch,
    (MkEnv (e_cancelled e) (Datatypes.S (e_nextctx e)) (e_queued e)).
  split_and!; try done. split; [| done]. by eexists.
Qed.

(** *** The parts of the response *)

Definition calm {A} (d : D) (p : HP A) (P : A -> Prop) : Prop :=
  part d p (fun a d' => P a /\ d' = d).

Lemma calm_act {A} d (m : M (HState S D) A) P : keeps_up m (same_dev P) -> calm d (act m) P.
Proof. intros Hm. exact (part_act d m _ Hm). Qed.

Lemma calm_ret {A} d (a : A) (P : A -> Prop) : P a -> calm d (Ret a) P.
Proof. intros Ha. by apply part_ret. Qed.

Lemma calm_bind {A B} d (p : HP A) (f : A -> HP B) P Q :
  calm d p P -> (forall a, P a -> calm d (f a) Q) -> calm d (p ≫= f) Q.
Proof. intros Hp Hf. eapply part_bind; [exact Hp |]. intros a d' [Ha ->]. by apply Hf. Qed.

Lemma calm_check {A} d p P (onerr : error -> HP A) k Q :
  calm d p P -> (forall err, P (Some err) -> calm d (onerr err) Q) -> (P None -> calm d k Q) ->
  calm d (p_check p onerr k) Q.
Proof. intros Hp He Hk. eapply calm_bind; [exact Hp |]. intros [err|] HP; auto. Qed.

Lemma calm_tx d f : resp_method f -> calm d (act (on_tx f)) benign.
Proof. intros Hf. by apply calm_act, upkeep_tx. Qed.

Lemma calm_write d h payload :
  MessageType_LegalOn h.(h_Type) ChannelSynchronous = true ->
  (h.(h_Length) = 0 \/ h.(h_Length) = len payload) ->
  calm d (act (writer_Write SyncSide h payload)) (eq None).
Proof. intros. by apply calm_act, upkeep_write_sync. Qed.

Lemma calm_modify d f :
  (forall w w' s, f (Session_setSyncWriter w (Session_setAsyncWriter w' s))
     = Session_setSyncWriter w (Session_setAsyncWriter w' (f s))) ->
  (forall s, (f s).(ss_maxTx) = s.(ss_maxTx) /\ (f s).(ss_state) = s.(ss_state) /\ (f s).(ss_tx) = s.(ss_tx)) ->
  calm d (act (sess_modify f)) (fun _ => True).
Proof. intros. by apply calm_act, upkeep_modify. Qed.

(** The report of a refused transition goes out as an Error and ends nothing. *)
Lemma calm_report_transition d :
  calm d (p_reportOperationError SyncSide (serr ErrInvalidTransition)) (fun res => res = None).
Proof.
  unfold p_reportOperationError. cbv zeta. cbn [WireErrorFor we_Fatal].
  eapply calm_bind; [apply calm_act, upkeep_count |]. intros _ _.
  eapply calm_bind; [apply calm_act, upkeep_has_writer |]. intros ok ->. cbn [negb].
  eapply part_mono; [| apply calm_write; [done | by left]]. by intros a d' [<- ->].
Qed.

Lemma calm_terminate d r b : calm d (p_terminate r b) benign.
Proof.
  unfold p_terminate. eapply calm_check; [apply calm_write; [done | by right] | done |]. intros _.
  eapply calm_bind; [by apply calm_modify |]. intros _ _.
  eapply calm_bind; [by apply calm_modify |]. intros _ _.
  apply calm_tx, method_Complete.
Qed.

Lemma calm_absent d r : calm d (p_completeAbsentResponse r) (fun res => benign res.2).
Proof.
  unfold p_completeAbsentResponse.
  eapply calm_check; [apply calm_write; [done | by left] | done |]. intros _.
  eapply calm_check; [by apply calm_tx, method_To | intros err He; by apply calm_ret |]. intros _.
  eapply calm_check; [apply calm_terminate | intros err He; by apply calm_ret |]. intros _.
  apply calm_ret. by left.
Qed.

Lemma calm_interrupted d r : calm d (p_sendInterrupted r) benign.
Proof.
  unfold p_sendInterrupted.
  eapply calm_check; [by apply calm_tx, method_To | intros err He; by apply calm_ret |]. intros _.
  eapply calm_bind; [by apply calm_act, upkeep_pending |]. intros _ _.
  eapply calm_check; [apply calm_act, upkeep_write_async; [done | by left] | done |]. intros _.
  eapply calm_check; [apply calm_write; [done | by left] | done |]. intros _.
  apply calm_tx, method_Complete.
Qed.

Lemma calm_deliver d r b fin err n :
  calm d (p_deliver_chunk r b fin err n)
    (fun res => match res with inl (_, e) => benign (Some e) | inr _ => True end).
Proof.
  unfold p_deliver_chunk. case_bool_decide; [| by apply calm_ret].
  eapply calm_check; [by apply calm_tx, method_To | intros e He; by apply calm_ret |]. intros _.
  destruct (_ || _); [| by apply calm_ret].
  eapply calm_check; [apply calm_write; [done | by right] | done |]. intros _. by apply calm_ret.
Qed.

(** A round ends the response when the instrument ended or failed. *)
Lemma calm_after_read d r b fin err n :
  calm d (p_after_read r b fin err n) (fun res => match res with
    | Some (_, e) => benign e
    | None => fin = false /\ err = None
    end).
Proof.
  unfold p_after_read. case_bool_decide as Herr.
  - case_bool_decide.
    + eapply calm_bind; [apply calm_absent |]. intros [out e] He. by apply calm_ret.
    + eapply calm_check; [apply calm_write; [done | by left] | done |]. intros _.
      eapply calm_check; [apply calm_terminate | intros e He; by apply calm_ret |]. intros _.
      apply calm_ret. by left.
  - destruct fin; cbn [negb]; [| by apply calm_ret].
    eapply calm_bind; [apply calm_act, upkeep_gets |]. intros [|] _.
    + eapply calm_check; [apply calm_interrupted | intros e He; by apply calm_ret |]. intros _.
      apply calm_ret. by left.
    + eapply calm_check; [by apply calm_tx, method_To | intros e He; by apply calm_ret |]. intros _.
      eapply calm_check; [apply calm_terminate | intros e He; by apply calm_ret |]. intros _.
      apply calm_ret. by left.
Qed.

(** The instrument ends or fails its answer within [fuel] reads of [n] bytes, whether
    or not a read sees its context cancelled. *)
Fixpoint dev_finishes (n : Z) (fuel : nat) (d : D) : Prop :=
  match fuel with
  | O => False
  | Datatypes.S fuel => forall c, match dev_Read d c n with
      | (_, fin, err, d') => err <> None \/ fin = true \/ dev_finishes n fuel d'
      end
  end.

Definition benign_result (res : option (ResponseOutcome * option error)) : Prop :=
  exists out err, res = Some (out, err) /\ benign err.

Lemma part_loop fuel ctx r n d :
  dev_finishes r.(r_Scratch) fuel d ->
  part d (p_loop fuel ctx r n) (fun res _ => benign_result res).
Proof.
  revert n d. induction fuel as [|fuel IH]; intros n d Hf; [done |]. cbn [p_loop].
  eapply part_bind; [apply part_act, upkeep_read |]. intros [[b fin] err] d' [c Er].
  specialize (Hf c). rewrite Er in Hf.
  eapply part_bind; [apply calm_deliver |]. intros [[out e] | n'] ? [He ->].
  { apply part_ret. by exists out, (Some e). }
  eapply part_bind; [apply calm_after_read |]. intros [[out e]|] ? [Hr ->].
  - apply part_ret. by exists out, e.
  - destruct Hr as [-> ->], Hf as [Hf | [Hf | Hf]]; [done | done | by apply IH].
Qed.

Lemma part_get_sess d :
  part d (act (sess_gets id)) (fun s d' => d' = d /\ s.(ss_maxTx) = mt /\
    s.(ss_syncW) <> None /\ Session_AsyncWriter s <> None).
Proof.
  intros st Hk st' Hr. apply (knows_stable_rtc d) in Hr; [| done]. split.
  { intros Hu. by split_and!. }
  intros st'' Hr'. exists d. split; [| by eapply knows_stable_rtc].
  destruct Hr as ((srv & sess & ch & e & -> & Hc) & Hm & Hd). by split_and!.
Qed.

Lemma part_SendResponse fuel ctx r d :
  r.(r_Sync) = true -> r.(r_Async) = true -> 0 < r.(r_Scratch) <= mt ->
  is_Some r.(r_InputQueued) -> dev_finishes r.(r_Scratch) fuel d ->
  part d (p_SendResponse fuel ctx r) (fun res _ => benign_result res).
Proof.
  intros Hs Ha Hb Hq Hf. unfold p_SendResponse.
  eapply part_bind; [apply part_get_sess |]. intros sess ? (-> & Hm & _).
  rewrite validate_ok by (done || lia).
  eapply part_check; [by apply upkeep_tx, method_To | |].
  { intros err He. apply part_ret. by eexists _, _. }
  intros _. eapply part_bind; [apply calm_act, upkeep_pending |]. intros _ ? [_ ->].
  eapply part_bind; [by apply part_loop |]. intros res d' (out & err & -> & He).
  eapply part_bind; [apply calm_act, upkeep_pending |]. intros _ ? [_ ->].
  apply part_ret. by eexists _, _.
Qed.

(** *** The two handlers *)

Lemma part_then {A B} d (p : HP A) (f : A -> HP B) Q R st :
  part d p Q -> (forall a d' st, Q a d' -> knows d' st -> wp clear_does resp_does (f a) R st) ->
  knows d st -> wp clear_does resp_does (p ≫= f) R st.
Proof.
  intros Hp Hf Hk. apply wp_bind. eapply wp_mono; [| by apply Hp].
  intros a st' (d' & Ha & Hk'). by eapply Hf.
Qed.

Definition responded (res : option (option error)) st : Prop :=
  res = Some None /\ up st /\ st.(hs_sess).(ss_opCancel) = None.

Lemma up_opCancel_stable st st' :
  rtc clear_does st st' -> up st -> st.(hs_sess).(ss_opCancel) = None ->
  up st' /\ st'.(hs_sess).(ss_opCancel) = None.
Proof. induction 1 as [| st1 st2 st3 Hc _ IH]; [done |]. intros Hu Ho. destruct (Hc Hu) as (? & _ & _ & ?). auto. Qed.

Lemma wp_end d n ctx st : knows d st ->
  wp clear_does resp_does (_ ← act (end_operation (n :: ctx)); Ret (Some None)) responded st.
Proof.
  intros Hk st' Hr. apply (knows_stable_rtc d) in Hr; [| done].
  destruct Hr as ((srv & sess & ch & e & -> & Hc) & _ & _).
  set (e' := MkEnv ({[n]} ∪ e.(e_cancelled)) e.(e_nextctx) e.(e_queued)).
  assert ((end_operation (n :: ctx) (live srv sess ch e)).2 = live srv (ss_set_opCancel None sess) ch e') as ->.
  { unfold end_operation, modify, Operation_release. simpl.
    case_bool_decide as Ho; [done |]. destruct sess; simpl in *. by subst. }
  split.
  - intros _. split_and!; try done. by eexists _, _, _, _.
  - intros st'' Hr'. split; [done |]. apply (up_opCancel_stable _ _ Hr'); [by eexists _, _, _, _ | done].
Qed.

Lemma wp_respond fuel ctx id buf d st :
  0 < mt -> 0 < buf -> dev_finishes (responseScratch buf mt) fuel d -> knows d st ->
  wp clear_does resp_does (p_respond fuel ctx id buf) responded st.
Proof.
  intros Hmt Hbuf Hf Hk. unfold p_respond.
  eapply part_then; [apply part_act, upkeep_begin | | exact Hk]. clear st Hk.
  intros opCtx d1 st [[n ->] ->] Hk. eapply part_then; [apply part_get_sess | | exact Hk]. clear st Hk.
  intros sess d1 st (-> & Hm & Hw & Hwa) Hk. cbv zeta. unfold Session_MaxTxPayload. rewrite Hm.
  rewrite !bool_decide_eq_true_2 by done.
  eapply part_then; [apply part_SendResponse; simpl; try done; by apply responseScratch_fits | | exact Hk].
  clear st Hk. intros res d1 st (out & err & -> & He) Hk.
  eapply part_then; [apply part_act, upkeep_count | | exact Hk]. clear st Hk. intros [] d2 st [_ ->] Hk.
  eapply (part_then d1 _ _ (fun a d' => a = None /\ d' = d1)); [| | exact Hk].
  - destruct He as [-> | ->]; [by apply part_ret |].
    apply calm_report_transition.
  - clear st Hk. intros a ? st [-> ->] Hk. by eapply wp_end.
Qed.

(** What the Device Clear knows between its actions; [fresh] before it has cleared the
    transaction. *)
Definition session_at (cfg : Config) (fresh : bool) (s : State) st : Prop :=
  up st /\ st.(hs_srv).(srv_cfg) = cfg /\ st.(hs_sess).(ss_state) = s /\
  (fresh = true -> ~ is_clearing st).

Lemma session_at_stable cfg fresh s st st' :
  rtc resp_does st st' -> session_at cfg fresh s st -> session_at cfg fresh s st'.
Proof.
  induction 1 as [| st1 st2 st3 Hr _ IH]; [done |]. intros (Hu & Hg & Hs & Hc). apply IH.
  destruct (Hr Hu) as (? & _ & ? & ? & ?).
  unfold session_at. split_and!; [done | congruence | congruence | tauto].
Qed.

(** An action of the Device Clear, from one of these to another. *)
Definition clears {A} (m : M (HState S D) A) (fresh fresh' : bool) (s s' : State)
    (R : Config -> A -> Prop) : Prop :=
  forall srv sess ch e, chans_up ch -> sess.(ss_state) = s ->
    (fresh = true -> sess.(ss_tx).(tx_state) <> TxClearing) ->
    exists a sess' ch' e', m (live srv sess ch e) = (a, live srv sess' ch' e') /\ chans_up ch' /\
    sess'.(ss_maxTx) = sess.(ss_maxTx) /\ (sess.(ss_opCancel) = None -> sess'.(ss_opCancel) = None) /\
    sess'.(ss_state) = s' /\ (fresh' = true -> sess'.(ss_tx).(tx_state) <> TxClearing) /\
    R srv.(srv_cfg) a.

Lemma wp_clears {A B} cfg (m : M (HState S D) A) fresh fresh' s s' R (f : A -> HP B) Q st :
  clears m fresh fresh' s s' R -> session_at cfg fresh s st ->
  (forall a st, R cfg a -> session_at cfg fresh' s' st -> wp resp_does clear_does (f a) Q st) ->
  wp resp_does clear_does (act m ≫= f) Q st.
Proof.
  intros Hm Hs Hf st' Hr. apply (session_at_stable cfg fresh s) in Hr; [| done].
  destruct Hr as ((srv & sess & ch & e & -> & Hc) & Hg & Hs' & Hcl).
  destruct (Hm srv sess ch e Hc Hs' Hcl) as (a & sess' & ch' & e' & E & Hc' & E1 & E2 & E3 & E4 & HR).
  rewrite E. simpl in *. split.
  - intros _. split_and!; try done. by eexists _, _, _, _.
  - subst cfg. apply Hf; [done |]. split_and!; try done. by eexists _, _, _, _.
Qed.

Lemma clears_get {A} fresh s (f : Server D -> Session -> A) (R : Config -> A -> Prop) :
  (forall srv sess w w', sess.(ss_state) = s ->
     R srv.(srv_cfg) (f srv (Session_setSyncWriter w (Session_setAsyncWriter w' sess)))) ->
  clears (gets (fun st => f st.(hs_srv) st.(hs_sess))) fresh fresh s s R.
Proof. intros HR srv sess ch e Hc Hs Hcl. eexists _, sess, ch, e. split_and!; try done. by apply HR. Qed.

Lemma clears_abort fresh s : clears abortOperation fresh fresh s s (fun _ _ => True).
Proof.
  intros srv sess ch e Hc Hs Hcl.
  set (can := match sess.(ss_opCancel) with Some c => {[c]} ∪ e.(e_cancelled) | None => e.(e_cancelled) end).
  exists tt, (ss_set_opCancel None sess), ch, (MkEnv can e.(e_nextctx) e.(e_queued)).
  split_and!; try done. unfold abortOperation, modify, Session_abortOperation. simpl. subst can.
  destruct (ss_opCancel sess) eqn:Eo; [done |]. destruct sess; simpl in *. by subst.
Qed.

Lemma clears_pending fresh s b : clears (setResponsePending b) fresh fresh s s (fun _ _ => True).
Proof.
  intros srv sess ch e Hc Hs Hcl.
  exists tt, (ss_set_status (Status_SetResponsePending (ss_status sess) b) sess), ch, e. by split_and!.
Qed.

Lemma clears_tx s : clears (on_tx Transaction_Clear) true false s s (fun _ res => res = None).
Proof.
  intros srv sess ch e Hc Hs Hcl. rewrite live_on_tx. eexists _, _, ch, e. split_and!; try done.
  specialize (Hcl eq_refl). destruct (ss_tx sess) as [t i]. by destruct t.
Qed.

Lemma clears_begin : clears (sess_modify Session_beginClear) false false StateReady StateClearing (fun _ _ => True).
Proof.
  intros srv sess ch e Hc Hs Hcl. exists tt, (ss_set_state StateClearing sess), ch, e. split_and!; try done.
  unfold sess_modify, modify, Session_beginClear. simpl. by rewrite Hs.
Qed.

Lemma clears_write fresh s h :
  MessageType_LegalOn h.(h_Type) ChannelAsynchronous = true -> h.(h_Length) = 0 ->
  clears (writer_Write AsyncSide h []) fresh fresh s s (fun _ res => res = None).
Proof.
  intros Hl Hn srv sess ch e Hc Hs Hcl.
  destruct (live_write_async srv sess ch e h [] Hc Hl) as (ch' & -> & Hsd); [by left |].
  eexists _, sess, ch', e. split_and!; try done. by eapply sends_up.
Qed.

Definition acknowledged (cfg : Config) (res : option error) st : Prop :=
  res = None /\ session_at cfg false StateClearing st.

Lemma wp_handleClear cfg st :
  session_at cfg true StateReady st ->
  wp resp_does clear_does p_handleClear (acknowledged cfg) st.
Proof.
  intros Hs. unfold p_handleClear. apply wp_bind. unfold p_BeginDeviceClear.
  eapply (wp_clears cfg _ true true StateReady StateReady (fun _ sess => sess.(ss_state) = StateReady));
    [by apply (clears_get _ _ (fun _ s => s)) | exact Hs |]. clear st Hs. intros sess st Hss Hs.
  assert (Session_requireReady sess = None) as -> by (unfold Session_requireReady, Session_State; by rewrite Hss).
  cbn [p_check mbind prog_MBind prog_bind].
  eapply (wp_clears cfg); [apply clears_abort | exact Hs |]. clear st Hs. intros [] st _ Hs.
  eapply (wp_clears cfg); [apply clears_pending | exact Hs |]. clear st Hs. intros [] st _ Hs.
  unfold p_check. eapply (wp_clears cfg); [apply clears_tx | exact Hs |]. clear st Hs. intros ? st -> Hs.
  eapply (wp_clears cfg); [apply clears_begin | exact Hs |]. clear st Hs. intros [] st _ Hs.
  eapply (wp_clears cfg _ false false StateClearing StateClearing (fun _ _ => True));
    [by apply (clears_get _ _ (fun srv _ => srv_cfg srv)) | exact Hs |]. clear st Hs. intros cfg' st _ Hs.
  intros st' Hr. apply (session_at_stable cfg false StateClearing) in Hr; [| done].
  change (wp resp_does clear_does (act (writer_Write AsyncSide
    (MkHeader AsyncDeviceClearAcknowledge (Config_featureBitmap cfg' FeatureOverlapped) 0 0) []) ≫= Ret)
    (acknowledged cfg) st').
  eapply (wp_clears cfg); [by apply clears_write | exact Hr |]. clear. intros ? st -> Hs st' Hr.
  split; [done | by eapply session_at_stable].
Qed.
End Together.

(** C4: A Device Clear that arrives while a response is being sent takes effect,
    whatever the interleaving. In a ready session that is not already clearing, on
    live channels and with an instrument that ends or fails its answer within the
    given reads, the response handler of the synchronous goroutine and the
    AsyncDeviceClear handler of the asynchronous one run action by action in any
    order. Every schedule ends, both handlers have then returned without an error, so
    both channel loops go on; the channels are up, the session is in its clearing
    state, no operation is registered, and the second half of the Device Clear leaves
    the session as it was opened. *)
Theorem clear_during_a_response {S D} `{StreamModel S} `{Device D}
    fuel ctx id buf (srv : Server D) sess (ch : Chans S) e h :
  chans_up ch -> srv.(srv_cfg).(cfg_SupportsOverlap) = false ->
  sess.(ss_state) = StateReady -> sess.(ss_tx).(tx_state) <> TxClearing ->
  0 < buf -> 0 < sess.(ss_maxTx) ->
  dev_finishes (responseScratch buf sess.(ss_maxTx)) fuel srv.(srv_dev) ->
  h.(h_Type) = DeviceClearComplete ->
  let c := (p_respond fuel ctx id buf, p_handleClear, live srv sess ch e) in
  sn par_step c /\
  forall c', rtc par_step c c' -> nf par_step c' ->
  exists srv' sess' ch' e', c' = (Ret (Some None), Ret None, live srv' sess' ch' e') /\
  chans_up ch' /\ sess'.(ss_state) = StateClearing /\ sess'.(ss_opCancel) = None /\
  exists sess'' err d,
  Server_CompleteDeviceClear ctx h (live srv' sess' ch' e')
    = ((MkHeader DeviceClearAcknowledge 0 0 0, err), live (srv_set_dev d srv') sess'' ch' e') /\
  cleared sess''.
Proof.
  intros Hc Hov Hst Htx Hbuf Hmt Hdev Hh c. split; [apply par_terminates |].
  intros [[p q] st] Hr Hn. destruct (par_nf _ _ _ Hn) as (a & b & -> & ->).
  assert (Hup : up (live srv sess ch e)) by by eexists _, _, _, _.
  destruct (wp_par clear_does resp_does resp_does clear_does (p_respond fuel ctx id buf) p_handleClear
    responded (acknowledged srv.(srv_cfg)) (live srv sess ch e) (Ret a, Ret b, st)
    (fun _ _ Hx => Hx) (fun _ _ Hx => Hx)) as [Hp Hq]; [.. | exact Hr |].
  - by apply (wp_respond sess.(ss_maxTx) fuel ctx id buf srv.(srv_dev)).
  - by apply wp_handleClear.
  - destruct (Hp st) as (-> & (srv' & sess' & ch' & e' & -> & Hc') & Hop); [done |].
    destruct (Hq (live srv' sess' ch' e')) as (-> & _ & Hcfg & Hs & _); [done |]. simpl in *.
    exists srv', sess', ch', e'. split_and!; try done.
    destruct (CompleteDeviceClear_live ctx h srv' sess' ch' e') as (sess'' & E2 & Hcl & _);
      [congruence | done | done | done |].
    destruct (dev_Clear (srv_dev srv') _) as [err d]. by exists sess'', err, d.
Qed.

(** The eleven bytes of the instrument's answer, four at a time. *)
Lemma demo_dev_finishes : dev_finishes 4 3 (demo_server 1).(srv_dev).
Proof.
  intros c1. right; right. intros c2. right; right. intros c3. right; left. reflexivity.
Qed.

Lemma clear_during_a_response_witness :
  let c := (p_respond 3 [0%nat] 0xffffff00 4, p_handleClear,
            live (demo_server 1) asked_session demo_chans demo_env) in
  sn par_step c /\
  forall c', rtc par_step c c' -> nf par_step c' ->
  exists srv' sess' ch' e', c' = (Ret (Some None), Ret None, live srv' sess' ch' e').
Proof.
  intros c.
  destruct (clear_during_a_response 3 [0%nat] 0xffffff00 4 (demo_server 1) asked_session demo_chans demo_env
    (MkHeader DeviceClearComplete 1 0 0) demo_chans_up eq_refl eq_refl ltac:(discriminate) eq_refl eq_refl
    demo_dev_finishes eq_refl) as [Ht Hall].
  split; [exact Ht |]. intros c' Hr Hn.
  destruct (Hall c' Hr Hn) as (srv' & sess' & ch' & e' & E & _). by exists srv', sess', ch', e'.
Defined.

(** C37: A Device Clear can miss the operation it is meant to abandon. For every ready
    session that has just completed a query, there is an interleaving in which the
    asynchronous goroutine finds no operation to cancel, the synchronous one then
    registers its own and begins the response, and the Device Clear is acknowledged:
    the response goes on to read the instrument under a context that is not cancelled. *)
Theorem clear_can_miss_the_operation {S D} `{StreamModel S} `{Device D}
    fuel ctx id buf (srv : Server D) sess (ch : Chans S) e :
  chans_up ch -> sess.(ss_state) = StateReady -> sess.(ss_tx).(tx_state) = TxInputComplete ->
  sess.(ss_opCancel) = None -> 0 < buf -> 0 < sess.(ss_maxTx) ->
  ctx_done e.(e_cancelled) ctx = false -> e.(e_nextctx) ∉ e.(e_cancelled) ->
  let n := responseScratch buf sess.(ss_maxTx) in
  exists opCtx k st,
  rtc par_step (p_respond (Datatypes.S fuel) ctx id buf, p_handleClear, live srv sess ch e)
    (Act (on_dev opCtx (fun d c => dev_Read d c n)) k, Ret None, st) /\
  st.(hs_sess).(ss_state) = StateClearing /\ ctx_done st.(hs_cancelled) opCtx = false.
Proof.
  intros Hc Hst Htx Hop Hbuf Hmt Hctx Hn n.
  set (e1 := MkEnv e.(e_cancelled) (Datatypes.S e.(e_nextctx)) e.(e_queued)).
  set (s1 := ss_set_opCancel (Some e.(e_nextctx)) sess).
  set (s2 := ss_set_tx (MkTx TxResponsePending sess.(ss_tx).(tx_id)) s1).
  set (s3 := not_pending (ss_set_status (Status_SetResponsePending s2.(ss_status) true) s2)).
  set (s4 := ss_set_state StateClearing (ss_set_tx (MkTx TxClearing sess.(ss_tx).(tx_id)) s3)).
  set (ack := MkHeader AsyncDeviceClearAcknowledge (Config_featureBitmap srv.(srv_cfg) FeatureOverlapped) 0 0).
  destruct (live_write_async srv s4 ch e1 ack [] Hc eq_refl (or_introl eq_refl)) as (ch' & Ew & _).
  exists (e.(e_nextctx) :: ctx). eexists _, (live srv s4 ch' e1). split.
  - unfold p_handleClear, p_BeginDeviceClear, p_respond, p_SendResponse, p_check, act.
    cbn [mbind prog_MBind prog_bind].
    eapply right_step; [reflexivity |].
    assert (Session_requireReady (Datatypes.id (hs_sess (live srv sess ch e))) = None) as ->
      by (unfold Session_requireReady, Session_State; simpl; by rewrite Hst).
    cbn [prog_bind].
    eapply (right_step _ _ _ _ tt (live srv (ss_set_opCancel None sess) ch e)).
    { unfold abortOperation, modify, Session_abortOperation. simpl. by rewrite Hop. }
    eapply (left_step _ _ _ _ (e_nextctx e :: ctx) (live srv s1 ch e1)); [reflexivity |].
    eapply left_step; [reflexivity |]. cbn [prog_bind].
    eapply left_step; [reflexivity |]. rewrite validate_ok by (done || by apply responseScratch_fits).
    cbn [prog_bind].
    eapply (left_step _ _ _ _ None (live srv s2 ch e1)).
    { rewrite live_on_tx. subst s2. unfold Transaction_ExpectResponse, Transaction_To.
      change (ss_tx s1) with (ss_tx sess). by rewrite Htx. }
    cbn [prog_bind].
    eapply (left_step _ _ _ _ tt (live srv (ss_set_status (Status_SetResponsePending s2.(ss_status) true) s2) ch e1));
      [reflexivity |].
    cbn [prog_bind p_loop mbind prog_MBind].
    eapply (right_step _ _ _ _ tt (live srv s3 ch e1)); [reflexivity |].
    eapply (right_step _ _ _ _ None (live srv (ss_set_tx (MkTx TxClearing sess.(ss_tx).(tx_id)) s3) ch e1)).
    { apply live_on_tx. }
    cbn [prog_bind]. eapply (right_step _ _ _ _ tt (live srv s4 ch e1)).
    { unfold sess_modify, modify, Session_beginClear. simpl. by rewrite Hst. }
    eapply right_step; [reflexivity |]. eapply right_step; [exact Ew |]. apply rtc_refl.
  - split; [done |]. simpl. rewrite Hctx. by rewrite bool_decide_eq_false_2.
Qed.

Lemma clear_can_miss_the_operation_witness :
  exists opCtx k st,
  rtc par_step (p_respond 3 [0%nat] 0xffffff00 4, p_handleClear,
                live (demo_server 1) asked_session demo_chans demo_env)
    (Act (on_dev opCtx (fun d c => dev_Read d c 4)) k, Ret None, st) /\
  st.(hs_sess).(ss_state) = StateClearing /\ ctx_done st.(hs_cancelled) opCtx = false.
Proof.
  exact (clear_can_miss_the_operation 2 [0%nat] 0xffffff00 4 (demo_server 1) asked_session demo_chans demo_env
    demo_chans_up eq_refl eq_refl eq_refl eq_refl eq_refl eq_refl (not_elem_of_empty _)).
Defined.
