(* ===== verification/Frame.v ===== *)
(** * What no handler changes

    Every handler of the channel loops keeps the identity of its session, the
    registered sessions and the configuration, does not open or close a session,
    and takes locks only in the name of its own session. The relation [frame]
    says so, and [keeps] is closed under the combinators the handlers are
    written with. *)

From S2P Require Import Prelude Errors Version Constants MessageId Stream Header Codec.
From S2P Require Import WireErrors Writer Rmt Status Transaction Policy Locks LockWait Config.
From S2P Require Import Device TestDevice Session Server Initialize Handler Dispatch Data Clear.
From S2P Require Import Async Reader Serve.

(** ** Who holds a lock after an operation *)

Definition op_session (o : lock_op) : SessionID :=
  match o with OpTryRequest s _ => s | OpRelease s => s | OpReleaseAll s => s end.

(** No session but [A]'s gains a lock. *)
Definition held_frame (A : SessionID -> Prop) (m m' : LockManager) : Prop :=
  forall id, Held m' id = true -> Held m id = true \/ A id.

#[export] Instance held_frame_preorder A : PreOrder (held_frame A).
Proof.
  split; [by left |]. intros m1 m2 m3 H12 H23 id Hid.
  destruct (H23 id Hid) as [Hid' | ?]; [auto | by right].
Qed.

Lemma Held_notify m s : Held (notifyLocked m) s = Held m s.
Proof. unfold Held. by destruct (notify_fields m) as (-> & -> & _ & ->). Qed.

Lemma TryRequest_held m s k : held_frame (eq s) m (TryRequest m s k).2.
Proof.
  unfold TryRequest, tryExclusiveLocked, trySharedLocked.
  repeat case_match; try (by left); simpl; intros id; rewrite Held_notify, !Held_spec; simpl; set_solver.
Qed.

Lemma Release_held A m s : held_frame A m (Release m s).2.
Proof.
  unfold Release. repeat case_match; try (by left); simpl; intros id;
    rewrite Held_notify, !Held_spec; simpl; set_solver.
Qed.

Lemma lock_step_held m o : held_frame (eq (op_session o)) m (lock_step m o).2.
Proof.
  destruct o as [s k | s | s]; simpl.
  - pose proof (TryRequest_held m s k). by destruct (TryRequest m s k).
  - pose proof (Release_held (eq s) m s). by destruct (Release m s).
  - intros id Hid. left. destruct (decide (id = s)) as [-> | Hne].
    + by rewrite ReleaseAll_not_held in Hid.
    + by rewrite ReleaseAll_held_other in Hid.
Qed.

Lemma held_frame_mono (A B : SessionID -> Prop) m m' :
  (forall id, A id -> B id) -> held_frame A m m' -> held_frame B m m'.
Proof. intros HAB Hm id Hid. destruct (Hm id Hid); auto. Qed.

(** What the lock manager promises to whoever runs operations on it. *)
Definition lock_frame (A : SessionID -> Prop) (m m' : LockManager) : Prop :=
  (lock_inv m -> lock_inv m') /\ held_frame A m m'.

#[export] Instance lock_frame_preorder A : PreOrder (lock_frame A).
Proof.
  split; [done |]. intros m1 m2 m3 [] []. split; [auto |]. by etrans.
Qed.

Lemma lock_ops_frame A ops m :
  Forall (fun o => A (op_session o)) ops -> lock_frame A m (run_ops lock_step m ops).2.
Proof.
  intros Hops. revert m. induction Hops as [|o ops Ho Hops IH]; intros m; simpl; [done |].
  pose proof (lock_step_held m o) as Hh. pose proof (fun Hi => proj2 (lock_step_refines m o Hi)) as Hi.
  destruct (lock_step m o) as [r m']. specialize (IH m'). destruct (run_ops lock_step m' ops).
  simpl in *. etrans; [| exact IH]. split; [done |].
  eapply held_frame_mono; [| exact Hh]. by intros id <-.
Qed.

Lemma Request_step_frame (A : SessionID -> Prop) m w ch m' w' :
  A w.(wt_session) -> Request_step m w ch = Some (m', w') ->
  lock_frame A m m' /\ w'.(wt_session) = w.(wt_session).
Proof.
  intros Ha H. destruct (Request_step_mgr _ _ _ _ _ H) as [_ Hi]. split; [split; [done |] |].
  - assert (Htry : held_frame A m (TryRequest m (wt_session w) (wt_lockString w)).2)
      by (eapply held_frame_mono; [| apply TryRequest_held]; by intros id <-).
    assert (Hw : held_frame A m (waiterLocked m).2).
    { intros id. unfold waiterLocked, Held. destruct (lm_changed m); simpl; auto. }
    revert H. unfold Request_step. destruct (wt_phase w), ch; try done;
      try (destruct (TryRequest _ _ _) as [r m1]); try (destruct (waiterLocked m) as [c m1]);
      repeat case_match; intros; by simplify_eq/=.
  - revert H. unfold Request_step. destruct (wt_phase w), ch; try done;
      repeat case_match; intros; by simplify_eq/=.
Qed.

(** The manager moves as the lock table of the standard does, by operations in the
    name of sessions of [A]. *)
Definition lock_moves (A : SessionID -> Prop) (m m' : LockManager) : Prop :=
  exists ops, Forall (fun o => A (op_session o)) ops /\ held_frame A m m' /\
  (lock_inv m -> lock_inv m' /\ lock_abs m' = (run_ops table_step (lock_abs m) ops).2).

Lemma run_ops_app {X O R} (step : X -> O -> R * X) x ops ops' :
  (run_ops step x (ops ++ ops')).2 = (run_ops step (run_ops step x ops).2 ops').2.
Proof.
  revert x. induction ops as [|o ops IH]; intros x; [done |]. simpl. destruct (step x o) as [r x'].
  specialize (IH x'). destruct (run_ops step x' (ops ++ ops')), (run_ops step x' ops). exact IH.
Qed.

#[export] Instance lock_moves_preorder A : PreOrder (lock_moves A).
Proof.
  split; [intros m; exists []; by split_and!; [constructor | |] |].
  intros m1 m2 m3 (ops & Ho & Hh & Hm) (ops' & Ho' & Hh' & Hm'). exists (ops ++ ops').
  split_and!; [by apply Forall_app | by etrans |]. intros Hi. destruct (Hm Hi) as [Hi2 E].
  destruct (Hm' Hi2) as [Hi3 E']. split; [done |]. by rewrite run_ops_app, <- E.
Qed.

Lemma lock_moves_mono (A B : SessionID -> Prop) m m' :
  (forall id, A id -> B id) -> lock_moves A m m' -> lock_moves B m m'.
Proof.
  intros HAB (ops & Ho & Hh & Hm). exists ops. split_and!; [| by eapply held_frame_mono | done].
  eapply Forall_impl; [exact Ho |]. intros o. apply HAB.
Qed.

(** One action moves it by one operation, or leaves it as it is. *)
Definition lock_move (A : SessionID -> Prop) (m m' : LockManager) : Prop :=
  exists o, (forall x, o = Some x -> A (op_session x)) /\ held_frame A m m' /\
  (lock_inv m -> lock_inv m' /\
     lock_abs m' = match o with Some x => (table_step (lock_abs m) x).2 | None => lock_abs m end).

#[export] Instance lock_move_refl A : Reflexive (lock_move A).
Proof. intros m. by exists None. Qed.

Lemma lock_move_moves A m m' : lock_move A m m' -> lock_moves A m m'.
Proof.
  intros ([o|] & Ho & Hh & Hm); [exists [o] | exists []]; (split_and!; [by repeat constructor; auto | done |]).
  - intros Hi. destruct (Hm Hi) as [Hi' E]. split; [done |]. rewrite E. simpl. by destruct (table_step _ o).
  - done.
Qed.

Lemma lock_move_mono (A B : SessionID -> Prop) m m' :
  (forall id, A id -> B id) -> lock_move A m m' -> lock_move B m m'.
Proof.
  intros HAB (o & Ho & Hh & Hm). exists o. split_and!; [| by eapply held_frame_mono | done].
  intros x E. by apply HAB, Ho.
Qed.

Lemma lock_move_step (A : SessionID -> Prop) m o : A (op_session o) -> lock_move A m (lock_step m o).2.
Proof.
  intros Ha. exists (Some o). split_and!; [by intros x [= <-] | |].
  - eapply held_frame_mono; [| apply lock_step_held]. by intros id <-.
  - intros Hi. destruct (lock_step_refines m o Hi) as [E Hi']. by rewrite E.
Qed.

Lemma lock_move_waiter A m : lock_move A m (waiterLocked m).2.
Proof.
  exists None. split_and!; [done | |].
  - intros id. unfold waiterLocked, Held. destruct (lm_changed m); simpl; auto.
  - intros Hi. split; [by apply lock_inv_waiter | apply lock_abs_waiter].
Qed.

Lemma Request_step_move (A : SessionID -> Prop) m w ch m' w' :
  A w.(wt_session) -> Request_step m w ch = Some (m', w') ->
  lock_move A m m' /\ w'.(wt_session) = w.(wt_session).
Proof.
  intros Ha H. split; [| by destruct (Request_step_frame A _ _ _ _ _ Ha H)].
  pose proof (lock_move_step A m (OpTryRequest (wt_session w) (wt_lockString w)) Ha) as Ht.
  pose proof (lock_move_waiter A m) as Hw. simpl in Ht. revert H. unfold Request_step.
  destruct (wt_phase w), ch; try done; try (destruct (TryRequest _ _ _) as [r m1]);
    try (destruct (waiterLocked m) as [c m1]); repeat case_match; intros; by simplify_eq/=.
Qed.

(** Who holds a lock in the table, and that only a release of its own ends it. *)
Definition table_holds (t : lock_table) (id : SessionID) : bool :=
  match t with
  | LUnlocked => false
  | LExclusive h => bool_decide (h = id)
  | LShared _ hs => bool_decide (id ∈ hs)
  | LBoth _ hs h => bool_decide (h = id) || bool_decide (id ∈ hs)
  end.

Lemma Held_abs m id : Held m id = table_holds (lock_abs m) id.
Proof.
  unfold Held, lock_abs, shared_or_unlocked. destruct (lm_hasExclusive m); simpl.
  - destruct (decide (lm_shared m = ∅)) as [He | He].
    + rewrite !He, (bool_decide_eq_true_2 (∅ = ∅)), (bool_decide_eq_false_2 (id ∈ _)) by set_solver.
      apply orb_false_r.
    + by rewrite (bool_decide_eq_false_2 (lm_shared m = ∅)).
  - destruct (decide (lm_shared m = ∅)) as [He | He].
    + rewrite !He, (bool_decide_eq_true_2 (∅ = ∅)) by done. apply bool_decide_eq_false_2. set_solver.
    + by rewrite (bool_decide_eq_false_2 (lm_shared m = ∅)).
Qed.

Lemma table_release_others t s id :
  s <> id -> table_holds t id = true -> table_holds (table_release t s).2 id = true.
Proof.
  intros Hne. unfold table_release, shared_or_unlocked.
  destruct t; simpl; intros Hh; repeat (case_bool_decide; simpl in *; subst); try done; set_solver.
Qed.

Lemma table_request_all t s k id : table_holds t id = true -> table_holds (table_request t s k).2 id = true.
Proof.
  unfold table_request. destruct t, k; simpl; intros Hh;
    repeat (case_bool_decide; simpl in *; subst); try done; set_solver.
Qed.

Lemma table_lets_go t o id :
  table_holds t id = true -> table_holds (table_step t o).2 id = false -> o = OpRelease id \/ o = OpReleaseAll id.
Proof.
  intros H1. destruct o as [s k | s | s]; simpl.
  - pose proof (table_request_all t s k id H1). destruct (table_request t s k); simpl in *; congruence.
  - destruct (decide (s = id)) as [-> | Hne]; [by left |].
    pose proof (table_release_others t s id Hne H1). destruct (table_release t s); simpl in *; congruence.
  - destruct (decide (s = id)) as [-> | Hne]; [by right |]. unfold table_release_all. intros H2.
    pose proof (table_release_others _ s id Hne (table_release_others t s id Hne H1)). congruence.
Qed.

(** The operations others perform while a request waits are made in the name of
    sessions of [A]. *)
Definition env_of (A : SessionID -> Prop) (env : list (list lock_op * wait_choice)) : Prop :=
  Forall (fun x => Forall (fun o => A (op_session o)) x.1) env.

Lemma Request_exec_frame (A : SessionID -> Prop) env m w :
  A w.(wt_session) -> env_of A env -> lock_frame A m (Request_exec env m w).2.
Proof.
  intros Hw Henv. revert m w Hw. induction Henv as [|[ops ch] env Hops Henv IH]; intros m w Hw.
  - simpl. by destruct (wt_phase w).
  - assert (Hgo : lock_frame A m (let m := (run_ops lock_step m ops).2 in
      match Request_step m w ch with
      | None => Request_exec env m w
      | Some (m, w) => Request_exec env m w
      end).2).
    { cbv zeta. etrans; [by apply lock_ops_frame |].
      destruct (Request_step _ w ch) as [[m1 w1]|] eqn:E; [| by apply IH].
      destruct (Request_step_frame A _ _ _ _ _ Hw E) as [Hm1 Hs1]. etrans; [exact Hm1 |].
      apply IH. by rewrite Hs1. }
    cbn [Request_exec]. by destruct (wt_phase w).
Qed.

(** ** The frame of a handler *)

Record sess_frame (s s' : Session) : Prop := {
  sf_id : s'.(ss_id) = s.(ss_id);
  sf_version : s'.(ss_version) = s.(ss_version);
  sf_maxRx : s'.(ss_maxRx) = s.(ss_maxRx);
  sf_closed : s'.(ss_state) = StateClosed <-> s.(ss_state) = StateClosed;
  sf_inv : session_inv s -> session_inv s';
}.

#[export] Instance sess_frame_preorder : PreOrder sess_frame.
Proof.
  split; [by split |]. intros s1 s2 s3 [] []. split; try congruence; [| auto].
  by etrans.
Qed.

(** An assignment that leaves the lifecycle alone. *)
Lemma sess_frame_fields s s' :
  s'.(ss_id) = s.(ss_id) -> s'.(ss_version) = s.(ss_version) -> s'.(ss_maxRx) = s.(ss_maxRx) ->
  s'.(ss_state) = s.(ss_state) -> s'.(ss_sync) = s.(ss_sync) -> s'.(ss_async) = s.(ss_async) ->
  (s.(ss_status).(status_started) = true -> s'.(ss_status).(status_started) = true) ->
  sess_frame s s'.
Proof.
  intros H1 H2 H3 H4 H5 H6 H7. split; try done; [by rewrite H4 |].
  intros [? ? ? ?]. split; rewrite ?H4, ?H5, ?H6; auto.
Qed.

Record frame {S D} (A : SessionID -> Prop) (st st' : HState S D) : Prop := {
  fr_cfg : st'.(hs_srv).(srv_cfg) = st.(hs_srv).(srv_cfg);
  fr_sessions : st'.(hs_srv).(srv_sessions) = st.(hs_srv).(srv_sessions);
  fr_next : st'.(hs_srv).(srv_nextID) = st.(hs_srv).(srv_nextID);
  fr_sess : sess_frame st.(hs_sess) st'.(hs_sess);
  fr_locks : lock_frame
    (fun id => A id \/ id = st.(hs_sess).(ss_id) /\ st.(hs_sess).(ss_state) <> StateClosed)
    st.(hs_srv).(srv_locks) st'.(hs_srv).(srv_locks);
}.

#[export] Instance frame_preorder S D A : PreOrder (@frame S D A).
Proof.
  split; [by split |]. intros st1 st2 st3 [A1 A2 A3 A4 A5] [B1 B2 B3 B4 B5].
  split; try congruence; [by etrans |]. etrans; [exact A5 |].
  destruct B5 as [B5 B6]. split; [done |]. eapply held_frame_mono; [| exact B6].
  intros id [? | [-> Hc]]; [by left | right]. rewrite (sf_id _ _ A4). split; [done |].
  by rewrite <- (sf_closed _ _ A4).
Qed.

(** Handler [m], run from [st], stays within the frame. *)
Definition keeps {S D R} (A : SessionID -> Prop) (st : HState S D) (m : M (HState S D) R) : Prop :=
  frame A st (m st).2.

Create HintDb frame.

Section Combinators.
Context {S D : Type}.
Implicit Types (st : HState S D) (A : SessionID -> Prop).

Lemma keeps_ret {R} A st (r : R) : keeps A st (mret r).
Proof. unfold keeps. simpl. reflexivity. Qed.

Lemma keeps_bind {R T} A st (m : M (HState S D) R) (k : R -> M (HState S D) T) :
  keeps A st m -> (forall r st', keeps A st' (k r)) -> keeps A st (m ≫= k).
Proof.
  unfold keeps, mbind, M_bind. intros Hm Hk. destruct (m st) as [r st'] eqn:E. simpl in *.
  etrans; [exact Hm | apply Hk].
Qed.

Lemma keeps_bind_gets {R T} A st (f : Session -> R) (k : R -> M (HState S D) T) :
  keeps A st (k (f st.(hs_sess))) -> keeps A st (sess_gets f ≫= k).
Proof. done. Qed.

Lemma keeps_bind_srv {R T} A st (f : Server D -> R) (k : R -> M (HState S D) T) :
  keeps A st (k (f st.(hs_srv))) -> keeps A st (srv_gets f ≫= k).
Proof. done. Qed.

Lemma keeps_gets {R} A st (f : HState S D -> R) : keeps A st (gets f).
Proof. unfold keeps. simpl. reflexivity. Qed.

Lemma keeps_check {R} A st (m : M (HState S D) (option error)) onerr (k : M (HState S D) R) :
  keeps A st m -> (forall e st', keeps A st' (onerr e)) -> (forall st', keeps A st' k) ->
  keeps A st (check m onerr k).
Proof. intros Hm He Hk. apply keeps_bind; [done |]. intros [e|] st'; auto. Qed.

(** A check that only looks at the state. *)
Lemma keeps_check_ret {R} A st (err : option error) onerr (k : M (HState S D) R) :
  (forall e, err = Some e -> keeps A st (onerr e)) -> (err = None -> keeps A st k) ->
  keeps A st (check (mret err) onerr k).
Proof. intros He Hk. destruct err as [e|]; [exact (He e eq_refl) | exact (Hk eq_refl)]. Qed.

Lemma keeps_sess_modify A st f :
  sess_frame st.(hs_sess) (f st.(hs_sess)) -> keeps A st (sess_modify f).
Proof. intros Hf. split; simpl; try done. Qed.

Lemma keeps_srv_dev A st d : keeps A st (srv_modify (srv_set_dev d)).
Proof. by split. Qed.
Lemma keeps_count A st f : keeps A st (count f).
Proof. by split. Qed.
Lemma keeps_set_queued A st q : keeps A st (set_queued q).
Proof. by split. Qed.

Lemma keeps_set_locks A st l :
  lock_frame (fun id => A id \/ id = st.(hs_sess).(ss_id) /\ st.(hs_sess).(ss_state) <> StateClosed)
    st.(hs_srv).(srv_locks) l ->
  keeps A st (srv_modify (srv_set_locks l)).
Proof. intros Hl. by split. Qed.

Lemma keeps_on_tx A st f : keeps A st (on_tx f).
Proof.
  apply keeps_bind_gets. destruct (f _) as [err tx]. apply keeps_bind; [| intros; apply keeps_ret].
  apply keeps_sess_modify. by apply sess_frame_fields.
Qed.

Lemma keeps_on_dev {R} A st ctx (f : D -> bool -> R * D) : keeps A st (on_dev ctx f).
Proof.
  apply keeps_bind; [apply keeps_gets |]. intros c st'. apply keeps_bind_srv.
  destruct (f _ c) as [r d]. apply keeps_bind; [apply keeps_srv_dev | intros; apply keeps_ret].
Qed.

Lemma keeps_writer_Write `{Stream S} A st sd h p : keeps A st (writer_Write sd h p).
Proof.
  unfold keeps, writer_Write. destruct (writer_of sd _), (stream_of sd st); simpl; try reflexivity.
  destruct (MessageWriter_Write _ _ h p) as [[err w1] s1]. simpl.
  destruct sd; split; simpl; try done; by apply sess_frame_fields.
Qed.
End Combinators.

#[export] Hint Resolve keeps_ret keeps_gets keeps_srv_dev keeps_count keeps_set_queued keeps_on_tx
  keeps_on_dev keeps_writer_Write : frame.

(** Walk through a handler: binds, checks and branches. *)
Ltac keeps_step :=
  match goal with
  | |- keeps _ _ (check (mret _) _ _) => apply keeps_check_ret; intros
  | |- keeps _ _ (check _ _ _) => apply keeps_check; intros
  | |- keeps _ _ (sess_gets _ ≫= _) => apply keeps_bind_gets
  | |- keeps _ _ (srv_gets _ ≫= _) => apply keeps_bind_srv
  | |- keeps _ _ (_ ≫= _) => apply keeps_bind; intros
  | |- keeps _ _ (match ?x with _ => _ end) => destruct x eqn:?
  | |- keeps _ _ _ => solve [auto with frame]
  | |- keeps _ _ (sess_modify _) => apply keeps_sess_modify; solve [auto with frame | by apply sess_frame_fields]
  end.
Ltac keeps_auto := repeat (cbv zeta; keeps_step).

(** ** The handlers *)

Lemma sess_frame_status s st' :
  (s.(ss_status).(status_started) = true -> st'.(status_started) = true) ->
  sess_frame s (ss_set_status st' s).
Proof. intros Hs. by apply sess_frame_fields. Qed.

Lemma sess_frame_beginClear s : sess_frame s (Session_beginClear s).
Proof.
  split; [| | | | apply beginClear_inv]; unfold Session_beginClear; case_bool_decide; try done.
  session_cases s. subst. done.
Qed.

Lemma sess_frame_completeClear o s : sess_frame s (Session_completeClear o s).
Proof.
  split; [| | | | apply completeClear_inv]; session_cases s; unfold Session_completeClear; simpl;
    case_bool_decide; by subst.
Qed.

Lemma sess_frame_feed p s : sess_frame s (Session_feedProgramMessage p s).
Proof.
  unfold Session_feedProgramMessage. case_bool_decide; [done |].
  destruct (ss_policy s); [by apply sess_frame_fields | done].
Qed.

Lemma sess_frame_disposition s : sess_frame s (Session_programDisposition s).2.
Proof.
  unfold Session_programDisposition. destruct (ss_policy s); [by apply sess_frame_fields | done].
Qed.

Lemma sess_frame_maxsize cfg s n : sess_frame s (Server_MaximumMessageSize cfg s n).2.
Proof.
  unfold Server_MaximumMessageSize. simpl. case_bool_decide; [by apply sess_frame_fields | done].
Qed.
#[export] Hint Resolve sess_frame_beginClear sess_frame_completeClear sess_frame_feed : frame.

Section Handlers.
Context {S D : Type} `{Stream S} `{Device D}.
Implicit Types (st : HState S D) (A : SessionID -> Prop).

Lemma keeps_receivedSyncMessage A st h : keeps A st (receivedSyncMessage h).
Proof.
  unfold receivedSyncMessage. keeps_auto. apply keeps_sess_modify, sess_frame_status.
  unfold Status_ReceivedSyncMessage. by case_match.
Qed.
Lemma keeps_setResponsePending A st b : keeps A st (setResponsePending b).
Proof. by apply keeps_sess_modify, sess_frame_status. Qed.
Hint Resolve keeps_receivedSyncMessage keeps_setResponsePending : frame.

Lemma keeps_ReceiveData A st ctx h p : keeps A st (Server_ReceiveData ctx h p).
Proof. unfold Server_ReceiveData. keeps_auto. Qed.

Lemma keeps_Trigger A st ctx h : keeps A st (Server_Trigger ctx h).
Proof. unfold Server_Trigger. keeps_auto. Qed.

Lemma keeps_WriteError A st sd c d : keeps A st (writer_WriteError sd c d).
Proof. apply keeps_writer_Write. Qed.
Lemma keeps_WriteFatalError A st sd c d : keeps A st (writer_WriteFatalError sd c d).
Proof. apply keeps_writer_Write. Qed.
Lemma keeps_has_writer A st sd : keeps A st (has_writer sd).
Proof. apply keeps_gets. Qed.
Hint Resolve keeps_WriteError keeps_WriteFatalError keeps_has_writer : frame.

Lemma keeps_terminate A st r b : keeps A st (terminate r b).
Proof. unfold terminate. keeps_auto. Qed.
Hint Resolve keeps_terminate : frame.
Lemma keeps_absent A st r : keeps A st (completeAbsentResponse r).
Proof. unfold completeAbsentResponse. keeps_auto. Qed.
Lemma keeps_interrupted A st r : keeps A st (sendInterrupted r).
Proof. unfold sendInterrupted. keeps_auto. Qed.
Lemma keeps_deliver A st r b fin e n : keeps A st (deliver_chunk r b fin e n).
Proof. unfold deliver_chunk. keeps_auto. Qed.
Hint Resolve keeps_absent keeps_interrupted keeps_deliver : frame.

Lemma keeps_SendResponse_loop A fuel ctx r n st : keeps A st (SendResponse_loop fuel ctx r n).
Proof.
  revert n st. induction fuel as [|fuel IH]; intros n st; cbn [SendResponse_loop]; [apply keeps_ret |].
  keeps_auto.
Qed.
Hint Resolve keeps_SendResponse_loop : frame.
Lemma keeps_SendResponse A st fuel ctx r : keeps A st (Server_SendResponse fuel ctx r).
Proof. unfold Server_SendResponse. keeps_auto. Qed.

Lemma keeps_abortOperation A st : keeps A st abortOperation.
Proof.
  unfold keeps, abortOperation, modify, Session_abortOperation. simpl.
  destruct (ss_opCancel (hs_sess st)); split; simpl; try done; by apply sess_frame_fields.
Qed.
Lemma keeps_begin_operation A st ctx : keeps A st (begin_operation ctx).
Proof. split; simpl; try done. by apply sess_frame_fields. Qed.
Lemma keeps_end_operation A st ctx : keeps A st (end_operation ctx).
Proof.
  unfold keeps, end_operation, modify. destruct ctx as [|c ctx]; [reflexivity |].
  unfold Operation_release. split; simpl; try done.
  case_bool_decide; [by apply sess_frame_fields | done].
Qed.
Hint Resolve keeps_ReceiveData keeps_Trigger keeps_SendResponse keeps_abortOperation
  keeps_begin_operation keeps_end_operation : frame.

Lemma keeps_BeginDeviceClear A st : keeps A st Server_BeginDeviceClear.
Proof. unfold Server_BeginDeviceClear. keeps_auto. Qed.
Lemma keeps_CompleteDeviceClear A st ctx h : keeps A st (Server_CompleteDeviceClear ctx h).
Proof. unfold Server_CompleteDeviceClear. keeps_auto. Qed.
Hint Resolve keeps_BeginDeviceClear keeps_CompleteDeviceClear : frame.

Lemma keeps_StatusQuery A st ctx h : keeps A st (Server_StatusQuery ctx h).
Proof.
  unfold Server_StatusQuery. keeps_auto. apply keeps_sess_modify, sess_frame_status.
  match goal with E1 : Status_Byte _ _ _ _ = _, E2 : Status_TakeServiceRequest _ = _ |- _ =>
    revert E1 E2 end.
  intros E1 E2 Hs. unfold Status_Byte in E1. rewrite Status_MAV_started in E1 by done.
  revert E1 E2. case_match; by intros [= _ <-] [= _ <-].
Qed.
Lemma keeps_RemoteLocal A st ctx h : keeps A st (Server_RemoteLocal ctx h).
Proof. unfold Server_RemoteLocal. keeps_auto. Qed.
Lemma keeps_LockInfo A st h : keeps A st (Server_LockInfo h).
Proof. unfold Server_LockInfo. keeps_auto. Qed.

(** A lock is taken in the name of the session, which is open. *)
Lemma keeps_Lock A st env h k : env_of A env -> keeps A st (Server_Lock env h k).
Proof.
  intros Henv. unfold Server_Lock. keeps_step; [apply keeps_ret |].
  keeps_step. keeps_step; [apply keeps_ret |].
  assert (Hopen : ss_state (hs_sess st) <> StateClosed).
  { intros Hc. unfold Session_requireReady, Session_State in *.
    match goal with E : context [ss_state (id (hs_sess st))] |- _ => revert E end.
    unfold id. by rewrite Hc. }
  keeps_step. keeps_step; [| keeps_step; [| apply keeps_ret]]; cbv zeta.
  - pose proof (Request_exec_frame
      (fun id => A id \/ id = ss_id (hs_sess st) /\ ss_state (hs_sess st) <> StateClosed) (env ++ undisturbed expiry)
      (srv_locks (hs_srv st)) (MkWaiter (Session_ID (id (hs_sess st))) k (h_Parameter h * Millisecond) Starting)
      ltac:(by right)) as Hf.
    unfold LockManager_Request. destruct (Request_exec _ _ _) as [result locks].
    apply keeps_bind; [apply keeps_set_locks, Hf | intros; keeps_auto].
    apply Forall_app. split; [| by repeat constructor].
    eapply Forall_impl; [exact Henv |]. intros x Hx. eapply Forall_impl; [exact Hx |]. by left.
  - pose proof (Release_inv (srv_locks (hs_srv st)) (Session_ID (id (hs_sess st)))) as Hi.
    pose proof (fun B => Release_held B (srv_locks (hs_srv st)) (Session_ID (id (hs_sess st)))) as Hh.
    destruct (Release _ _) as [result locks].
    apply keeps_bind; [apply keeps_set_locks; by split | intros; keeps_auto].
Qed.

Lemma keeps_reportReadError A st sd e : keeps A st (reportReadError sd e).
Proof. unfold reportReadError. keeps_auto. Qed.
Lemma keeps_report_fatal A st sd wire e : keeps A st (report_fatal sd wire e).
Proof. unfold report_fatal. keeps_auto. Qed.
Hint Resolve keeps_report_fatal : frame.
Lemma keeps_reportAcceptError A st sd e : keeps A st (reportAcceptError sd e).
Proof. unfold reportAcceptError. keeps_auto. Qed.
Lemma keeps_reportOperationError A st sd e : keeps A st (reportOperationError sd e).
Proof. unfold reportOperationError. keeps_auto. Qed.
Hint Resolve keeps_StatusQuery keeps_RemoteLocal keeps_LockInfo keeps_Lock keeps_reportReadError
  keeps_reportAcceptError keeps_reportOperationError : frame.

Lemma keeps_handleData A st fuel ctx msg buf : keeps A st (handleData fuel ctx msg buf).
Proof.
  assert (Hr : forall st id, keeps A st (handleData_respond fuel ctx id buf)).
  { clear st. intros st id. unfold handleData_respond, countOutcome. keeps_auto. }
  assert (He : forall st id, keeps A st (handleData_end fuel ctx id buf)).
  { clear st. intros st id. unfold handleData_end. keeps_step.
    pose proof (sess_frame_disposition (hs_sess st)) as Hd. unfold Datatypes.id.
    destruct (Session_programDisposition _) as [disp sess'].
    apply keeps_bind; [by apply keeps_sess_modify |]. intros. keeps_auto. }
  unfold handleData, countInterrupted. keeps_auto.
Qed.
Hint Resolve keeps_handleData : frame.

Lemma keeps_handleSync A st fuel ctx msg buf : keeps A st (handleSync fuel ctx msg buf).
Proof. unfold handleSync, countInterrupted. keeps_auto. Qed.

Lemma keeps_answer A st res : keeps A st (answer res).
Proof. unfold answer. keeps_auto. Qed.
Hint Resolve keeps_answer : frame.

Lemma keeps_handleAsync A st env ctx msg :
  env_of A env -> keeps A st (handleAsync env ctx msg).
Proof.
  intros Henv. unfold handleAsync. keeps_auto. apply keeps_sess_modify.
  match goal with E : Server_MaximumMessageSize ?c ?s ?n = _ |- _ =>
    pose proof (sess_frame_maxsize c s n) as Hs; by rewrite E in Hs end.
Qed.

Lemma keeps_serve_loop {R} A (handle : R -> M (HState S D) (option (option error))) ctx inputs st :
  (forall st x, x ∈ inputs.*1 -> keeps A st (handle x)) -> keeps A st (serve_loop handle ctx inputs).
Proof.
  revert st. induction inputs as [|[x q] inputs IH]; intros st Hx; cbn [serve_loop].
  - apply keeps_bind; [apply keeps_gets |]. intros [] st1; apply keeps_ret.
  - apply keeps_bind; [apply keeps_gets |]. intros [] st1; [apply keeps_ret |].
    apply keeps_bind; [apply keeps_set_queued |]. intros _ st2.
    apply keeps_bind; [apply Hx; set_solver |]. intros res st3.
    destruct res as [[err|]|]; try apply keeps_ret. apply IH. intros. apply Hx. set_solver.
Qed.

Lemma keeps_runSync A st fuel ctx inputs : keeps A st (runSync fuel ctx inputs).
Proof.
  unfold runSync. apply keeps_bind.
  - apply keeps_sess_modify. by apply sess_frame_fields.
  - intros _ st1. apply keeps_bind_srv. apply keeps_serve_loop. intros. apply keeps_handleSync.
Qed.

Lemma keeps_runAsync A st ctx inputs :
  Forall (fun x => env_of A x.1.2) inputs -> keeps A st (runAsync ctx inputs).
Proof.
  intros Henv. apply keeps_serve_loop. intros st1 [msg env] Hx. apply keeps_handleAsync.
  apply list_elem_of_fmap in Hx as ([x q] & Ex & Hx). simpl in Ex. subst x.
  rewrite Forall_forall in Henv. exact (Henv _ Hx).
Qed.
End Handlers.
