(* ===== verification/Types.v ===== *)
(** * Machine widths

    Go's integers have a width; here they are numbers, with the conversions written
    out. [typed_sess] and [typed_srv] say that every integer a session and a server hold
    is one of its Go type; [sess_step] and [srv_step] are the steps that keep to it: the
    session keeps its identity and its writers, the server its configuration and its
    table, and what is assigned is in range. *)

From S2P Require Import Prelude Errors Version Constants MessageId Stream Header Codec.
From S2P Require Import WireErrors Writer Rmt Status Transaction Policy Locks LockWait Config.
From S2P Require Import Device TestDevice Session Server Initialize Handler Dispatch Data Clear.
From S2P Require Import Async Reader Serve Programs Frame.

Create HintDb typed.

Definition typed_writer (w : MessageWriter) : Prop := wf_writer w /\ is_u64 w.(mw_written).

Record typed_sess (s : Session) : Prop := {
  ts_id : is_u16 s.(ss_id);
  ts_version : wf_version s.(ss_version);
  ts_received : is_u32 s.(ss_status).(lastReceived);
  ts_srq : is_u8 s.(ss_status).(srqStatus);
  ts_lastTx : is_u32 s.(ss_lastTx);
  ts_maxRx : is_u64 s.(ss_maxRx);
  ts_maxTx : is_u64 s.(ss_maxTx);
  ts_tx : is_u32 s.(ss_tx).(tx_id);
  ts_syncW : forall w, s.(ss_syncW) = Some w -> typed_writer w;
  ts_asyncW : forall w, s.(ss_asyncW) = Some w -> typed_writer w;
  ts_policy : forall p, s.(ss_policy) = Some p -> wf_policy p;
}.

Definition counter_values (c : Counters) : list Z :=
  match c with MkCounters a b c d e f g h i j k l m n => [a; b; c; d; e; f; g; h; i; j; k; l; m; n] end.
Definition typed_counters (c : Counters) : Prop := Forall is_u64 (counter_values c).

Record typed_config (c : Config) : Prop := {
  tc_version : wf_version c.(cfg_MaxVersion);
  tc_maxRx : is_u64 c.(cfg_MaxRxPayload);
  tc_maxTx : is_u64 c.(cfg_MaxTxPayload);
  tc_vendor : is_u8 c.(cfg_VendorID).1 /\ is_u8 c.(cfg_VendorID).2;
}.

Record typed_srv {D} (s : Server D) : Prop := {
  tv_cfg : typed_config s.(srv_cfg);
  tv_next : is_u16 s.(srv_nextID);
  tv_locks : lock_inv s.(srv_locks);
  tv_held : forall id, Held s.(srv_locks) id = true -> is_u16 id;
  tv_policy : wf_policy s.(srv_newPolicy);
  tv_counters : typed_counters s.(srv_counters);
}.

(** ** Steps that keep the widths *)

Record sess_step (s s' : Session) : Prop := {
  sp_frame : sess_frame s s';
  sp_syncW : s'.(ss_syncW) = s.(ss_syncW);
  sp_asyncW : s'.(ss_asyncW) = s.(ss_asyncW);
  sp_typed : typed_sess s -> typed_sess s';
}.

(** The locks move by at most one operation, in the name of a session of [A]. *)
Record srv_step {D} (A : SessionID -> Prop) (s s' : Server D) : Prop := {
  vp_cfg : s'.(srv_cfg) = s.(srv_cfg);
  vp_sessions : s'.(srv_sessions) = s.(srv_sessions);
  vp_next : s'.(srv_nextID) = s.(srv_nextID);
  vp_policy : s'.(srv_newPolicy) = s.(srv_newPolicy);
  vp_locks : lock_move A s.(srv_locks) s'.(srv_locks);
  vp_typed : typed_srv s -> typed_srv s';
}.

#[export] Instance sess_step_preorder : PreOrder sess_step.
Proof.
  split; [by split |]. intros s1 s2 s3 [A1 A2 A3 A4] [B1 B2 B3 B4].
  split; [by etrans | congruence | congruence | auto].
Qed.
#[export] Instance srv_step_refl D A : Reflexive (@srv_step D A).
Proof. by split. Qed.

(** The increments of the loops. *)
Definition keeps_counters (f : Counters -> Counters) : Prop :=
  forall c, typed_counters c -> typed_counters (f c).
Ltac counters_tac :=
  intros []; unfold typed_counters; simpl; rewrite ?Forall_cons; intros;
  repeat match goal with H : _ /\ _ |- _ => destruct H end; unfold inc; split_and!; auto with hislip.

#[export] Hint Extern 2 (keeps_counters _) => (unfold keeps_counters; counters_tac) : typed.

Lemma keeps_counters_outcome o : keeps_counters (countOutcome_of o).
Proof. destruct o; auto with typed. Qed.
Lemma keeps_counters_interrupted i : keeps_counters (countInterrupted_of i).
Proof. destruct i; auto with typed. Qed.
#[export] Hint Resolve keeps_counters_outcome keeps_counters_interrupted : typed.

Section Server.
Context {D : Type} (A : SessionID -> Prop).
Implicit Types s : Server D.

Lemma srv_step_count f s : keeps_counters f -> srv_step A s (srv_count f s).
Proof. intros Hf. split; try done. intros []. split; simpl; auto. Qed.

Lemma srv_step_dev d s : srv_step A s (srv_set_dev d s).
Proof. split; try done. by intros []. Qed.

(** Operations on the locks in the name of a typed session. *)
Lemma srv_step_locks l s :
  (forall id, A id -> is_u16 id) -> lock_move A s.(srv_locks) l -> srv_step A s (srv_set_locks l s).
Proof.
  intros HA Hm. pose proof Hm as (o & _ & Hh & Hi). split; try done. intros []. split; simpl; auto.
  - by apply Hi.
  - intros id Hid. destruct (Hh id Hid); auto.
Qed.
End Server.

(** An assignment that leaves the lifecycle and the writers alone. *)
Lemma sess_step_fields s s' :
  s'.(ss_id) = s.(ss_id) -> s'.(ss_version) = s.(ss_version) -> s'.(ss_maxRx) = s.(ss_maxRx) ->
  s'.(ss_state) = s.(ss_state) -> s'.(ss_sync) = s.(ss_sync) -> s'.(ss_async) = s.(ss_async) ->
  s'.(ss_syncW) = s.(ss_syncW) -> s'.(ss_asyncW) = s.(ss_asyncW) ->
  (s.(ss_status).(status_started) = true -> s'.(ss_status).(status_started) = true) ->
  (typed_sess s -> is_u32 s'.(ss_status).(lastReceived) /\ is_u8 s'.(ss_status).(srqStatus) /\
     is_u32 s'.(ss_lastTx) /\ is_u64 s'.(ss_maxTx) /\ is_u32 s'.(ss_tx).(tx_id) /\
     (forall p, s'.(ss_policy) = Some p -> wf_policy p)) ->
  sess_step s s'.
Proof.
  intros E1 E2 E3 E4 E5 E6 E7 E8 Hs Ht. split; [by apply sess_frame_fields | done | done |].
  intros Hty. destruct (Ht Hty) as (H1 & H2 & H3 & H4 & H5 & H6). destruct Hty.
  split; rewrite ?E1, ?E2, ?E3, ?E7, ?E8; done.
Qed.

(** The same, for an assignment to one field that is not an integer. *)
Ltac step_field := apply sess_step_fields; try done; intros []; split_and!; simpl; auto.

Lemma sess_step_rmt r s : sess_step s (ss_set_rmt r s).
Proof. step_field. Qed.
Lemma sess_step_opCancel c s : sess_step s (ss_set_opCancel c s).
Proof. step_field. Qed.
Lemma sess_step_pending s : sess_step s (Session_setSyncPending s).
Proof. step_field. Qed.
Lemma sess_step_lastTx id s : is_u32 id -> sess_step s (Session_setLastTxMessageID id s).
Proof. intros Hid. step_field. Qed.

Definition typed_status (st : Status) : Prop := is_u32 st.(lastReceived) /\ is_u8 st.(srqStatus).

Lemma sess_step_status st s :
  (s.(ss_status).(status_started) = true -> st.(status_started) = true) ->
  (typed_status s.(ss_status) -> typed_status st) -> sess_step s (ss_set_status st s).
Proof.
  intros Hs Ht. apply sess_step_fields; try done. intros []. destruct Ht; [by split |]. by split_and!.
Qed.

Lemma sess_step_tx t s : (is_u32 s.(ss_tx).(tx_id) -> is_u32 t.(tx_id)) -> sess_step s (ss_set_tx t s).
Proof. intros Ht. step_field. Qed.

Lemma sess_step_feed p s : sess_step s (Session_feedProgramMessage p s).
Proof.
  unfold Session_feedProgramMessage. case_bool_decide; [done |].
  destruct (ss_policy s) as [pol|] eqn:Ep; [| done].
  apply sess_step_fields; try done. intros []. split_and!; try done. intros q [= <-].
  auto with hislip.
Qed.

Lemma sess_step_disposition s : sess_step s (Session_programDisposition s).2.
Proof.
  unfold Session_programDisposition. destruct (ss_policy s) as [pol|] eqn:Ep; [| done].
  apply sess_step_fields; try done. intros []. split_and!; try done. intros q [= <-].
  auto with hislip.
Qed.

Lemma sess_step_maxsize cfg s n : is_u64 n -> sess_step s (Server_MaximumMessageSize cfg s n).2.
Proof.
  intros Hn. unfold Server_MaximumMessageSize. simpl. case_bool_decide; [| done]. step_field.
Qed.

Lemma sess_step_beginClear s : sess_step s (Session_beginClear s).
Proof.
  split; [apply sess_frame_beginClear | | |]; unfold Session_beginClear; case_bool_decide; try done.
  by intros [].
Qed.

Lemma sess_step_completeClear o s : sess_step s (Session_completeClear o s).
Proof.
  split; [apply sess_frame_completeClear | | |]; unfold Session_completeClear; simpl;
    case_bool_decide; try done; intros []; by split.
Qed.
#[export] Hint Resolve sess_step_rmt sess_step_opCancel sess_step_pending sess_step_lastTx sess_step_feed
  sess_step_disposition sess_step_maxsize sess_step_beginClear sess_step_completeClear
  srv_step_count srv_step_dev : typed.

(** ** Writes *)

Lemma MessageWriter_Write_typed {S} `{Stream S} w (s : S) h b :
  typed_writer w -> typed_writer (MessageWriter_Write w s h b).1.2 /\
  (MessageWriter_Write w s h b).1.2.(mw_channel) = w.(mw_channel).
Proof.
  intros [Hb Hw]. assert (Hbuf : length (WriteMessage s h b (mw_buf w)).1.2 = 16%nat).
  { unfold WriteMessage, WriteHeader. destruct (_ && _); [done |]. set (h' := MkHeader _ _ _ _).
    assert (He : length (Header_Encode h' (mw_buf w)).2 = 16%nat).
    { unfold Header_Encode. case_bool_decide; [done |]. cbn [snd].
      rewrite overlay_length; [done |]. by rewrite Hb, length_header_bytes. }
    destruct (Header_Encode h' (mw_buf w)) as [[err|] buf]; [done |].
    destruct (stream_Write s buf) as [[err|] s1]; [done |]. case_bool_decide; [done |].
    by destruct (stream_Write s1 b). }
  unfold MessageWriter_Write. case_match; [done |].
  destruct (WriteMessage s h b (mw_buf w)) as [[[err|] buf] s']; (split; [split |]); try done.
  apply uint64_range.
Qed.

Section Writes.
Context {S D : Type} `{Stream S}.
Implicit Types st : HState S D.

(** A write replaces the writer of its side and the stream under it. *)
Lemma writer_Write_effect sd h b st :
  (writer_Write sd h b st).2 = st \/
  exists w w' s, writer_of sd st.(hs_sess) = Some w /\ (typed_writer w -> typed_writer w') /\
    (writer_Write sd h b st).2 = set_channel sd w' s st.
Proof.
  unfold writer_Write. destruct (writer_of sd (hs_sess st)) as [w|] eqn:Ew; [| by left].
  destruct (stream_of sd st) as [s|]; [| by left]. right.
  pose proof (MessageWriter_Write_typed w s h b) as Ht.
  destruct (MessageWriter_Write w s h b) as [[err w'] s']. exists w, w', s'.
  split_and!; [done | by intros [? _]%Ht | done].
Qed.

Lemma typed_set_channel sd w s st :
  typed_writer w -> typed_sess st.(hs_sess) -> typed_sess (set_channel sd w s st).(hs_sess).
Proof. intros Hw []. destruct sd; split; simpl; try done; intros w'; intros [= <-]; done. Qed.

Lemma typed_write sd h b st :
  typed_sess st.(hs_sess) -> typed_sess (writer_Write sd h b st).2.(hs_sess).
Proof.
  intros Hs. destruct (writer_Write_effect sd h b st) as [-> | (w & w' & s & Hw & Ht & ->)]; [done |].
  apply typed_set_channel; [| done]. apply Ht. destruct sd; [by apply ts_syncW in Hw | by apply ts_asyncW in Hw].
Qed.

Lemma write_keeps_srv sd h b st : (writer_Write sd h b st).2.(hs_srv) = st.(hs_srv).
Proof.
  destruct (writer_Write_effect sd h b st) as [-> | (w & w' & s & _ & _ & ->)]; [done |]. by destruct sd.
Qed.

Lemma write_frame sd h b st : sess_frame st.(hs_sess) (writer_Write sd h b st).2.(hs_sess).
Proof.
  destruct (writer_Write_effect sd h b st) as [-> | (w & w' & s & _ & _ & ->)]; [done |].
  destruct sd; by apply sess_frame_fields.
Qed.
End Writes.
