(* ===== verification/Guarantee.v ===== *)
(** * What an action of a handler may do

    [h_step] is the guarantee of the two goroutines of a session: an action writes one
    well-formed message that is legal on its channel, or it leaves the streams and the
    writers alone and assigns values in range. [within] says that a program keeps to
    it in states that satisfy [T], and what it returns; every handler does.

    The states and the instrument are parameters, so that the same walk through the
    handlers serves sessions on live channels ([Framing]) and all the sessions of a
    server ([Goroutines]). *)

From S2P Require Import Prelude Interleave Errors Version Constants MessageId Stream Header Codec.
From S2P Require Import WireErrors Writer Rmt Status Transaction Policy Locks LockWait Config.
From S2P Require Import Device TestDevice Session Server Initialize Handler Dispatch Data Clear.
From S2P Require Import Async Reader Serve Programs Frame Types.

Definition side_channel (sd : side) : Channel :=
  match sd with SyncSide => ChannelSynchronous | AsyncSide => ChannelAsynchronous end.

(** A header that may be written with the payload [b]. *)
Record good_header (sd : side) (h : Header) (b : bytes) : Prop := {
  gh_type : is_u8 h.(h_Type);
  gh_control : is_u8 h.(h_Control);
  gh_parameter : is_u32 h.(h_Parameter);
  gh_legal : MessageType_LegalOn h.(h_Type) (side_channel sd) = true;
  gh_length : h.(h_Length) = 0 \/ h.(h_Length) = len b;
}.

(** What is promised of the payloads, and of the instrument under them. *)
Class Payloads (B : bytes -> Prop) : Prop := {
  payload_small : forall b, wf_bytes b -> len b < 2 ^ 32 -> B b;
}.

Class TypedDevice (D : Type) `{Device D} (B : bytes -> Prop) (ok : D -> Prop) : Prop := {
  ok_Write : forall d c b fin, ok d -> ok (dev_Write d c b fin).2;
  ok_Read : forall d c n, ok d -> ok (dev_Read d c n).2;
  ok_Clear : forall d c, ok d -> ok (dev_Clear d c).2;
  ok_Trigger : forall d c, ok d -> ok (dev_Trigger d c).2;
  ok_Status : forall d c, ok d -> ok (dev_ReadStatusByte d c).2;
  ok_Remote : forall d c m, ok d -> ok (dev_RemoteLocal d c m).2;
  payload_Read : forall d c n, ok d -> B (dev_Read d c n).1.1.1;
  error_Write : forall d c b fin err, ok d -> (dev_Write d c b fin).1 = Some err -> B (error_text err);
  error_Clear : forall d c err, ok d -> (dev_Clear d c).1 = Some err -> B (error_text err);
  error_Trigger : forall d c err, ok d -> (dev_Trigger d c).1 = Some err -> B (error_text err);
  error_Status : forall d c err, ok d -> (dev_ReadStatusByte d c).1.2 = Some err -> B (error_text err);
  error_Remote : forall d c m err, ok d -> (dev_RemoteLocal d c m).1 = Some err -> B (error_text err);
}.

(** The texts of the program's own errors. *)
Lemma payload_sentinel B `{Payloads B} s : B (error_text (Sentinel s)).
Proof.
  apply payload_small; [| by destruct s as [[]|[]|[]|]].
  destruct s as [[]|[]|[]|]; unfold wf_bytes, is_u8; apply (bool_decide_unpack _); vm_compute; exact I.
Qed.

Lemma payload_text B `{Payloads B} (t : string) :
  bool_decide (Forall (fun z => 0 <= z < 2 ^ 8) (str t) /\ len (str t) < 2 ^ 32) = true -> B (str t).
Proof. intros [H1 H2]%bool_decide_eq_true. by apply payload_small. Qed.

(** Bit operations stay within a width. *)
Lemma below_of_bits n z : 0 <= n -> 0 <= z -> (forall i, n <= i -> Z.testbit z i = false) -> 0 <= z < 2 ^ n.
Proof.
  intros Hn Hz Hb. split; [done |]. destruct (Z.eq_dec z 0) as [-> | Hne]; [lia |].
  apply Z.log2_lt_pow2; [lia |]. destruct (Z.lt_ge_cases (Z.log2 z) n) as [|Hge]; [done |].
  apply Hb in Hge. rewrite Z.bit_log2 in Hge by lia. done.
Qed.
Lemma lor_below n a b : 0 <= n -> 0 <= a < 2 ^ n -> 0 <= b < 2 ^ n -> 0 <= Z.lor a b < 2 ^ n.
Proof.
  intros Hn Ha Hb. apply below_of_bits; [done | apply Z.lor_nonneg; lia |]. intros i Hi.
  by rewrite Z.lor_spec, !(testbit_above n).
Qed.
Lemma ldiff_below n a b : 0 <= n -> 0 <= a < 2 ^ n -> 0 <= Z.ldiff a b < 2 ^ n.
Proof.
  intros Hn Ha. apply below_of_bits; [done | apply Z.ldiff_nonneg; lia |]. intros i Hi.
  by rewrite Z.ldiff_spec, (testbit_above n).
Qed.
Lemma Status_Byte_u8 s device q del : is_u8 device -> is_u8 (Status_Byte s device q del).1.
Proof.
  intros Hd. unfold Status_Byte. destruct (Status_MAV s q del) as [[] s']; simpl;
    [by apply (lor_below 8) | by apply (ldiff_below 8)].
Qed.

(** The size a client announces. *)
Lemma decodeMaxSize_u64 payload : wf_bytes payload -> is_u64 (decodeMaxSize payload).
Proof.
  intros Hp. unfold decodeMaxSize. case_bool_decide; [done |].
  assert (Hall : forall l v, wf_bytes l -> is_u64 v ->
    is_u64 (fold_left (fun v b => Z.lor (uint64 (Z.shiftl v 8)) b) l v)).
  { intros l. induction l as [|b l IH]; intros v Hl Hv; [done |]. apply Forall_cons in Hl as [Hb Hl].
    cbn [fold_left]. apply IH; [done |]. apply (lor_below 64); [done | apply uint64_range |].
    unfold is_u8 in Hb. lia. }
  apply Hall; [by apply wf_bytes_take | done].
Qed.

Create HintDb within.

Section Within.
Context {S D : Type} `{Stream S} `{Device D} (B : bytes -> Prop) (ok : D -> Prop).
Context `{!Payloads B} `{!TypedDevice D B ok}.
Implicit Types st : HState S D.
Local Abbreviation HP := (prog (HState S D)).

Inductive h_step : HState S D -> HState S D -> Prop :=
| h_inner st st' :
    st'.(hs_syncS) = st.(hs_syncS) -> st'.(hs_asyncS) = st.(hs_asyncS) ->
    sess_step st.(hs_sess) st'.(hs_sess) ->
    srv_step (eq st.(hs_sess).(ss_id)) st.(hs_srv) st'.(hs_srv) ->
    (ok st.(hs_srv).(srv_dev) -> ok st'.(hs_srv).(srv_dev)) -> h_step st st'
| h_write sd h b st : good_header sd h b -> B b -> h_step st (writer_Write sd h b st).2.

Definition typed_state st : Prop :=
  typed_sess st.(hs_sess) /\ typed_srv st.(hs_srv) /\ ok st.(hs_srv).(srv_dev).

(** The errors the handlers meet can be reported. *)
Definition reportable (res : option error) : Prop := forall err, res = Some err -> B (error_text err).

Context (T : HState S D -> Prop) (me : SessionID).
Context (T_typed : forall st, T st -> typed_state st).
Context (T_me : forall st, T st -> st.(hs_sess).(ss_id) = me).
Context (T_write : forall st sd h b, T st -> good_header sd h b -> B b ->
  reportable (writer_Write sd h b st).1).

Fixpoint within {A} (p : HP A) (Q : A -> Prop) : Prop :=
  match p with
  | Ret a => Q a
  | Act m k => forall st, T st -> h_step st (m st).2 /\ within (k (m st).1) Q
  end.

Lemma within_mono {A} (p : HP A) (Q R : A -> Prop) :
  (forall a, Q a -> R a) -> within p Q -> within p R.
Proof.
  intros HQ. induction p as [a | C m k IH]; cbn; [auto |].
  intros Hp st Hst. destruct (Hp st Hst). auto.
Qed.

Lemma within_bind {A C} (p : HP A) (f : A -> HP C) Q R :
  within p Q -> (forall a, Q a -> within (f a) R) -> within (p ≫= f) R.
Proof.
  intros Hp Hf. induction p as [a | E m k IH]; [by apply Hf |].
  intros st Hst. destruct (Hp st Hst) as [Hm Hk]. split; [done | by apply IH].
Qed.

Lemma within_check {A} p (onerr : error -> HP A) k R :
  within p reportable -> (forall err, B (error_text err) -> within (onerr err) R) -> within k R ->
  within (p_check p onerr k) R.
Proof.
  intros Hp He Hk. apply (within_bind _ _ reportable); [done |].
  intros [err|] Hr; [| done]. apply He. by apply Hr.
Qed.

(** *** Actions *)

Lemma h_refl st : h_step st st.
Proof. by apply h_inner. Qed.

Lemma within_gets {A} (f : HState S D -> A) (Q : A -> Prop) :
  (forall st, typed_state st -> Q (f st)) -> within (act (gets f)) Q.
Proof. intros Hf st Hst. split; [apply h_refl |]. cbn. by apply Hf, T_typed. Qed.

Lemma within_sess {A} (m : M (HState S D) A) (Q : A -> Prop) :
  (forall st, exists a s, m st = (a, (sess_modify (fun _ => s) st).2) /\
     (typed_state st -> sess_step st.(hs_sess) s /\ Q a)) -> within (act m) Q.
Proof.
  intros Hm st Hst. destruct (Hm st) as (a & s & E & Hs). destruct (Hs (T_typed st Hst)).
  rewrite E. split; [by apply h_inner | done].
Qed.

Lemma within_modify f :
  (forall s, typed_sess s -> sess_step s (f s)) -> within (act (sess_modify f)) (fun _ => True).
Proof.
  intros Hf. apply within_sess. intros st. exists tt, (f st.(hs_sess)). split; [done |].
  intros (Hs & _). auto.
Qed.

Lemma within_srv {A} (m : M (HState S D) A) (Q : A -> Prop) :
  (forall st, exists a v, m st = (a, (srv_modify (fun _ => v) st).2) /\
     (typed_state st -> st.(hs_sess).(ss_id) = me ->
      srv_step (eq me) st.(hs_srv) v /\ ok v.(srv_dev) /\ Q a)) -> within (act m) Q.
Proof.
  intros Hm st Hst. destruct (Hm st) as (a & v & E & Hs). pose proof (T_me st Hst) as Hme.
  destruct (Hs (T_typed st Hst) Hme) as (? & ? & ?). rewrite E.
  split; [apply h_inner; by rewrite ?Hme | done].
Qed.

Lemma within_count f : keeps_counters f -> within (act (count f)) (fun _ => True).
Proof.
  intros Hf. apply within_srv. intros st. eexists tt, _. split; [reflexivity |].
  intros (_ & _ & Hok) _. exact (conj (srv_step_count _ f _ Hf) (conj Hok I)).
Qed.

Lemma within_dev {A} ctx (f : D -> bool -> A * D) (Q : A -> Prop) :
  (forall d c, ok d -> ok (f d c).2 /\ Q (f d c).1) -> within (act (on_dev ctx f)) Q.
Proof.
  intros Hf. apply within_srv. intros st.
  destruct (f st.(hs_srv).(srv_dev) (ctx_done st.(hs_cancelled) ctx)) as [a d] eqn:E.
  exists a, (srv_set_dev d st.(hs_srv)). split.
  - unfold on_dev, mbind, M_bind, ctx_Err, srv_gets, gets. simpl. by rewrite E.
  - intros (_ & _ & Hok) _. destruct (Hf _ (ctx_done st.(hs_cancelled) ctx) Hok) as [Hd HQ].
    rewrite E in Hd, HQ. exact (conj (srv_step_dev _ d _) (conj Hd HQ)).
Qed.

Lemma within_write sd h b : good_header sd h b -> B b -> within (act (writer_Write sd h b)) reportable.
Proof. intros Hh Hb st Hst. split; [by apply h_write |]. by apply T_write. Qed.

(** A method of the transaction. *)
Definition typed_method (f : Transaction -> option error * Transaction) : Prop :=
  forall t, reportable (f t).1 /\ (is_u32 t.(tx_id) -> is_u32 (f t).2.(tx_id)).

Lemma within_tx f : typed_method f -> within (act (on_tx f)) reportable.
Proof.
  intros Hf. apply within_sess. intros st. destruct (Hf st.(hs_sess).(ss_tx)) as [He Ht].
  destruct (f st.(hs_sess).(ss_tx)) as [err t] eqn:E. exists err, (ss_set_tx t st.(hs_sess)). split.
  - unfold on_tx, mbind, M_bind, sess_gets, gets. simpl. by rewrite E.
  - intros _. split; [by apply sess_step_tx | done].
Qed.

Lemma reportable_none : reportable None.
Proof. done. Qed.
Lemma reportable_sentinel s : reportable (Some (Sentinel s)).
Proof. intros err [= <-]. by apply payload_sentinel. Qed.
Lemma reportable_some err : B (error_text err) -> reportable (Some err).
Proof. by intros Hb e [= <-]. Qed.

Lemma typed_To next : typed_method (fun t => Transaction_To t next).
Proof.
  intros t. unfold Transaction_To.
  repeat case_match; (split; [apply reportable_sentinel || apply reportable_none | done]).
Qed.
Lemma typed_CompleteInput id : is_u32 id -> typed_method (fun t => Transaction_CompleteInput t id).
Proof.
  intros Hid t. unfold Transaction_CompleteInput. destruct (typed_To TxInputComplete t) as [He Ht].
  destruct (Transaction_To t TxInputComplete) as [[err|] t']; by split.
Qed.
Lemma typed_Complete : typed_method Transaction_Complete.
Proof.
  intros t. unfold Transaction_Complete. destruct (typed_To TxIdle t) as [He Ht].
  destruct (Transaction_To t TxIdle) as [[err|] t']; split; simpl; try done.
Qed.

(** *** Headers *)

Lemma good_simple sd h b :
  bool_decide (0 <= h.(h_Type) < 2 ^ 8) && bool_decide (0 <= h.(h_Control) < 2 ^ 8)
    && bool_decide (0 <= h.(h_Parameter) < 2 ^ 32) && MessageType_LegalOn h.(h_Type) (side_channel sd)
    && bool_decide (h.(h_Length) = 0) = true -> good_header sd h b.
Proof.
  rewrite !andb_true_iff, !bool_decide_eq_true. intros [[[[H1 H2] H3] H4] H5]. split; auto.
Qed.

(** A message in the name of a MessageID. *)
Lemma good_message sd t id b :
  is_u8 t -> is_u32 id -> MessageType_LegalOn t (side_channel sd) = true ->
  good_header sd (MkHeader t 0 id (len b)) b.
Proof. intros. split; try done. by right. Qed.
Lemma good_empty sd t id :
  is_u8 t -> is_u32 id -> MessageType_LegalOn t (side_channel sd) = true ->
  good_header sd (MkHeader t 0 id 0) [].
Proof. intros. split; try done. by left. Qed.

(** An error is legal on both channels. *)
Lemma good_error sd code b : is_u8 code -> good_header sd (MkHeader Error code 0 0) b.
Proof. intros. split; try done; [by destruct sd | by left]. Qed.
Lemma good_fatal sd code b : is_u8 code -> good_header sd (MkHeader FatalError code 0 0) b.
Proof. intros. split; try done; [by destruct sd | by left]. Qed.

Lemma wire_codes err : is_u8 (WireErrorFor err).(we_FatalCode) /\ is_u8 (WireErrorFor err).(we_Code).
Proof. unfold WireErrorFor, FatalCodeFor, ErrorCodeFor. split; split_matches. Qed.

(** *** The walk *)

Lemma within_error sd code b :
  is_u8 code -> B b -> within (act (writer_WriteError sd code b)) reportable.
Proof. intros. by apply within_write; [apply good_error |]. Qed.
Lemma within_fatal sd code b :
  is_u8 code -> B b -> within (act (writer_WriteFatalError sd code b)) reportable.
Proof. intros. by apply within_write; [apply good_fatal |]. Qed.

Lemma within_writer sd : within (act (has_writer sd)) (fun _ => True).
Proof. by apply within_gets. Qed.
Lemma within_pending b : within (act (setResponsePending b)) (fun _ => True).
Proof. apply within_modify. intros s Hs. by apply sess_step_status. Qed.
Lemma within_session : within (act (sess_gets id)) typed_sess.
Proof. apply within_gets. by intros st (Hs & _). Qed.
Lemma within_config : within (act (srv_gets srv_cfg)) typed_config.
Proof. apply within_gets. by intros st (_ & [] & _). Qed.

Hint Resolve within_error within_fatal within_writer within_pending within_session within_config
  within_count within_tx typed_To typed_Complete typed_CompleteInput : within.
Hint Resolve reportable_none reportable_sentinel reportable_some : within.
Hint Extern 2 (keeps_counters _) => auto with typed : within.
Hint Extern 1 (reportable (Some (serr _))) => apply reportable_sentinel : within.
Hint Extern 1 (reportable (Some (perr _))) => apply reportable_sentinel : within.

(** Through binds, checks and branches. *)
Ltac walk_step :=
  match goal with
  | |- within (Ret _) _ => cbn [within]
  | |- within (Ret _ ≫= _) _ => cbn [mbind prog_MBind prog_bind]
  | |- within (match ?x with _ => _ end ≫= _) _ => destruct x eqn:?
  | |- within (p_check _ _ _) _ => apply within_check; [| intros ?err ?Herr |]
  | |- within (_ ≫= _) _ => eapply within_bind; [solve [eauto with within] | intros]
  | |- within (match ?x with _ => _ end) _ => destruct x eqn:?
  | |- within _ _ => solve [eauto with within
                           | eapply within_mono; [by intros | solve [eauto with within]]]
  end.
Ltac walk := cbv zeta; repeat walk_step; try solve [eauto with within].

Lemma text_ok (t : string) :
  bool_decide (Forall (fun z => 0 <= z < 2 ^ 8) (str t) /\ len (str t) < 2 ^ 32) = true -> B (str t).
Proof. apply payload_text. done. Qed.
Hint Extern 1 (B (str _)) => (apply text_ok; vm_compute; reflexivity) : within.
Hint Extern 1 (B []) => (apply (text_ok ""); reflexivity) : within.
Hint Extern 1 (is_u8 _) => (split; vm_compute; congruence) : within.
Hint Extern 2 (B (error_text (serr _))) => (apply payload_sentinel; exact _) : within.
Hint Extern 2 (B (error_text (perr _))) => (apply payload_sentinel; exact _) : within.

Lemma within_reportReadError sd err :
  B (error_text err) -> within (p_reportReadError sd err) (fun _ => True).
Proof. intros Hb. unfold p_reportReadError. walk. Qed.

Lemma within_report_fatal sd wire err :
  is_u8 wire.(we_FatalCode) -> B (error_text err) -> within (p_report_fatal sd wire err) (fun _ => True).
Proof. intros Hc Hb. unfold p_report_fatal. walk. Qed.

Lemma within_reportAcceptError sd err :
  B (error_text err) -> within (p_reportAcceptError sd err) (fun _ => True).
Proof.
  intros Hb. destruct (wire_codes err) as [H1 H2]. pose proof within_report_fatal.
  unfold p_reportAcceptError. walk.
Qed.

Lemma within_reportOperationError sd err :
  B (error_text err) -> within (p_reportOperationError sd err) (fun _ => True).
Proof.
  intros Hb. destruct (wire_codes err) as [H1 H2]. pose proof within_report_fatal.
  unfold p_reportOperationError. walk. case_bool_decide; eapply within_mono; [done | | done |]; eauto with within.
Qed.
Hint Resolve within_reportReadError within_reportAcceptError within_reportOperationError : within.

(** *** The response *)

Lemma within_message t r b :
  is_u32 r.(r_MessageID) -> B b -> is_u8 t -> MessageType_LegalOn t ChannelSynchronous = true ->
  within (act (writer_Write SyncSide (MkHeader t 0 r.(r_MessageID) (len b)) b)) reportable.
Proof. intros. apply within_write; [by apply good_message | done]. Qed.
Lemma within_notice sd t r :
  is_u32 r.(r_MessageID) -> is_u8 t -> MessageType_LegalOn t (side_channel sd) = true ->
  within (act (writer_Write sd (MkHeader t 0 r.(r_MessageID) 0) [])) reportable.
Proof. intros. apply within_write; [by apply good_empty | eauto with within]. Qed.
Lemma within_rmt f : within (act (sess_modify (fun s => ss_set_rmt (f s) s))) (fun _ => True).
Proof. apply within_modify. auto with typed. Qed.
Lemma within_lastTx id : is_u32 id -> within (act (sess_modify (Session_setLastTxMessageID id))) (fun _ => True).
Proof. intros Hid. apply within_modify. auto with typed. Qed.
Hint Resolve within_message within_notice within_rmt within_lastTx : within.

Lemma within_terminate r b : is_u32 r.(r_MessageID) -> B b -> within (p_terminate r b) reportable.
Proof. intros Hid Hb. unfold p_terminate. walk. Qed.
Hint Resolve within_terminate : within.

Lemma within_absent r :
  is_u32 r.(r_MessageID) -> within (p_completeAbsentResponse r) (fun res => reportable res.2).
Proof. intros Hid. unfold p_completeAbsentResponse. walk. Qed.

Lemma within_interrupted r : is_u32 r.(r_MessageID) -> within (p_sendInterrupted r) reportable.
Proof. intros Hid. unfold p_sendInterrupted. walk. Qed.
Hint Resolve within_absent within_interrupted : within.

Lemma within_deliver r b fin err n :
  is_u32 r.(r_MessageID) -> B b -> within (p_deliver_chunk r b fin err n)
    (fun res => match res with inl (_, e) => B (error_text e) | inr _ => True end).
Proof. intros Hid Hb. unfold p_deliver_chunk. walk. Qed.

Definition outcome_ok (res : option (ResponseOutcome * option error)) : Prop :=
  match res with Some (_, err) => reportable err | None => True end.
Hint Extern 1 (outcome_ok _) => (cbn [outcome_ok]) : within.

Lemma within_after_read r b fin err n :
  is_u32 r.(r_MessageID) -> B b -> within (p_after_read r b fin err n) outcome_ok.
Proof.
  intros Hid Hb. unfold p_after_read. walk; [by destruct a |].
  apply (within_bind _ _ (fun _ => True)); [by apply within_gets | intros [] _; walk].
Qed.
Hint Resolve within_deliver within_after_read : within.

Lemma within_loop fuel ctx r n : is_u32 r.(r_MessageID) -> within (p_loop fuel ctx r n) outcome_ok.
Proof.
  intros Hid. revert n. induction fuel as [|fuel IH]; intros n; [done |]. cbn [p_loop].
  eapply (within_bind _ _ (fun res => B res.1.1)).
  { apply within_dev. intros d c Hd. split; [by apply ok_Read | by apply payload_Read]. }
  intros [[b fin] err] Hb. simpl in Hb. walk.
Qed.
Hint Resolve within_loop : within.

Lemma validate_reportable r sess : reportable (Response_validate r sess).
Proof. unfold Response_validate. repeat case_match; auto with within. Qed.

Lemma within_SendResponse fuel ctx r :
  is_u32 r.(r_MessageID) -> within (p_SendResponse fuel ctx r) outcome_ok.
Proof.
  intros Hid. unfold p_SendResponse. pose proof validate_reportable. walk.
Qed.
Hint Resolve within_SendResponse : within.

Lemma within_begin ctx : within (act (begin_operation ctx)) (fun _ => True).
Proof. intros st Hst. split; [apply h_inner; try done; apply sess_step_opCancel | done]. Qed.
Lemma within_end ctx : within (act (end_operation ctx)) (fun _ => True).
Proof.
  intros st Hst. split; [| done]. unfold end_operation, modify. destruct ctx as [|c ctx]; [apply h_refl |].
  apply h_inner; try done. simpl. case_bool_decide; [apply sess_step_opCancel | done].
Qed.
Hint Resolve within_begin within_end : within.

Lemma within_respond fuel ctx id buf : is_u32 id -> within (p_respond fuel ctx id buf) (fun _ => True).
Proof. intros Hid. unfold p_respond, countOutcome. walk. Qed.
Hint Resolve within_respond : within.

(** *** Input *)

(** A message as the reader hands it over. *)
Definition typed_message (msg : message) : Prop :=
  wf_header msg.(msg_header) /\ wf_bytes msg.(msg_payload) /\ reportable msg.(msg_err).

Lemma within_rmt_received h : within (act (rmt_received h)) (fun _ => True).
Proof.
  apply within_sess. intros st.
  destruct (RMT_ReceivedSyncMessage st.(hs_sess).(ss_rmt) (Header_RMTDelivered h)) as [i rmt] eqn:E.
  exists i, (ss_set_rmt rmt st.(hs_sess)). split; [| auto with typed].
  unfold rmt_received, mbind, M_bind, sess_gets, gets. simpl. by rewrite E.
Qed.
Lemma within_status_received h :
  is_u32 h.(h_Parameter) -> within (act (status_received h)) (fun _ => True).
Proof.
  intros Hp. apply within_modify. intros s Hs.
  apply sess_step_status; unfold Status_ReceivedSyncMessage; case_match; try done;
    by intros [? ?].
Qed.
Hint Resolve within_rmt_received within_status_received : within.

Lemma within_ReceiveData ctx h b :
  wf_header h -> within (p_ReceiveData ctx h b) (fun res => reportable res.2).
Proof.
  intros (_ & _ & Hp & _). unfold p_ReceiveData. walk.
  - apply within_tx. destruct (bool_decide (h_Type h = DataEnd)); [by apply typed_CompleteInput | apply typed_To].
  - apply within_dev. intros d c Hd. split; [by apply ok_Write |]. intros e He. by eapply error_Write.
Qed.

Lemma within_ready s : reportable (Session_requireReady s).
Proof. unfold Session_requireReady. case_match; auto with within. Qed.
Hint Extern 1 (within (Ret (Session_requireReady _)) _) => (apply within_ready) : within.

Lemma within_Trigger ctx h :
  wf_header h -> within (p_Trigger ctx h) (fun res => reportable res.2).
Proof.
  intros (_ & _ & Hp & _). unfold p_Trigger. walk; [apply within_ready |].
  apply within_dev. intros d c Hd. split; [by apply ok_Trigger |]. intros e He. by eapply error_Trigger.
Qed.

(** An answer that can be sent. *)
Definition answerable (sd : side) (res : Header * option error) : Prop :=
  match res with
  | (h, None) => good_header sd h []
  | (_, Some err) => B (error_text err)
  end.

Lemma feature_u8 cfg c : is_u8 (Config_featureBitmap cfg c).
Proof. unfold Config_featureBitmap. case_match; by split. Qed.

Lemma within_CompleteDeviceClear ctx h :
  h.(h_Type) = DeviceClearComplete ->
  within (p_CompleteDeviceClear ctx h) (fun res => good_header SyncSide res.1 [] /\ reportable res.2).
Proof.
  intros Ht. unfold p_CompleteDeviceClear. rewrite bool_decide_eq_false_2 by auto.
  eapply within_bind; [apply within_config |]. intros cfg _.
  assert (Hg : good_header SyncSide
    (MkHeader DeviceClearAcknowledge (Config_featureBitmap cfg h.(h_Control)) 0 0) []).
  { split; try done; [apply feature_u8 | by left]. }
  eapply within_bind; [apply within_modify; auto with typed |]. intros _ _.
  eapply within_bind; [apply within_modify; intros s Hs; by apply sess_step_tx |]. intros _ _.
  eapply (within_bind _ _ reportable).
  { apply within_dev. intros d c Hd. split; [by apply ok_Clear |]. intros e He. by eapply error_Clear. }
  intros [err|] He; split; auto with within.
Qed.

(** *** The asynchronous operations *)

Lemma within_abort : within (act abortOperation) (fun _ => True).
Proof.
  intros st Hst. split; [| done]. unfold abortOperation, modify, Session_abortOperation. simpl.
  destruct (ss_opCancel (hs_sess st)); (apply h_inner; try done; apply sess_step_opCancel).
Qed.

Lemma within_BeginDeviceClear : within p_BeginDeviceClear (answerable AsyncSide).
Proof.
  unfold p_BeginDeviceClear. pose proof within_abort.
  eapply within_bind; [apply within_session |]. intros sess _.
  apply within_check; [apply within_ready | done |].
  eapply within_bind; [apply within_abort |]. intros _ _.
  eapply within_bind; [apply within_pending |]. intros _ _.
  apply within_check; [apply within_tx, typed_To | done |].
  eapply within_bind; [apply within_modify; auto with typed |]. intros _ _.
  eapply within_bind; [apply within_config |]. intros cfg _.
  split; try done; [apply feature_u8 | by left].
Qed.

Lemma within_status_byte device h : is_u8 device -> within (act (status_byte device h)) is_u8.
Proof.
  intros Hd. apply within_sess. intros st.
  pose proof (Status_Byte_u8 st.(hs_sess).(ss_status) device (Header_MessageID h) (Header_RMTDelivered h) Hd) as Hb.
  destruct (Status_Byte _ _ _ _) as [stb status] eqn:E. exists stb, (ss_set_status status st.(hs_sess)). split.
  - unfold status_byte, mbind, M_bind, sess_gets, gets. simpl. by rewrite E.
  - intros _. split; [| done].
    unfold Status_Byte, Status_MAV, Status_LastReceived in E.
    apply sess_step_status; revert E; repeat case_match; intros; by simplify_eq/=.
Qed.
Lemma within_status_take : within (act status_take) (fun _ => True).
Proof.
  apply within_sess. intros st. eexists _, _. split; [reflexivity |]. intros _. split; [| done].
  apply sess_step_status; [done |]. by intros [? _].
Qed.

Lemma within_StatusQuery ctx h : within (p_StatusQuery ctx h) (answerable AsyncSide).
Proof.
  unfold p_StatusQuery. case_bool_decide; [exact (payload_sentinel B _) |].
  eapply within_bind; [apply within_session |]. intros sess _.
  apply within_check; [apply within_ready | done |].
  eapply within_bind; [apply within_rmt |]. intros _ _.
  eapply (within_bind _ _ (fun res => is_u8 res.1 /\ reportable res.2)).
  { apply within_dev. intros d c Hd. split; [by apply ok_Status |]. split; [apply dev_Status_byte |].
    intros e He. by eapply error_Status. }
  intros [device [err|]] [Hd He]; [by apply He |].
  eapply within_bind; [by apply within_status_byte |]. intros stb Hb.
  eapply within_bind; [apply within_status_take |]. intros taken _.
  split; try done; [| by left]. simpl. destruct taken; [by apply (lor_below 8) | done].
Qed.

Lemma within_RemoteLocal ctx h : within (p_RemoteLocal ctx h) (answerable AsyncSide).
Proof.
  unfold p_RemoteLocal. case_bool_decide; [exact (payload_sentinel B _) |].
  eapply within_bind; [apply within_session |]. intros sess _.
  apply within_check; [apply within_ready | done |]. cbv zeta.
  destruct (negb _); [exact (payload_sentinel B _) |].
  apply within_check; [| done | by apply good_simple].
  apply within_dev. intros d c Hd. split; [by apply ok_Remote |]. intros e He. by eapply error_Remote.
Qed.

Lemma within_LockInfo h : within (p_LockInfo h) (answerable AsyncSide).
Proof.
  unfold p_LockInfo. case_bool_decide; [exact (payload_sentinel B _) |].
  eapply within_bind; [apply within_session |]. intros sess _.
  apply within_check; [apply within_ready | done |].
  apply (within_bind _ _ (fun _ => True)); [by apply within_gets |]. intros locks _.
  destruct (Info locks) as [[] holders]; split; try done; (apply uint32_range || by left).
Qed.

(** The session a handler looks up is its own. *)
Lemma within_owner : within (act (sess_gets id)) (fun s => typed_sess s /\ s.(ss_id) = me).
Proof. intros st Hst. split; [apply h_refl |]. split; [by apply T_typed | by apply T_me]. Qed.

Lemma me_u16 st : typed_state st -> st.(hs_sess).(ss_id) = me -> forall i, me = i -> is_u16 i.
Proof. intros (Hs & _) <- i <-. apply Hs. Qed.

Lemma within_request_step w ch :
  w.(wt_session) = me -> within (act (request_step w ch)) (fun w => w.(wt_session) = me).
Proof.
  intros Hw. apply within_srv. intros st. unfold request_step, mbind, M_bind, srv_gets, gets. cbn.
  destruct (Request_step _ w ch) as [[locks w']|] eqn:E.
  - destruct (Request_step_move (eq me) _ _ _ _ _ (eq_sym Hw) E) as [Hf Hs]. eexists _, _. split; [reflexivity |].
    intros Ht Hme. refine (conj _ (conj _ _)); [| by apply Ht | by rewrite Hs].
    apply srv_step_locks; [by apply (me_u16 st) | done].
  - exists w, st.(hs_srv). split; [by destruct st |]. intros (_ & _ & Hok) _. exact (conj (reflexivity _) (conj Hok Hw)).
Qed.

Lemma within_Request choices w : w.(wt_session) = me -> within (p_Request choices w) (fun _ => True).
Proof.
  revert w. induction choices as [|ch choices IH]; intros w Hw; simpl; [by destruct (wt_phase w) |].
  assert (Hstep : within (w ← act (request_step w ch); p_Request choices w) (fun _ => True)).
  { eapply within_bind; [by apply within_request_step |]. auto. }
  by destruct (wt_phase w).
Qed.

Lemma lock_answer r : good_header AsyncSide (MkHeader AsyncLockResponse (LockResult_code r) 0 0) [].
Proof. by destruct r; apply good_simple. Qed.

Lemma within_Lock choices h k :
  within (p_Lock choices h k) (fun res => match res with Some a => answerable AsyncSide a | None => True end).
Proof.
  unfold p_Lock. case_bool_decide; [exact (payload_sentinel B _) |].
  eapply within_bind; [apply within_owner |]. intros sess [Hs Hme].
  apply within_check; [apply within_ready | done |]. case_bool_decide.
  - eapply within_bind; [by apply within_Request |]. intros [r|] _; [apply lock_answer | done].
  - case_bool_decide; [| exact (payload_sentinel B _)].
    apply (within_bind _ _ (fun _ => True)); [| intros r _; apply lock_answer].
    apply within_srv. intros st. unfold lock_release, mbind, M_bind, srv_gets, gets. cbn.
    pose proof (lock_move_step (eq me) (srv_locks (hs_srv st)) (OpRelease (Session_ID sess)) (eq_sym Hme)) as Hl.
    simpl in Hl. destruct (Release _ _) as [r locks]. eexists _, _. split; [reflexivity |].
    intros Ht Hid. refine (conj _ (conj _ I)); [| by apply Ht].
    apply srv_step_locks; [by apply (me_u16 st) | done].
Qed.

Lemma within_answer res : answerable AsyncSide res -> within (p_answer res) (fun _ => True).
Proof.
  destruct res as [h [err|]]; intros Ha; cbn [p_answer]; [by apply within_reportOperationError |].
  eapply within_mono; [done |]. apply within_write; [done | eauto with within].
Qed.

Lemma len_putUint64 v : len (putUint64 v) = 8.
Proof.
  unfold len, putUint64. destruct (putUint64_loop_bytes 8 v []) as [_ E]; [by constructor |].
  by rewrite E.
Qed.

Lemma within_maxsize n :
  is_u64 n -> within (act (maxsize_act n)) (fun res => good_header AsyncSide res.1 (putUint64 res.2) /\ is_u64 res.2).
Proof.
  intros Hn. apply within_sess. intros st. rewrite maxsize_alone.
  pose proof (sess_step_maxsize st.(hs_srv).(srv_cfg) st.(hs_sess) n Hn) as Hs.
  eexists _, _. split; [reflexivity |]. intros (_ & [Hc _ _ _ _ _] & _). split; [exact Hs |].
  split; [| apply Hc]. split; try done. right. by rewrite len_putUint64.
Qed.
Hint Resolve within_ReceiveData within_Trigger within_StatusQuery within_RemoteLocal within_LockInfo
  within_Lock within_answer within_BeginDeviceClear : within.

(** *** The handlers *)

Lemma within_handleData_end fuel ctx id buf :
  is_u32 id -> within (p_handleData_end fuel ctx id buf) (fun _ => True).
Proof.
  intros Hid. unfold p_handleData_end. apply (within_bind _ _ (fun _ => True)); [| intros; walk].
  apply within_sess. intros st. unfold disposition_act.
  pose proof (sess_step_disposition st.(hs_sess)) as Hs.
  rewrite (bind_run (sess_gets Datatypes.id) _ st st.(hs_sess) st) by reflexivity.
  destruct (Session_programDisposition st.(hs_sess)) as [d s]. by exists d, s.
Qed.
Hint Resolve within_handleData_end : within.

Lemma within_handleData fuel ctx msg buf :
  typed_message msg -> within (p_handleData fuel ctx msg buf) (fun _ => True).
Proof.
  intros (Hh & _ & _). unfold p_handleData, countInterrupted.
  eapply within_bind; [by apply within_ReceiveData |]. intros [i err] He. simpl in He.
  eapply within_bind; [eauto with within |]. intros _ _. destruct err as [err|].
  - eapply within_bind; [apply within_reportOperationError; by apply He | done].
  - eapply within_bind; [apply within_modify; auto with typed |]. intros _ _.
    case_bool_decide; [done |]. apply within_handleData_end, Hh.
Qed.
Hint Resolve within_handleData : within.

Lemma accept_reportable cfg sess h c : reportable (Server_Accept cfg sess h c).2.
Proof.
  unfold Server_Accept, CheckLength. repeat case_match; simplify_eq/=; auto using within_ready with within.
Qed.

Lemma within_handleSync_case fuel ctx msg buf class :
  typed_message msg -> within (p_handleSync_case fuel ctx msg buf class) (fun _ => True).
Proof.
  intros Hm. pose proof Hm as (Hh & _). unfold p_handleSync_case. cbv zeta.
  destruct (_ || _); [auto with within |].
  destruct (bool_decide (h_Type (msg_header msg) = Trigger)).
  { eapply within_bind; [by apply within_Trigger |]. intros [i err] He. simpl in He. unfold countInterrupted.
    eapply within_bind; [eauto with within |]. intros _ _. destruct err as [err|]; [| walk].
    eapply within_bind; [apply within_reportOperationError; by apply He | done]. }
  destruct (bool_decide (h_Type (msg_header msg) = DeviceClearComplete)) eqn:Et.
  { apply bool_decide_eq_true in Et. eapply within_bind; [by apply within_CompleteDeviceClear |].
    intros [ack err] [Hg He]. simpl in Hg, He. apply within_check; [apply within_write; eauto with within | done |].
    eapply within_bind; [eauto with within |]. intros _ _. destruct err as [err|]; [| done].
    eapply within_bind; [apply within_reportOperationError; by apply He | done]. }
  walk.
Qed.

Lemma within_handleSync fuel ctx msg buf :
  typed_message msg -> within (p_handleSync fuel ctx msg buf) (fun _ => True).
Proof.
  intros Hm. pose proof Hm as (_ & _ & He). unfold p_handleSync. cbv zeta.
  destruct (msg_err msg) as [err|].
  { eapply within_bind; [apply within_reportReadError; by apply He | done]. }
  eapply within_bind; [apply within_session |]. intros s1 _. destruct (DiscardDuringClear _ _); [done |].
  eapply within_bind; [apply within_config |]. intros cfg _.
  eapply within_bind; [apply within_session |]. intros s2 _.
  pose proof (accept_reportable cfg (Some s2) (msg_header msg) ChannelSynchronous) as Ha.
  destruct (Server_Accept _ _ _ _) as [class [err|]]; simpl in Ha; [| by apply within_handleSync_case].
  eapply within_bind; [apply within_reportAcceptError; by apply Ha | done].
Qed.

Lemma within_handleAsync_case choices ctx msg :
  typed_message msg -> within (p_handleAsync_case choices ctx msg) (fun _ => True).
Proof.
  intros (Hh & Hp & _). unfold p_handleAsync_case, p_handleClear. cbv zeta.
  assert (Hans : forall (p : HP (Header * option error)), within p (answerable AsyncSide) ->
    within (res ← p; res ← p_answer res; Ret (Some res)) (fun _ : option (option error) => True)).
  { intros p Ha. eapply within_bind; [exact Ha |]. intros a Hr.
    eapply within_bind; [by apply within_answer | done]. }
  destruct (bool_decide _).
  { eapply (within_bind _ _ (fun _ => True)); [| done].
    eapply within_bind; [apply within_BeginDeviceClear | apply within_answer]. }
  destruct (bool_decide _).
  { eapply within_bind; [apply within_StatusQuery |]. intros a Ha.
    eapply within_bind; [eauto with within |]. intros _ _.
    eapply within_bind; [by apply within_answer | done]. }
  destruct (bool_decide _).
  { eapply within_bind; [apply within_Lock |]. intros [a|] Ha; [| done].
    eapply within_bind; [by apply within_answer | done]. }
  destruct (bool_decide _); [apply Hans, within_LockInfo |].
  destruct (bool_decide _); [apply Hans, within_RemoteLocal |].
  destruct (bool_decide _).
  { eapply within_bind; [by apply within_maxsize, decodeMaxSize_u64 |]. intros [resp n] [Hg Hn]. simpl in Hg, Hn.
    eapply within_bind; [apply within_write; [done |] | done].
    apply payload_small; [| by rewrite len_putUint64].
    apply (putUint64_loop_bytes 8 n []). by constructor. }
  destruct (bool_decide _); [| walk].
  eapply within_bind; [apply within_write; [by apply good_simple | eauto with within] | done].
Qed.

Lemma within_handleAsync choices ctx msg :
  typed_message msg -> within (p_handleAsync choices ctx msg) (fun _ => True).
Proof.
  intros Hm. pose proof Hm as (_ & _ & He). unfold p_handleAsync. cbv zeta.
  eapply within_bind; [apply within_writer |]. intros w _. destruct (negb w); [done |].
  destruct (msg_err msg) as [err|].
  { eapply within_bind; [apply within_reportReadError; by apply He | done]. }
  eapply within_bind; [apply within_session |]. intros s _.
  eapply within_bind; [apply within_config |]. intros cfg _.
  pose proof (accept_reportable cfg (Some s) (msg_header msg) ChannelAsynchronous) as Ha.
  destruct (Server_Accept _ _ _ _).2 as [err|]; [| by apply within_handleAsync_case].
  eapply within_bind; [apply within_reportAcceptError; by apply Ha | done].
Qed.

(** *** The loops *)

Lemma within_serve_loop {A} before (handle : A -> HP (option (option error))) ctx inputs (P : A -> Prop) :
  (forall x, within (act (before x)) (fun _ => True)) ->
  (forall x, P x -> within (handle x) (fun _ => True)) ->
  Forall P inputs -> within (p_serve_loop before handle ctx inputs) (fun _ => True).
Proof.
  intros Hb Hh. induction 1 as [|x inputs Hx _ IH]; cbn [p_serve_loop];
    (apply (within_bind _ _ (fun _ => True)); [by apply within_gets |]); intros [] _; try done.
  eapply within_bind; [apply Hb |]. intros _ _. eapply within_bind; [by apply Hh |].
  by intros [[err|]|] _.
Qed.

Lemma within_runSync fuel ctx inputs :
  Forall (fun x => typed_message x.1) inputs -> within (p_runSync fuel ctx inputs) (fun _ => True).
Proof.
  intros Hi. unfold p_runSync. eapply within_bind; [apply within_modify; auto with typed |]. intros _ _.
  apply (within_bind _ _ (fun _ => True)); [by apply within_gets |]. intros buf _.
  eapply within_serve_loop; [| | exact Hi].
  - intros x st Hst. split; [by apply h_inner | done].
  - intros x Hx. by apply within_handleSync.
Qed.

Lemma within_runAsync ctx inputs :
  Forall (fun x => typed_message x.1) inputs -> within (p_runAsync ctx inputs) (fun _ => True).
Proof.
  intros Hi. eapply within_serve_loop; [| | exact Hi].
  - intros x st Hst. split; [apply h_refl | done].
  - intros x Hx. by apply within_handleAsync.
Qed.
End Within.

(** ** The asynchronous loop returns

    [returns] says that a program never ends without a result. *)
Section Returns.
Context {S D : Type} `{Stream S} `{Device D}.
Local Abbreviation HP := (prog (HState S D)).

Definition returns {A} (p : HP (option A)) : Prop := safe (fun _ => True) p (fun r => r <> None).

Lemma any_result {A} (p : HP A) : safe (fun _ => True) p (fun _ => True).
Proof. induction p as [a | C m k IH]; [done |]. by intros st _. Qed.
Lemma returns_bind {A B} (p : HP A) (f : A -> HP (option B)) : (forall a, returns (f a)) -> returns (p ≫= f).
Proof. intros Hf. apply (safe_bind _ _ _ (fun _ => True)); [apply any_result |]. intros a _. apply Hf. Qed.
Lemma returns_then {A B} (p : HP (option A)) (f : option A -> HP (option B)) :
  returns p -> (forall a, returns (f (Some a))) -> returns (p ≫= f).
Proof. intros Hp Hf. apply (safe_bind _ _ _ (fun r => r <> None)); [exact Hp |]. intros [a|]; [intros _; apply Hf | done]. Qed.
Lemma returns_check {A} p (onerr : error -> HP (option A)) k :
  (forall err, returns (onerr err)) -> returns k -> returns (p_check p onerr k).
Proof. intros He Hk. apply returns_bind. by intros [err|]. Qed.

(** What is left of a program returns, in every state its action may meet. *)
Lemma returns_act {A B} (m : M (HState S D) B) (k : B -> HP (option A)) :
  (forall st, returns (k (m st).1)) -> returns (Act m k).
Proof. intros Hk st _. split; [done | apply Hk]. Qed.

(** A waiting request ends when its time is over, whatever happens at the locks. *)
Lemma returns_expiry w : returns (p_Request expiry w).
Proof.
  assert (Hdone : forall cs w r, wt_phase w = Returned r -> returns (p_Request cs w)).
  { intros cs w0 r E. destruct cs; simpl; by rewrite E. }
  assert (Hstep : forall ch cs w, (forall r, wt_phase w <> Returned r) ->
    (forall m m' w', Request_step m w ch = Some (m', w') -> returns (p_Request cs w')) ->
    ((exists m, Request_step m w ch = None) -> returns (p_Request cs w)) -> returns (p_Request (ch :: cs) w)).
  { intros ch cs w0 Hn Hs Hno. simpl.
    assert (E : returns (w ← act (request_step w0 ch); p_Request cs w)).
    { apply returns_act. intros st. unfold request_step, mbind, M_bind, srv_gets, gets. simpl.
      destruct (Request_step _ w0 ch) as [[m' w']|] eqn:Er; simpl; [by eapply Hs | by apply Hno; eexists]. }
    by destruct (wt_phase w0). }
  assert (Hdec : forall s k t cs, returns (p_Request (ChRemaining 0 :: cs) (MkWaiter s k t Deciding))).
  { intros s k t cs. apply Hstep; [done | intros m m' w' [= <- <-]; by eapply Hdone |]. by intros [m ?]. }
  assert (Hblock : forall s k t c cs, returns (p_Request (ChTimer :: cs) (MkWaiter s k t (Blocked c)))).
  { intros s k t c cs. apply Hstep; [done | intros m m' w' [= <- <-]; by eapply Hdone |]. by intros [m ?]. }
  assert (Hreg : forall s k t, returns (p_Request (drop 1 expiry) (MkWaiter s k t Registering))).
  { intros s k t. apply Hstep; [done | |].
    - intros m m' w' E. cbn in E. destruct (waiterLocked m) as [c m1]. injection E as _ <-. apply Hblock.
    - intros [m E]. cbn in E. destruct (waiterLocked m). discriminate E. }
  unfold expiry. destruct w as [s k t [| |wait| | |r]]; [.. | by eapply Hdone].
  - apply Hstep; [done | |].
    + intros m m' w' E. cbn in E. destruct (TryRequest m s k) as [r m1]. destruct (_ || _); injection E as _ <-; [by eapply Hdone | apply Hreg].
    + intros [m E]. cbn in E. destruct (TryRequest m s k). destruct (_ || _); discriminate E.
  - apply Hstep; [done | |].
    + intros m m' w' E. cbn in E. destruct (waiterLocked m) as [c m1]. injection E as _ <-.
      apply Hstep; [done | done |]. intros _. apply Hblock.
    + intros [m E]. cbn in E. destruct (waiterLocked m). discriminate E.
  - do 2 (apply Hstep; [done | done |]; intros _). apply Hblock.
  - apply Hstep; [done | |].
    + intros m m' w' E. cbn in E. destruct (TryRequest m s k) as [r m1]. destruct (bool_decide _); injection E as _ <-; [by eapply Hdone |].
      do 2 (apply Hstep; [done | done |]; intros _). apply Hdec.
    + intros [m E]. cbn in E. destruct (TryRequest m s k). destruct (bool_decide _); discriminate E.
  - do 3 (apply Hstep; [done | done |]; intros _). apply Hdec.
Qed.

Lemma returns_Request choices w : returns (p_Request (choices ++ expiry) w).
Proof.
  revert w. induction choices as [|ch choices IH]; intros w; [apply returns_expiry |]. simpl.
  assert (E : returns (w ← act (request_step w ch); p_Request (choices ++ expiry) w)) by (by apply returns_bind).
  by destruct (wt_phase w).
Qed.

Lemma returns_Lock choices h k : returns (p_Lock choices h k).
Proof.
  unfold p_Lock. case_bool_decide; [done |]. apply returns_bind. intros sess. apply returns_check; [done |].
  case_bool_decide; [apply returns_then; [apply returns_Request | done] |].
  case_bool_decide; [by apply returns_bind | done].
Qed.

Lemma returns_handleAsync choices ctx msg : returns (p_handleAsync choices ctx msg).
Proof.
  unfold p_handleAsync, p_handleAsync_case. cbv zeta.
  repeat match goal with
  | |- returns (p_Lock _ _ _ ≫= _) => apply returns_then; [apply returns_Lock | intros ?]
  | |- returns (_ ≫= _) => apply returns_bind; intros ?
  | |- returns (match ?x with _ => _ end) => destruct x
  | |- returns (Ret _) => done
  end.
Qed.

Lemma returns_runAsync ctx inputs : returns (p_runAsync ctx inputs).
Proof.
  unfold p_runAsync. induction inputs as [|x inputs IH]; cbn [p_serve_loop];
    apply returns_bind; intros []; try done.
  apply returns_bind. intros _. apply returns_then; [apply returns_handleAsync |]. by intros [err|].
Qed.

Lemma within_returns {A} B (ok : D -> Prop) T (p : HP (option A)) Q :
  within B ok T p Q -> returns p -> within B ok T p (fun r => r <> None).
Proof.
  intros Hp Hr. induction p as [a | C m k IH]; [done |].
  intros st Hst. destruct (Hp st Hst) as [Hm Hk]. split; [done |]. apply IH; [done |]. by apply (Hr st I).
Qed.
End Returns.
