(* ===== verification/Framing.v ===== *)
(** * What the client sees

    The two loops of a paired session, as goroutines whose actions interleave in any
    order, on live channels: whatever messages arrive, each channel carries a sequence
    of whole messages that are legal on it, and every integer of the session and of the
    server stays within the width of its Go type.

    A write of a message is one action here. The writer of a channel has no lock of its
    own. The synchronous channel is written by its own loop only; on the asynchronous one
    the synchronous loop sends AsyncInterrupted, and [SharedWriter] shows what the two
    loops do to each other if their writes overlap. *)

From S2P Require Import Prelude Interleave Errors Version Constants MessageId Stream Header Codec.
From S2P Require Import WireErrors Writer Rmt Status Transaction Policy Locks LockWait Config.
From S2P Require Import Device TestDevice Session Server Initialize Handler Dispatch Data Clear.
From S2P Require Import Async Reader Serve Programs Frame Types Guarantee.

(** Bytes of a length Go can count. *)
Definition proper (b : bytes) : Prop := wf_bytes b /\ is_u64 (len b).

#[export] Instance proper_Payloads : Payloads proper.
Proof. split. intros b Hb Hl. split; [done |]. split; [apply len_nonneg | lia]. Qed.

(** A message as it may appear on a channel. *)
Definition wire_message (sd : side) (m : Header * bytes) : Prop :=
  good_header sd m.1 m.2 /\ proper m.2.

Definition wire_bytes (ms : list (Header * bytes)) : bytes :=
  concat (map (fun m => message_bytes m.1 m.2) ms).

(** [out] is [out0] and then whole messages. *)
Definition framed (sd : side) (out0 out : bytes) : Prop :=
  exists ms, Forall (wire_message sd) ms /\ out = out0 ++ wire_bytes ms.

Lemma framed_nil sd out : framed sd out out.
Proof. exists []. by rewrite app_nil_r. Qed.

Lemma framed_snoc sd out0 out h b :
  framed sd out0 out -> good_header sd h b -> proper b -> framed sd out0 (out ++ message_bytes h b).
Proof.
  intros (ms & Hms & ->) Hh Hb. exists (ms ++ [(h, b)]). split.
  - apply Forall_app. split; [done |]. by apply Forall_singleton.
  - unfold wire_bytes. rewrite map_app, concat_app. simpl. by rewrite app_nil_r, app_assoc.
Qed.

Section Framing.
Context {S D : Type} `{StreamModel S} `{Device D} (ok : D -> Prop) `{!TypedDevice D proper ok}.
Context (out outa : bytes) (me : SessionID).
Implicit Types (st : HState S D) (srv : Server D) (ch : Chans S).

(** The invariant of the two loops. *)
Definition in_frame st : Prop :=
  (exists srv sess ch e, st = live srv sess ch e /\ chans_up ch /\
    framed SyncSide out (sent_sync ch) /\ framed AsyncSide outa (sent_async ch)) /\
  typed_state ok st /\ st.(hs_sess).(ss_id) = me.

(** A session whose writers are those of the channels. *)
Lemma live_eta srv sess ch e :
  sess.(ss_syncW) = Some ch.(ch_w) -> sess.(ss_asyncW) = Some ch.(ch_wa) ->
  live srv sess ch e
    = MkHState srv sess ch.(ch_s) (Some ch.(ch_sa)) e.(e_cancelled) e.(e_nextctx) e.(e_queued).
Proof. intros E1 E2. unfold live. f_equal. destruct sess; simpl in *. by subst. Qed.

Lemma write_live sd h b srv sess ch e :
  chans_up ch -> good_header sd h b -> exists ch',
  writer_Write sd h b (live srv sess ch e) = (None, live srv sess ch' e) /\
  match sd with
  | SyncSide => sends ch ch' (message_bytes h b) []
  | AsyncSide => sends ch ch' [] (message_bytes h b)
  end.
Proof.
  intros Hc [_ _ _ Hl Hn]. destruct sd; [by apply live_write_sync | by apply live_write_async].
Qed.

(** The guarantee of the handlers keeps the invariant. *)
Lemma in_frame_step st st' : in_frame st -> h_step proper ok st st' -> in_frame st'.
Proof.
  intros [(srv & sess & ch & e & -> & Hc & Hf & Hfa) [(Hs & Hv & Hd) Hme]] Hstep.
  inversion Hstep as [st1 st2 E1 E2 Hss Hvs Hdev | sd h b st1 Hg Hb]; subst.
  - assert (Hid : ss_id (hs_sess st') = ss_id sess) by apply (sf_id _ _ (sp_frame _ _ Hss)).
    refine (conj _ (conj (conj (sp_typed _ _ Hss Hs) (conj (vp_typed _ _ _ Hvs Hv) (Hdev Hd))) (eq_trans Hid Hme))).
    exists (hs_srv st'), (hs_sess st'), ch, (MkEnv (hs_cancelled st') (hs_nextctx st') (hs_queued st')).
    split_and!; try done. rewrite live_eta; [| apply (sp_syncW _ _ Hss) | apply (sp_asyncW _ _ Hss)].
    destruct st'; simpl in *. by subst.
  - pose proof (typed_write sd h b _ Hs) as Hs'. pose proof (write_keeps_srv sd h b (live srv sess ch e)) as Ev.
    destruct (write_live sd h b srv sess ch e Hc Hg) as (ch' & E & Hsend). rewrite E in Hs', Ev |- *.
    split; [| split; [split_and!; [done | by rewrite Ev | by rewrite Ev] | done]].
    exists srv, sess, ch', e. split; [done |].
    destruct sd; destruct Hsend as (Hc' & -> & ->); rewrite app_nil_r; split_and!; try done;
      by apply framed_snoc.
Qed.

(** On live channels no write fails. *)
Lemma in_frame_write st sd h b :
  in_frame st -> good_header sd h b -> proper b -> reportable proper (writer_Write sd h b st).1.
Proof.
  intros [(srv & sess & ch & e & -> & Hc & _) _] Hg _.
  by destruct (write_live sd h b srv sess ch e Hc Hg) as (ch' & -> & _).
Qed.

(** A program within the guarantee keeps the invariant. *)
Lemma within_safe {A} (p : prog (HState S D) A) Q : within proper ok in_frame p Q -> safe in_frame p Q.
Proof.
  induction p as [a | C m k IH]; cbn; [done |]. intros Hp st Hst. destruct (Hp st Hst) as [Hh Hk].
  split; [by eapply in_frame_step | auto].
Qed.
End Framing.

(** ** The test device keeps the promise

    Its canned answers and errors are proper. *)

Lemma proper_take n b : proper b -> proper (take n b).
Proof.
  intros [Hb Hl]. split; [by apply wf_bytes_take |]. split; [apply len_nonneg |].
  unfold is_u64, len in *. rewrite length_take. lia.
Qed.
Lemma proper_drop n b : proper b -> proper (drop n b).
Proof.
  intros [Hb Hl]. split; [by apply wf_bytes_drop |]. split; [apply len_nonneg |].
  unfold is_u64, len in *. rewrite length_drop. lia.
Qed.
Lemma proper_nil : proper [].
Proof. by split; [constructor |]. Qed.

Definition TestDevice_ok (d : TestDevice) : Prop :=
  Forall proper d.(td_Responses) /\ proper d.(td_pending) /\
  Forall (fun x => proper (error_text x.2)) d.(td_Errors).

Lemma TestDevice_fail_proper d op err :
  TestDevice_ok d -> TestDevice_fail d op = Some err -> proper (error_text err).
Proof.
  intros (_ & _ & He). unfold TestDevice_fail. induction He as [|[o e] errs He _ IH]; simpl; [done |].
  case_bool_decide; [by intros [= <-] | done].
Qed.

Lemma TestDevice_begin_ok d d' : TestDevice_ok d -> TestDevice_begin d = Some d' -> TestDevice_ok d'.
Proof.
  intros (Hr & Hp & He). unfold TestDevice_begin. destruct (td_inFlight d); [by intros [= <-] |].
  destruct (td_Responses d !! td_respIdx d) as [r|] eqn:E; [| done]. destruct d. simpl in *.
  intros [= <-]. split_and!; try done. by eapply Forall_lookup_1.
Qed.

#[export] Instance TestDevice_typed : TypedDevice TestDevice proper TestDevice_ok.
Proof.
  split; intros d; unfold dev_Write, dev_Read, dev_Clear, dev_Trigger, dev_ReadStatusByte, dev_RemoteLocal; simpl.
  - intros c b fin Hd. unfold TestDevice_Write. destruct (TestDevice_fail _ _); [done | by destruct d].
  - intros c n Hd. unfold TestDevice_Read. destruct (TestDevice_fail _ _); [done |].
    destruct (TestDevice_begin d) as [d'|] eqn:E; [| done]. apply TestDevice_begin_ok in E as (? & ? & ?); [| done].
    destruct d'. split_and!; try done. by apply proper_drop.
  - intros c Hd. unfold TestDevice_Clear. destruct (TestDevice_fail _ _); [done |].
    destruct d, Hd as (? & _ & ?). split_and!; try done. apply proper_nil.
  - intros c Hd. unfold TestDevice_Trigger. destruct (TestDevice_fail _ _); [done | by destruct d].
  - intros c Hd. unfold TestDevice_ReadStatusByte. destruct (TestDevice_fail _ _); [done | by destruct d].
  - intros c m Hd. unfold TestDevice_RemoteLocal. destruct (TestDevice_fail _ _); [done | by destruct d].
  - intros c n Hd. unfold TestDevice_Read. destruct (TestDevice_fail _ _); [apply proper_nil |].
    destruct (TestDevice_begin d) as [d'|] eqn:E; [| apply proper_nil].
    apply TestDevice_begin_ok in E as (_ & ? & _); [| done]. destruct d'. by apply proper_take.
  - intros c b fin err Hd. unfold TestDevice_Write. destruct (TestDevice_fail _ _) eqn:E; [| by destruct d].
    intros [= <-]. by eapply TestDevice_fail_proper.
  - intros c err Hd. unfold TestDevice_Clear. destruct (TestDevice_fail _ _) eqn:E; [| by destruct d].
    intros [= <-]. by eapply TestDevice_fail_proper.
  - intros c err Hd. unfold TestDevice_Trigger. destruct (TestDevice_fail _ _) eqn:E; [| done].
    intros [= <-]. by eapply TestDevice_fail_proper.
  - intros c err Hd. unfold TestDevice_ReadStatusByte. destruct (TestDevice_fail _ _) eqn:E; [| done].
    intros [= <-]. by eapply TestDevice_fail_proper.
  - intros c m err Hd. unfold TestDevice_RemoteLocal. destruct (TestDevice_fail _ _) eqn:E; [| done].
    intros [= <-]. by eapply TestDevice_fail_proper.
Qed.

(** ** Who writes where

    The asynchronous loop does not write to the synchronous channel; the synchronous one
    writes to the asynchronous channel only the notice of an interruption. *)
Create HintDb writes.

Section Writers.
Context {S D : Type} `{Stream S} `{Device D}.
Implicit Types st : HState S D.

Definition leaves_sync st st' : Prop :=
  st'.(hs_syncS) = st.(hs_syncS) /\ st'.(hs_sess).(ss_syncW) = st.(hs_sess).(ss_syncW).
Definition leaves_async st st' : Prop :=
  st'.(hs_asyncS) = st.(hs_asyncS) /\ st'.(hs_sess).(ss_asyncW) = st.(hs_sess).(ss_asyncW).
Definition only_interrupts st st' : Prop :=
  leaves_async st st' \/ exists id, st' = (writer_Write AsyncSide (MkHeader AsyncInterrupted 0 id 0) [] st).2.

Lemma write_async_leaves h b st : leaves_sync st (writer_Write AsyncSide h b st).2.
Proof. unfold writer_Write. repeat case_match; by split. Qed.
Lemma write_sync_leaves h b st : leaves_async st (writer_Write SyncSide h b st).2.
Proof. unfold writer_Write. repeat case_match; by split. Qed.

(** A loop that owns one of the channels. *)
Context (R : HState S D -> HState S D -> Prop) (own : side).
Context (R_rest : forall st st', leaves_sync st st' -> leaves_async st st' -> R st st').
Context (R_write : forall h b st, R st (writer_Write own h b st).2).
Local Abbreviation steps p := (steps R p).

Lemma steps_write h b : steps (act (writer_Write own h b)).
Proof. apply steps_act, R_write. Qed.
Lemma steps_rest {A} (m : M (HState S D) A) :
  (forall st, leaves_sync st (m st).2 /\ leaves_async st (m st).2) -> steps (act m).
Proof. intros Hm. apply steps_act. intros st. by apply R_rest; apply Hm. Qed.
Lemma steps_check {A} q (onerr : error -> prog (HState S D) A) k :
  steps q -> (forall err, steps (onerr err)) -> steps k -> steps (p_check q onerr k).
Proof. intros Hq He Hk. apply steps_bind; [done |]. by intros [err|]. Qed.

Lemma steps_modify f :
  (forall s : Session, (f s).(ss_syncW) = s.(ss_syncW) /\ (f s).(ss_asyncW) = s.(ss_asyncW)) -> steps (act (sess_modify f)).
Proof. intros Hf. apply steps_rest. intros st. destruct (Hf (hs_sess st)). by repeat split. Qed.

Lemma steps_dev {A} ctx (f : D -> bool -> A * D) : steps (act (on_dev ctx f)).
Proof.
  apply steps_rest. intros st. unfold on_dev, mbind, M_bind, ctx_Err, srv_gets, gets. simpl.
  by destruct (f _ _).
Qed.
Lemma steps_tx f : steps (act (on_tx f)).
Proof. apply steps_rest. intros st. unfold on_tx, mbind, M_bind, sess_gets, gets. simpl. by destruct (f _). Qed.

Lemma steps_sections :
  steps (act abortOperation) /\ (forall c, steps (act (begin_operation c))) /\ (forall c, steps (act (end_operation c))) /\
  (forall h, steps (act (rmt_received h))) /\ (forall d h, steps (act (status_byte d h))) /\
  steps (act status_take) /\ (forall w ch, steps (act (request_step w ch))) /\
  (forall id, steps (act (lock_release id))) /\ steps (act disposition_act) /\ (forall n, steps (act (maxsize_act n))).
Proof.
  split_and!; intros; apply steps_rest; intros st;
    unfold abortOperation, begin_operation, end_operation, rmt_received, status_byte, status_take, request_step,
      lock_release, disposition_act, maxsize_act, mbind, M_bind, sess_gets, srv_gets, gets, modify; simpl;
    unfold Session_abortOperation, Operation_release, Session_programDisposition, Server_MaximumMessageSize;
    repeat case_match; simplify_eq/=; by repeat split.
Qed.

Ltac steps_step :=
  match goal with
  | |- Interleave.steps _ (Ret _) => exact I
  | |- Interleave.steps _ (p_check _ _ _) => apply steps_check; [| intros ? |]
  | |- Interleave.steps _ (_ ≫= _) => apply steps_bind; [| intros ?]
  | |- Interleave.steps _ (match ?x with _ => _ end) => destruct x
  | |- Interleave.steps _ (act (on_dev _ _)) => apply steps_dev
  | |- Interleave.steps _ (act (on_tx _)) => apply steps_tx
  | |- Interleave.steps _ (act (writer_Write own _ _)) => apply steps_write
  | |- Interleave.steps _ (act (writer_WriteError own _ _)) => apply steps_write
  | |- Interleave.steps _ (act (writer_WriteFatalError own _ _)) => apply steps_write
  | |- Interleave.steps _ (act (sess_modify _)) => apply steps_modify; intros ?
  | |- Interleave.steps _ (act _) => first [apply steps_sections | apply steps_rest; intros ?; by repeat split]
  | |- Interleave.steps _ _ => solve [auto with writes]
  end.
Ltac walk_writes := cbv zeta; repeat steps_step.

Lemma steps_reportOperationError err : steps (p_reportOperationError own err).
Proof. unfold p_reportOperationError, p_report_fatal. walk_writes. Qed.
Lemma steps_reportReadError err : steps (p_reportReadError own err).
Proof. unfold p_reportReadError. walk_writes. Qed.
Lemma steps_reportAcceptError err : steps (p_reportAcceptError own err).
Proof. unfold p_reportAcceptError, p_report_fatal. walk_writes. Qed.
Hint Resolve steps_reportOperationError steps_reportReadError steps_reportAcceptError : writes.

Lemma steps_Request choices w : steps (p_Request choices w).
Proof.
  revert w. induction choices as [|ch choices IH]; intros w; simpl; [by destruct (wt_phase w) |].
  assert (E : steps (w ← act (request_step w ch); p_Request choices w))
    by (apply steps_bind; [apply steps_sections | done]).
  by destruct (wt_phase w).
Qed.
Hint Resolve steps_Request : writes.

Lemma steps_serve_loop {A} before (handle : A -> prog (HState S D) (option (option error))) ctx inputs :
  (forall x, steps (act (before x))) -> (forall x, steps (handle x)) -> steps (p_serve_loop before handle ctx inputs).
Proof. intros Hb Hh. induction inputs as [|x inputs IH]; cbn [p_serve_loop]; walk_writes; auto. Qed.

Lemma steps_runAsync ctx inputs : own = AsyncSide -> steps (p_runAsync ctx inputs).
Proof.
  intros Ho. apply steps_serve_loop; intros x; [walk_writes |].
  unfold p_handleAsync, p_handleAsync_case, p_handleClear, p_BeginDeviceClear, p_StatusQuery, p_Lock, p_LockInfo,
    p_RemoteLocal, p_answer, setResponsePending. rewrite <- Ho. walk_writes;
    unfold Session_beginClear; by repeat case_match.
Qed.

(** The synchronous loop, which may also send the notice. *)
Context (R_notice : forall id st, R st (writer_Write AsyncSide (MkHeader AsyncInterrupted 0 id 0) [] st).2).

Lemma steps_notice id : steps (act (writer_Write AsyncSide (MkHeader AsyncInterrupted 0 id 0) [])).
Proof. apply steps_act, R_notice. Qed.
Hint Resolve steps_notice : writes.

Lemma steps_after_read r b fin err n : own = SyncSide -> steps (p_after_read r b fin err n).
Proof.
  intros Ho. unfold p_after_read, p_completeAbsentResponse, p_sendInterrupted, p_terminate, setResponsePending.
  rewrite <- Ho. cbv zeta.
  repeat match goal with
  | |- Interleave.steps _ (act (writer_Write AsyncSide _ _)) => apply steps_notice
  | _ => steps_step
  end; done.
Qed.

Lemma steps_loop fuel ctx r n : own = SyncSide -> steps (p_loop fuel ctx r n).
Proof.
  intros Ho. revert n. induction fuel as [|fuel IH]; intros n; [done |]. cbn [p_loop]. unfold p_deliver_chunk.
  rewrite <- Ho. walk_writes; auto using steps_after_read.
Qed.

Lemma steps_runSync fuel ctx inputs : own = SyncSide -> steps (p_runSync fuel ctx inputs).
Proof.
  intros Ho. pose proof (fun ctx r n => steps_loop fuel ctx r n Ho) as Hloop. unfold p_runSync.
  walk_writes; [done |]. apply steps_serve_loop; intros x; [walk_writes |].
  unfold p_handleSync, p_handleSync_case, p_handleData, p_handleData_end, p_ReceiveData, p_Trigger,
    p_CompleteDeviceClear, p_respond, p_SendResponse, setResponsePending, status_received.
  rewrite <- Ho. walk_writes; try done;
    unfold Session_feedProgramMessage, Session_completeClear; repeat case_match; done.
Qed.
End Writers.
(** C6: What a session sends is well formed, and its integers keep their widths, as
    long as the writes on a channel do not overlap. For a paired session on live
    channels, over any instrument that returns bytes, let the two loops handle any
    messages a reader can hand over, their actions interleaved in any order, a write
    of one message being one action. At every moment each channel carries what it
    carried before and then whole messages: every header field is of its type, the
    message is legal on its channel and the length is that of the payload, whose
    elements are bytes; both channels are up, and every integer of the session, of its
    writers and of the server is one of its Go type. On the synchronous channel writes
    cannot overlap: no action of the asynchronous loop touches it or its writer. On
    the asynchronous channel the synchronous loop writes nothing but the notice of an
    interruption; that this one write can overlap with one of the other loop, and what
    it does to the channel then, is shown for the shared writer. *)
Theorem channels_stay_framed {S D} `{StreamModel S} `{Device D} (ok : D -> Prop) `{!TypedDevice D proper ok}
    fuel ctx actx (inputs : list (message * bool)) (ainputs : list (message * list wait_choice))
    (srv : Server D) sess (ch : Chans S) e c :
  chans_up ch -> typed_state ok (live srv sess ch e) ->
  Forall (fun x => typed_message proper x.1) inputs -> Forall (fun x => typed_message proper x.1) ainputs ->
  rtc par_step (p_runSync fuel ctx inputs, p_runAsync actx ainputs, live srv sess ch e) c ->
  (exists srv' sess' ch' e', c.2 = live srv' sess' ch' e' /\ chans_up ch' /\
   framed SyncSide (sent_sync ch) (sent_sync ch') /\ framed AsyncSide (sent_async ch) (sent_async ch') /\
   typed_srv srv' /\ typed_sess c.2.(hs_sess)) /\
  steps leaves_sync (p_runAsync (S := S) (D := D) actx ainputs) /\
  steps only_interrupts (p_runSync (S := S) (D := D) fuel ctx inputs).
Proof.
  intros Hc Ht Hi Ha Hr. split; [| split].
  2: by apply (steps_runAsync leaves_sync AsyncSide); [| apply write_async_leaves |].
  2: by apply (steps_runSync only_interrupts SyncSide); [by left | left; apply write_sync_leaves | right; eexists |].
  set (I := in_frame ok (sent_sync ch) (sent_async ch) sess.(ss_id)).
  assert (HI : I (live srv sess ch e)).
  { split; [| by split]. exists srv, sess, ch, e. split_and!; try done; apply framed_nil. }
  assert (HT : forall st, I st -> typed_state ok st) by (by intros st [_ []]).
  assert (HM : forall st, I st -> ss_id (hs_sess st) = ss_id sess) by (by intros st [_ []]).
  destruct (safe_par I _ _ (fun _ => True) (fun _ => True) _ _
    (within_safe ok _ _ _ _ _ (within_runSync proper ok I _ HT HM (in_frame_write ok _ _ _) fuel ctx inputs Hi))
    (within_safe ok _ _ _ _ _ (within_runAsync proper ok I _ HT HM (in_frame_write ok _ _ _) actx ainputs Ha)) HI Hr)
    as (_ & _ & (srv' & sess' & ch' & e' & E & Hc' & Hf & Hfa) & (Hs & Hv & _) & _).
  exists srv', sess', ch', e'. rewrite E in Hv. by split_and!.
Qed.

(** A query with its answer, while the client asks for the status. *)
Lemma demo_typed : typed_state TestDevice_ok (live (demo_server 1) demo_session demo_chans demo_env).
Proof.
  refine (conj _ (conj _ _)).
  - split; try done; by intros w [= <-].
  - split; try done. by repeat constructor.
  - split_and!; [| apply proper_nil | by constructor]. constructor; [| by constructor].
    apply (payload_text proper "FLUKE,8846A"). done.
Qed.

Definition demo_loops : prog (HState Canned TestDevice) _ * prog (HState Canned TestDevice) _ * HState Canned TestDevice :=
  (p_runSync 3 [0%nat] [(MkMessage (MkHeader DataEnd 0 0xffffff00 5) (str "*IDN?") 0 None, false)],
   p_runAsync [0%nat] [(MkMessage (MkHeader AsyncStatusQuery 0 0xffffff00 0) [] 0 None, [])],
   live (demo_server 1) demo_session demo_chans demo_env).

(** They take turns until the status has been reported. *)
Lemma demo_loops_run : exists c, rtc par_step demo_loops c /\ c.1 = (Ret (Some None), Ret (Some None)).
Proof.
  assert (E : exists c, par_run (concat (replicate 13 [true; false]) ++ replicate 18 true) demo_loops = Some c /\
    c.1 = (Ret (Some None), Ret (Some None))) by (vm_compute; eexists; by split).
  destruct E as (c & Hr & Hc). exists c. split; [by eapply par_run_steps | done].
Qed.

Lemma channels_stay_framed_witness :
  exists c, rtc par_step demo_loops c /\ c.1 = (Ret (Some None), Ret (Some None)) /\
  exists srv' sess' ch' e', c.2 = live srv' sess' ch' e' /\ chans_up ch' /\
  framed SyncSide [] (sent_sync ch') /\ framed AsyncSide [] (sent_async ch') /\
  typed_srv srv' /\ typed_sess c.2.(hs_sess).
Proof.
  destruct demo_loops_run as (c & Hr & Hc). exists c. refine (conj Hr (conj Hc _)).
  refine (proj1 (channels_stay_framed TestDevice_ok _ _ _ _ _ _ _ _ _ c demo_chans_up demo_typed _ _ Hr)).
  - constructor; [| by constructor]. split_and!; [by split_and! | by repeat constructor | done].
  - constructor; [| by constructor]. split_and!; [by split_and! | by constructor | done].
Defined.
