(* ===== verification/Query.v ===== *)
(** * A query, end to end

    What the synchronous loop of [src/server/serve.go] does with the messages of a
    program message that asks for a response: the instrument receives the bytes,
    and the client receives the instrument's answer. *)

From S2P Require Import Prelude Errors Version Constants MessageId Stream Header Codec.
From S2P Require Import WireErrors Writer Rmt Status Transaction Policy Locks LockWait Config.
From S2P Require Import Device TestDevice Session Server Initialize Handler Dispatch Data Clear.
From S2P Require Import Async Reader Serve.

Section Query.
Context {S D : Type} `{StreamModel S} `{Device D}.
Implicit Types (srv : Server D) (ch : Chans S).

Lemma live_count f srv sess ch e :
  count f (live srv sess ch e) = (tt, live (srv_count f srv) sess ch e).
Proof. done. Qed.

Lemma live_feed p srv sess ch e :
  sess_modify (Session_feedProgramMessage p) (live srv sess ch e)
    = (tt, live srv (Session_feedProgramMessage p sess) ch e).
Proof.
  unfold sess_modify, modify, Session_feedProgramMessage, live. simpl.
  case_bool_decide; [done |]. by destruct (ss_policy sess).
Qed.

(** A message accepted on the synchronous channel of a session that is ready. *)
Lemma sync_accepted srv sess ch e h t :
  h.(h_Type) = t -> MessageType_LegalOn t ChannelSynchronous = true -> is_u8 t ->
  ClassOf t <> ClassUndefined -> MessageType_MinVersion t = Version10 ->
  version_le Version10 sess.(ss_version) -> sess.(ss_state) = StateReady ->
  CheckLength h.(h_Length) sess.(ss_maxRx) = None ->
  Server_Accept srv.(srv_cfg) (Some (hs_sess (live srv sess ch e))) h ChannelSynchronous
    = (ClassOf t, None).
Proof.
  intros Ht Hl Hu Hc Hv Hver Hst Hlen. unfold Server_Accept. rewrite Ht.
  destruct (legal_not_reserved t _ Hu Hl) as [-> ->]. rewrite Hl, Hv. cbn [negb].
  change (ss_version (hs_sess (live srv sess ch e))) with (ss_version sess).
  apply Version_AtLeast_spec in Hver. unfold Version_AtLeast in Hver.
  apply negb_true_iff in Hver. rewrite Hver, bool_decide_eq_false_2 by done.
  change (ss_maxRx (hs_sess (live srv sess ch e))) with (ss_maxRx sess). rewrite Hlen.
  unfold Session_requireReady, Session_State. simpl. rewrite Hst. by case_match.
Qed.

(** Answering a completed query. *)
Lemma respond_live fuel ctx id buf srv sess ch e bs fin d' :
  let opCtx := e.(e_nextctx) :: ctx in
  let scratch := responseScratch buf sess.(ss_maxTx) in
  chans_up ch -> sess.(ss_tx).(tx_state) = TxInputComplete -> sess.(ss_pending) = true ->
  0 < buf -> 0 < sess.(ss_maxTx) ->
  response_script (ctx_done e.(e_cancelled) opCtx) scratch srv.(srv_dev) bs fin d' ->
  script_size bs fin < 2 ^ 64 -> (length bs < fuel)%nat ->
  let '(out, b, ba, terminated) := expected_response id bs fin e.(e_queued) in
  exists ch',
  handleData_respond fuel ctx id buf (live srv sess ch e)
  = (Some None,
     live (srv_count (countOutcome_of out) (srv_set_dev d' srv))
       (not_pending (after_response id terminated (ss_set_opCancel None sess))) ch'
       (MkEnv ({[e.(e_nextctx)]} ∪ e.(e_cancelled)) (Datatypes.S e.(e_nextctx)) e.(e_queued))) /\
  sends ch ch' b ba.
Proof.
  intros opCtx scratch Hc Ht Hpend Hbuf Hmax Hscript Hsz Hfuel.
  set (s1 := ss_set_opCancel (Some e.(e_nextctx)) sess).
  set (e1 := MkEnv e.(e_cancelled) (Datatypes.S e.(e_nextctx)) e.(e_queued)).
  set (r := MkResponse true true id scratch (Some (Session_syncPending s1))).
  assert (Hscr : 0 < scratch <= Session_MaxTxPayload s1).
  { change (Session_MaxTxPayload s1) with (ss_maxTx sess). subst scratch.
    unfold responseScratch. repeat case_bool_decide; simpl; lia. }
  pose proof (SendResponse_live fuel opCtx srv s1 ch e1 r (Session_syncPending s1) bs fin d'
    Hc Ht eq_refl eq_refl eq_refl Hscr Hscript Hsz Hfuel) as Hsend.
  change (e_queued e1) with (e_queued e) in Hsend. change (r_MessageID r) with id in Hsend.
  assert (Hq : Session_syncPending s1 (e_queued e) = e_queued e).
  { unfold Session_syncPending. change (ss_pending s1) with (ss_pending sess). by rewrite Hpend. }
  rewrite Hq in Hsend. clear Hq.
  destruct (expected_response id bs fin (e_queued e)) as [[[out b] ba] dl].
  destruct Hsend as [(ch' & Es & Hs) _]. exists ch'. split; [| done].
  unfold handleData_respond. rewrite (bind_run _ _ _ opCtx (live srv s1 ch e1)) by reflexivity.
  rewrite (bind_run _ _ _ (hs_sess (live srv s1 ch e1)) (live srv s1 ch e1)) by reflexivity.
  cbv zeta. rewrite (bind_run _ _ _ _ _ Es). clear Es Hscript Hscr Ht.
  unfold countOutcome. rewrite (bind_run _ _ _ _ _ (live_count _ _ _ _ _)).
  rewrite (bind_run (mret None) _ _ None _ eq_refl).
  set (s2 := not_pending (after_response id dl s1)).
  rewrite (bind_run _ _ _ tt (live (srv_count (countOutcome_of out) (srv_set_dev d' srv))
    (ss_set_opCancel None s2) ch' (MkEnv ({[e.(e_nextctx)]} ∪ e.(e_cancelled))
      (Datatypes.S e.(e_nextctx)) e.(e_queued)))).
  2: { subst s2 s1. by destruct dl. }
  subst s2 s1. by destruct dl.
Qed.

(** ** One message of a program message *)

(** A message the reader has handed over whole, of a given type. *)
Definition input_message (maxRx : Z) (m : message) (t : MessageType) : Prop :=
  m.(msg_err) = None /\ m.(msg_header).(h_Type) = t /\
  CheckLength m.(msg_header).(h_Length) maxRx = None.

(** A paired session between or inside program messages; [pol] is what its
    policy has seen of the current one. *)
Record takes_input (sess : Session) (pol : ResponsePolicy) : Prop := {
  ti_state : sess.(ss_state) = StateReady;
  ti_version : version_le Version10 sess.(ss_version);
  ti_tx : input_open sess.(ss_tx).(tx_state);
  ti_policy : sess.(ss_policy) = Some pol;
  ti_wf : wf_policy pol;
  ti_pending : sess.(ss_pending) = true;
  ti_maxTx : 0 < sess.(ss_maxTx);
}.

(** The session after a message of a program message. *)
Definition took (h : Header) (p : bytes) (pol : ResponsePolicy) (tx : Transaction)
    (sess : Session) : Session :=
  ss_set_policy (Some (Policy_Feed pol p)) (ss_set_tx tx (arrived h sess)).

Lemma feed_took p pol sess :
  sess.(ss_policy) = Some pol ->
  Session_feedProgramMessage p sess = ss_set_policy (Some (Policy_Feed pol p)) sess.
Proof.
  intros Hp. unfold Session_feedProgramMessage. case_bool_decide as Hl; [| by rewrite Hp].
  apply len_nil_iff in Hl as ->. rewrite Policy_Feed_nil. session_cases sess. by subst.
Qed.

(** What the server counts for an arriving message. *)
Definition arrival_counter (h : Header) (sess : Session) : Counters -> Counters :=
  countInterrupted_of (RMT_ReceivedSyncMessage sess.(ss_rmt) (Header_RMTDelivered h)).1.

Lemma handle_input fuel ctx m buf srv sess ch e pol fin d1 :
  takes_input sess pol ->
  input_message sess.(ss_maxRx) m (if fin : bool then DataEnd else Data) ->
  ctx_done e.(e_cancelled) ctx = false ->
  dev_Write srv.(srv_dev) false m.(msg_payload) fin = (None, d1) ->
  let h := m.(msg_header) in
  let tx := if fin then MkTx TxInputComplete (Header_MessageID h)
            else MkTx TxReceivingInput sess.(ss_tx).(tx_id) in
  handleSync fuel ctx m buf (live srv sess ch e)
  = (if fin then handleData_end fuel ctx (Header_MessageID h) buf else mret (Some None))
      (live (srv_count (arrival_counter h sess) (srv_set_dev d1 srv))
         (took h m.(msg_payload) pol tx sess) ch e).
Proof.
  intros [Hst Hv Ho Hp Hw Hpe Hm] (He & Ht & Hl) Hd Ew h tx. unfold handleSync. rewrite He. fold h.
  rewrite (bind_run _ _ _ (hs_sess (live srv sess ch e)) (live srv sess ch e)) by reflexivity.
  assert (Ed : DiscardDuringClear (hs_sess (live srv sess ch e)) h = false).
  { unfold DiscardDuringClear, Session_State. simpl. by rewrite Hst. }
  rewrite Ed. rewrite (bind_run _ _ _ (srv_cfg srv) (live srv sess ch e)) by reflexivity.
  rewrite (sync_accepted srv sess ch e h _ Ht) by (destruct fin; done).
  fold h in Ht. rewrite Ht.
  replace (bool_decide ((if fin then DataEnd else Data) = Data)
    || bool_decide ((if fin then DataEnd else Data) = DataEnd)) with true by (by destruct fin).
  unfold handleData. fold h.
  pose proof (ReceiveData_live ctx h m.(msg_payload) srv sess ch e fin Ht) as Er. cbv zeta in Er.
  assert (Et : (if fin then Transaction_CompleteInput (ss_tx sess) (Header_MessageID h)
                else Transaction_BeginInput (ss_tx sess)) = (None, tx)).
  { subst tx. destruct fin; [by apply complete_input | by apply begin_input]. }
  rewrite Et, Hd, Ew in Er. rewrite (bind_run _ _ _ _ _ Er). unfold countInterrupted.
  rewrite (bind_run _ _ _ _ _ (live_count _ _ _ _ _)).
  rewrite (bind_run _ _ _ _ _ (live_feed _ _ _ _ _)), (feed_took _ pol) by done.
  rewrite Ht. by destruct fin.
Qed.

Lemma took_takes_input h p pol sess :
  takes_input sess pol ->
  takes_input (took h p pol (MkTx TxReceivingInput sess.(ss_tx).(tx_id)) sess) (Policy_Feed pol p).
Proof.
  intros [Hst Hv Ho Hp Hw Hpe Hm]. split; try done; [by right |]. auto with hislip.
Qed.

(** ** A program message through the loop *)

(** The messages of a program message with what the reader reports during each:
    all but the last are Data, and the last carries the MessageID. *)
Inductive program_input (maxRx : Z) : list (message * bool) -> MessageID -> bool -> Prop :=
| pi_last m q :
    input_message maxRx m DataEnd ->
    program_input maxRx [(m, q)] (Header_MessageID m.(msg_header)) q
| pi_more m q ms id q' :
    input_message maxRx m Data -> program_input maxRx ms id q' ->
    program_input maxRx ((m, q) :: ms) id q'.

Definition payloads (inputs : list (message * bool)) : list bytes :=
  map (fun i => i.1.(msg_payload)) inputs.

Definition with_queued (q : bool) (e : Env) : Env := MkEnv e.(e_cancelled) e.(e_nextctx) q.

(** The loop of [runSync] with its buffer. *)
Definition sync_loop (fuel : nat) (ctx : Context) (buf : Z) :=
  serve_loop (S := S) (D := D) (fun msg => handleSync fuel ctx msg buf) ctx.

Lemma loop_step fuel ctx buf m q rest srv sess ch e st' :
  ctx_done e.(e_cancelled) ctx = false ->
  handleSync fuel ctx m buf (live srv sess ch (with_queued q e)) = (Some None, st') ->
  sync_loop fuel ctx buf ((m, q) :: rest) (live srv sess ch e) = sync_loop fuel ctx buf rest st'.
Proof.
  intros Hd Eh. unfold sync_loop. cbn [serve_loop].
  rewrite (bind_run _ _ _ false (live srv sess ch e)) by (by rewrite <- Hd).
  rewrite (bind_run _ _ _ tt (live srv sess ch (with_queued q e))) by reflexivity.
  by rewrite (bind_run _ _ _ _ _ Eh).
Qed.

(** What a program message leaves when its last message is about to be looked
    at: the same session as far as input and limits are concerned. *)
Record input_taken (srv0 : Server D) (sess0 : Session) (d1 : D) (pol : ResponsePolicy) (id : MessageID)
    (srv : Server D) (sess : Session) : Prop := {
  it_dev : srv.(srv_dev) = d1;
  it_cfg : srv.(srv_cfg) = srv0.(srv_cfg);
  it_locks : srv.(srv_locks) = srv0.(srv_locks);
  it_tx : sess.(ss_tx) = MkTx TxInputComplete id;
  it_policy : sess.(ss_policy) = Some pol;
  it_rmt : sess.(ss_rmt).(rmt_expected) = false;
  it_same : sess.(ss_state) = sess0.(ss_state) /\ sess.(ss_version) = sess0.(ss_version) /\
            sess.(ss_pending) = sess0.(ss_pending) /\ sess.(ss_maxTx) = sess0.(ss_maxTx) /\
            sess.(ss_maxRx) = sess0.(ss_maxRx) /\ sess.(ss_id) = sess0.(ss_id);
}.

Lemma arrived_rmt h sess : (arrived h sess).(ss_rmt).(rmt_expected) = false.
Proof. unfold arrived. simpl. unfold RMT_ReceivedSyncMessage. by case_match. Qed.

(** The loop up to the completion of the program message. *)
Lemma program_loop maxRx inputs id q :
  program_input maxRx inputs id q -> forall fuel ctx buf rest srv sess ch e pol d1,
  sess.(ss_maxRx) = maxRx -> takes_input sess pol ->
  ctx_done e.(e_cancelled) ctx = false ->
  device_accepts false srv.(srv_dev) (payloads inputs) d1 ->
  exists srv1 sess1,
    input_taken srv sess d1 (Policy_Feed pol (concat (payloads inputs))) id srv1 sess1 /\
    forall st', handleData_end fuel ctx id buf (live srv1 sess1 ch (with_queued q e)) = (Some None, st') ->
      sync_loop fuel ctx buf (inputs ++ rest) (live srv sess ch e)
        = sync_loop fuel ctx buf rest st'.
Proof.
  induction 1 as [m q Hi | m q ms id q' Hi Hp IH];
    intros fuel ctx buf rest srv sess ch e pol d1 Hmax Hti Hd Ha; subst maxRx.
  - inversion Ha as [d0 b0 d2 Ew | d0 b0 d2 bs d3 Ew Ha1]; subst; [| by inversion Ha1].
    pose proof (handle_input fuel ctx m buf srv sess ch (with_queued q e) pol true _ Hti Hi Hd Ew) as Eh.
    cbv zeta iota in Eh.
    eexists _, _. simpl concat. rewrite app_nil_r. split.
    2: { intros st' Es. apply loop_step; [done |]. rewrite Eh. exact Es. }
    split; try done. apply arrived_rmt.
  - assert (Hd1 : exists d2, dev_Write (srv_dev srv) false (msg_payload m) false = (None, d2)
      /\ device_accepts false d2 (payloads ms) d1).
    { inversion Ha as [d0 b0 d2 Ew Hb | d0 b0 d2 bs d3 Ew Ha1]; subst; [| by eauto].
      destruct ms; [by inversion Hp | done]. }
    destruct Hd1 as (d2 & Ew & Ha1).
    pose proof (handle_input fuel ctx m buf srv sess ch (with_queued q e) pol false _ Hti Hi Hd Ew) as Eh.
    cbv zeta in Eh.
    pose proof (took_takes_input (msg_header m) (msg_payload m) pol sess Hti) as Ht1.
    cbv iota in Eh. set (srv2 := srv_count _ _) in Eh. set (sess2 := took _ _ _ _ _) in Eh, Ht1.
    simpl concat. rewrite <- Policy_Feed_app by apply Hti.
    destruct (IH fuel ctx buf rest srv2 sess2 ch (with_queued q e) _ d1 eq_refl Ht1 Hd Ha1)
      as (srv1 & sess1 & [? ? ? ? ? ? ?] & El).
    exists srv1, sess1. split; [by split |]. intros st' Es.
    cbn [app]. rewrite (loop_step _ _ _ _ _ _ _ _ _ _ _ Hd Eh). by apply El.
Qed.

(** The decision at the end of a program message. *)
Lemma handleData_end_live fuel ctx id buf srv sess ch e pol :
  sess.(ss_policy) = Some pol ->
  handleData_end fuel ctx id buf (live srv sess ch e)
  = (if bool_decide (Policy_Disposition pol <> ResponseExpected)
     then err ← on_tx Transaction_Complete; mret (Some err)
     else handleData_respond fuel ctx id buf)
      (live srv (ss_set_policy (Some (Policy_Reset pol)) sess) ch e).
Proof.
  intros Hp. unfold handleData_end.
  rewrite (bind_run _ _ _ (hs_sess (live srv sess ch e)) (live srv sess ch e)) by reflexivity.
  unfold Session_programDisposition. change (ss_policy (hs_sess _)) with (ss_policy sess).
  rewrite Hp. rewrite (bind_run _ _ _ tt (live srv (ss_set_policy (Some (Policy_Reset pol)) sess) ch e))
    by reflexivity. done.
Qed.

(** A session that is done with a program message takes the next one. *)
Lemma taken_takes_input srv0 sess0 d1 pol0 pol id srv sess sess' :
  takes_input sess0 pol0 -> input_taken srv0 sess0 d1 pol id srv sess ->
  sess'.(ss_state) = sess.(ss_state) -> sess'.(ss_version) = sess.(ss_version) ->
  sess'.(ss_tx).(tx_state) = TxIdle -> sess'.(ss_policy) = Some (Policy_Reset pol) ->
  sess'.(ss_pending) = sess.(ss_pending) -> sess'.(ss_maxTx) = sess.(ss_maxTx) ->
  takes_input sess' (Policy_Reset pol).
Proof.
  intros [G1 G2 G3 G4 G5 G6 G7] [_ _ _ _ _ _ (E1 & E2 & E3 & E4 & _)] F1 F2 F3 F4 F5 F6.
  split; try congruence; [by left | apply Policy_Reset_wf].
Qed.
End Query.

(** A query through the loop. *)
Lemma query_live {S D} `{StreamModel S} `{Device D}
    fuel ctx buf inputs rest id q (srv : Server D) sess (ch : Chans S) e pol d1 bs fin d' :
  chans_up ch -> takes_input sess pol -> program_input sess.(ss_maxRx) inputs id q -> 0 < buf ->
  ctx_done e.(e_cancelled) ctx = false -> e.(e_nextctx) ∉ e.(e_cancelled) ->
  device_accepts false srv.(srv_dev) (payloads inputs) d1 ->
  Policy_Disposition (Policy_Feed pol (concat (payloads inputs))) = ResponseExpected ->
  response_script false (responseScratch buf sess.(ss_maxTx)) d1 bs fin d' ->
  script_size bs fin < 2 ^ 64 -> (length bs < fuel)%nat ->
  let '(out, b, ba, terminated) := expected_response id bs fin q in
  exists srv' sess' ch' e',
    sync_loop fuel ctx buf (inputs ++ rest) (live srv sess ch e)
      = sync_loop fuel ctx buf rest (live srv' sess' ch' e') /\
    sends ch ch' b ba /\
    srv'.(srv_dev) = d' /\ srv'.(srv_locks) = srv.(srv_locks) /\
    takes_input sess' (Policy_Reset pol) /\ RMT_Expected sess'.(ss_rmt) = terminated /\
    sess'.(ss_opCancel) = None.
Proof.
  intros Hc Hti Hpi Hbuf Hd Hn Ha Hdisp Hscript Hsz Hfuel.
  destruct (program_loop _ _ _ _ Hpi fuel ctx buf rest srv sess ch e pol d1 eq_refl Hti Hd Ha)
    as (srv1 & sess1 & Hit & El).
  pose proof Hit as [Hd1 _ Hlk Htx Hpol Hrmt (_ & _ & Hpe & Hmt & _ & _)].
  pose proof (handleData_end_live fuel ctx id buf srv1 sess1 ch (with_queued q e) _ Hpol) as Ee.
  rewrite bool_decide_eq_false_2 in Ee by (intros Hx; exact (Hx Hdisp)).
  set (sess2 := ss_set_policy _ sess1) in Ee.
  pose proof (respond_live fuel ctx id buf srv1 sess2 ch (with_queued q e) bs fin d' Hc) as Hr.
  cbv zeta in Hr. change (ss_maxTx sess2) with (ss_maxTx sess1) in Hr. rewrite Hmt, Hd1 in Hr.
  assert (Hdone : ctx_done (e_cancelled (with_queued q e)) (e_nextctx (with_queued q e) :: ctx) = false).
  { unfold ctx_done in *. simpl. rewrite Hd, bool_decide_eq_false_2 by done. done. }
  rewrite Hdone in Hr. change (e_queued (with_queued q e)) with q in Hr.
  destruct (expected_response id bs fin q) as [[[out b] ba] dl].
  destruct Hr as (ch' & Er & Hs); try done.
  { change (ss_tx sess2) with (ss_tx sess1). by rewrite Htx. }
  { change (ss_pending sess2) with (ss_pending sess1). rewrite Hpe. apply Hti. }
  { apply Hti. }
  rewrite Er in Ee. eexists _, _, ch', _. split; [exact (El _ Ee) |].
  split_and!; try done.
  - rewrite <- (Policy_Reset_Feed pol (concat (payloads inputs))).
    eapply (taken_takes_input _ _ _ _ _ _ _ _ _ Hti Hit); by destruct dl.
  - unfold RMT_Expected. destruct dl; [done | exact Hrmt].
  - by destruct dl.
Qed.

(** C1: A query is answered end to end. A paired session that is ready for input is
    given the messages of a program message (Data messages and a DataEnd, read without
    error and within the receive limit); the instrument accepts their payloads, and
    the response policy, having seen the concatenated payloads, expects a response.
    Then the synchronous loop handles these messages without ending, and the client is
    sent exactly what [expected_response] prescribes for the chunks the instrument
    returned and the way it ended: the Data messages and the DataEnd with the query's
    MessageID, or the Error and empty DataEnd of an absent or truncated response, or
    the two Interrupted messages if more input was waiting. The session is left ready
    for the next program message, with the policy reset, no operation registered, no
    lock changed, and the RMT state set exactly if a DataEnd went out. *)
Theorem query_answered {S D} `{StreamModel S} `{Device D}
    fuel ctx buf inputs rest id q (srv : Server D) sess (ch : Chans S) e pol d1 bs fin d' :
  chans_up ch -> takes_input sess pol -> program_input sess.(ss_maxRx) inputs id q -> 0 < buf ->
  ctx_done e.(e_cancelled) ctx = false -> e.(e_nextctx) ∉ e.(e_cancelled) ->
  device_accepts false srv.(srv_dev) (payloads inputs) d1 ->
  Policy_Disposition (Policy_Feed pol (concat (payloads inputs))) = ResponseExpected ->
  response_script false (responseScratch buf sess.(ss_maxTx)) d1 bs fin d' ->
  script_size bs fin < 2 ^ 64 -> (length bs < fuel)%nat ->
  let '(out, b, ba, terminated) := expected_response id bs fin q in
  exists srv' sess' ch' e',
    sync_loop fuel ctx buf (inputs ++ rest) (live srv sess ch e)
      = sync_loop fuel ctx buf rest (live srv' sess' ch' e') /\
    sends ch ch' b ba /\
    srv'.(srv_dev) = d' /\ srv'.(srv_locks) = srv.(srv_locks) /\
    takes_input sess' (Policy_Reset pol) /\ RMT_Expected sess'.(ss_rmt) = terminated /\
    sess'.(ss_opCancel) = None.
Proof. apply query_live. Qed.

(** C12: A program message that expects no response reaches the instrument and nothing
    is sent. Given the messages of such a program message, the synchronous loop
    handles them without ending, the instrument has received the payloads in order,
    nothing has been written on either channel, no lock has changed, and the session
    is ready for the next program message with its policy reset. *)
Theorem command_delivered {S D} `{StreamModel S} `{Device D}
    fuel ctx buf inputs rest id q (srv : Server D) sess (ch : Chans S) e pol d1 :
  takes_input sess pol -> program_input sess.(ss_maxRx) inputs id q ->
  ctx_done e.(e_cancelled) ctx = false ->
  device_accepts false srv.(srv_dev) (payloads inputs) d1 ->
  Policy_Disposition (Policy_Feed pol (concat (payloads inputs))) <> ResponseExpected ->
  exists srv' sess',
    sync_loop fuel ctx buf (inputs ++ rest) (live srv sess ch e)
      = sync_loop fuel ctx buf rest (live srv' sess' ch (with_queued q e)) /\
    srv'.(srv_dev) = d1 /\ srv'.(srv_locks) = srv.(srv_locks) /\
    takes_input sess' (Policy_Reset pol) /\ RMT_Expected sess'.(ss_rmt) = false.
Proof.
  intros Hti Hpi Hd Ha Hdisp.
  destruct (program_loop _ _ _ _ Hpi fuel ctx buf rest srv sess ch e pol d1 eq_refl Hti Hd Ha)
    as (srv1 & sess1 & Hit & El).
  pose proof Hit as [Hd1 _ Hlk Htx Hpol Hrmt _].
  pose proof (handleData_end_live fuel ctx id buf srv1 sess1 ch (with_queued q e) _ Hpol) as Ee.
  rewrite bool_decide_eq_true_2 in Ee by done.
  set (sess2 := ss_set_policy _ sess1) in Ee.
  rewrite (bind_run _ _ _ _ _ (live_on_tx Transaction_Complete srv1 sess2 ch (with_queued q e))) in Ee.
  change (ss_tx sess2) with (ss_tx sess1) in Ee. rewrite Htx in Ee.
  eexists srv1, _. split; [exact (El _ Ee) |]. split_and!; try done.
  rewrite <- (Policy_Reset_Feed pol (concat (payloads inputs))).
  by eapply (taken_takes_input _ _ _ _ _ _ _ _ _ Hti Hit).
Qed.

(** ** Concrete runs *)

Lemma demo_takes_input : takes_input demo_session (PolicySCPI NewSCPIQueryPolicy).
Proof. split; try done. by left. Qed.

(** A query in two messages, and a command in one. *)
Definition demo_message (t id : Z) (p : bytes) : message :=
  MkMessage (MkHeader t 0 id (len p)) p 0 None.
Definition demo_query : list (message * bool) :=
  [(demo_message Data 0xffffff00 (str "*ID"), true);
   (demo_message DataEnd 0xffffff02 (str "N?"), false)].
Definition demo_command : list (message * bool) :=
  [(demo_message DataEnd 0xffffff04 (str "*RST"), false)].

Definition demo_written (d : TestDevice) : TestDevice :=
  (TestDevice_Write (TestDevice_Write d false (str "*ID") false).2 false (str "N?") true).2.
Definition read_twelve (d : TestDevice) : TestDevice :=
  (TestDevice_Read (TestDevice_Read (TestDevice_Read d false 4).2 false 4).2 false 4).2.

Lemma demo_query_input : program_input (ss_maxRx demo_session) demo_query 0xffffff02 false.
Proof.
  apply pi_more; [by split_and! |].
  apply (pi_last _ (demo_message DataEnd 0xffffff02 (str "N?"))). by split_and!.
Qed.

Lemma query_answered_witness :
  exists srv' sess' ch' e',
    sync_loop 3 [0%nat] 4 (demo_query ++ []) (live (demo_server 1) demo_session demo_chans demo_env)
      = sync_loop 3 [0%nat] 4 [] (live srv' sess' ch' e') /\
    sends demo_chans ch'
      (data_messages 0xffffff02 [str "FLUK"; str "E,88"] ++ data_end 0xffffff02 (str "46A")) [] /\
    RMT_Expected sess'.(ss_rmt) = true.
Proof.
  assert (Ha : device_accepts false demo_dev (payloads demo_query) (demo_written demo_dev)).
  { eapply accepts_more; [vm_compute; reflexivity |]. eapply accepts_last. vm_compute. reflexivity. }
  assert (Hs : response_script false (responseScratch 4 (ss_maxTx demo_session)) (demo_written demo_dev)
    [str "FLUK"; str "E,88"] (Ends (str "46A")) (read_twelve (demo_written demo_dev))).
  { eapply script_more; [vm_compute; reflexivity |].
    eapply script_more; [vm_compute; reflexivity |]. eapply script_ends. vm_compute. reflexivity. }
  destruct (query_answered 3 [0%nat] 4 demo_query [] 0xffffff02 false (demo_server 1) demo_session
    demo_chans demo_env (PolicySCPI NewSCPIQueryPolicy) (demo_written demo_dev) _ _ _
    demo_chans_up demo_takes_input demo_query_input eq_refl eq_refl (not_elem_of_empty _) Ha eq_refl Hs
    ltac:(reflexivity) ltac:(simpl; lia)) as (srv' & sess' & ch' & e' & El & Hsend & _ & _ & _ & Hr & _).
  exists srv', sess', ch', e'. exact (conj El (conj Hsend Hr)).
Defined.

Lemma command_delivered_witness :
  exists srv' sess',
    sync_loop 0 [0%nat] 4 (demo_command ++ [])
        (live (demo_server 1) demo_session demo_chans demo_env)
      = sync_loop 0 [0%nat] 4 [] (live srv' sess' demo_chans demo_env) /\
    srv'.(srv_dev).(td_written) = str "*RST".
Proof.
  assert (Ha : device_accepts false demo_dev (payloads demo_command)
    (TestDevice_Write demo_dev false (str "*RST") true).2)
    by (eapply accepts_last; vm_compute; reflexivity).
  assert (Hp : program_input (ss_maxRx demo_session) demo_command 0xffffff04 false)
    by (apply (pi_last _ (demo_message DataEnd 0xffffff04 (str "*RST"))); by split_and!).
  destruct (command_delivered 0 [0%nat] 4 demo_command [] 0xffffff04 false (demo_server 1) demo_session
    demo_chans demo_env (PolicySCPI NewSCPIQueryPolicy) _ demo_takes_input Hp eq_refl Ha
    ltac:(vm_compute; discriminate)) as (srv' & sess' & El & Hd & _).
  exists srv', sess'. rewrite Hd. exact (conj El eq_refl).
Defined.
