(* ===== verification/Connect.v ===== *)
(** * Connections

    The rest of [src/server/serve.go]: how an accepted connection becomes a
    channel of a session and what happens when it ends. A connection runs beside
    the others, so the handlers of [Serve] act on one object of the world. *)

From S2P Require Import Prelude Errors Version Constants MessageId Stream Header Codec.
From S2P Require Import WireErrors Writer Rmt Status Transaction Policy Locks LockWait Config.
From S2P Require Import Device TestDevice Session Server Initialize Handler Dispatch Data Clear.
From S2P Require Import Async Reader Serve Frame.

(** What became of a connection: it serves one side of the session object at
    [loc], or it was refused and its stream closed, or writing the reply failed. *)
Inductive connection (S : Type) : Type :=
| Serving (sd : side) (loc : nat)
| Refused (err : error) (s : S)
| Dropped (err : error).
Arguments Serving {S}.
Arguments Refused {S}.
Arguments Dropped {S}.

Section Connect.
Context {S D : Type} `{Stream S} `{Device D}.
Implicit Types w : World S D.

Definition readSubAddress (stream : S) (h : Header) (limit : Z) : (bytes + error) * S :=
  match CheckLength h.(h_Length) limit with
  | Some err => (inr err, stream)
  | None =>
      if bool_decide (h.(h_Length) = 0) then (inl [], stream)
      else
        let buf := replicate (Z.to_nat h.(h_Length)) 0 in
        match ReadPayload stream h.(h_Length) buf None tt with
        | (Some err, st) => (inr err, st.(pl_stream))
        | (None, st) => (inl st.(pl_scratch), st.(pl_stream))
        end
  end.

(** A FatalError to a connection that is then closed. *)
Definition refuse (stream : S) (code : Z) (description : bytes) : S :=
  let '(_, _, s) := MessageWriter_WriteFatalError (NewMessageWriter ChannelSynchronous) stream
                      code description in
  (stream_Close s).2.

Definition wd_count (f : Counters -> Counters) w : World S D :=
  wd_set_srv (srv_count f w.(wd_srv)) w.

Definition wd_set_obj (loc : nat) (f : SessObj S -> SessObj S) w : World S D :=
  match w.(wd_heap) !! loc with
  | Some o => wd_set_heap (<[loc := f o]> w.(wd_heap)) w
  | None => w
  end.

(** [serveSyncChannel] up to its loop. *)
Definition openSyncChannel (stream : S) (h : Header) w : connection S * World S D :=
  match readSubAddress stream h w.(wd_srv).(srv_cfg).(cfg_MaxRxPayload) with
  | (inr err, stream) =>
      (Refused err (refuse stream FatalPoorlyFormedHeader (str "bad sub-address")), w)
  | (inl sub, stream) =>
      match Server_Initialize h sub stream w with
      | (inr err, w) =>
          let s := refuse stream (WireErrorFor err).(we_FatalCode) (error_text err) in
          let w := if errors_Is err (Srv ErrMaxClients) then wd_count inc_SessionsRefused w else w in
          (Refused err s, wd_count inc_FatalErrors w)
      | (inl (loc, resp), w) =>
          match MessageWriter_Write (NewMessageWriter ChannelSynchronous) stream resp [] with
          | (Some err, _, s) =>
              let w := wd_set_obj loc (fun o => MkObj o.(so_sess) s o.(so_asyncS)) w in
              (Dropped err, (removeSession loc w).2)
          | (None, wr, s) =>
              let w := wd_count inc_SessionsOpened w in
              (Serving SyncSide loc,
               wd_set_obj loc (fun o => MkObj (Session_setSyncWriter (Some wr) o.(so_sess)) s
                                          o.(so_asyncS)) w)
          end
      end
  end.

(** [serveAsyncChannel] up to its loop. *)
Definition openAsyncChannel (stream : S) (h : Header) w : connection S * World S D :=
  match Server_AsyncInitialize h stream w with
  | (inr err, w) =>
      let s := refuse stream (WireErrorFor err).(we_FatalCode) (error_text err) in
      (Refused err s, wd_count inc_FatalErrors w)
  | (inl (loc, resp), w) =>
      match MessageWriter_Write (NewMessageWriter ChannelAsynchronous) stream resp [] with
      | (Some err, _, s) =>
          (Dropped err, wd_set_obj loc (fun o => MkObj o.(so_sess) o.(so_syncS) (Some s)) w)
      | (None, wr, s) =>
          (Serving AsyncSide loc,
           wd_set_obj loc (fun o => MkObj (Session_setAsyncWriter (Some wr) o.(so_sess))
                                      o.(so_syncS) (Some s)) w)
      end
  end.

(** [Serve] up to the loop of the channel it finds. *)
Definition openConnection (stream : S) w : connection S * World S D :=
  match ReadHeader stream with
  | (_, Some err, s) => (Refused err (stream_Close s).2, w)
  | (h, None, s) =>
      if bool_decide (h.(h_Type) = Initialize) then openSyncChannel s h w
      else if bool_decide (h.(h_Type) = AsyncInitialize) then openAsyncChannel s h w
      else
        (Refused (serr ErrInvalidInitSequence)
           (refuse s FatalInvalidInitSequence (str "expected Initialize or AsyncInitialize")),
         wd_count inc_FatalErrors w)
  end.

(** Run a handler of [Serve] on the object at [loc]. *)
Definition with_session {A} (loc : nat) (queued : bool) (m : M (HState S D) A) w
  : option A * World S D :=
  match w.(wd_heap) !! loc with
  | None => (None, w)
  | Some o =>
      let (a, st) := m (MkHState w.(wd_srv) o.(so_sess) o.(so_syncS) o.(so_asyncS)
                          w.(wd_cancelled) w.(wd_nextctx) queued) in
      (Some a,
       MkWorld st.(hs_srv) (<[loc := MkObj st.(hs_sess) st.(hs_syncS) st.(hs_asyncS)]> w.(wd_heap))
         w.(wd_nextloc) st.(hs_cancelled) st.(hs_nextctx))
  end.

(** What is deferred until the loop of a channel returns. *)
Definition closeConnection (sd : side) (loc : nat) w : World S D :=
  match sd with
  | SyncSide => (removeSession loc w).2
  | AsyncSide => w
  end.

(** A whole call of [Serve] on a connection whose reader delivers the given
    messages, with no other connection active in between. What waits on the channel
    matters to the synchronous one only. *)
Definition Server_Serve (fuel : nat) (ctx : Context) (stream : S)
    (inputs : list (message * list (list lock_op * wait_choice) * bool)) w
  : option (option error) * World S D :=
  match openConnection stream w with
  | (Refused err _, w) | (Dropped err, w) => (Some (Some err), w)
  | (Serving sd loc, w) =>
      let run := match sd with
                 | SyncSide => runSync fuel ctx (map (fun '(m, _, q) => (m, q)) inputs)
                 | AsyncSide => runAsync ctx (map (fun '(m, env, _) => (m, env, false)) inputs)
                 end in
      match with_session loc false run w with
      | (Some (Some res), w) => (Some res, closeConnection sd loc w)
      | (_, w) => (None, w)
      end
  end.
End Connect.

(** ** The world invariant is kept *)

(** The sessions registered in a world. *)
Definition registered {S D} (w : World S D) (id : SessionID) : Prop :=
  is_Some (w.(wd_srv).(srv_sessions) !! id).

Section ConnectFacts.
Context {S D : Type} `{Stream S} `{Device D}.
Implicit Types w : World S D.

Lemma wd_count_inv f w : world_inv w -> world_inv (wd_count f w).
Proof. intros [? ? ? ? ? ? ?]. by split. Qed.

Lemma set_obj_inv loc f w :
  (forall o, sess_frame o.(so_sess) (f o).(so_sess)) ->
  world_inv w -> world_inv (wd_set_obj loc f w).
Proof.
  intros Hf Hw. unfold wd_set_obj. destruct (wd_heap w !! loc) as [o|] eqn:Ho; [| done].
  destruct (wi_open w Hw loc o Ho) as (Hinv & _ & _). destruct (Hf o) as [F1 F2 F3 F4 F5].
  apply (update_object_inv w loc o); auto.
Qed.

(** A handler that stays within its frame keeps the world's invariant. *)
Lemma with_session_inv {R} loc q (m : M (HState S D) R) w :
  (forall st, keeps (registered w) st m) -> world_inv w -> world_inv (with_session loc q m w).2.
Proof.
  intros Hm Hw. unfold with_session. destruct (wd_heap w !! loc) as [o|] eqn:Ho; [| done].
  specialize (Hm (MkHState (wd_srv w) (so_sess o) (so_syncS o) (so_asyncS o) (wd_cancelled w)
    (wd_nextctx w) q)). unfold keeps in Hm. destruct (m _) as [r st]. simpl in Hm |- *.
  destruct Hm as [F1 F2 F3 [G1 G2 G3 G4 G5] [F5 F6]]; simpl in *.
  destruct (wi_open w Hw loc o Ho) as (Hinv & _ & Hreg).
  set (o' := MkObj (hs_sess st) (hs_syncS st) (hs_asyncS st)).
  pose proof (update_object_inv w loc o o' Hw Ho G1 (G5 Hinv) G4) as [C N Z0 R0 O L Hd].
  destruct w as [srv heap nl can nc]. simpl in *. split; simpl in *; unfold Server_Sessions in *;
    rewrite ?F1, ?F2, ?F3; try done; auto.
  - intros id Hid. destruct (F6 id Hid) as [Hh | [Ha | [-> Hc]]]; [auto | exact Ha | eauto].
Qed.

(** An open session is the one registered under its ID. *)
Lemma open_not_superseded w loc o :
  world_inv w -> w.(wd_heap) !! loc = Some o -> o.(so_sess).(ss_state) <> StateClosed ->
  not_superseded w loc.
Proof.
  intros Hw Ho Hc o' loc' Ho' Hs. rewrite Ho in Ho'. injection Ho' as <-. destruct (wi_open w Hw loc o Ho) as (_ & _ & Hr).
  specialize (Hr Hc). congruence.
Qed.

Lemma Initialize_opens h sub st w loc resp w' :
  world_inv w -> Server_Initialize h sub st w = (inl (loc, resp), w') ->
  exists o, w'.(wd_heap) !! loc = Some o /\ o.(so_sess).(ss_state) = StatePairing.
Proof.
  intros Hw E. destruct (Server_Initialize_accepts h sub st w loc resp w' Hw E) as [Ha _].
  destruct (Server_Initialize_success h sub st w Hw Ha) as (l & id & next & _ & _ & E').
  rewrite E' in E. simplify_eq. eexists. simpl. by rewrite lookup_insert_eq.
Qed.

Lemma openSyncChannel_inv stream h w :
  world_inv w -> world_inv (openSyncChannel stream h w).2.
Proof.
  intros Hw. unfold openSyncChannel. destruct (readSubAddress _ _ _) as [[sub|err] s]; [| done].
  pose proof (Server_Initialize_inv h sub s w Hw) as Hi.
  destruct (Server_Initialize h sub s w) as [[[loc resp]|err] w1] eqn:Ei; simpl in Hi.
  - destruct (MessageWriter_Write _ s resp []) as [[[err|] wr] s'].
    + destruct (Initialize_opens _ _ _ _ _ _ _ Hw Ei) as (o & Ho & Hp).
      set (f := fun o : SessObj S => MkObj (so_sess o) s' (so_asyncS o)).
      assert (Hw2 : world_inv (wd_set_obj loc f w1)) by (by apply set_obj_inv).
      assert (Ho2 : wd_heap (wd_set_obj loc f w1) !! loc = Some (f o)).
      { unfold wd_set_obj. rewrite Ho. simpl. by rewrite lookup_insert_eq. }
      eapply retire_inv; [done | exact Ho2 |]. eapply open_not_superseded; [done | exact Ho2 |].
      simpl. by rewrite Hp.
    + apply set_obj_inv; [| by apply wd_count_inv]. intros o. by apply sess_frame_fields.
  - case_match; by repeat apply wd_count_inv.
Qed.

Lemma openAsyncChannel_inv stream h w :
  world_inv w -> world_inv (openAsyncChannel stream h w).2.
Proof.
  intros Hw. unfold openAsyncChannel. pose proof (Server_AsyncInitialize_inv w h stream Hw) as Hi.
  destruct (Server_AsyncInitialize h stream w) as [[[loc resp]|err] w1]; simpl in Hi.
  - destruct (MessageWriter_Write _ _ resp []) as [[[err|] wr] s'];
      (apply set_obj_inv; [| done]); intros o; by apply sess_frame_fields.
  - by apply wd_count_inv.
Qed.

Lemma openConnection_inv stream w : world_inv w -> world_inv (openConnection stream w).2.
Proof.
  intros Hw. unfold openConnection. destruct (ReadHeader stream) as [[h [err|]] s]; [done |].
  case_bool_decide; [by apply openSyncChannel_inv |].
  case_bool_decide; [by apply openAsyncChannel_inv |]. by apply wd_count_inv.
Qed.

End ConnectFacts.

(** ** A synchronous connection over the wire *)
Section Wire.
Context {S D : Type} `{StreamModel S} `{Device D}.
Implicit Types (s : S) (w : World S D).

(** A refused connection has been told why before it is closed. *)
Definition refused_with s code text s' : Prop :=
  exists s0, s' = (stream_Close s0).2 /\ st_output s0 = st_output s ++ fatal_message code text.

Lemma refuse_ok s code text : st_open s -> refused_with s code text (refuse s code text).
Proof.
  intros Ho. unfold refuse, MessageWriter_WriteFatalError.
  destruct (MessageWriter_Write_ok (NewMessageWriter ChannelSynchronous) s
    (MkHeader FatalError code 0 0) text) as (wr & s' & -> & Hout & _);
    [done | apply wf_NewMessageWriter | done | by left |].
  by exists s'.
Qed.

Lemma readSubAddress_ok s h limit p rest :
  st_open s -> h.(h_Length) = len p -> st_input s = p ++ rest ->
  match readSubAddress s h limit with
  | (inl sub, s') => sub = p /\ (limit = 0 \/ len p <= limit) /\ st_input s' = rest /\
                     st_output s' = st_output s /\ st_open s'
  | (inr err, s') => ~ (limit = 0 \/ len p <= limit) /\ s' = s
  end.
Proof.
  intros Ho Hl Hi. unfold readSubAddress. rewrite Hl.
  destruct (CheckLength (len p) limit) as [err|] eqn:Ec.
  { split; [| done]. intros Hc%CheckLength_spec. congruence. }
  apply CheckLength_spec in Ec. case_bool_decide as Hz.
  { apply len_nil_iff in Hz as ->. by split_and!. }
  pose proof (len_nonneg p) as Hp. set (buf := replicate (Z.to_nat (len p)) 0).
  assert (Hb : len buf = len p) by (unfold buf, len; rewrite length_replicate; lia).
  destruct (ReadPayload_single (fun (c : unit) _ => (None, c)) (len p) buf tt s)
    as (s' & -> & Hi' & Hout & Ho'); [done | by rewrite <- len_nil_iff, Hb | lia
    | rewrite Hi, len_app; pose proof (len_nonneg rest); lia |].
  simpl. rewrite Hi. rewrite Hi in Hi'. unfold len in Hi' |- *.
  rewrite Nat2Z.id in *. rewrite drop_app_length in Hi'. rewrite take_app_length.
  split_and!; try done. unfold overlay. rewrite drop_ge by (unfold buf; rewrite length_replicate; unfold len; lia).
  apply app_nil_r.
Qed.
End Wire.

(** C13: A synchronous connection over the wire. For a connection whose first bytes
    are an Initialize message with a sub-address, the server either serves it, which
    happens only under the acceptance conditions and a sub-address within the receive
    limit, with a fresh registered session still pairing, exactly the Initialize
    message consumed, and exactly one InitializeResponse carrying the negotiated
    version and the session's ID written; or it refuses it, exactly when these
    conditions fail, after writing a FatalError and closing the stream, without having
    touched any session. It never drops a connection on a live transport. *)
Theorem initialize_over_the_wire {S D} `{StreamModel S} `{Device D} (w : World S D) s m rest :
  world_inv w -> st_open s -> wf_sent m -> m.(sm_header).(h_Type) = Initialize ->
  st_input s = sent_bytes m ++ rest ->
  let h := received_header m in
  let limit := w.(wd_srv).(srv_cfg).(cfg_MaxRxPayload) in
  let v := Negotiate (DecodeInitializeParameter h.(h_Parameter)).1 w.(wd_srv).(srv_cfg).(cfg_MaxVersion) in
  match openConnection s w with
  | (Serving sd loc, w') =>
      sd = SyncSide /\ initialize_accepts w h m.(sm_payload) /\
      (limit = 0 \/ len m.(sm_payload) <= limit) /\
      exists o id, w'.(wd_heap) !! loc = Some o /\ o.(so_sess).(ss_id) = id /\
        Server_Session w.(wd_srv) id = None /\ Server_Session w'.(wd_srv) id = Some loc /\
        o.(so_sess).(ss_state) = StatePairing /\ o.(so_sess).(ss_syncW) <> None /\
        st_input o.(so_syncS) = rest /\
        st_output o.(so_syncS)
          = st_output s ++ plain_message InitializeResponse 0 (EncodeInitializeResponseParameter v id)
  | (Refused err s', w') =>
      ~ (initialize_accepts w h m.(sm_payload) /\ (limit = 0 \/ len m.(sm_payload) <= limit)) /\
      w'.(wd_srv).(srv_sessions) = w.(wd_srv).(srv_sessions) /\ w'.(wd_heap) = w.(wd_heap) /\
      exists code text, refused_with s code text s'
  | (Dropped _, _) => False
  end.
Proof.
  intros Hw Ho Hm Ht Hi h limit v. unfold sent_bytes, message_bytes in Hi. rewrite <- app_assoc in Hi.
  destruct (ReadHeader_ok s h (sm_payload m ++ rest) Ho (wf_received m Hm) Hi) as (s1 & E1 & Hi1 & Hout1 & Ho1).
  unfold openConnection. rewrite E1. change (h_Type h) with (h_Type (sm_header m)).
  rewrite bool_decide_eq_true_2 by done. unfold openSyncChannel. fold limit.
  pose proof (readSubAddress_ok s1 h limit (sm_payload m) rest Ho1 eq_refl Hi1) as Hsub.
  destruct (readSubAddress s1 h limit) as [[sub|err] s2].
  - destruct Hsub as (-> & Hlim & Hi2 & Hout2 & Ho2).
    destruct (Server_Initialize h (sm_payload m) s2 w) as [[[loc resp]|err] w1] eqn:Ei.
    + pose proof (Server_Initialize_accepts _ _ _ _ _ _ _ Hw Ei) as [Ha _].
      destruct (Server_Initialize_success h (sm_payload m) s2 w Hw Ha) as (l & id & next & Hid & _ & E').
      fold v in E'. rewrite Ei in E'. injection E' as -> -> ->.
      destruct (MessageWriter_Write_ok (NewMessageWriter ChannelSynchronous) s2
        (MkHeader InitializeResponse 0 (EncodeInitializeResponseParameter v id) 0) [])
        as (wr & s3 & -> & Hout3 & Hi3 & _); [done | apply wf_NewMessageWriter | done | by left |].
      unfold wd_set_obj. simpl. rewrite lookup_insert_eq. simpl.
      split_and!; [done | done | done |]. eexists _, id. rewrite lookup_insert_eq.
      split; [reflexivity |]. simpl. unfold Server_Session. simpl. rewrite lookup_insert_eq.
      split_and!; try done; [congruence |]. by rewrite Hout3, Hout2, Hout1.
    + destruct (Server_Initialize_fail h (sm_payload m) s2 w err Hw) as (_ & Hs & Hh); [by rewrite Ei |].
      rewrite Ei in Hs, Hh. simpl in Hs, Hh.
      split_and!; [| | |].
      * intros [Ha _]. destruct (Server_Initialize_success h (sm_payload m) s2 w Hw Ha)
          as (l & id & next & _ & _ & E'). congruence.
      * by case_match.
      * by case_match.
      * eexists _, _. destruct (refuse_ok s2 (we_FatalCode (WireErrorFor err)) (error_text err) Ho2)
          as (s0 & -> & Hr). exists s0. by rewrite Hr, Hout2, Hout1.
  - destruct Hsub as [Hlim ->]. split_and!; [tauto | done | done |].
    eexists _, _. destruct (refuse_ok s1 FatalPoorlyFormedHeader (str "bad sub-address") Ho1)
      as (s0 & -> & Hr). exists s0. by rewrite Hr, Hout1.
Qed.

(** ** Concrete runs *)

Definition demo_sent : sent_message := MkSent demo_initialize (str "hislip0").
Definition demo_connection : Canned := NewCanned (sent_bytes demo_sent).

Lemma demo_sent_wf : wf_sent demo_sent.
Proof. solve_range. Qed.
Lemma demo_connection_open : st_open demo_connection.
Proof. done. Qed.

(** A client connects its two channels and takes the exclusive lock. *)
Definition demo_connected : World Canned TestDevice := (openConnection demo_connection (demo_world 1)).2.
Definition demo_paired : World Canned TestDevice :=
  (openConnection (NewCanned (sent_bytes (MkSent (demo_async_initialize 1) []))) demo_connected).2.
Definition demo_lock : message := MkMessage (MkHeader AsyncLock lockRequest 0 0) [] 0 None.
Definition demo_locked : World Canned TestDevice :=
  (with_session 0 false (handleAsync [([], ChRun)] [0%nat] demo_lock) demo_paired).2.

Lemma initialize_over_the_wire_witness :
  match openConnection demo_connection (demo_world 1) with
  | (Serving sd loc, w') => sd = SyncSide /\ Server_Sessions w'.(wd_srv) = 1
  | _ => False
  end.
Proof.
  pose proof (initialize_over_the_wire (demo_world 1) demo_connection demo_sent []
    (demo_world_inv 1 ltac:(lia)) demo_connection_open demo_sent_wf eq_refl
    ltac:(by rewrite app_nil_r)) as Ht.
  revert Ht.
  assert (E : exists w', openConnection demo_connection (demo_world 1) = (Serving SyncSide 0, w') /\
    Server_Sessions (wd_srv w') = 1) by (vm_compute; eauto).
  destruct E as (w' & -> & Hs). intros [Hsd _]. exact (conj Hsd Hs).
Defined.
