(* ===== verification/Goroutines.v ===== *)
(** * All the goroutines of a server

    Every accepted connection is served by a goroutine of its own, and the one that
    shuts the server down runs beside them. In [Serve], [Connect] and [Server] a message,
    a connection or a removal is one function; here they are programs over the world,
    cut where the code gives up a lock: a critical section of the server, of the lock
    manager or of a session, a write of a message, a call of the instrument or a
    count is an action, and the actions of any number of goroutines interleave.

    Run alone, the programs are the operations of [Server] and [Connect]. *)

From S2P Require Import Prelude Interleave Errors Version Constants MessageId Stream Header Codec.
From S2P Require Import WireErrors Writer Rmt Status Transaction Policy Locks LockWait Config.
From S2P Require Import Device TestDevice Session Server Initialize Handler Dispatch Data Clear.
From S2P Require Import Async Reader Serve Programs Frame Types Guarantee Connect.

Section Goroutines.
Context {S D : Type} `{Stream S} `{Device D}.
Implicit Types w : World S D.
Local Abbreviation WP := (prog (World S D)).

(** [s.locks.ReleaseAll(sess.id)] *)
Definition release_locks (loc : nat) : M (World S D) unit :=
  modify (fun w =>
    wd_set_srv (srv_set_locks (ReleaseAll w.(wd_srv).(srv_locks) (sess_id w loc)) w.(wd_srv)) w).

(** [delete(s.sessions, sess.id)] *)
Definition unregister (loc : nat) : M (World S D) unit :=
  modify (fun w =>
    wd_set_srv (srv_set_sessions (delete (sess_id w loc) w.(wd_srv).(srv_sessions)) w.(wd_srv)) w).

Definition p_removeSession (loc : nat) : WP (option error) :=
  _ ← act (release_locks loc);
  _ ← act (unregister loc);
  act (close_session loc).

(** The sessions in the order the map yields them, and an empty table. *)
Definition take_sessions (order : list nat -> list nat) : M (World S D) (list nat) :=
  fun w => (order (map_to_list w.(wd_srv).(srv_sessions)).*2,
            wd_set_srv (srv_set_sessions ∅ w.(wd_srv)) w).

Fixpoint p_closeAll_loop (all : list nat) (firstErr : option error) : WP (option error) :=
  match all with
  | [] => Ret firstErr
  | loc :: all =>
      _ ← act (release_locks loc);
      err ← act (close_session loc);
      p_closeAll_loop all (match firstErr with Some e => Some e | None => err end)
  end.

Definition p_CloseAll (order : list nat -> list nat) : WP (option error) :=
  all ← act (take_sessions order);
  p_closeAll_loop all None.

(** The reply to the message that opens a channel, through the writer that becomes
    the session's. *)
Definition first_write (sd : side) (loc : nat) (h : Header) : M (World S D) (option error * MessageWriter) :=
  fun w =>
    let new := NewMessageWriter (side_channel sd) in
    match w.(wd_heap) !! loc with
    | None => ((Some nil_dereference, new), w)
    | Some o =>
        match sd, o.(so_asyncS) with
        | SyncSide, _ =>
            let '(err, wr, s) := MessageWriter_Write new o.(so_syncS) h [] in
            ((err, wr), wd_set_obj loc (fun o => MkObj o.(so_sess) s o.(so_asyncS)) w)
        | AsyncSide, Some a =>
            let '(err, wr, s) := MessageWriter_Write new a h [] in
            ((err, wr), wd_set_obj loc (fun o => MkObj o.(so_sess) o.(so_syncS) (Some s)) w)
        | AsyncSide, None => ((Some nil_dereference, new), w)
        end
    end.

(** [sess.setSyncWriter(w)] and [sess.setAsyncWriter(w)] *)
Definition install_writer (sd : side) (loc : nat) (wr : MessageWriter) : M (World S D) unit :=
  modify (wd_set_obj loc (fun o =>
    MkObj (match sd with
           | SyncSide => Session_setSyncWriter (Some wr) o.(so_sess)
           | AsyncSide => Session_setAsyncWriter (Some wr) o.(so_sess)
           end) o.(so_syncS) o.(so_asyncS))).

Definition p_openSyncChannel (stream : S) (h : Header) : WP (connection S) :=
  cfg ← act (gets (fun w => w.(wd_srv).(srv_cfg)));
  match readSubAddress stream h cfg.(cfg_MaxRxPayload) with
  | (inr err, stream) =>
      Ret (Refused err (refuse stream FatalPoorlyFormedHeader (str "bad sub-address")))
  | (inl sub, stream) =>
      res ← act (Server_Initialize h sub stream);
      match res with
      | inr err =>
          let s := refuse stream (WireErrorFor err).(we_FatalCode) (error_text err) in
          _ ← (if errors_Is err (Srv ErrMaxClients)
               then act (modify (wd_count inc_SessionsRefused)) else Ret tt);
          _ ← act (modify (wd_count inc_FatalErrors));
          Ret (Refused err s)
      | inl (loc, resp) =>
          '(err, wr) ← act (first_write SyncSide loc resp);
          match err with
          | Some err => _ ← p_removeSession loc; Ret (Dropped err)
          | None =>
              _ ← act (modify (wd_count inc_SessionsOpened));
              _ ← act (install_writer SyncSide loc wr);
              Ret (Serving SyncSide loc)
          end
      end
  end.

Definition p_openAsyncChannel (stream : S) (h : Header) : WP (connection S) :=
  res ← act (Server_AsyncInitialize h stream);
  match res with
  | inr err =>
      let s := refuse stream (WireErrorFor err).(we_FatalCode) (error_text err) in
      _ ← act (modify (wd_count inc_FatalErrors));
      Ret (Refused err s)
  | inl (loc, resp) =>
      '(err, wr) ← act (first_write AsyncSide loc resp);
      match err with
      | Some err => Ret (Dropped err)
      | None => _ ← act (install_writer AsyncSide loc wr); Ret (Serving AsyncSide loc)
      end
  end.

Definition p_openConnection (stream : S) : WP (connection S) :=
  match ReadHeader stream with
  | (_, Some err, s) => Ret (Refused err (stream_Close s).2)
  | (h, None, s) =>
      if bool_decide (h.(h_Type) = Initialize) then p_openSyncChannel s h
      else if bool_decide (h.(h_Type) = AsyncInitialize) then p_openAsyncChannel s h
      else
        _ ← act (modify (wd_count inc_FatalErrors));
        Ret (Refused (serr ErrInvalidInitSequence)
               (refuse s FatalInvalidInitSequence (str "expected Initialize or AsyncInitialize")))
  end.

(** A program of [Programs] on the session at [loc]. What the reader of the channel
    reports is its own. *)
Definition on_session {A} (loc : nat) (queued : bool) (m : M (HState S D) A)
  : M (World S D) (option (A * bool)) :=
  with_session loc queued (fun st => let (a, st) := m st in ((a, st.(hs_queued)), st)).

Fixpoint p_session {A} (loc : nat) (queued : bool) (p : prog (HState S D) A) : WP (option A) :=
  match p with
  | Ret a => Ret (Some a)
  | Act m k => Act (on_session loc queued m) (fun r =>
      match r with
      | Some (b, queued) => p_session loc queued (k b)
      | None => Ret None
      end)
  end.

(** What [Serve] does with a session: the loop and the removal. *)
Definition p_serve_session (fuel : nat) (ctx : Context) (inputs : list (message * list wait_choice * bool))
    (sd : side) (loc : nat) : WP (option (option error)) :=
  res ← p_session loc false
          (match sd with
           | SyncSide => p_runSync fuel ctx (map (fun '(m, _, q) => (m, q)) inputs)
           | AsyncSide => p_runAsync ctx inputs.*1
           end);
  match res with
  | Some (Some res) =>
      _ ← match sd with SyncSide => p_removeSession loc | AsyncSide => Ret None end;
      Ret (Some res)
  | _ => Ret None
  end.

(** [Serve], with what its reader delivers. *)
Definition p_Serve (fuel : nat) (ctx : Context) (stream : S)
    (inputs : list (message * list wait_choice * bool)) : WP (option (option error)) :=
  conn ← p_openConnection stream;
  match conn with
  | Refused err _ | Dropped err => Ret (Some (Some err))
  | Serving sd loc => p_serve_session fuel ctx inputs sd loc
  end.

(** A context is cancelled. *)
Definition p_cancel (c : nat) : WP unit :=
  act (modify (fun w => wd_set_cancelled ({[c]} ∪ w.(wd_cancelled)) w)).
End Goroutines.

(** ** Run alone, they are the operations of [Connect] and [Server] *)
Section Alone.
Context {S D : Type} `{Stream S} `{Device D}.
Implicit Types w : World S D.

Lemma run_removeSession loc w : run (p_removeSession loc) w = removeSession loc w.
Proof.
  unfold p_removeSession. rewrite run_seq, run_act. cbn [release_locks modify].
  rewrite run_seq, run_act. cbn [unregister modify]. rewrite run_act. done.
Qed.

Lemma run_closeAll_loop all e w : run (p_closeAll_loop all e) w = closeAll_loop all e w.
Proof.
  revert e w. induction all as [|loc all IH]; intros e w; [done |]. cbn [p_closeAll_loop closeAll_loop].
  rewrite run_seq, run_act. cbn [release_locks modify]. rewrite run_seq, run_act.
  destruct (close_session loc _) as [err w']. apply IH.
Qed.

Lemma run_CloseAll order w :
  run (p_CloseAll order) w = CloseAll (order (map_to_list w.(wd_srv).(srv_sessions)).*2) w.
Proof. unfold p_CloseAll. rewrite run_seq, run_act. apply run_closeAll_loop. Qed.

(** The object of a new session. *)
Lemma Server_Initialize_object h sub s w loc resp w' :
  Server_Initialize h sub s w = (inl (loc, resp), w') ->
  exists sess, w'.(wd_heap) !! loc = Some (MkObj sess s None).
Proof.
  unfold Server_Initialize, allocateSession. repeat case_match; intros; simplify_eq/=.
  eexists. by rewrite lookup_insert_eq.
Qed.

Lemma Server_AsyncInitialize_object h s w loc resp w' :
  Server_AsyncInitialize h s w = (inl (loc, resp), w') ->
  exists sess s', w'.(wd_heap) !! loc = Some (MkObj sess s' (Some s)).
Proof.
  unfold Server_AsyncInitialize. repeat case_match; intros; simplify_eq/=.
  do 2 eexists. by rewrite lookup_insert_eq.
Qed.

(** Two assignments to an object are one. *)
Lemma set_obj_twice loc f g (w : World S D) :
  wd_set_obj loc g (wd_set_obj loc f w) = wd_set_obj loc (fun o => g (f o)) w.
Proof.
  unfold wd_set_obj. destruct (wd_heap w !! loc) as [o|] eqn:Ho; [| by rewrite Ho].
  simpl. rewrite lookup_insert_eq. simpl. unfold wd_set_heap. simpl. by rewrite insert_insert_eq.
Qed.
Lemma set_obj_count loc f g (w : World S D) :
  wd_set_obj loc f (wd_count g w) = wd_count g (wd_set_obj loc f w).
Proof. unfold wd_set_obj, wd_count. simpl. by destruct (wd_heap w !! loc). Qed.

Lemma run_openSyncChannel stream h w : run (p_openSyncChannel stream h) w = openSyncChannel stream h w.
Proof.
  unfold p_openSyncChannel, openSyncChannel. rewrite run_seq, run_act. cbn [gets].
  destruct (readSubAddress _ _ _) as [[sub|err] s]; [| done]. rewrite run_seq, run_act.
  destruct (Server_Initialize h sub s w) as [[[loc resp]|err] w1] eqn:Ei.
  - apply Server_Initialize_object in Ei as [sess Ho]. rewrite run_seq, run_act. unfold first_write.
    rewrite Ho. cbn [so_syncS side_channel].
    destruct (MessageWriter_Write _ s resp []) as [[[err|] wr] s'].
    + by rewrite run_seq, run_removeSession, (surjective_pairing (removeSession _ _)).
    + rewrite run_seq, run_act. cbn [modify]. rewrite run_seq, run_act. cbn [install_writer modify].
      unfold mret, M_ret. cbn [run]. f_equal. by rewrite set_obj_count, set_obj_twice, set_obj_count.
  - rewrite run_seq. destruct (errors_Is err _); rewrite ?run_act; cbn [modify run];
      unfold mret, M_ret; cbn; by rewrite ?run_seq, ?run_act.
Qed.

Lemma run_openAsyncChannel stream h w : run (p_openAsyncChannel stream h) w = openAsyncChannel stream h w.
Proof.
  unfold p_openAsyncChannel, openAsyncChannel. rewrite run_seq, run_act.
  destruct (Server_AsyncInitialize h stream w) as [[[loc resp]|err] w1] eqn:Ei.
  - apply Server_AsyncInitialize_object in Ei as (sess & s0 & Ho). rewrite run_seq, run_act.
    unfold first_write. rewrite Ho. cbn [so_asyncS side_channel].
    destruct (MessageWriter_Write _ stream resp []) as [[[err|] wr] s']; [done |].
    rewrite run_seq, run_act. cbn [install_writer modify run]. by rewrite set_obj_twice.
  - by rewrite run_seq, run_act.
Qed.

Lemma run_openConnection stream w : run (p_openConnection stream) w = openConnection stream w.
Proof.
  unfold p_openConnection, openConnection. destruct (ReadHeader stream) as [[h [err|]] s]; [done |].
  case_bool_decide; [apply run_openSyncChannel |]. case_bool_decide; [apply run_openAsyncChannel |].
  by rewrite run_seq, run_act.
Qed.

(** A program on a session is the operation of the world it stands for. *)
Lemma run_session {A} loc q (p : prog (HState S D) A) w o :
  w.(wd_heap) !! loc = Some o -> run (p_session loc q p) w = with_session loc q (run p) w.
Proof.
  revert q w o. induction p as [a | C m k IH]; intros q w o Ho.
  - unfold with_session. rewrite Ho. cbn. rewrite insert_id by (by destruct o). by destruct w.
  - cbn. unfold mbind, M_bind, on_session, with_session at 1. rewrite Ho.
    set (st := MkHState _ _ _ _ _ _ q). unfold with_session. rewrite Ho. fold st.
    destruct (m st) as [b st']. erewrite IH by (simpl; apply lookup_insert_eq).
    unfold with_session. simpl. rewrite lookup_insert_eq. simpl.
    assert (E : MkHState (hs_srv st') (hs_sess st') (hs_syncS st') (hs_asyncS st') (hs_cancelled st')
      (hs_nextctx st') (hs_queued st') = st') by (by destruct st'). rewrite E.
    destruct (run (k b) st') as [a st'']. by rewrite insert_insert_eq.
Qed.

Lemma set_obj_lookup loc f w o :
  w.(wd_heap) !! loc = Some o -> (wd_set_obj loc f w).(wd_heap) !! loc = Some (f o).
Proof. intros Ho. unfold wd_set_obj. rewrite Ho. apply lookup_insert_eq. Qed.

(** A connection that is served has an object. *)
Lemma openConnection_object stream w sd loc w' :
  openConnection stream w = (Serving sd loc, w') -> is_Some (w'.(wd_heap) !! loc).
Proof.
  unfold openConnection, openSyncChannel, openAsyncChannel. intros E. repeat case_match; simplify_eq/=.
  - match goal with Hi : Server_Initialize _ _ _ _ = _ |- _ => apply Server_Initialize_object in Hi as [sess Ho] end.
    eexists. by apply set_obj_lookup.
  - match goal with Hi : Server_AsyncInitialize _ _ _ = _ |- _ =>
      apply Server_AsyncInitialize_object in Hi as (sess & s' & Ho) end.
    eexists. by apply set_obj_lookup.
Qed.

(** What the reader delivers, with nobody else at the locks. *)
Definition alone_inputs (inputs : list (message * list wait_choice * bool))
  : list (message * list (list lock_op * wait_choice) * bool) :=
  map (fun x => (x.1.1, undisturbed x.1.2, x.2)) inputs.

Lemma run_Serve fuel ctx stream inputs w :
  run (p_Serve fuel ctx stream inputs) w = Server_Serve fuel ctx stream (alone_inputs inputs) w.
Proof.
  unfold p_Serve, Server_Serve. rewrite run_seq, run_openConnection.
  destruct (openConnection stream w) as [conn w'] eqn:Eo. destruct conn as [sd loc | err s | err]; try done.
  apply openConnection_object in Eo as [o Ho]. unfold p_serve_session. rewrite run_seq, (run_session loc false _ w' o Ho).
  assert (E : with_session loc false
      (run (match sd with
            | SyncSide => p_runSync fuel ctx (map (fun '(m, _, q) => (m, q)) inputs)
            | AsyncSide => p_runAsync ctx inputs.*1
            end)) w'
    = with_session loc false
      (match sd with
       | SyncSide => runSync fuel ctx (map (fun '(m, _, q) => (m, q)) (alone_inputs inputs))
       | AsyncSide => runAsync ctx (map (fun '(m, env, _) => (m, env, false)) (alone_inputs inputs))
       end) w').
  { unfold with_session. rewrite Ho. set (st := MkHState _ _ _ _ _ _ _). destruct sd.
    - rewrite agrees_runSync. unfold alone_inputs. rewrite map_map.
      erewrite map_ext; [done |]. by intros [[]].
    - rewrite run_runAsync. unfold steady_inputs, alone_inputs. by rewrite !map_map. }
  rewrite E. clear E. match goal with |- context [with_session loc false ?m w'] =>
    destruct (with_session loc false m w') as [[[res|]|] w''] end; try done.
  rewrite run_seq. destruct sd; [| done]. rewrite run_removeSession. cbn [closeConnection].
  by destruct (removeSession loc w'').
Qed.
End Alone.

(** The goroutines are the code of [Connect], [Serve] and [Server] at a finer grain.
    Run alone, without another goroutine between its actions, the goroutine of a
    connection is in every world, with the same result and the same world after it, a
    whole call of [Serve]: opening the channel, the loop with every handler, and the
    removal of the session; and the goroutine that shuts the server down is
    [CloseAll]. *)
Theorem Serve_alone {S D} `{Stream S} `{Device D} (w : World S D) :
  (forall fuel ctx stream inputs,
     run (p_Serve fuel ctx stream inputs) w = Server_Serve fuel ctx stream (alone_inputs inputs) w) /\
  (forall order, run (p_CloseAll order) w = CloseAll (order (map_to_list w.(wd_srv).(srv_sessions)).*2) w).
Proof. split; intros; [apply run_Serve | apply run_CloseAll]. Qed.
