(* ===== verification/DeviceUse.v ===== *)
(** * The instrument is used by its methods only

    All sessions of a server share one instrument. [careful] says of a program that
    every action of it leaves the instrument alone or calls one method of it; the
    goroutines of [Goroutines] are careful, so whatever the methods of an instrument
    keep, a server keeps. *)

From S2P Require Import Prelude Interleave Errors Version Constants MessageId Stream Header Codec.
From S2P Require Import WireErrors Writer Rmt Status Transaction Policy Locks LockWait Config.
From S2P Require Import Device TestDevice Session Server Initialize Handler Dispatch Data Clear.
From S2P Require Import Async Reader Serve Programs Connect Goroutines.

(** A call of a method. *)
Inductive dev_call {D} `{Device D} (d : D) : D -> Prop :=
| call_Write c p fin : dev_call d (dev_Write d c p fin).2
| call_Read c n : dev_call d (dev_Read d c n).2
| call_Clear c : dev_call d (dev_Clear d c).2
| call_Trigger c : dev_call d (dev_Trigger d c).2
| call_ReadStatusByte c : dev_call d (dev_ReadStatusByte d c).2
| call_RemoteLocal c mode : dev_call d (dev_RemoteLocal d c mode).2.

Definition dev_move {D} `{Device D} (d d' : D) : Prop := d' = d \/ dev_call d d'.

Create HintDb careful.

Section Careful.
Context {X D : Type} `{Device D} (dev : X -> D).

Definition careful {A} (p : prog X A) : Prop := steps (fun x x' => dev_move (dev x) (dev x')) p.

Lemma careful_bind {A B} (p : prog X A) (f : A -> prog X B) :
  careful p -> (forall a, careful (f a)) -> careful (p ≫= f).
Proof. apply steps_bind. Qed.
Lemma careful_act {A} (m : M X A) : (forall x, dev (m x).2 = dev x) -> careful (act m).
Proof. intros Hm. apply steps_act. intros x. left. apply Hm. Qed.
End Careful.

Section Handlers.
Context {S D : Type} `{Stream S} `{Device D}.
Definition hs_dev (st : HState S D) : D := st.(hs_srv).(srv_dev).
Local Abbreviation careful := (careful hs_dev).

Lemma careful_check {A} p (onerr : error -> prog (HState S D) A) k :
  careful p -> (forall err, careful (onerr err)) -> careful k -> careful (p_check p onerr k).
Proof. intros Hp He Hk. apply careful_bind; [done |]. by intros [err|]. Qed.

Lemma careful_dev {A} ctx (f : D -> bool -> A * D) :
  (forall d c, dev_call d (f d c).2) -> careful (act (on_dev ctx f)).
Proof.
  intros Hf st. split; [right | done]. unfold on_dev, mbind, M_bind, ctx_Err, srv_gets, gets, hs_dev. simpl.
  specialize (Hf (srv_dev (hs_srv st)) (ctx_done (hs_cancelled st) ctx)).
  by destruct (f (srv_dev (hs_srv st)) _) as [a d].
Qed.

Lemma careful_write sd h b : careful (act (writer_Write sd h b)).
Proof.
  apply careful_act. intros st. unfold writer_Write. repeat case_match; try done. by destruct sd.
Qed.

Lemma careful_tx f : careful (act (on_tx f)).
Proof. apply careful_act. intros st. unfold on_tx, mbind, M_bind, sess_gets, gets. simpl. by destruct (f _). Qed.

(** The other critical sections. *)
Lemma careful_sections :
  careful (act abortOperation) /\ (forall c, careful (act (end_operation c))) /\
  (forall h, careful (act (rmt_received h))) /\ (forall d h, careful (act (status_byte d h))) /\
  careful (act status_take) /\ (forall w ch, careful (act (request_step w ch))) /\
  (forall id, careful (act (lock_release id))) /\ careful (act disposition_act) /\
  (forall n, careful (act (maxsize_act n))).
Proof.
  split_and!; intros; apply careful_act; intros st;
    unfold abortOperation, end_operation, rmt_received, status_byte, status_take, request_step, lock_release,
      disposition_act, maxsize_act, mbind, M_bind, sess_gets, srv_gets, gets, modify, hs_dev; simpl;
    repeat case_match; simplify_eq/=; try done.
  all: match goal with |- context [Operation_release ?c ?s ?k] => by destruct (Operation_release c s k) | _ => idtac end.
Qed.
End Handlers.

(** Through binds, checks and branches. *)
Ltac careful_step :=
  match goal with
  | |- careful _ (Ret _) => exact I
  | |- careful _ (p_check _ _ _) => apply careful_check; [| intros ? |]
  | |- careful _ (_ ≫= _) => apply careful_bind; [| intros ?]
  | |- careful _ (match ?x with _ => _ end) => destruct x
  | |- careful _ (act (on_dev _ _)) => apply careful_dev; intros ? ?; constructor
  | |- careful _ (act (on_tx _)) => apply careful_tx
  | |- careful _ (act (writer_Write _ _ _)) => apply careful_write
  | |- careful _ (act (writer_WriteError _ _ _)) => apply careful_write
  | |- careful _ (act (writer_WriteFatalError _ _ _)) => apply careful_write
  | |- careful _ (act _) => first [apply careful_sections | apply careful_act; intros ?; reflexivity]
  | |- careful _ _ => solve [auto with careful]
  end.
Ltac walk_carefully := cbv zeta; repeat careful_step.

Section Walk.
Context {S D : Type} `{Stream S} `{Device D}.
Local Abbreviation careful p := (careful (hs_dev (S := S) (D := D)) p).

Lemma careful_reportOperationError sd err : careful (p_reportOperationError sd err).
Proof. unfold p_reportOperationError, p_report_fatal. walk_carefully. Qed.
Lemma careful_reportReadError sd err : careful (p_reportReadError sd err).
Proof. unfold p_reportReadError. walk_carefully. Qed.
Lemma careful_reportAcceptError sd err : careful (p_reportAcceptError sd err).
Proof. unfold p_reportAcceptError, p_report_fatal. walk_carefully. Qed.
Hint Resolve careful_reportOperationError careful_reportReadError careful_reportAcceptError : careful.

Lemma careful_terminate r b : careful (p_terminate r b).
Proof. unfold p_terminate. walk_carefully. Qed.
Hint Resolve careful_terminate : careful.

Lemma careful_deliver r b fin err n : careful (p_deliver_chunk r b fin err n).
Proof. unfold p_deliver_chunk. walk_carefully. Qed.
Lemma careful_after_read r b fin err n : careful (p_after_read r b fin err n).
Proof. unfold p_after_read, p_completeAbsentResponse, p_sendInterrupted. walk_carefully. Qed.
Hint Resolve careful_deliver careful_after_read : careful.

Lemma careful_loop fuel ctx r n : careful (p_loop fuel ctx r n).
Proof. revert n. induction fuel as [|fuel IH]; intros n; [done |]. cbn [p_loop]. walk_carefully; apply IH. Qed.
Hint Resolve careful_loop : careful.

Lemma careful_respond fuel ctx id buf : careful (p_respond fuel ctx id buf).
Proof. unfold p_respond, p_SendResponse. walk_carefully. Qed.
Hint Resolve careful_respond : careful.

Lemma careful_Request choices w : careful (p_Request choices w).
Proof.
  revert w. induction choices as [|ch choices IH]; intros w; simpl; [by destruct (wt_phase w) |].
  assert (E : careful (w ← act (request_step w ch); p_Request choices w))
    by (apply careful_bind; [apply careful_sections | done]).
  by destruct (wt_phase w).
Qed.
Hint Resolve careful_Request : careful.

Lemma careful_handleSync fuel ctx msg buf : careful (p_handleSync fuel ctx msg buf).
Proof.
  unfold p_handleSync, p_handleSync_case, p_handleData, p_handleData_end, p_ReceiveData, p_Trigger, p_CompleteDeviceClear.
  walk_carefully.
Qed.

Lemma careful_handleAsync choices ctx msg : careful (p_handleAsync choices ctx msg).
Proof.
  unfold p_handleAsync, p_handleAsync_case, p_handleClear, p_BeginDeviceClear, p_StatusQuery, p_Lock, p_LockInfo,
    p_RemoteLocal, p_answer. walk_carefully.
Qed.
Hint Resolve careful_handleSync careful_handleAsync : careful.

Lemma careful_serve_loop {A} before (handle : A -> prog (HState S D) (option (option error))) ctx inputs :
  (forall x, careful (act (before x))) -> (forall x, careful (handle x)) ->
  careful (p_serve_loop before handle ctx inputs).
Proof.
  intros Hb Hh. induction inputs as [|x inputs IH]; cbn [p_serve_loop]; walk_carefully; auto.
Qed.

Lemma careful_runSync fuel ctx inputs : careful (p_runSync fuel ctx inputs).
Proof. unfold p_runSync. walk_carefully. apply careful_serve_loop; intros x; walk_carefully. Qed.
Lemma careful_runAsync ctx inputs : careful (p_runAsync ctx inputs).
Proof. apply careful_serve_loop; intros x; walk_carefully. Qed.
End Walk.

(** ** In the world *)
Section World.
Context {S D : Type} `{Stream S} `{Device D}.
Definition wd_dev (w : World S D) : D := w.(wd_srv).(srv_dev).
Local Abbreviation careful p := (careful wd_dev p).

Lemma careful_session {A} loc q (p : prog (HState S D) A) :
  DeviceUse.careful hs_dev p -> careful (p_session loc q p).
Proof.
  revert q. induction p as [a | C m k IH]; intros q Hp; [done |]. intros w.
  unfold on_session, with_session. destruct (wd_heap w !! loc) as [o|]; [| split; [by left | done]].
  set (st := MkHState _ _ _ _ _ _ _). destruct (Hp st) as [Hm Hk]. destruct (m st) as [b st']. by split; [| apply IH].
Qed.

Lemma allocateID_dev (s : Server D) : (allocateIDLocked s).2.(srv_dev) = s.(srv_dev).
Proof.
  unfold allocateIDLocked. by destruct (loop _ _ _) as [|[]].
Qed.

Lemma set_obj_dev loc f w : wd_dev (wd_set_obj loc f w) = wd_dev w.
Proof. unfold wd_set_obj. by destruct (wd_heap w !! loc). Qed.

Lemma careful_sections_world :
  (forall loc, careful (act (release_locks loc))) /\ (forall loc, careful (act (unregister loc))) /\
  (forall loc, careful (act (close_session loc))) /\ (forall order, careful (act (take_sessions order))) /\
  (forall sd loc h, careful (act (first_write sd loc h))) /\
  (forall sd loc wr, careful (act (install_writer sd loc wr))) /\
  (forall h sub s, careful (act (Server_Initialize h sub s))) /\
  (forall h s, careful (act (Server_AsyncInitialize h s))).
Proof.
  split_and!; intros; apply careful_act; intros w; try done.
  - destruct (wd_heap w !! loc) as [o|] eqn:Ho; [| unfold close_session; by rewrite Ho].
    by destruct (close_session_spec loc w o Ho) as (e & s1 & s2 & can & -> & _).
  - unfold first_write. destruct (wd_heap w !! loc) as [o|]; [| done].
    destruct sd, (so_asyncS o); try done; destruct (MessageWriter_Write _ _ _ _) as [[err wr] s']; apply set_obj_dev.
  - apply set_obj_dev.
  - unfold Server_Initialize. destruct (bool_decide _); [done |]. destruct (negb _); [done |].
    destruct (negb _); [done |]. destruct (DecodeInitializeParameter _). destruct (Version_Less _ _); [done |]. cbv zeta.
    unfold allocateSession. destruct (bool_decide _); [done |]. pose proof (allocateID_dev (wd_srv w)) as E.
    destruct (allocateIDLocked _) as [[id|] sv]; exact E.
  - unfold Server_AsyncInitialize, wd_dev. repeat case_match; simplify_eq/=; done.
Qed.
End World.

Ltac world_step :=
  match goal with
  | |- careful _ (act (modify (wd_count _))) => apply careful_act; intros ?; reflexivity
  | |- careful _ (act (gets _)) => apply careful_act; intros ?; reflexivity
  | |- careful _ (act _) => apply careful_sections_world
  | |- careful _ (Ret _) => exact I
  | |- careful _ (_ ≫= _) => apply careful_bind; [| intros ?]
  | |- careful _ (match ?x with _ => _ end) => destruct x
  | |- careful _ _ => solve [auto with careful]
  end.

Section Goroutines.
Context {S D : Type} `{Stream S} `{Device D}.
Local Abbreviation careful p := (careful (wd_dev (S := S) (D := D)) p).

Lemma careful_removeSession loc : careful (p_removeSession loc).
Proof. unfold p_removeSession. repeat world_step. Qed.
Hint Resolve careful_removeSession : careful.

Lemma careful_openConnection stream : careful (p_openConnection stream).
Proof. unfold p_openConnection, p_openSyncChannel, p_openAsyncChannel. cbv zeta. repeat world_step. Qed.

Lemma careful_Serve fuel ctx stream inputs : careful (p_Serve fuel ctx stream inputs).
Proof.
  unfold p_Serve, p_serve_session. apply careful_bind; [apply careful_openConnection |].
  intros [sd loc | err s | err]; [| exact I ..]. apply careful_bind.
  - apply careful_session. destruct sd; [apply careful_runSync | apply careful_runAsync].
  - intros ?. repeat world_step.
Qed.

Lemma careful_CloseAll order : careful (p_CloseAll order).
Proof.
  unfold p_CloseAll. apply careful_bind; [apply careful_sections_world |]. intros all. generalize (@None error).
  induction all as [|loc all IH]; intros e; cbn [p_closeAll_loop]; [exact I |].
  do 2 (apply careful_bind; [apply careful_sections_world | intros ?]). apply IH.
Qed.
End Goroutines.
