(* ===== verification/Worlds.v ===== *)
(** * The worlds a concurrent server reaches

    [keeps_world] is what every action of every goroutine guarantees to the others:
    the table, the sessions and the integers stay in order, and what a session is
    does not change. A goroutine may rely on it for what it knows of its own session
    ([stable]); the programs of [Goroutines] keep to it, so any number of them do.
    [acts] says in addition what one action may do to the lock table: nothing, or one
    operation of the table in the name of a session that was created. *)

From S2P Require Import Prelude Interleave Errors Version Constants MessageId Stream Header Codec.
From S2P Require Import WireErrors Writer Rmt Status Transaction Policy Locks LockWait Config.
From S2P Require Import Device TestDevice Session Server Initialize Handler Dispatch Data Clear.
From S2P Require Import Async Reader Serve Programs Frame Types Guarantee Connect Goroutines.

(** ** What every action guarantees *)
Section Guarantee.
Context {S D : Type} `{Stream S} `{Device D}.
Implicit Types w : World S D.

(** The sessions in the table are open and there under their own IDs, there are no
    more of them than configured, and every integer is in range. *)
Record steady w : Prop := {
  sw_cfg : valid_config w.(wd_srv).(srv_cfg);
  sw_typed : typed_srv w.(wd_srv);
  sw_next : 1 <= w.(wd_srv).(srv_nextID) < 2 ^ 16;
  sw_size : Server_Sessions w.(wd_srv) <= w.(wd_srv).(srv_cfg).(cfg_MaxSessions);
  sw_reg : forall id loc, Server_Session w.(wd_srv) id = Some loc ->
    exists o, w.(wd_heap) !! loc = Some o /\ o.(so_sess).(ss_id) = id /\
              o.(so_sess).(ss_state) <> StateClosed;
  sw_obj : forall loc o, w.(wd_heap) !! loc = Some o ->
    (loc < w.(wd_nextloc))%nat /\ 1 <= o.(so_sess).(ss_id) < 2 ^ 16 /\
    session_inv o.(so_sess) /\ typed_sess o.(so_sess);
}.

Definition unregistered (loc : nat) w : Prop := forall id, Server_Session w.(wd_srv) id <> Some loc.
Definition allocated (loc : nat) w : Prop := is_Some (w.(wd_heap) !! loc).

(** A session there is, or was, has this ID. *)
Definition owner w (id : SessionID) : Prop :=
  exists loc o, w.(wd_heap) !! loc = Some o /\ o.(so_sess).(ss_id) = id.

(** A session keeps its identity, a closed one stays closed, one that left the table
    does not come back, and the locks move as the table of the standard does, by
    operations of sessions. *)
Record extends w w' : Prop := {
  ex_cfg : w'.(wd_srv).(srv_cfg) = w.(wd_srv).(srv_cfg);
  ex_obj : forall loc o, w.(wd_heap) !! loc = Some o -> exists o', w'.(wd_heap) !! loc = Some o' /\
    o'.(so_sess).(ss_id) = o.(so_sess).(ss_id) /\ o'.(so_sess).(ss_version) = o.(so_sess).(ss_version) /\
    (o.(so_sess).(ss_state) = StateClosed -> o'.(so_sess).(ss_state) = StateClosed);
  ex_unreg : forall loc, allocated loc w -> unregistered loc w -> unregistered loc w';
  ex_locks : lock_moves (owner w') w.(wd_srv).(srv_locks) w'.(wd_srv).(srv_locks);
}.

#[export] Instance extends_preorder : PreOrder extends.
Proof.
  split.
  - intros w. split; [done | | done | done]. intros loc o Ho. by exists o.
  - intros w1 w2 w3 [A1 A2 A3 A4] [B1 B2 B3 B4]. split; [congruence | | |].
    + intros loc o Ho. destruct (A2 _ _ Ho) as (o2 & Ho2 & E1 & E2 & E3).
      destruct (B2 _ _ Ho2) as (o3 & Ho3 & F1 & F2 & F3). exists o3. split_and!; try congruence; auto.
    + intros loc [o Ho] Hu. destruct (A2 _ _ Ho) as (o2 & Ho2 & _). apply B3; [by exists o2 |].
      apply A3; [by exists o | done].
    + etrans; [| exact B4]. eapply lock_moves_mono; [| exact A4]. intros id (loc & o & Ho & <-).
      destruct (B2 _ _ Ho) as (o3 & Ho3 & ? & _). by exists loc, o3.
Qed.

Definition keeps_world w w' : Prop := steady w -> steady w' /\ extends w w'.

Lemma steady_keeps w w' : steady w -> keeps_world w w' -> steady w'.
Proof. intros Hs Hk. by apply Hk. Qed.

Lemma keeps_world_refl w : keeps_world w w.
Proof. by split. Qed.
Lemma keeps_world_trans w1 w2 w3 : keeps_world w1 w2 -> keeps_world w2 w3 -> keeps_world w1 w3.
Proof. intros H1 H2 Hs. destruct (H1 Hs) as [Hs2 He]. destruct (H2 Hs2). split; [done | by etrans]. Qed.

Lemma keeps_world_rtc w w' : rtc keeps_world w w' -> keeps_world w w'.
Proof. induction 1; [apply keeps_world_refl | by eapply keeps_world_trans]. Qed.

(** An action does no more than that, and moves the lock table by at most one operation,
    of a session. *)
Definition acts w w' : Prop :=
  keeps_world w w' /\ (steady w -> lock_move (owner w') w.(wd_srv).(srv_locks) w'.(wd_srv).(srv_locks)).

Lemma acts_keeps w w' : acts w w' -> keeps_world w w'.
Proof. by intros []. Qed.
Lemma acts_quiet w w' : keeps_world w w' -> w'.(wd_srv).(srv_locks) = w.(wd_srv).(srv_locks) -> acts w w'.
Proof. intros Hk E. split; [done |]. by rewrite E. Qed.
Lemma acts_refl w : acts w w.
Proof. by apply acts_quiet; [apply keeps_world_refl |]. Qed.

(** *** Steps of the server *)

Lemma keeps_srv A v w :
  (forall id, A id -> owner w id) -> srv_step A w.(wd_srv) v -> keeps_world w (wd_set_srv v w).
Proof.
  intros HA [E1 E2 E3 E4 Hl Ht] [C T N Z0 R O]. split; split; simpl; rewrite ?E1, ?E3; auto.
  - unfold Server_Sessions in *. by rewrite E2.
  - unfold Server_Session in *. by rewrite E2.
  - intros loc o Ho. by exists o.
  - intros loc _ Hu id. unfold Server_Session. simpl. rewrite E2. apply Hu.
  - by eapply lock_moves_mono, lock_move_moves.
Qed.

Lemma keeps_world_count f w : keeps_counters f -> keeps_world w (wd_count f w).
Proof. intros Hf. apply (keeps_srv (owner w)); [done | by apply srv_step_count]. Qed.

Lemma owner_u16 w id : steady w -> owner w id -> is_u16 id.
Proof. intros Hw (loc & o & Ho & <-). destruct (sw_obj w Hw loc o Ho) as (_ & ? & _). unfold is_u16. lia. Qed.

Lemma acts_srv A v w :
  (forall id, A id -> owner w id) -> (steady w -> srv_step A w.(wd_srv) v) -> acts w (wd_set_srv v w).
Proof.
  intros HA Hv. split; [intros Hs; by apply (keeps_srv A); auto |]. intros Hs.
  eapply lock_move_mono; [exact HA | by apply vp_locks, Hv].
Qed.

Lemma acts_release loc w : allocated loc w -> acts w (release_locks loc w).2.
Proof.
  intros [o Ho]. assert (Hown : owner w (sess_id w loc)) by (exists loc, o; unfold sess_id; by rewrite Ho).
  apply (acts_srv (owner w)); [done |]. intros Hw. apply srv_step_locks; [by intros id; apply owner_u16 |].
  exact (lock_move_step (owner w) _ (OpReleaseAll (sess_id w loc)) Hown).
Qed.

(** A table with fewer sessions. *)
Lemma keeps_table sessions w :
  sessions ⊆ w.(wd_srv).(srv_sessions) ->
  keeps_world w (wd_set_srv (srv_set_sessions sessions w.(wd_srv)) w).
Proof.
  intros Hsub [C T N Z0 R O]. destruct w as [[cfg dev ses next lk pol ct] heap nl can nc]. simpl in *.
  split; split; simpl; try done.
  - by destruct T.
  - unfold Server_Sessions in *. simpl in *. apply map_subseteq_size in Hsub. lia.
  - intros id loc Hl. apply R. by eapply lookup_weaken.
  - intros loc o Ho. by exists o.
  - intros loc _ Hu id Hl. apply (Hu id). by eapply lookup_weaken.
Qed.

(** *** Steps of an object *)
Lemma keeps_obj loc o o' w :
  w.(wd_heap) !! loc = Some o ->
  o'.(so_sess).(ss_id) = o.(so_sess).(ss_id) -> o'.(so_sess).(ss_version) = o.(so_sess).(ss_version) ->
  (session_inv o.(so_sess) -> session_inv o'.(so_sess)) -> (typed_sess o.(so_sess) -> typed_sess o'.(so_sess)) ->
  (o.(so_sess).(ss_state) = StateClosed -> o'.(so_sess).(ss_state) = StateClosed) ->
  (o'.(so_sess).(ss_state) = StateClosed -> o.(so_sess).(ss_state) = StateClosed \/ unregistered loc w) ->
  keeps_world w (wd_set_heap (<[loc := o']> w.(wd_heap)) w).
Proof.
  intros Ho E1 E2 Hi Ht Hc Hu [C T N Z0 R O]. split; split; simpl; try done.
  - intros id loc' Hl. destruct (decide (loc' = loc)) as [-> |].
    + rewrite lookup_insert_eq. exists o'. split; [done |]. destruct (R id loc Hl) as (o1 & Ho1 & F1 & F2).
      rewrite Ho in Ho1. injection Ho1 as <-. split; [congruence |]. intros Hc'.
      destruct (Hu Hc') as [|Hun]; [done | by apply (Hun id)].
    + rewrite lookup_insert_ne by done. by apply R.
  - intros loc' o1. destruct (decide (loc' = loc)) as [-> |].
    + rewrite lookup_insert_eq. intros [= <-]. rewrite E1. destruct (O loc o Ho) as (? & ? & ? & ?).
      refine (conj _ (conj _ (conj _ _))); auto.
    + rewrite lookup_insert_ne by done. apply O.
  - intros loc' o1 Ho1. destruct (decide (loc' = loc)) as [-> |].
    + rewrite lookup_insert_eq. exists o'. rewrite Ho in Ho1. injection Ho1 as <-. by split_and!.
    + rewrite lookup_insert_ne by done. by exists o1.
Qed.

Lemma keeps_same w w' :
  w'.(wd_srv) = w.(wd_srv) -> w'.(wd_heap) = w.(wd_heap) -> w'.(wd_nextloc) = w.(wd_nextloc) -> keeps_world w w'.
Proof.
  intros E1 E2 E3 [C T N Z0 R O]. split; split; rewrite ?E1, ?E2, ?E3; try done.
  - intros loc o Ho. by exists o.
  - intros loc _ Hu id. rewrite E1. apply Hu.
Qed.

(** An object whose session is only assigned to. *)
Lemma keeps_frame loc o o' w :
  w.(wd_heap) !! loc = Some o -> sess_frame o.(so_sess) o'.(so_sess) ->
  (typed_sess o.(so_sess) -> typed_sess o'.(so_sess)) ->
  keeps_world w (wd_set_heap (<[loc := o']> w.(wd_heap)) w).
Proof. intros Ho [F1 F2 F3 F4 F5] Ht. apply (keeps_obj loc o); try done; rewrite F4; auto. Qed.

Lemma keeps_set_obj loc f w :
  (forall o, sess_frame o.(so_sess) (f o).(so_sess) /\ (typed_sess o.(so_sess) -> typed_sess (f o).(so_sess))) ->
  keeps_world w (wd_set_obj loc f w).
Proof.
  intros Hf. unfold wd_set_obj. destruct (wd_heap w !! loc) as [o|] eqn:Ho; [| apply keeps_world_refl].
  destruct (Hf o). by apply (keeps_frame loc o).
Qed.

Lemma acts_set_obj loc f w :
  (forall o, sess_frame o.(so_sess) (f o).(so_sess) /\ (typed_sess o.(so_sess) -> typed_sess (f o).(so_sess))) ->
  acts w (wd_set_obj loc f w).
Proof.
  intros Hf. apply acts_quiet; [by apply keeps_set_obj |]. unfold wd_set_obj. by destruct (wd_heap w !! loc).
Qed.

Lemma typed_close s : typed_sess s -> typed_sess (Session_close s).1.1.
Proof. intros []. by split. Qed.

Lemma keeps_close loc w : unregistered loc w -> keeps_world w (close_session loc w).2.
Proof.
  intros Hu. destruct (wd_heap w !! loc) as [o|] eqn:Ho.
  - destruct (close_session_spec loc w o Ho) as (e & s1 & s2 & can & -> & _). cbn [snd].
    set (o' := MkObj (Session_close (so_sess o)).1.1 s1 s2).
    apply (keeps_world_trans _ (wd_set_heap (<[loc := o']> (wd_heap w)) w)); [| by apply keeps_same].
    apply (keeps_obj loc o); try done.
    + apply close_inv.
    + apply typed_close.
    + by right.
  - unfold close_session. rewrite Ho. apply keeps_world_refl.
Qed.

Lemma close_srv loc w : (close_session loc w).2.(wd_srv) = w.(wd_srv).
Proof.
  destruct (wd_heap w !! loc) as [o|] eqn:Ho; [| unfold close_session; by rewrite Ho].
  by destruct (close_session_spec loc w o Ho) as (e & s1 & s2 & can & -> & _).
Qed.
Lemma acts_close loc w : unregistered loc w -> acts w (close_session loc w).2.
Proof. intros Hu. apply acts_quiet; [by apply keeps_close | by rewrite close_srv]. Qed.

Lemma unregister_gone loc w : steady w -> allocated loc w -> unregistered loc (unregister loc w).2.
Proof.
  intros Hw [o Ho] id. unfold unregister, modify, sess_id. rewrite Ho. simpl. unfold Server_Session.
  destruct (wd_srv w) as [cfg dev ses next lk pol ct] eqn:Es. simpl. intros [Hne Hl]%lookup_delete_Some.
  destruct (sw_reg w Hw id loc) as (o' & Ho' & E & _); [by rewrite Es |]. congruence.
Qed.

Lemma keeps_unregister loc w : keeps_world w (unregister loc w).2.
Proof. apply keeps_table. apply delete_subseteq. Qed.

(** A session is created. *)
Lemma keeps_allocate version s w :
  wf_version version -> keeps_world w (allocateSession version s w).2.
Proof.
  intros Hv Hw. pose proof Hw as [C T N Z0 R O]. unfold allocateSession. case_bool_decide as Hm; [by split |].
  pose proof (allocateIDLocked_spec (wd_srv w) N) as Ha. destruct (allocateIDLocked (wd_srv w)) as [[id|] s'].
  - destruct Ha as (Hid & Hr & next & -> & Hn). destruct w as [[cfg dev ses nx lk pol ct] heap nl can nc].
    unfold Server_Sessions, Server_Session in *. simpl in *.
    assert (Hnew : heap !! nl = None).
    { destruct (heap !! nl) as [o|] eqn:Ho; [| done]. destruct (O _ _ Ho) as [? _]. lia. }
    split; split; simpl; unfold Server_Sessions, Server_Session; simpl; try done.
    + destruct T. split; simpl in *; try done. unfold is_u16. lia.
    + rewrite map_size_insert_None by done. lia.
    + intros id' loc. destruct (decide (id' = id)) as [-> |].
      * rewrite lookup_insert_eq. intros [= <-]. eexists. by rewrite lookup_insert_eq.
      * rewrite lookup_insert_ne by done. intros Hl. destruct (R id' loc Hl) as (o & Ho & ?).
        exists o. rewrite lookup_insert_ne; [done | congruence].
    + intros loc o. destruct (decide (loc = nl)) as [-> |].
      * rewrite lookup_insert_eq. intros [= <-]. simpl. refine (conj _ (conj Hr (conj _ _))); [lia | |].
        -- split; simpl; intuition discriminate.
        -- destruct T as [[]]. split; simpl in *; try done; unfold is_u16; [lia | by intros p [= <-]].
      * rewrite lookup_insert_ne by done. intros Ho. destruct (O _ _ Ho) as (? & ? & ? & ?).
        refine (conj _ _); [lia | done].
    + intros loc o Ho. exists o. rewrite lookup_insert_ne; [done | congruence].
    + intros loc [o Ho] Hu id'. unfold Server_Session. simpl. destruct (decide (id' = id)) as [-> |].
      * rewrite lookup_insert_eq. simpl in Ho. congruence.
      * rewrite lookup_insert_ne by done. apply Hu.
  - destruct Ha as (_ & next & -> & Hn). destruct w as [[cfg dev ses nx lk pol ct] heap nl can nc]. simpl in *.
    split; split; simpl; try done.
    + destruct T. split; simpl in *; try done. unfold is_u16. lia.
    + intros loc o Ho. by exists o.
Qed.
Lemma acts_allocate version s w : wf_version version -> acts w (allocateSession version s w).2.
Proof.
  intros Hv. split; [by apply keeps_allocate |]. intros [_ _ N _ _ _]. unfold allocateSession.
  case_bool_decide; [done |]. pose proof (allocateIDLocked_spec (wd_srv w) N) as Ha.
  destruct (allocateIDLocked (wd_srv w)) as [[id|] s']; [destruct Ha as (_ & _ & next & -> & _) | destruct Ha as (_ & next & -> & _)]; done.
Qed.
End Guarantee.

(** ** Programs that keep to it *)
Section Keeping.
Context {S D : Type} `{Stream S} `{Device D}.
Implicit Types w : World S D.
Local Abbreviation WP := (prog (World S D)).

(** What the other goroutines cannot invalidate. *)
Definition stable (P : World S D -> Prop) : Prop := forall w w', extends w w' -> P w -> P w'.

Lemma stable_true : stable (fun _ => True).
Proof. done. Qed.
Lemma stable_pure (X : Prop) : stable (fun _ => X).
Proof. by intros w w' _. Qed.
Lemma stable_and P Q : stable P -> stable Q -> stable (fun w => P w /\ Q w).
Proof. intros HP HQ w w' He []. eauto. Qed.
Lemma stable_allocated loc : stable (allocated loc).
Proof. intros w w' He [o Ho]. destruct (ex_obj _ _ He _ _ Ho) as (o' & Ho' & _). by exists o'. Qed.

(** A session that was taken out of the table. *)
Definition retired (loc : nat) w : Prop := allocated loc w /\ unregistered loc w.
Lemma stable_retired loc : stable (retired loc).
Proof.
  intros w w' He [Ha Hu]. split; [by eapply stable_allocated | by eapply ex_unreg].
Qed.
Lemma stable_Forall {A} (l : list A) (P : A -> World S D -> Prop) :
  (forall a, stable (P a)) -> stable (fun w => Forall (fun a => P a w) l).
Proof. intros HP w w' He Hl. eapply Forall_impl; [exact Hl |]. intros a. by apply HP. Qed.

Definition keeping {A} (P : World S D -> Prop) (p : WP A) (Q : A -> World S D -> Prop) : Prop :=
  forall w, steady w -> P w -> wp keeps_world acts p (fun a w => steady w /\ Q a w) w.

Lemma stable_rtc P w w' : stable P -> steady w -> rtc keeps_world w w' -> P w -> steady w' /\ P w'.
Proof. intros HP Hs Hr HPw. destruct (keeps_world_rtc _ _ Hr Hs). eauto. Qed.

Lemma keeping_ret {A} (a : A) (P : World S D -> Prop) (Q : A -> World S D -> Prop) :
  stable P -> (forall w, P w -> Q a w) -> keeping P (Ret a) Q.
Proof. intros HP HQ w Hs Hw w' Hr. destruct (stable_rtc P w w'); auto. Qed.

Lemma keeping_done {A} P (a : A) (Q : A -> World S D -> Prop) : (forall w, Q a w) -> keeping P (Ret a) Q.
Proof. intros HQ w Hs _ w' Hr. split; [| apply HQ]. by apply (keeps_world_rtc _ _ Hr). Qed.

Lemma keeping_act {A} P (m : M (World S D) A) (Q : A -> World S D -> Prop) :
  stable P -> (forall a, stable (Q a)) ->
  (forall w, steady w -> P w -> acts w (m w).2 /\ Q (m w).1 (m w).2) -> keeping P (act m) Q.
Proof.
  intros HP HQ Hm w Hs Hw w' Hr. destruct (stable_rtc P w w' HP Hs Hr Hw) as [Hs' HP'].
  destruct (Hm w' Hs' HP') as [Hk Hq]. split; [done |]. intros w'' Hr'.
  apply (stable_rtc _ (m w').2); auto. by apply Hk.
Qed.

Lemma keeping_bind {A B} P (p : WP A) (f : A -> WP B) Q R :
  keeping P p Q -> (forall a, keeping (Q a) (f a) R) -> keeping P (p ≫= f) R.
Proof.
  intros Hp Hf w Hs Hw. apply wp_bind. eapply wp_mono; [| by apply Hp]. intros a w' [Hs' Hq]. by apply Hf.
Qed.

Lemma keeping_pre {A} (P P' : World S D -> Prop) (p : WP A) Q :
  (forall w, steady w -> P w -> P' w) -> keeping P' p Q -> keeping P p Q.
Proof. intros HP Hp w Hs Hw. apply Hp; auto. Qed.

Lemma keeping_count f P : stable P -> keeps_counters f -> keeping P (act (modify (wd_count f))) (fun _ => P).
Proof.
  intros HP Hf. apply keeping_act; [done | done |]. intros w Hs Hw.
  pose proof (keeps_world_count f w Hf) as Hk. split; [by apply acts_quiet |]. eapply HP; [| done]. by apply Hk.
Qed.

Lemma keeping_step {A} (m : M (World S D) A) P :
  stable P -> (forall w, steady w -> P w -> acts w (m w).2) -> keeping P (act m) (fun _ => P).
Proof.
  intros HP Hm. apply keeping_act; [done | done |]. intros w Hs Hw.
  split; [auto |]. eapply HP; [| done]. by apply Hm.
Qed.

Lemma keeping_removeSession loc : keeping (allocated loc) (p_removeSession loc) (fun _ => retired loc).
Proof.
  eapply keeping_bind.
  { apply keeping_step; [apply stable_allocated |]. intros w _ Ha. by apply acts_release. }
  intros ?. apply (keeping_bind _ _ _ (fun _ => retired loc)).
  - apply keeping_act; [apply stable_allocated | intros _; apply stable_retired |]. intros w Hs Ha.
    split; [apply acts_quiet; [apply keeps_unregister | done] |]. split; [| by apply unregister_gone].
    eapply stable_allocated; [| exact Ha]. by apply keeps_unregister.
  - intros _. apply keeping_step; [apply stable_retired |]. intros w Hs [_ Hu]. by apply acts_close.
Qed.

(** A session object that is closed. *)
Definition closed_at (loc : nat) w : Prop :=
  exists o, w.(wd_heap) !! loc = Some o /\ o.(so_sess).(ss_state) = StateClosed.
Lemma stable_closed loc : stable (closed_at loc).
Proof. intros w w' He (o & Ho & Hc). destruct (ex_obj _ _ He _ _ Ho) as (o' & Ho' & _ & _ & E). exists o'. auto. Qed.

Lemma close_closes loc w : allocated loc w -> closed_at loc (close_session loc w).2.
Proof.
  intros [o Ho]. destruct (close_session_spec loc w o Ho) as (e & s1 & s2 & can & -> & _).
  eexists. split; [apply lookup_insert_eq | done].
Qed.

(** The sessions taken out of the table are closed one after the other, while [F] stays. *)
Definition gone (loc : nat) w : Prop := retired loc w /\ closed_at loc w.
Lemma stable_gone loc : stable (gone loc).
Proof. apply stable_and; [apply stable_retired | apply stable_closed]. Qed.

Lemma keeping_closeAll_loop (F : World S D -> Prop) all e :
  stable F ->
  keeping (fun w => F w /\ Forall (fun loc => retired loc w) all) (p_closeAll_loop all e)
    (fun _ w => F w /\ Forall (fun loc => gone loc w) all).
Proof.
  revert F e. induction all as [|loc all IH]; intros F e HF.
  { apply keeping_ret; [apply stable_and; [done | apply stable_Forall; intros l; apply stable_retired] |]. by intros w [? _]. }
  cbn [p_closeAll_loop].
  assert (HP : stable (fun w => F w /\ Forall (fun loc => retired loc w) (loc :: all))).
  { apply stable_and; [done |]. apply stable_Forall. intros l. apply stable_retired. }
  eapply keeping_bind; [apply keeping_step; [exact HP |];
    intros w _ [_ Hl]; apply Forall_cons in Hl as [[? _] _]; by apply acts_release |]. intros ?.
  apply (keeping_bind _ _ _ (fun _ w => (F w /\ gone loc w) /\ Forall (fun loc => retired loc w) all)).
  - apply keeping_act; [exact HP | intros _; apply stable_and; [apply stable_and; [done | apply stable_gone] | apply stable_Forall; intros l; apply stable_retired] |].
    intros w Hs Hw. pose proof Hw as [_ Hl]. apply Forall_cons in Hl as [[Ha Hu] _].
    pose proof (acts_close loc w Hu) as Hk. split; [done |].
    eapply HP in Hw as [HFw Hl]; [| by apply (acts_keeps _ _ Hk)]. apply Forall_cons in Hl as [Hr Hl].
    split_and!; [done | by split; [| apply close_closes] | done].
  - intros err w Hs Hw. eapply wp_mono; [| apply (IH (fun w => F w /\ gone loc w)); [| done | exact Hw]].
    + intros r w' (Hs' & [HF' Hg] & Hall). split_and!; [done | done | by constructor].
    + apply stable_and; [done | apply stable_gone].
Qed.

Lemma keeping_CloseAll order :
  (forall l, order l ≡ₚ l) -> keeping (fun _ => True) (p_CloseAll order) (fun _ _ => True).
Proof.
  intros Ho. apply (keeping_bind _ _ _ (fun all w => True /\ Forall (fun loc => retired loc w) all)).
  2: { intros all w Hs Hw. eapply wp_mono; [| by apply (keeping_closeAll_loop (fun _ => True) all None)]. by intros ? ? []. }
  apply keeping_act; [done | intros all; apply stable_and; [done |]; apply stable_Forall; intros l; apply stable_retired |].
  intros w Hs _. cbn [take_sessions fst snd].
  assert (Hk : keeps_world w (wd_set_srv (srv_set_sessions ∅ w.(wd_srv)) w)) by apply keeps_table, map_empty_subseteq.
  split; [by apply acts_quiet |]. split; [done |]. rewrite Ho. apply Forall_forall. intros loc Hin. split.
  - apply list_elem_of_fmap in Hin as ([id l] & -> & Hin). apply elem_of_map_to_list in Hin.
    destruct (sw_reg w Hs id l Hin) as (o & Hl & _). by exists o.
  - intros id. by unfold Server_Session.
Qed.

(** *** Opening a channel *)

Lemma typed_new sd (s : S) h : typed_writer (MessageWriter_Write (NewMessageWriter (side_channel sd)) s h []).1.2.
Proof. apply MessageWriter_Write_typed. by split. Qed.

Lemma keeping_first_write sd loc h :
  keeping (allocated loc) (act (first_write sd loc h))
    (fun r w => (typed_writer r.2) /\ allocated loc w).
Proof.
  apply keeping_act; [apply stable_allocated | |].
  { intros r. apply stable_and; [apply stable_pure | apply stable_allocated]. }
  intros w Hs Ha.
  assert (Hk : acts w (first_write sd loc h w).2 /\ typed_writer (first_write sd loc h w).1.2).
  { unfold first_write. destruct Ha as [o Ho]. rewrite Ho.
    assert (Hd : acts w w /\ typed_writer (NewMessageWriter (side_channel sd)))
      by (split; [apply acts_refl | by split]).
    assert (Hgo : forall s f,
      (forall s' o, sess_frame (so_sess o) (so_sess (f s' o)) /\ (typed_sess (so_sess o) -> typed_sess (so_sess (f s' o)))) ->
      let r := let '(err, wr, s') := MessageWriter_Write (NewMessageWriter (side_channel sd)) s h [] in
               ((err, wr), wd_set_obj loc (f s') w) in
      acts w r.2 /\ typed_writer r.1.2).
    { intros s f Hf. pose proof (typed_new sd s h) as Ht.
      destruct (MessageWriter_Write _ s h []) as [[err wr] s']. split; [by apply acts_set_obj | done]. }
    destruct sd, (so_asyncS o) as [a|]; try exact Hd;
      [apply (Hgo _ (fun s o => MkObj (so_sess o) s (so_asyncS o)))
      | apply (Hgo _ (fun s o => MkObj (so_sess o) s (so_asyncS o)))
      | apply (Hgo _ (fun s o => MkObj (so_sess o) (so_syncS o) (Some s)))]; done. }
  destruct Hk as [Hk Ht]. split_and!; [done | done |]. eapply stable_allocated; [| exact Ha]. by apply Hk.
Qed.

Lemma keeping_install sd loc wr :
  typed_writer wr -> keeping (allocated loc) (act (install_writer sd loc wr)) (fun _ => allocated loc).
Proof.
  intros Ht. apply keeping_step; [apply stable_allocated |]. intros w Hs _. apply acts_set_obj. intros o.
  destruct sd; (split; [by apply sess_frame_fields |]); intros []; split; simpl; try done; by intros w' [= <-].
Qed.

Lemma keeping_Initialize h sub s :
  keeping (fun _ => True) (act (Server_Initialize h sub s))
    (fun r w => match r with inl (loc, _) => allocated loc w | inr _ => True end).
Proof.
  apply keeping_act; [done | intros [[loc resp]|err]; [apply stable_allocated | done] |]. intros w Hs _. split.
  - unfold Server_Initialize. destruct (bool_decide _); [apply acts_refl |].
    destruct (negb _); [apply acts_refl |]. destruct (negb _); [apply acts_refl |].
    unfold DecodeInitializeParameter. destruct (Version_Less _ _); [apply acts_refl |]. cbv zeta.
    pose proof (acts_allocate (Negotiate (versionFromParameter (h_Parameter h)) (cfg_MaxVersion (srv_cfg (wd_srv w)))) s w) as Hk.
    destruct (allocateSession _ s w) as [[loc|err] w']; apply Hk; apply wf_Negotiate;
      (apply wf_versionFromParameter || by apply tc_version, tv_cfg, sw_typed).
  - destruct (Server_Initialize h sub s w) as [[[loc resp]|err] w'] eqn:E; [| done].
    apply Server_Initialize_object in E as [sess Ho]. by eexists.
Qed.

Lemma keeping_AsyncInitialize h s :
  keeping (fun _ => True) (act (Server_AsyncInitialize h s))
    (fun r w => match r with inl (loc, _) => allocated loc w | inr _ => True end).
Proof.
  apply keeping_act; [done | intros [[loc resp]|err]; [apply stable_allocated | done] |]. intros w Hs _. split.
  - unfold Server_AsyncInitialize. destruct (bool_decide _); [apply acts_refl |].
    destruct (negb _); [apply acts_refl |]. destruct (Server_Session _ _) as [loc|]; [| apply acts_refl].
    destruct (wd_heap w !! loc) as [o|] eqn:Ho; [| apply acts_refl].
    pose proof (attachAsync_inv (so_sess o)) as Hi. unfold Session_attachAsync in *.
    case_bool_decide as Hc; [apply acts_refl |]. destruct (ss_async (so_sess o)) eqn:Ha; [apply acts_refl |].
    apply acts_quiet; [| done]. apply (keeps_obj loc o); try done; [by intros [] | congruence].
  - destruct (Server_AsyncInitialize h s w) as [[[loc resp]|err] w'] eqn:E; [| done].
    apply Server_AsyncInitialize_object in E as (sess & s' & Ho). by eexists.
Qed.

(** The first message is Initialize. *)
Definition opens_sync (stream : S) : Prop := (ReadHeader stream).1.1.(h_Type) = Initialize.

(** A connection that is served has its session. *)
Definition serving_allocated (stream : S) (conn : connection S) w : Prop :=
  match conn with Serving sd loc => allocated loc w /\ (sd = SyncSide -> opens_sync stream) | _ => True end.

Lemma keeping_openConnection stream :
  keeping (fun _ => True) (p_openConnection stream) (serving_allocated stream).
Proof.
  assert (Hdone : forall f err s, keeps_counters f ->
    keeping (fun _ => True) (_ ← act (modify (wd_count f)); Ret (Refused err s)) (serving_allocated stream)).
  { intros f err s Hf. eapply keeping_bind; [by apply keeping_count |]. intros ?. by apply keeping_done. }
  unfold p_openConnection, serving_allocated, opens_sync in *.
  destruct (ReadHeader stream) as [[h [err|]] s]; [by apply keeping_done |]. cbn [fst snd] in *.
  destruct (bool_decide _) eqn:Et; [apply bool_decide_eq_true in Et | clear Et].
  { unfold p_openSyncChannel. apply (keeping_bind _ _ _ (fun _ _ => True)).
    { apply keeping_act; [done | done |]. intros w _ _. split; [apply acts_refl | done]. }
    intros cfg. destruct (readSubAddress _ _ _) as [[sub|err] s']; [| by apply keeping_done].
    eapply keeping_bind; [apply keeping_Initialize |]. intros [[loc resp]|err].
    - eapply keeping_bind; [apply keeping_first_write |]. intros [[err|] wr].
      + eapply keeping_bind; [| intros ?; by apply keeping_done].
        eapply keeping_pre; [| apply keeping_removeSession]. by intros w _ [_ ?].
      + intros w Hs [Hw Ha]. revert w Hs Ha. simpl in Hw.
        eapply keeping_bind; [apply keeping_count; [apply stable_allocated | auto with typed] |]. intros ?.
        eapply keeping_bind; [by apply keeping_install |]. intros ?. by apply keeping_ret; [apply stable_allocated |].
    - apply (keeping_bind _ _ _ (fun _ _ => True)); [| intros ?; auto with typed].
      destruct (errors_Is _ _); [apply keeping_count; [done | auto with typed] | by apply keeping_done]. }
  destruct (bool_decide _); [| auto with typed].
  unfold p_openAsyncChannel. eapply keeping_bind; [apply keeping_AsyncInitialize |].
  intros [[loc resp]|err]; [| auto with typed].
  eapply keeping_bind; [apply keeping_first_write |]. intros [[err|] wr]; [by apply keeping_done |].
  intros w Hs [Hw Ha]. revert w Hs Ha. simpl in Hw.
  eapply keeping_bind; [by apply keeping_install |]. intros ?. by apply keeping_ret; [apply stable_allocated |].
Qed.

(** *** The loops of a session *)

(** Nothing is asked of the payloads or of the instrument. *)
Local Instance any_Payloads : Payloads (fun _ => True).
Proof. by split. Qed.
Local Instance any_device : TypedDevice D (fun _ => True) (fun _ => True).
Proof. by split. Qed.
Definition any_state (me : SessionID) (st : HState S D) : Prop :=
  typed_state (fun _ => True) st /\ st.(hs_sess).(ss_id) = me.

(** The session at [loc], by its ID. *)
Definition identified (loc : nat) (me : SessionID) w : Prop :=
  exists o, w.(wd_heap) !! loc = Some o /\ o.(so_sess).(ss_id) = me.
Lemma stable_identified loc me : stable (identified loc me).
Proof. intros w w' He (o & Ho & <-). destruct (ex_obj _ _ He _ _ Ho) as (o' & Ho' & ? & _). by exists o'. Qed.

(** The state an action of a handler works on. *)
Definition state_at w (o : SessObj S) (q : bool) : HState S D :=
  MkHState w.(wd_srv) o.(so_sess) o.(so_syncS) o.(so_asyncS) w.(wd_cancelled) w.(wd_nextctx) q.

Lemma state_at_typed loc o q w :
  steady w -> w.(wd_heap) !! loc = Some o -> any_state o.(so_sess).(ss_id) (state_at w o q).
Proof.
  intros Hw Ho. destruct (sw_obj w Hw loc o Ho) as (_ & _ & _ & Ht).
  exact (conj (conj Ht (conj (sw_typed w Hw) I)) eq_refl).
Qed.

(** An action of a handler, in the world. *)
Lemma acts_on_session {A} loc q (m : M (HState S D) A) w me :
  steady w -> identified loc me w ->
  (forall st, any_state me st -> h_step (fun _ => True) (fun _ => True) st (m st).2) ->
  acts w (on_session loc q m w).2.
Proof.
  intros Hw (o & Ho & <-) Hm. unfold on_session, with_session. rewrite Ho. fold (state_at w o q).
  specialize (Hm _ (state_at_typed loc o q w Hw Ho)). set (st := state_at w o q) in *.
  destruct (m st) as [a st']. simpl in Hm |- *.
  assert (Hall : srv_step (eq (ss_id (so_sess o))) st.(hs_srv) st'.(hs_srv) /\
    sess_frame st.(hs_sess) st'.(hs_sess) /\ (typed_sess st.(hs_sess) -> typed_sess st'.(hs_sess))).
  { inversion Hm as [st1 st2 E1 E2 Hss Hvs Hdev | sd h b st1 Hg Hb]; subst.
    - exact (conj Hvs (conj (sp_frame _ _ Hss) (sp_typed _ _ Hss))).
    - rewrite write_keeps_srv. exact (conj (reflexivity _) (conj (write_frame _ _ _ _) (typed_write _ _ _ _))). }
  destruct Hall as (Hv & Hf & Ht). set (o' := MkObj (hs_sess st') (hs_syncS st') (hs_asyncS st')).
  split; [| intros _; eapply lock_move_mono; [| by apply vp_locks]; intros id <-; exists loc, o'; simpl;
    rewrite lookup_insert_eq; split; [done | by apply Hf]].
  apply (keeps_world_trans _ (wd_set_srv (hs_srv st') w)).
  { apply (keeps_srv (eq (ss_id (so_sess o)))); [| done]. intros id <-. by exists loc, o. }
  apply (keeps_world_trans _ (wd_set_heap (<[loc := o']> (wd_heap w)) (wd_set_srv (hs_srv st') w)));
    [by apply (keeps_frame loc o o' (wd_set_srv (hs_srv st') w)) | by apply keeps_same].
Qed.

Lemma keeping_identified {A} loc q me (p : prog (HState S D) A) (Q : A -> Prop) :
  within (fun _ => True) (fun _ => True) (any_state me) p Q ->
  keeping (identified loc me) (p_session loc q p) (fun r w => (exists a, r = Some a /\ Q a) /\ identified loc me w).
Proof.
  revert q. induction p as [a | C m k IH]; intros q Hp.
  { apply keeping_ret; [apply stable_identified |]. intros w Hw. split; [by exists a | done]. }
  intros w Hs Ha w' Hr. destruct (stable_rtc _ w w' (stable_identified loc me) Hs Hr Ha) as [Hs' Ha'].
  assert (Hk : acts w' (on_session loc q m w').2).
  { apply (acts_on_session loc q m w' me); [done | done |]. intros st Hst. by apply Hp. }
  split; [done |]. destruct (acts_keeps _ _ Hk Hs') as [Hs2 He].
  apply (stable_identified loc me _ _ He) in Ha' as Ha2. destruct Ha' as (o & Ho & Hid).
  unfold on_session, with_session in *. rewrite Ho in *. fold (state_at w' o q) in *.
  pose proof (state_at_typed loc o q w' Hs' Ho) as Hst. rewrite Hid in Hst.
  destruct (Hp _ Hst) as [_ Hpk]. destruct (m (state_at w' o q)) as [b st']. by apply IH.
Qed.

Lemma keeping_session {A} loc q (p : prog (HState S D) A) (Q : A -> Prop) :
  (forall me, within (fun _ => True) (fun _ => True) (any_state me) p Q) ->
  keeping (allocated loc) (p_session loc q p) (fun r w => (exists a, r = Some a /\ Q a) /\ allocated loc w).
Proof.
  intros Hp w Hs [o Ho]. eapply wp_mono;
    [| apply (keeping_identified loc q o.(so_sess).(ss_id) p Q (Hp _) w Hs); by exists o].
  intros a w' (Hs' & Ha & (o' & Ho' & _)). split_and!; [done | done | by exists o'].
Qed.

(** What a reader may hand over. *)
Definition readable (x : message * list wait_choice * bool) : Prop :=
  wf_header x.1.1.(msg_header) /\ wf_bytes x.1.1.(msg_payload).

(** Where the synchronous side returns, the session is gone; the asynchronous side
    always returns. *)
Lemma keeping_serve_session fuel ctx inputs sd loc :
  Forall readable inputs ->
  keeping (allocated loc) (p_serve_session fuel ctx inputs sd loc)
    (fun r w => (r = None -> sd = SyncSide) /\ (r <> None -> sd = SyncSide -> retired loc w)).
Proof.
  intros Hi.
  assert (HT : forall me (st : HState S D), any_state me st -> typed_state (fun _ => True) st) by (by intros me st []).
  assert (HM : forall me (st : HState S D), any_state me st -> ss_id (hs_sess st) = me) by (by intros me st []).
  assert (HW : forall me (st : HState S D) sd h b, any_state me st -> good_header sd h b -> True ->
    reportable (fun _ => True) (writer_Write sd h b st).1) by done.
  assert (Hin : Forall (fun x => typed_message (fun _ => True) x.1.1) inputs).
  { eapply Forall_impl; [exact Hi |]. intros x [H1 H2]. by split_and!. }
  apply (keeping_bind _ _ _ (fun r w => (exists a, r = Some a /\ (a = None -> sd = SyncSide)) /\ allocated loc w)).
  - apply keeping_session. intros me. destruct sd.
    + eapply within_mono; [| apply (within_runSync _ _ _ me (HT me) (HM me) (HW me)); apply Forall_map;
        eapply Forall_impl; [exact Hin |]; by intros [[]]]. done.
    + eapply within_mono; [| eapply within_returns; [apply (within_runAsync _ _ _ me (HT me) (HM me) (HW me));
        apply Forall_fmap; by eapply Forall_impl; [exact Hin |] | apply returns_runAsync]]. done.
  - intros r w Hs [(res & -> & Hres) Ha]. revert w Hs Ha. destruct res as [res|]; [| by apply keeping_done; auto].
    destruct sd; [| eapply (keeping_bind _ _ _ (fun _ _ => True)); by intros; apply keeping_done].
    eapply keeping_bind; [apply keeping_removeSession |]. intros ?. by apply keeping_ret; [apply stable_retired |].
Qed.

(** Only a connection that opens a synchronous channel may be without an end. *)
Lemma keeping_Serve fuel ctx stream inputs :
  Forall readable inputs ->
  keeping (fun _ => True) (p_Serve fuel ctx stream inputs) (fun r _ => r = None -> opens_sync stream).
Proof.
  intros Hi. eapply keeping_bind; [apply keeping_openConnection |].
  intros [sd loc | err s | err]; try by apply keeping_done.
  intros w Hs [Ha Ho]. eapply wp_mono; [| exact (keeping_serve_session fuel ctx inputs sd loc Hi w Hs Ha)].
  intros r w' (Hs' & Hn & _). auto.
Qed.

(** What runs beside one another: connections, calls of [CloseAll], and whoever
    cancels a context. *)
Inductive goroutine : WP unit -> Prop :=
| go_Serve fuel ctx stream inputs :
    Forall readable inputs -> goroutine (_ ← p_Serve fuel ctx stream inputs; Ret tt)
| go_CloseAll order : (forall l, order l ≡ₚ l) -> goroutine (_ ← p_CloseAll order; Ret tt)
| go_cancel c : goroutine (p_cancel c).

Lemma keeping_goroutine p : goroutine p -> keeping (fun _ => True) p (fun _ _ => True).
Proof.
  intros [fuel ctx stream inputs Hi | order Ho | c].
  - eapply keeping_bind; [by apply keeping_Serve | intros ?; by apply keeping_done].
  - eapply keeping_bind; [by apply keeping_CloseAll | intros ?; by apply keeping_done].
  - apply keeping_step; [done |]. intros w _ _. by apply acts_quiet; [apply keeps_same |].
Qed.

(** A pool whose programs keep to the guarantee. *)
Definition keeping_pool (c : list (WP unit) * World S D) : Prop :=
  pool_ok keeps_world acts (fun _ w => steady w /\ True) steady c.

Lemma pool_keeping c c' :
  rtc (pool_step goroutine) c c' -> keeping_pool c -> keeping_pool c' /\ extends c.2 c'.2.
Proof.
  intros Hr Hc. destruct (pool_wp goroutine keeps_world acts (fun _ w => steady w /\ True) steady acts_keeps
    steady_keeps (fun p w Hp Hw => keeping_goroutine p Hp w Hw I) c c' Hr Hc) as (Hc' & Hg).
  split; [done |]. by apply (keeps_world_rtc _ _ Hg), Hc.
Qed.

Lemma pool_acts c c' : pool_step goroutine c c' -> keeping_pool c -> acts c.2 c'.2.
Proof.
  intros Hs Hc. destruct (pool_step_wp goroutine keeps_world acts (fun _ w => steady w /\ True) steady acts_keeps
    steady_keeps (fun p w Hp Hw => keeping_goroutine p Hp w Hw I) c c' Hs Hc) as (_ & [-> | ?]); [apply acts_refl | done].
Qed.
End Keeping.

(** A configuration of values of their types. *)
Definition proper_config (c : Config) : Prop :=
  typed_config c /\ forall p, c.(cfg_Policy) = Some p -> wf_policy p.

Lemma typed_withDefaults c : typed_config c -> typed_config (Config_withDefaults c).
Proof.
  intros [C1 C2 C3 C4]. split; simpl; [destruct (bool_decide _) .. | done]; try done; by split.
Qed.

Lemma New_typed {D} (dev : option D) cfg s : New dev cfg = inr s -> proper_config cfg -> typed_srv s.
Proof.
  unfold New. intros Hn [Hc Hp]. destruct dev as [d|]; [| done]. destruct (Config_validate _); [done |].
  injection Hn as <-. split; simpl; try done.
  - by apply typed_withDefaults.
  - destruct (cfg_Policy cfg) as [p|]; [by apply Hp | done].
  - by repeat constructor.
Qed.

Lemma New_steady {S D} (dev : option D) cfg s :
  New dev cfg = inr s -> proper_config cfg -> steady (world_of (S := S) s).
Proof.
  intros Hn Hc. pose proof (New_typed dev cfg s Hn Hc) as Ht. destruct (New_world_inv (S := S) dev cfg s Hn).
  split; try done. intros id loc Hl. by destruct (wi_reg id loc Hl) as (_ & ?).
Qed.

(** What is reached from a new server. *)
Section Reach.
Context {S D : Type} `{Stream S} `{Device D} (dev : option D) (cfg : Config) (s : Server D).
Context (Hnew : New dev cfg = inr s) (Hcfg : proper_config cfg).
Implicit Types c : list (prog (World S D) unit) * World S D.

Lemma reach_keeping c :
  rtc (pool_step goroutine) ([], world_of s) c ->
  keeping_pool c /\ extends (world_of s) c.2 /\ c.2.(wd_srv).(srv_cfg) = Config_withDefaults cfg /\
  lock_moves (owner c.2) LockManager_zero c.2.(wd_srv).(srv_locks).
Proof.
  intros Hr. assert (Hk : keeping_pool ([] : list (prog (World S D) unit), world_of s))
    by (by split; [apply (New_steady dev cfg) |]).
  destruct (pool_keeping _ _ Hr Hk) as [Hk1 He]. refine (conj Hk1 (conj He _)).
  assert (E : srv_cfg s = Config_withDefaults cfg /\ srv_locks s = LockManager_zero).
  { revert Hnew. unfold New. destruct dev; [| done]. destruct (Config_validate _); [done |]. by intros [= <-]. }
  destruct E as [E1 E2]. split; [by rewrite (ex_cfg _ _ He) |]. rewrite <- E2. apply (ex_locks _ _ He).
Qed.
End Reach.

(** C7: Any number of goroutines keep a server in order. Start from a new server; let
    connections be accepted, calls of CloseAll begin and contexts be cancelled at any
    time, and let the actions of all these goroutines (critical sections, writes,
    calls of the instrument) interleave in any order. Then at every moment at most
    MaxSessions sessions are in the table; each of them is open and there under its
    own ID, which is between 1 and 65535, and no two entries name the same session;
    the lock manager's invariant and that of every session object hold, and every
    integer is within the width of its Go type. From one moment to a later one the
    configuration, the ID and the version of every session stay, a closed session
    stays closed, and a session that left the table does not return to it. *)
Theorem concurrent_worlds {S D} `{Stream S} `{Device D} (dev : option D) cfg s
    (c c' : list (prog (World S D) unit) * World S D) :
  New dev cfg = inr s -> proper_config cfg ->
  rtc (pool_step goroutine) ([], world_of s) c -> rtc (pool_step goroutine) c c' ->
  steady c'.2 /\ extends c.2 c'.2 /\
  Server_Sessions c'.2.(wd_srv) <= (Config_withDefaults cfg).(cfg_MaxSessions) /\
  (forall id1 id2 loc, Server_Session c'.2.(wd_srv) id1 = Some loc ->
     Server_Session c'.2.(wd_srv) id2 = Some loc -> id1 = id2).
Proof.
  intros Hn Hc Hr Hr'. destruct (reach_keeping dev cfg s Hn Hc c Hr) as (Hk & _).
  destruct (pool_keeping _ _ Hr' Hk) as [[Hs _] He].
  destruct (reach_keeping dev cfg s Hn Hc c') as (_ & _ & Ec & _); [by etrans |].
  refine (conj Hs (conj He (conj _ _))).
  - rewrite <- Ec. by apply sw_size.
  - intros id1 id2 loc H1 H2. destruct (sw_reg _ Hs _ _ H1) as (o & Ho & <- & _).
    destruct (sw_reg _ Hs _ _ H2) as (o' & Ho' & <- & _). congruence.
Qed.

(** C9: The lock manager of a running server implements the lock table, action by
    action. In any run of all goroutines of a server (connections being served,
    requests that wait and are woken, removals and shutdowns, in any order) every
    single action leaves the abstract lock table as it is or makes one request or
    release of the HiSLIP table on it, in the name of a session that was created by
    the server, open or removed; so a lock that is held is lost only by a release in
    the name of its holder. Every lock held is held under the ID of a session that was
    created, and the state the manager reports is that of the table. *)
Theorem concurrent_locks_refine_table {S D} `{Stream S} `{Device D} (dev : option D) cfg s
    (c c' : list (prog (World S D) unit) * World S D) :
  New dev cfg = inr s -> proper_config cfg ->
  rtc (pool_step goroutine) ([], world_of s) c -> pool_step goroutine c c' ->
  let m := Server_Locks c.2.(wd_srv) in
  let m' := Server_Locks c'.2.(wd_srv) in
  (lock_abs m' = lock_abs m \/
   exists o, owner c'.2 (op_session o) /\ lock_abs m' = (table_step (lock_abs m) o).2 /\
     forall id, Held m id = true -> Held m' id = false -> o = OpRelease id \/ o = OpReleaseAll id) /\
  (forall id, Held m' id = true -> owner c'.2 id) /\
  LockManager_State m' = match lock_abs m' with
                         | LUnlocked => Unlocked
                         | LExclusive _ => ExclusiveLocked
                         | LShared _ _ => SharedLocked
                         | LBoth _ _ _ => BothLocked
                         end.
Proof.
  intros Hn Hc Hr Hs. cbv zeta. destruct (reach_keeping dev cfg s Hn Hc c Hr) as (Hk & _).
  destruct (pool_acts _ _ Hs Hk) as [_ Hm]. destruct Hk as [Hw _]. destruct (Hm Hw) as (o & Ho & _ & Ha).
  destruct (Ha (tv_locks _ (sw_typed _ Hw))) as [_ E].
  destruct (reach_keeping dev cfg s Hn Hc c') as (_ & _ & _ & (ops' & _ & Hh & _)); [by eapply rtc_r |].
  split_and!; [| intros id Hid; by destruct (Hh id Hid) | apply stateLocked_abs].
  destruct o as [o|]; [right; exists o | by left]. split_and!; [by apply Ho | done |].
  intros id. unfold Server_Locks. rewrite !Held_abs, E. apply table_lets_go.
Qed.
