(* ===== verification/Ownership.v ===== *)
(** * Who removes a session

    Every session is created by one goroutine, the one that serves its synchronous
    channel, and that goroutine removes it before it returns. [tidy] says of a program
    that for every session object one of its actions creates, what is left of the
    program then answers for the session; it is proved of the goroutines of
    [Goroutines] beside [keeping] of [Worlds], which any number of others may rely on. *)

From S2P Require Import Prelude Interleave Errors Version Constants Stream Header Writer Locks LockWait Config.
From S2P Require Import Device Session Server Initialize Handler Reader Serve Programs Frame Types.
From S2P Require Import Guarantee Connect Goroutines Worlds.

Section Ownership.
Context {S D : Type} `{Stream S} `{Device D}.
Implicit Types w : World S D.
Local Abbreviation WP := (prog (World S D)).

(** [p] establishes [Q] however the other goroutines behave within their guarantee. *)
Definition establishes {A} (p : WP A) (Q : A -> World S D -> Prop) w : Prop :=
  wp keeps_world keeps_world p Q w.

Lemma keeping_establishes {A} P (p : WP A) (Q R : A -> World S D -> Prop) w :
  keeping P p Q -> (forall a w, steady w -> Q a w -> R a w) -> steady w -> P w -> establishes p R w.
Proof.
  intros Hp HR Hw HP. eapply wp_weaken; [exact acts_keeps |]. eapply wp_mono; [| by apply Hp].
  intros a w' []. auto.
Qed.

Fixpoint tidy {A} (C : nat -> A -> World S D -> Prop) (p : WP A) : Prop :=
  match p with
  | Ret _ => True
  | Act m k => forall w, steady w ->
      (forall loc, allocated loc (m w).2 -> ~ allocated loc w -> establishes (k (m w).1) (C loc) (m w).2) /\
      tidy C (k (m w).1)
  end.

(** An action that creates no object. *)
Definition creates_nothing {A} (m : M (World S D) A) : Prop :=
  forall w loc, allocated loc (m w).2 -> allocated loc w.

Lemma tidy_step {A B} C (m : M (World S D) A) (k : A -> WP B) :
  creates_nothing m -> (forall a, tidy C (k a)) -> tidy C (Act m k).
Proof. intros Hm Hk w Hw. split; [| apply Hk]. intros loc Ha Hn. by apply Hm in Ha. Qed.

Lemma tidy_bind {A B} C C' (p : WP A) (f : A -> WP B) :
  tidy C p -> (forall a, tidy C' (f a)) ->
  (forall loc a w, C loc a w -> establishes (f a) (C' loc) w) -> tidy C' (p ≫= f).
Proof.
  intros Hp Hf HC. induction p as [a | X m k IH]; [apply Hf |]. intros w Hw.
  destruct (Hp w Hw) as [Hnew Hk]. split; [| by apply IH].
  intros loc Ha Hn. apply wp_bind. eapply wp_mono; [| by apply Hnew]. intros a w'. apply HC.
Qed.

(** A program whose actions create nothing, whatever is asked. *)
Definition childless {A} (p : WP A) : Prop := forall C, tidy C p.

Lemma childless_ret {A} (a : A) : childless (Ret a).
Proof. by intros C. Qed.
Lemma childless_act {A} (m : M (World S D) A) : creates_nothing m -> childless (act m).
Proof. intros Hm C. by apply tidy_step. Qed.
Lemma childless_bind {A B} (p : WP A) (f : A -> WP B) :
  childless p -> (forall a, childless (f a)) -> childless (p ≫= f).
Proof.
  intros Hp Hf C. apply (tidy_bind (fun _ _ _ => False)); [apply Hp | intros a; apply Hf | done].
Qed.

(** *** Actions *)

Lemma creates_same {A} (m : M (World S D) A) : (forall w, (m w).2.(wd_heap) = w.(wd_heap)) -> creates_nothing m.
Proof. intros Hm w loc. unfold allocated. by rewrite Hm. Qed.

Lemma allocated_insert loc loc' o w :
  allocated loc w -> is_Some (<[loc := o]> w.(wd_heap) !! loc') -> allocated loc' w.
Proof.
  intros Hl. destruct (decide (loc' = loc)) as [-> |]; [done |]. by rewrite lookup_insert_ne.
Qed.

Lemma allocated_set_obj loc f loc' w : allocated loc' (wd_set_obj loc f w) -> allocated loc' w.
Proof.
  unfold wd_set_obj. destruct (wd_heap w !! loc) eqn:E; [| done]. unfold allocated at 1. simpl.
  apply allocated_insert. by eexists.
Qed.

Lemma creates_on_session {A} loc q (m : M (HState S D) A) : creates_nothing (on_session loc q m).
Proof.
  intros w loc'. unfold on_session, with_session. destruct (wd_heap w !! loc) as [o|] eqn:E; [| done].
  destruct (m _) as [a st]. unfold allocated at 1. simpl. apply allocated_insert. by eexists.
Qed.

Lemma creates_close loc : creates_nothing (close_session loc).
Proof.
  intros w loc'. destruct (wd_heap w !! loc) as [o|] eqn:E; [| by unfold close_session; rewrite E].
  destruct (close_session_spec loc w o E) as (e & s1 & s2 & can & -> & _). unfold allocated at 1. simpl.
  apply allocated_insert. by eexists.
Qed.

Lemma creates_first_write sd loc h : creates_nothing (first_write sd loc h).
Proof.
  intros w loc'. unfold first_write. destruct (wd_heap w !! loc) as [o|]; [| done].
  destruct sd, (so_asyncS o); try done; destruct (MessageWriter_Write _ _ _ _) as [[err wr] s'];
    apply allocated_set_obj.
Qed.

Lemma creates_AsyncInitialize h s : creates_nothing (Server_AsyncInitialize h s).
Proof.
  intros w loc'. unfold Server_AsyncInitialize. destruct (bool_decide _); [done |]. destruct (negb _); [done |].
  destruct (Server_Session _ _) as [loc|]; [| done]. destruct (wd_heap w !! loc) as [o|] eqn:E; [| done].
  destruct (Session_attachAsync _) as [[err|] sess]; [done |]. unfold allocated at 1. simpl.
  apply allocated_insert. by eexists.
Qed.

(** What is created by [Initialize] is the session it returns. *)
Lemma Initialize_creates h sub s w loc :
  allocated loc (Server_Initialize h sub s w).2 -> ~ allocated loc w ->
  exists resp, (Server_Initialize h sub s w).1 = inl (loc, resp).
Proof.
  intros Ha Hn. unfold Server_Initialize in *. destruct (bool_decide _); [done |].
  destruct (negb _); [done |]. destruct (negb _); [done |].
  destruct (DecodeInitializeParameter _) as [v f]. destruct (Version_Less _ _); [done |]. cbv zeta in *.
  unfold allocateSession in *. destruct (bool_decide _); [done |].
  destruct (allocateIDLocked _) as [[id|] sv]; [| done]. simpl in *. unfold allocated in Ha. simpl in Ha.
  destruct (decide (loc = wd_nextloc w)) as [-> |]; [by eexists |].
  by rewrite lookup_insert_ne in Ha.
Qed.

(** *** Programs *)

Lemma childless_session {A} loc q (p : prog (HState S D) A) : childless (p_session loc q p).
Proof.
  intros C. revert q. induction p as [a | X m k IH]; intros q; [done |]. apply tidy_step; [apply creates_on_session |].
  intros [[b q']|]; [apply IH | done].
Qed.

Lemma childless_count f : childless (act (modify (wd_count f))).
Proof. by apply childless_act, creates_same. Qed.

Lemma childless_removeSession loc : childless (p_removeSession loc).
Proof.
  apply childless_bind; [by apply childless_act, creates_same |]. intros ?.
  apply childless_bind; [by apply childless_act, creates_same |]. intros ?. apply childless_act, creates_close.
Qed.

Lemma childless_CloseAll order : childless (p_CloseAll order).
Proof.
  apply childless_bind; [by apply childless_act, creates_same |]. intros all. generalize (@None error).
  induction all as [|loc all IH]; intros e; [apply childless_ret |].
  apply childless_bind; [by apply childless_act, creates_same |]. intros ?.
  apply childless_bind; [apply childless_act, creates_close |]. intros ?. apply IH.
Qed.

Lemma childless_serve_session fuel ctx inputs sd loc : childless (p_serve_session fuel ctx inputs sd loc).
Proof.
  apply childless_bind; [apply childless_session |]. intros [[res|]|]; try apply childless_ret.
  apply childless_bind; [| intros ?; apply childless_ret].
  destruct sd; [apply childless_removeSession | apply childless_ret].
Qed.

(** How a connection leaves the session [loc] it has created: served on its synchronous
    channel, or gone. *)
Definition answers_for (loc : nat) (conn : connection S) w : Prop :=
  match conn with
  | Serving sd loc' => sd = SyncSide /\ loc' = loc /\ allocated loc w
  | _ => retired loc w
  end.

Definition p_open_session (loc : nat) (resp : Header) : WP (connection S) :=
  '(err, wr) ← act (first_write SyncSide loc resp);
  match err with
  | Some err => _ ← p_removeSession loc; Ret (Dropped err)
  | None =>
      _ ← act (modify (wd_count inc_SessionsOpened));
      _ ← act (install_writer SyncSide loc wr);
      Ret (Serving SyncSide loc)
  end.

Lemma keeping_open_session loc resp : keeping (allocated loc) (p_open_session loc resp) (answers_for loc).
Proof.
  eapply keeping_bind; [apply keeping_first_write |]. intros [[err|] wr].
  - eapply keeping_bind; [eapply keeping_pre; [| apply keeping_removeSession]; by intros w _ [_ ?] |].
    intros ?. apply keeping_ret; [apply stable_retired | done].
  - intros w Hs [Hw Ha]. revert w Hs Ha. simpl in Hw.
    eapply keeping_bind; [apply keeping_count; [apply stable_allocated | auto with typed] |]. intros ?.
    eapply keeping_bind; [by apply keeping_install |]. intros ?. by apply keeping_ret; [apply stable_allocated |].
Qed.

Lemma childless_install sd loc wr : childless (act (install_writer sd loc wr)).
Proof. apply childless_act. intros w loc'. apply allocated_set_obj. Qed.

Lemma childless_open_session loc resp : childless (p_open_session loc resp).
Proof.
  apply childless_bind; [apply childless_act, creates_first_write |]. intros [[err|] wr].
  - apply childless_bind; [apply childless_removeSession |]. intros ?. apply childless_ret.
  - apply childless_bind; [apply childless_count |]. intros ?.
    apply childless_bind; [apply childless_install |]. intros ?. apply childless_ret.
Qed.

Definition opened loc conn w : Prop := steady w /\ answers_for loc conn w.

Lemma childless_refused f err (s : S) : childless (_ ← act (modify (wd_count f)); Ret (Refused err s)).
Proof. apply childless_bind; [apply childless_count | intros ?; apply childless_ret]. Qed.

Lemma tidy_openSyncChannel stream h : tidy opened (p_openSyncChannel stream h).
Proof.
  apply tidy_step; [by apply creates_same |]. intros cfg. cbn -[readSubAddress].
  destruct (readSubAddress _ _ _) as [[sub|err] s]; [| done]. intros w Hw. split.
  - intros loc Ha Hn. destruct (Initialize_creates h sub s w loc Ha Hn) as [resp E].
    destruct (keeping_Initialize h sub s w Hw I w (rtc_refl _ _)) as [Hk _].
    cbn in E, Ha, Hk |- *. rewrite E.
    eapply keeping_establishes; [apply (keeping_open_session loc resp) | by split | by apply (acts_keeps _ _ Hk) | done].
  - destruct (Server_Initialize h sub s w) as [[[loc resp]|err] w']; [exact (childless_open_session loc resp opened) |].
    apply (childless_bind (if errors_Is err (Srv ErrMaxClients) then _ else _)); [| intros ?; apply childless_refused].
    destruct (errors_Is _ _); [apply childless_count | apply childless_ret].
Qed.

Lemma childless_openAsyncChannel stream h : childless (p_openAsyncChannel stream h).
Proof.
  apply childless_bind; [apply childless_act, creates_AsyncInitialize |]. intros [[loc resp]|err].
  - apply childless_bind; [apply childless_act, creates_first_write |]. intros [[err|] wr]; [apply childless_ret |].
    apply childless_bind; [apply childless_install | intros ?; apply childless_ret].
  - apply childless_refused.
Qed.

Lemma tidy_openConnection stream : tidy opened (p_openConnection stream).
Proof.
  unfold p_openConnection. destruct (ReadHeader stream) as [[h [err|]] s]; [done |].
  destruct (bool_decide _); [apply tidy_openSyncChannel |].
  destruct (bool_decide _); [apply childless_openAsyncChannel |].
  apply childless_refused.
Qed.

(** A call of [Serve] that returns has removed the session it created. *)
Definition removes (loc : nat) (r : option (option error)) w : Prop := r <> None -> unregistered loc w.

Lemma tidy_Serve fuel ctx stream inputs :
  Forall readable inputs -> tidy removes (p_Serve fuel ctx stream inputs).
Proof.
  intros Hi. apply (tidy_bind opened); [apply tidy_openConnection | |].
  - intros [sd loc | err s | err]; [apply childless_serve_session | done..].
  - intros loc [sd loc' | err s | err] w [Hs Ha].
    + destruct Ha as (-> & -> & Ha). eapply keeping_establishes;
        [by apply (keeping_serve_session fuel ctx inputs _ loc) | | done | exact Ha].
      intros r w' _ [_ Hr] Hn. by apply Hr.
    + intros w' Hr _. by destruct (stable_rtc _ _ _ (stable_retired loc) Hs Hr Ha) as [_ []].
    + intros w' Hr _. by destruct (stable_rtc _ _ _ (stable_retired loc) Hs Hr Ha) as [_ []].
Qed.
End Ownership.
