(* ===== verification/LateGrant.v ===== *)
(** * A lock for a session that is gone

    A request for a lock waits until the lock is free, its time is over, or the
    context of the server is done. Removing the session of the request is none of
    these: [removeSession] releases what the session holds at that moment, and the
    request of the asynchronous channel, still waiting, may be granted later. The
    asynchronous loop does not remove anything when it ends, so the lock stays. *)

From S2P Require Import Prelude Interleave Errors Version Constants MessageId Stream Header Codec.
From S2P Require Import WireErrors Writer Rmt Status Transaction Policy Locks LockWait Config.
From S2P Require Import Device TestDevice Session Server Initialize Handler Dispatch Data Clear.
From S2P Require Import Async Reader Serve Programs Frame Types Guarantee Connect Goroutines Worlds.

Local Abbreviation WP := (prog (World Canned TestDevice) unit).

(** A connection that begins with the header [h]. *)
Definition connects (h : Header) (inputs : list (message * list wait_choice * bool)) : WP :=
  _ ← p_Serve 1 [0%nat] (NewCanned (sent_bytes (MkSent h []))) inputs; Ret tt.

Definition lock_for (timeout : Z) : message := MkMessage (MkHeader AsyncLock lockRequest timeout 0) [] 0 None.

(** Two clients. The first takes the exclusive lock; the second is ready to wait ten
    seconds for it. Neither sends anything on its synchronous channel. *)
Definition two_clients : list WP :=
  [connects demo_initialize [];
   connects (demo_async_initialize 1) [(lock_for 0, [ChRun], false)];
   connects demo_initialize [];
   connects (demo_async_initialize 2) [(lock_for 10000, [ChRun; ChRun; ChWoken; ChRun], false)]].

(** The first client connects and gets the lock; the second connects, and its request
    waits. The second closes its synchronous channel, then the first does. The request
    wakes up. *)
Definition late_schedule : list nat :=
  replicate 5 0%nat ++ replicate 12 1%nat ++ replicate 5 2%nat ++ replicate 11 3%nat ++
  replicate 6 2%nat ++ replicate 6 0%nat ++ replicate 3 3%nat.

(** Who asks while another session has the lock has to wait. *)
Lemma TryRequest_taken m id other key :
  m.(lm_hasExclusive) = true -> m.(lm_exclusive) = other -> m.(lm_shared) = ∅ -> id <> other ->
  (TryRequest m id key).1 = LockFailure.
Proof.
  intros E1 E2 E3 Hne. unfold TryRequest, tryExclusiveLocked, trySharedLocked. rewrite E1, E2, E3.
  rewrite (bool_decide_eq_false_2 (other = id)), (bool_decide_eq_true_2 (other <> id)) by congruence.
  rewrite (bool_decide_eq_false_2 (id ∈ ∅)) by set_solver. by destruct (bool_decide (key = [])).
Qed.

(** What the schedule comes to. *)
Lemma late_run : exists c, rtc (pool_step goroutine) ([], demo_world 2) c /\
  c.1 = replicate 4 (Ret tt) /\ Server_Sessions c.2.(wd_srv) = 0 /\
  map_Forall (fun _ o => o.(so_sess).(ss_state) = StateClosed) c.2.(wd_heap) /\
  c.2.(wd_srv).(srv_locks).(lm_hasExclusive) = true /\ c.2.(wd_srv).(srv_locks).(lm_exclusive) = 2 /\
  c.2.(wd_srv).(srv_locks).(lm_shared) = ∅.
Proof.
  assert (Hg : Forall goroutine two_clients).
  { repeat (constructor; [constructor; by repeat constructor |]). constructor. }
  assert (Hrun : exists c, pool_run late_schedule (two_clients, demo_world 2) = Some c /\
    c.1 = replicate 4 (Ret tt) /\ Server_Sessions c.2.(wd_srv) = 0 /\
    bool_decide (map_Forall (fun _ o => o.(so_sess).(ss_state) = StateClosed) c.2.(wd_heap)) = true /\
    c.2.(wd_srv).(srv_locks).(lm_hasExclusive) = true /\ c.2.(wd_srv).(srv_locks).(lm_exclusive) = 2 /\
    c.2.(wd_srv).(srv_locks).(lm_shared) = ∅) by (vm_compute; eexists; by split_and!).
  destruct Hrun as (c & Hr & Hend & Hn & Hc & E). exists c. apply bool_decide_eq_true in Hc.
  refine (conj _ (conj Hend (conj Hn (conj Hc E)))).
  etrans; [by apply pool_start_all | by eapply pool_run_steps].
Qed.

(** C39: A session that has been removed can be granted a lock for good. Two clients
    connect, the first has the exclusive lock and the second waits for it; the second
    closes its synchronous channel and is removed, then the first one does and is
    removed, and the request that still waits is granted. In this run of a new server
    every goroutine has ended, no session is registered and every session object is
    closed, yet the lock is held under the ID of the second session, and a request by
    any other session, for any lock, fails. *)
Theorem removed_session_is_granted_a_lock :
  exists c, rtc (pool_step goroutine) ([], demo_world 2) c /\
  Forall (fun p => p = Ret tt) c.1 /\ Server_Sessions c.2.(wd_srv) = 0 /\
  map_Forall (fun _ o => o.(so_sess).(ss_state) = StateClosed) c.2.(wd_heap) /\
  Held (Server_Locks c.2.(wd_srv)) 2 = true /\
  (forall id key, id <> 2 -> (TryRequest (Server_Locks c.2.(wd_srv)) id key).1 = LockFailure).
Proof.
  destruct late_run as (c & Hr & Hend & Hn & Hc & E1 & E2 & E3). exists c. split_and!; try done.
  - rewrite Hend. by repeat constructor.
  - unfold Held, Server_Locks. by rewrite E1, E2.
  - intros id key. by apply TryRequest_taken.
Qed.

Lemma concurrent_worlds_witness :
  exists c, rtc (pool_step goroutine) ([], demo_world 2) c /\ steady c.2 /\
  Server_Sessions c.2.(wd_srv) <= (Config_withDefaults (demo_config 2)).(cfg_MaxSessions).
Proof.
  destruct late_run as (c & Hr & _). exists c. split; [exact Hr |].
  assert (Hn : New (Some (TestDevice_New [str "FLUKE,8846A"])) (demo_config 2) = inr (demo_server 2))
    by (vm_compute; reflexivity).
  assert (Hc : proper_config (demo_config 2)) by (split; [by repeat split | done]).
  destruct (concurrent_worlds _ _ _ c c Hn Hc Hr (rtc_refl _ _)) as (Hs & _ & Hz & _).
  exact (conj Hs Hz).
Defined.

(** The action by which the waiting request is granted. *)
Lemma concurrent_locks_refine_table_witness :
  exists c c' o, rtc (pool_step goroutine) ([], demo_world 2) c /\ pool_step goroutine c c' /\
  lock_abs (Server_Locks c.2.(wd_srv)) = LUnlocked /\ owner c'.2 (op_session o) /\
  LExclusive 2 = (table_step LUnlocked o).2.
Proof.
  assert (Hg : Forall goroutine two_clients).
  { repeat (constructor; [constructor; by repeat constructor |]). constructor. }
  assert (Hrun : (fun c : list WP * _ => (lock_abs c.2.(wd_srv).(srv_locks),
      (fun c : list WP * _ => lock_abs c.2.(wd_srv).(srv_locks)) <$> pool_run [3%nat] c))
    <$> pool_run (take 46 late_schedule) (two_clients, demo_world 2) = Some (LUnlocked, Some (LExclusive 2)))
    by (vm_compute; reflexivity).
  apply fmap_Some in Hrun as (c & Er & E). injection E as El E. symmetry in E.
  apply fmap_Some in E as (c' & Ec & El').
  assert (Hr : rtc (pool_step goroutine) ([], demo_world 2) c)
    by (etrans; [by apply pool_start_all | by eapply pool_run_steps]).
  assert (Hs : pool_step goroutine c c') by (by apply (pool_run_step goroutine 3)).
  assert (Hn : New (Some (TestDevice_New [str "FLUKE,8846A"])) (demo_config 2) = inr (demo_server 2))
    by (vm_compute; reflexivity).
  assert (Hc : proper_config (demo_config 2)) by (split; [by repeat split | done]).
  destruct (concurrent_locks_refine_table _ _ _ c c' Hn Hc Hr Hs) as ([E | (o & Ho & Et & _)] & _).
  - unfold Server_Locks in E. congruence.
  - exists c, c', o. unfold Server_Locks in *. rewrite <- El, <- El' in Et. exact (conj Hr (conj Hs (conj (eq_sym El) (conj Ho Et)))).
Defined.
