(* ===== verification/Listener.v ===== *)
(** * The listener

    [src/listen.go]: [Listener] accepts connections, runs [server.Serve] for each in a
    goroutine of its own, and shuts down. Its operations are cut at the granularity of
    the critical sections and calls: what the accept loop, the goroutine of a
    connection, the goroutine that waits for the context and other callers of [Close]
    do next, on a state they share. Two calls are only begun and ended here,
    [server.Serve] of a connection and [CloseAll] of a [Close]: they are the programs
    of [Goroutines], which [System] runs beside these operations.

    The listening socket and the connections are of the [net] package: a socket that is
    closed accepts nothing more. *)

From S2P Require Import Prelude Errors Version Constants MessageId Stream Header Codec.
From S2P Require Import WireErrors Writer Rmt Status Transaction Policy Locks LockWait Config.
From S2P Require Import GoStrings Device TestDevice Session Server Initialize Handler Dispatch Data.
From S2P Require Import Clear Async Reader Serve Frame Connect.

(** ** Data *)

(** [Listener]; connections are numbered, and a callback is what it writes to the log. *)
Record Listener : Type := MkListener {
  l_closed : bool;
  l_conns : gset nat;
  l_onError : option (error -> option bytes);
}.

(** [Listen(addr, srv)]. [net_Listen] is [net.Listen] on TCP: the error of binding. *)
Definition Listen {D} (net_Listen : bytes -> option error) (addr : bytes) (srv : option (Server D))
  : error + Listener * Server D :=
  match srv with
  | None => inl (Foreign (str "hislip: nil server") [])
  | Some srv =>
      let addr := if bool_decide (addr = []) then str ":" ++ Itoa DefaultPort else addr in
      match net_Listen addr with
      | Some err => inl err
      | None => inr (MkListener false ∅ None, srv)
      end
  end.

Definition OnError (f : option (error -> option bytes)) (l : Listener) : Listener :=
  MkListener l.(l_closed) l.(l_conns) f.

Definition track (conn : nat) (l : Listener) : Listener :=
  MkListener l.(l_closed) ({[conn]} ∪ l.(l_conns)) l.(l_onError).

Definition untrack (conn : nat) (l : Listener) : Listener :=
  MkListener l.(l_closed) (l.(l_conns) ∖ {[conn]}) l.(l_onError).

(** What [report] writes to the log. *)
Definition report (err : error) (l : Listener) : list bytes :=
  match l.(l_onError) with
  | Some f => match f err with Some line => [line] | None => [] end
  | None => []
  end.

(** The critical section of [Close]: [None] if it had been closed before, or the
    connections to close. *)
Definition Close_begin (l : Listener) : option (list nat) * Listener :=
  if l.(l_closed) then (None, l)
  else (Some (elements l.(l_conns)), MkListener true l.(l_conns) l.(l_onError)).

(** ** The goroutines *)

(** The loop of [Serve]: in [Accept]; with a connection to track; with one to start a
    goroutine for; with an error of [Accept]; in [wg.Wait]; returned. *)
Inductive accept_phase : Type :=
| SAccept
| SGot (conn : nat)
| STracked (conn : nat)
| SFailed (err : error)
| SWait
| SReturned (err : option error).

(** A call of [Close]: not running; the socket to close, then the connections, then
    the sessions; returned. *)
Inductive close_phase : Type :=
| KIdle
| KSocket (conns : list nat)
| KConns (conns : list nat)
| KSessions
| KReturned.

#[export] Instance close_phase_eq_dec : EqDecision close_phase.
Proof. solve_decision. Defined.

(** The goroutine of a connection: in [server.Serve]; to report an error; to untrack. *)
Inductive conn_phase : Type :=
| HServing
| HReporting (err : error)
| HUntracking.

(** [Close] is called by the goroutine that waits for the context, and by others. *)
Inductive caller : Type := Watcher | User.
#[export] Instance caller_eq_dec : EqDecision caller.
Proof. solve_decision. Defined.

(** [ls_open] is whether the socket is open and [ls_shut] are the connections closed;
    [ls_goroutines] are the goroutines [wg] counts. [ls_seen] and [ls_late] are
    histories: the connections accepted, and those tracked after [closed] was set. *)
Record LState (S D : Type) : Type := MkLState {
  ls_l : Listener;
  ls_open : bool;
  ls_cancelled : bool;
  ls_accept : accept_phase;
  ls_closers : caller -> close_phase;
  ls_goroutines : gmap nat conn_phase;
  ls_shut : gset nat;
  ls_log : list bytes;
  ls_world : World S D;
  ls_seen : gset nat;
  ls_late : gset nat;
}.
Arguments MkLState {S D}.
Arguments ls_l {S D}.
Arguments ls_open {S D}.
Arguments ls_cancelled {S D}.
Arguments ls_accept {S D}.
Arguments ls_closers {S D}.
Arguments ls_goroutines {S D}.
Arguments ls_shut {S D}.
Arguments ls_log {S D}.
Arguments ls_world {S D}.
Arguments ls_seen {S D}.
Arguments ls_late {S D}.

(** Take a state apart, with the equations of its phases in [simpl] form. *)
Ltac open_state st := destruct st as [[lc lcs lo] o ca a k g sh lg wld se la]; simpl in *.

Section Listener.
Context {S D : Type} `{Stream S} `{Device D}.
Implicit Types st : LState S D.

Definition upd_l (f : Listener -> Listener) st : LState S D :=
  let 'MkLState l o c a k g sh lg w se la := st in MkLState (f l) o c a k g sh lg w se la.
Definition upd_open (b : bool) st : LState S D :=
  let 'MkLState l o c a k g sh lg w se la := st in MkLState l b c a k g sh lg w se la.
Definition upd_accept (p : accept_phase) st : LState S D :=
  let 'MkLState l o c a k g sh lg w se la := st in MkLState l o c p k g sh lg w se la.
Definition upd_closer (x : caller) (p : close_phase) st : LState S D :=
  let 'MkLState l o c a k g sh lg w se la := st in
  MkLState l o c a (fun y => if decide (y = x) then p else k y) g sh lg w se la.
Definition upd_go (f : gmap nat conn_phase -> gmap nat conn_phase) st : LState S D :=
  let 'MkLState l o c a k g sh lg w se la := st in MkLState l o c a k (f g) sh lg w se la.
Definition upd_shut (x : nat) st : LState S D :=
  let 'MkLState l o c a k g sh lg w se la := st in MkLState l o c a k g ({[x]} ∪ sh) lg w se la.
Definition upd_log (ls : list bytes) st : LState S D :=
  let 'MkLState l o c a k g sh lg w se la := st in MkLState l o c a k g sh (lg ++ ls) w se la.
Definition upd_world (w' : World S D) st : LState S D :=
  let 'MkLState l o c a k g sh lg w se la := st in MkLState l o c a k g sh lg w' se la.
Definition upd_cancelled st : LState S D :=
  let 'MkLState l o c a k g sh lg w se la := st in MkLState l o true a k g sh lg w se la.
Definition upd_seen (x : nat) st : LState S D :=
  let 'MkLState l o c a k g sh lg w se la := st in MkLState l o c a k g sh lg w ({[x]} ∪ se) la.
Definition upd_late (x : nat) st : LState S D :=
  let 'MkLState l o c a k g sh lg w se la := st in MkLState l o c a k g sh lg w se ({[x]} ∪ la).

(** [Serve(ctx)] has just been called on a listener over a fresh server. *)
Definition serving (l : Listener) (w : World S D) : LState S D :=
  MkLState l true false SAccept (fun _ => KIdle) ∅ ∅ [] w ∅ ∅.

(** ** The accept loop *)

(** [Accept] returns a new connection. *)
Definition Serve_accept (conn : nat) st : option (LState S D) :=
  match st.(ls_accept) with
  | SAccept =>
      if st.(ls_open) && bool_decide (conn ∉ st.(ls_seen))
      then Some (upd_seen conn (upd_accept (SGot conn) st)) else None
  | _ => None
  end.

(** [Accept] fails: the socket is closed, or the network says so. *)
Definition Serve_accept_fails (err : error) st : option (LState S D) :=
  match st.(ls_accept) with
  | SAccept => Some (upd_accept (SFailed err) st)
  | _ => None
  end.

(** What follows in the loop, up to the next call that can block. *)
Definition Serve_next st : option (LState S D) :=
  match st.(ls_accept) with
  | SGot conn =>
      let st := if st.(ls_l).(l_closed) then upd_late conn st else st in
      Some (upd_accept (STracked conn) (upd_l (track conn) st))
  | STracked conn => Some (upd_accept SAccept (upd_go (<[conn := HServing]>) st))
  | SFailed err =>
      Some (upd_accept (if st.(ls_l).(l_closed) || st.(ls_cancelled) then SWait
                        else SReturned (Some err)) st)
  | SWait => if bool_decide (size st.(ls_goroutines) = O)
             then Some (upd_accept (SReturned None) st) else None
  | SAccept | SReturned _ => None
  end.

(** ** The goroutine of a connection *)

(** [server.Serve] returns. *)
Definition conn_returns (conn : nat) (err : option error) st : option (LState S D) :=
  match st.(ls_goroutines) !! conn with
  | Some HServing =>
      Some (upd_go (<[conn := match err with Some e => HReporting e | None => HUntracking end]>) st)
  | _ => None
  end.

Definition conn_next (conn : nat) st : option (LState S D) :=
  match st.(ls_goroutines) !! conn with
  | Some (HReporting err) =>
      Some (upd_go (<[conn := HUntracking]>) (upd_log (report err st.(ls_l)) st))
  | Some HUntracking => Some (upd_go (delete conn) (upd_l (untrack conn) st))
  | _ => None
  end.

(** ** [Close] *)

(** The watcher calls it when the context is done. *)
Definition Close_call (x : caller) st : option (LState S D) :=
  let can := match x with
             | Watcher => st.(ls_cancelled) && match st.(ls_closers) x with KIdle => true | _ => false end
             | User => match st.(ls_closers) x with KIdle | KReturned => true | _ => false end
             end in
  if negb can then None
  else let (snap, l) := Close_begin st.(ls_l) in
       Some (upd_closer x (match snap with None => KReturned | Some cs => KSocket cs end)
               (upd_l (fun _ => l) st)).

(** The rest of the call: the socket, then the connections. *)
Definition Close_next (x : caller) st : option (LState S D) :=
  match st.(ls_closers) x with
  | KSocket cs => Some (upd_closer x (KConns cs) (upd_open false st))
  | KConns (c :: cs) => Some (upd_closer x (KConns cs) (upd_shut c st))
  | KConns [] => Some (upd_closer x KSessions st)
  | KIdle | KSessions | KReturned => None
  end.

(** [CloseAll] has returned. *)
Definition Close_end (x : caller) st : option (LState S D) :=
  match st.(ls_closers) x with
  | KSessions => Some (upd_closer x KReturned st)
  | _ => None
  end.

(** ** Steps *)

(** The steps of the listener's own code: they happen if they can. *)
Inductive internal_step : LState S D -> LState S D -> Prop :=
| in_accept_closed st err st' :
    st.(ls_open) = false -> Serve_accept_fails err st = Some st' -> internal_step st st'
| in_serve st st' : Serve_next st = Some st' -> internal_step st st'
| in_conn st c st' : conn_next c st = Some st' -> internal_step st st'
| in_watcher st st' : Close_call Watcher st = Some st' -> internal_step st st'
| in_close st x st' : Close_next x st = Some st' -> internal_step st st'
| in_close_end st x st' : Close_end x st = Some st' -> internal_step st st'.

(** ** The invariant *)

(** A connection a running [Close] has still to close. *)
Definition to_close (k : caller -> close_phase) (c : nat) : Prop :=
  exists x cs, (k x = KSocket cs \/ k x = KConns cs) /\ c ∈ cs.

(** The connection the accept loop holds and has not started a goroutine for. *)
Definition in_hand (p : accept_phase) (c : nat) : Prop := p = SGot c \/ p = STracked c.

(** A call of [Close] that is doing the work, and one that is past the socket. *)
Definition is_active (k : close_phase) : bool :=
  match k with KIdle | KReturned => false | _ => true end.
Definition past_socket (k : close_phase) : bool :=
  match k with KConns _ | KSessions => true | _ => false end.

Record listener_inv st : Prop := {
  (** the tracked connections are those of the goroutines and the one tracked last *)
  li_conns : forall c, c ∈ st.(ls_l).(l_conns) <->
    is_Some (st.(ls_goroutines) !! c) \/ st.(ls_accept) = STracked c;
  li_seen : forall c, c ∈ st.(ls_l).(l_conns) \/ in_hand st.(ls_accept) c -> c ∈ st.(ls_seen);
  li_fresh : forall c, in_hand st.(ls_accept) c -> st.(ls_goroutines) !! c = None;
  (** before the first [Close] *)
  li_before : st.(ls_l).(l_closed) = false ->
    st.(ls_open) = true /\ st.(ls_late) = ∅ /\ forall x, st.(ls_closers) x = KIdle;
  (** after it began, a tracked connection is closed, about to be, or late *)
  li_covered : st.(ls_l).(l_closed) = true -> forall c, c ∈ st.(ls_l).(l_conns) ->
    c ∈ st.(ls_shut) \/ c ∈ st.(ls_late) \/ to_close st.(ls_closers) c;
  li_socket : st.(ls_open) = true -> st.(ls_l).(l_closed) = true ->
    exists x cs, st.(ls_closers) x = KSocket cs;
  (** one call of [Close] does the work *)
  li_single : forall x y, is_active (st.(ls_closers) x) = true ->
    is_active (st.(ls_closers) y) = true -> x = y;
  li_past : forall x, past_socket (st.(ls_closers) x) = true -> st.(ls_open) = false;
  li_wait : st.(ls_accept) = SWait -> st.(ls_l).(l_closed) || st.(ls_cancelled) = true;
  li_done : st.(ls_accept) = SReturned None ->
    st.(ls_goroutines) = ∅ /\ st.(ls_l).(l_closed) || st.(ls_cancelled) = true;
}.

Lemma listener_inv_serving l w :
  l.(l_closed) = false -> l.(l_conns) = ∅ -> listener_inv (serving l w).
Proof.
  intros Hc He. split; simpl; rewrite ?He, ?Hc; try done.
  - intros c. rewrite lookup_empty. split; [set_solver |]. by intros [[? ?] | ?].
  - intros c [? | [? | ?]]; [set_solver | done..].
Qed.

Lemma inv_accept c st st' : Serve_accept c st = Some st' -> listener_inv st -> listener_inv st'.
Proof.
  intros E [C Se F B Co So Si Pa W Dn]. unfold Serve_accept in E. open_state st.
  destruct a; try done. destruct o; [| done]. simpl in E. case_bool_decide as Hn; simplify_eq/=.
  assert (Hg : g !! c = None).
  { apply eq_None_not_Some. intros Hs. apply Hn, Se. left. apply C. by left. }
  split; simpl; try done; unfold in_hand in *.
  - intros c'. rewrite C. naive_solver.
  - set_solver.
  - naive_solver.
Qed.

Lemma inv_accept_fails err st st' :
  Serve_accept_fails err st = Some st' -> listener_inv st -> listener_inv st'.
Proof.
  intros E [C Se F B Co So Si Pa W Dn]. unfold Serve_accept_fails in E. open_state st.
  destruct a; simplify_eq/=. split; simpl; try done; unfold in_hand in *; naive_solver.
Qed.

Lemma inv_serve st st' : Serve_next st = Some st' -> listener_inv st -> listener_inv st'.
Proof.
  intros E [C Se F B Co So Si Pa W Dn]. unfold Serve_next in E. open_state st.
  destruct a as [|c|c|err| |]; try done; simplify_eq/=.
  - assert (Hg : g !! c = None) by (apply F; by left).
    assert (Hs : c ∈ se) by (apply Se; by right; left).
    set (la' := if lc then {[c]} ∪ la else la).
    replace (upd_accept _ _) with (MkLState (MkListener lc ({[c]} ∪ lcs) lo) o ca (STracked c) k g
      sh lg wld se la') by (by destruct lc).
    split; simpl; try done.
    + intros c'. rewrite elem_of_union, elem_of_singleton, C. naive_solver.
    + intros c'. rewrite elem_of_union, elem_of_singleton. intros [[-> | ?] | [| [= ->]]]; auto; done.
    + by intros c' [| [= ->]].
    + intros ->. by apply B.
    + subst la'. intros -> c'. rewrite elem_of_union, elem_of_singleton, elem_of_union, elem_of_singleton.
      intros [-> | Hc']; [auto |]. destruct (Co eq_refl c' Hc') as [|[|]]; auto.
  - split; simpl; try done.
    + intros c'. rewrite C. destruct (decide (c' = c)) as [-> | Hne].
      * rewrite lookup_insert_eq. split; intros _; [by left | by right].
      * rewrite lookup_insert_ne by done. split; intros [|]; auto; congruence.
    + intros c' [| []]; auto; done.
    + by intros c' [].
  - assert (Hp : forall c, ~ in_hand (if lc || ca then SWait else SReturned (Some err)) c)
      by (intros c []; by destruct (lc || ca)).
    split; simpl; try done.
    + intros c. rewrite C. split; intros [|E]; auto; by destruct (lc || ca).
    + intros c [| Hh]; [auto | by apply Hp in Hh].
    + intros c Hh. by apply Hp in Hh.
    + by destruct (lc || ca).
    + by destruct (lc || ca).
  - case_bool_decide as Hz; simplify_eq/=. apply map_size_empty_inv in Hz as ->.
    split; simpl; try done; auto.
    + intros c. rewrite C. split; intros [|]; auto; congruence.
    + intros c [| []]; auto; done.
Qed.

Lemma inv_conn_returns c err st st' :
  conn_returns c err st = Some st' -> listener_inv st -> listener_inv st'.
Proof.
  intros E [C Se F B Co So Si Pa W Dn]. unfold conn_returns in E. open_state st.
  destruct (g !! c) as [[]|] eqn:Eg; simplify_eq/=. split; simpl; try done.
  - intros c'. rewrite C. destruct (decide (c' = c)) as [-> | Hne].
    + rewrite lookup_insert_eq, Eg. split; intros _; by left.
    + by rewrite lookup_insert_ne.
  - intros c' Hh. rewrite lookup_insert_ne; [auto |]. intros ->. rewrite F in Eg; done.
  - intros Ea. destruct (Dn Ea) as [-> _]. by rewrite lookup_empty in Eg.
Qed.

Lemma inv_conn c st st' : conn_next c st = Some st' -> listener_inv st -> listener_inv st'.
Proof.
  intros E [C Se F B Co So Si Pa W Dn]. unfold conn_next in E. open_state st.
  destruct (g !! c) as [[|err|]|] eqn:Eg; simplify_eq/=.
  - split; simpl; try done.
    + intros c'. rewrite C. destruct (decide (c' = c)) as [-> | Hne].
      * rewrite lookup_insert_eq, Eg. split; intros _; by left.
      * by rewrite lookup_insert_ne.
    + intros c' Hh. rewrite lookup_insert_ne; [auto |]. intros ->. rewrite F in Eg; done.
    + intros Ea. destruct (Dn Ea) as [-> _]. by rewrite lookup_empty in Eg.
  - assert (Ha : a <> STracked c) by (intros ->; rewrite F in Eg; [done | by right]).
    split; simpl; try done.
    + intros c'. rewrite elem_of_difference, elem_of_singleton, C.
      destruct (decide (c' = c)) as [-> | Hne].
      * rewrite lookup_delete_eq. split; [by intros [_ []] | intros [[]|]; done].
      * rewrite lookup_delete_ne by done. tauto.
    + intros c' [[Hc' _]%elem_of_difference |]; auto.
    + intros c' Hh. rewrite lookup_delete_None. auto.
    + intros Hl c' [Hc' _]%elem_of_difference. auto.
    + intros Ea. destruct (Dn Ea) as [-> ?]. by rewrite delete_empty.
Qed.

(** The connections to close after a closer has moved: what it had to close it still
    has to, or has closed. *)
Lemma to_close_moves k x p c (Q : Prop) :
  (forall cs, k x = KSocket cs \/ k x = KConns cs -> c ∈ cs ->
     Q \/ exists cs', (p = KSocket cs' \/ p = KConns cs') /\ c ∈ cs') ->
  to_close k c -> Q \/ to_close (fun z => if decide (z = x) then p else k z) c.
Proof.
  intros Hx (y & cs & Hy & Hc). destruct (decide (y = x)) as [-> | Hne].
  - destruct (Hx cs Hy Hc) as [|(cs' & Hp & Hc')]; [by left | right].
    exists x, cs'. by rewrite decide_True.
  - right. exists y, cs. by rewrite decide_False.
Qed.

Lemma inv_close_call x st st' : Close_call x st = Some st' -> listener_inv st -> listener_inv st'.
Proof.
  intros E [C Se F B Co So Si Pa W Dn]. unfold Close_call, Close_begin in E. open_state st.
  match type of E with (if negb ?b then _ else _) = _ => destruct b eqn:Hcan; [| done] end.
  simpl in E. destruct lc; simplify_eq/=.
  - assert (Hx : forall cs, k x <> KSocket cs /\ k x <> KConns cs).
    { intros cs. destruct x, (k _), ca; done. }
    split; simpl; try done.
    + intros _ c Hc. destruct (Co eq_refl c Hc) as [| [|(y & cs & Hy & Hin)]]; auto.
      right; right. exists y, cs. rewrite decide_False; [done |]. intros ->.
      destruct (Hx cs). by destruct Hy.
    + intros Ho _. destruct (So Ho eq_refl) as (y & cs & Hy). exists y, cs.
      rewrite decide_False; [done |]. intros ->. by destruct (Hx cs).
    + intros y z. repeat case_decide; try done; auto.
    + intros y. case_decide; [done | apply Pa].
  - split; simpl; try done.
    + intros _ c Hc. right; right. exists x, (elements lcs). rewrite decide_True by done.
      split; [by left | by apply elem_of_elements].
    + intros _ _. exists x, (elements lcs). by rewrite decide_True.
    + intros y z. destruct (B eq_refl) as (_ & _ & Hk). rewrite !Hk.
      repeat case_decide; try done. by subst.
    + intros y. destruct (B eq_refl) as (_ & _ & Hk). rewrite !Hk. by case_decide.
    + intros Ea. by destruct (Dn Ea) as [-> _].
Qed.

Lemma inv_close_step x st st' :
  Close_next x st = Some st' \/ Close_end x st = Some st' -> listener_inv st -> listener_inv st'.
Proof.
  intros E [C Se F B Co So Si Pa W Dn]. unfold Close_next, Close_end in E. open_state st.
  assert (Hlc : lc = true).
  { destruct lc; [done |]. destruct (B eq_refl) as (_ & _ & Hk). rewrite Hk in E. by destruct E. }
  subst lc.
  assert (Hact : forall y, is_active (k y) = true -> is_active (k x) = true) by
    (intros y Hy; destruct (k x) eqn:Ek; try done; by destruct E).
  assert (Hone : forall p y z, is_active (if decide (y = x) then p else k y) = true ->
    is_active (if decide (z = x) then p else k z) = true -> y = z).
  { intros p. assert (Hu : forall u, is_active (if decide (u = x) then p else k u) = true -> u = x).
    { intros u. case_decide; [done |]. intros Hu. apply Si; eauto. }
    intros y z Hy%Hu Hz%Hu. congruence. }
  destruct (k x) as [|cs|[|c cs]| |] eqn:Ek; destruct E; simplify_eq/=; split; simpl; try done; try apply Hone.
  all: try (intros y; case_decide; [done | auto]; fail).
  all: try (intros y; case_decide; [intros _; apply (Pa x); by rewrite Ek | apply Pa]; fail).
  all: try (intros Ho _; destruct (So Ho eq_refl) as (y & cs' & Hy); exists y, cs';
    rewrite decide_False; [done | by intros ->; congruence]).
  all: intros _ c' Hc'; destruct (Co eq_refl c' Hc') as [Hs | [Hl | Ht]];
    [left; rewrite ?elem_of_union; auto | auto |].
  all: match goal with |- ?Q \/ _ \/ to_close (fun z => if _ then ?p else _) _ =>
    destruct (to_close_moves k x p c' Q) as [|]; auto end.
  all: intros cs' [Hk | Hk] Hin; rewrite Ek in Hk; simplify_eq.
  - right. eauto.
  - by apply not_elem_of_nil in Hin.
  - rewrite elem_of_union, elem_of_singleton. apply elem_of_cons in Hin as [-> | Hin]; [by left; left |].
    right. eauto.
Qed.

Lemma inv_cancelled st : listener_inv st -> listener_inv (upd_cancelled st).
Proof.
  intros [C Se F B Co So Si Pa W Dn]. open_state st. split; simpl; try done; rewrite ?orb_true_r; naive_solver.
Qed.

(** ** Shutting down takes finitely many steps *)

Definition accept_rank (p : accept_phase) : nat :=
  match p with
  | SGot _ => 9 | STracked _ => 8 | SAccept => 3 | SFailed _ => 2 | SWait => 1 | SReturned _ => 0
  end.
Definition conn_rank (h : conn_phase) : nat :=
  match h with HServing => 3 | HReporting _ => 2 | HUntracking => 1 end.
Definition close_rank (k : close_phase) : nat :=
  match k with
  | KSocket cs => 4 + length cs | KConns cs => 2 + length cs | KSessions => 1 | KIdle => 1
  | KReturned => 0
  end.
Definition total (g : gmap nat conn_phase) : nat := map_fold (fun _ h n => conn_rank h + n)%nat O g.

Definition measure st : nat :=
  (accept_rank st.(ls_accept) + total st.(ls_goroutines)
   + close_rank (st.(ls_closers) Watcher) + close_rank (st.(ls_closers) User))%nat.

Lemma total_delete g c h :
  g !! c = Some h -> total g = (conn_rank h + total (delete c g))%nat.
Proof. intros Hg. unfold total. rewrite (map_fold_delete_L _ _ c h g); [done | lia | done]. Qed.

Lemma total_insert g c h : total (<[c := h]> g) = (conn_rank h + total (delete c g))%nat.
Proof.
  rewrite (total_delete (<[c := h]> g) c h) by apply lookup_insert_eq. by rewrite delete_insert_eq.
Qed.

Lemma total_delete_le g c : (total (delete c g) <= total g)%nat.
Proof.
  destruct (g !! c) as [h|] eqn:E; [rewrite (total_delete g c h E); lia |].
  by rewrite delete_id.
Qed.

Lemma close_rank_moves (k : caller -> close_phase) x p :
  (close_rank p < close_rank (k x))%nat ->
  (close_rank (if decide (Watcher = x) then p else k Watcher)
   + close_rank (if decide (User = x) then p else k User)
   < close_rank (k Watcher) + close_rank (k User))%nat.
Proof. destruct x; simpl; lia. Qed.

Lemma internal_closed st st' :
  internal_step st st' -> st.(ls_l).(l_closed) = true -> st'.(ls_l).(l_closed) = true.
Proof.
  intros Hs. destruct Hs as [st err st' _ E | st st' E | st c st' E | st st' E | st x st' E | st x st' E];
    open_state st; intros ->; try done;
    unfold Serve_accept_fails, Serve_next, conn_next, Close_call, Close_next, Close_end in E;
    simpl in E; repeat case_match; by simplify_eq/=.
Qed.

Lemma conn_returns_decreases c err st st' : conn_returns c err st = Some st' -> (measure st' < measure st)%nat.
Proof.
  unfold conn_returns, measure. intros E. open_state st. destruct (g !! c) as [[]|] eqn:Eg; simplify_eq/=.
  rewrite total_insert, (total_delete g c _ Eg). destruct err; simpl; lia.
Qed.

Lemma internal_decreases st st' :
  internal_step st st' ->
  (measure st' < measure st)%nat \/ st.(ls_l).(l_closed) = false /\ st'.(ls_l).(l_closed) = true.
Proof.
  intros Hs. destruct Hs as [st err st' _ E | st st' E | st c st' E | st st' E | st x st' E | st x st' E];
    open_state st; unfold measure; simpl.
  - left. unfold Serve_accept_fails in E. simpl in E. destruct a; simplify_eq/=. lia.
  - left. unfold Serve_next in E. simpl in E.
    destruct a as [|c|c|err| |], lc; simplify_eq/=; try lia; try (case_bool_decide; simplify_eq/=; lia).
    all: try (rewrite total_insert; pose proof (total_delete_le g c); simpl; lia).
    destruct ca; simpl; lia.
  - left. unfold conn_next in E. simpl in E. destruct (g !! c) as [[]|] eqn:Eg; simplify_eq/=;
      rewrite ?total_insert, (total_delete g c _ Eg); simpl; lia.
  - unfold Close_call in E. simpl in E. destruct ca; [| done]. simpl in E.
    destruct (k Watcher) eqn:Ek; [destruct lc | done..]; simplify_eq/=; [left; lia | by right].
  - left. unfold Close_next in E. simpl in E. pose proof (close_rank_moves k x) as Hm.
    destruct (k x) as [|cs|[|c cs]| |] eqn:Ek; simplify_eq/=.
    all: match goal with |- context [if decide (Watcher = _) then ?p else _] =>
      specialize (Hm p ltac:(simpl; lia)); lia end.
  - left. unfold Close_end in E. simpl in E. pose proof (close_rank_moves k x KReturned) as Hm.
    destruct (k x) eqn:Ek; simplify_eq/=. specialize (Hm ltac:(lia)). lia.
Qed.

(** Neither the loop, nor a goroutine that has returned from [server.Serve], nor [Close]
    can move. *)
Record quiescent st : Prop := {
  qu_accept : st.(ls_open) = false -> forall err, Serve_accept_fails err st = None;
  qu_serve : Serve_next st = None;
  qu_conn : forall c, conn_next c st = None;
  qu_close : forall x, is_active (st.(ls_closers) x) = false;
}.

(** Then [Serve] has returned, or waits for connections that are being served, each
    closed or tracked too late. *)
Lemma quiescent_shape st :
  listener_inv st -> st.(ls_l).(l_closed) = true -> quiescent st ->
  st.(ls_open) = false /\
  ((exists err, st.(ls_accept) = SReturned err) \/
   st.(ls_accept) = SWait /\ st.(ls_goroutines) <> ∅ /\
   forall c h, st.(ls_goroutines) !! c = Some h -> h = HServing /\ (c ∈ st.(ls_shut) \/ c ∈ st.(ls_late))).
Proof.
  intros [C Se F B Co So Si Pa W Dn] Hc [Qa Qs Qc Qk].
  assert (Ho : st.(ls_open) = false).
  { destruct (ls_open st) eqn:E; [| done]. destruct (So eq_refl Hc) as (x & cs & Hx).
    specialize (Qk x). by rewrite Hx in Qk. }
  assert (Hg : forall c h, st.(ls_goroutines) !! c = Some h -> h = HServing /\ (c ∈ st.(ls_shut) \/ c ∈ st.(ls_late))).
  { intros c h Hg. split.
    - specialize (Qc c). unfold conn_next in Qc. rewrite Hg in Qc. by destruct h.
    - destruct (Co Hc c) as [|[|(x & cs & Hx & _)]]; [apply C; left; by eexists | auto | auto |].
      specialize (Qk x). by destruct Hx as [Hx | Hx]; rewrite Hx in Qk. }
  split; [done |]. specialize (Qa Ho (ioerr EOF)). unfold Serve_accept_fails in Qa. unfold Serve_next in Qs.
  destruct (ls_accept st) as [|c|c|err| |err] eqn:Ea; try done.
  - right. split_and!; try done. intros Eg. by rewrite Eg, bool_decide_eq_true_2 in Qs.
  - left. by exists err.
Qed.

(** Nothing becomes late by internal steps if the accept loop has nothing untracked in
    hand. *)
Definition settled st : Prop := st.(ls_late) = ∅ /\ forall c, st.(ls_accept) <> SGot c.

(** The context is cancelled, and [Serve] has not failed before that. *)
Definition winding_down st : Prop :=
  st.(ls_cancelled) = true /\ forall err, st.(ls_accept) <> SReturned (Some err).

Lemma internal_settled st st' : internal_step st st' ->
  (settled st -> settled st') /\ (winding_down st -> winding_down st').
Proof.
  unfold settled, winding_down.
  intros Hs. destruct Hs as [st err st' _ E | st st' E | st c st' E | st st' E | st x st' E | st x st' E];
    open_state st; subst;
    unfold Serve_accept_fails, Serve_next, conn_next, Close_call, Close_next, Close_end in E;
    simpl in E; repeat case_match; simplify_eq/=; try done.
  all: split; intros [? ?]; subst; rewrite ?orb_true_r in *; naive_solver.
Qed.

End Listener.

(** [ListenAndServe]: bind, then serve; the server's world starts empty. *)
Definition ListenAndServe {S D} (net_Listen : bytes -> option error) (addr : bytes)
    (srv : option (Server D)) : error + LState S D :=
  match Listen net_Listen addr srv with
  | inl err => inl err
  | inr (l, srv) => inr (serving l (world_of srv))
  end.

(** Binding fails for a nil server and when the network refuses the address, which is
    port 4880 on every interface if none is given. *)
Lemma ListenAndServe_outcome {S D} net_Listen addr (srv : option (Server D)) :
  let addr' := if bool_decide (addr = []) then str ":4880" else addr in
  match @ListenAndServe S D net_Listen addr srv with
  | inl err => srv = None \/ net_Listen addr' = Some err
  | inr st => exists s, srv = Some s /\ net_Listen addr' = None /\ st.(ls_world) = world_of s /\
      st.(ls_l).(l_closed) = false /\ st.(ls_l).(l_conns) = ∅
  end.
Proof.
  intros addr'. unfold ListenAndServe, Listen. destruct srv as [srv|]; [| by left].
  replace (str ":" ++ Itoa DefaultPort) with (str ":4880") by (vm_compute; reflexivity). fold addr'.
  destruct (net_Listen addr') as [err|]; [by right | by exists srv].
Qed.
