(* ===== verification/System.v ===== *)
(** * The whole server

    The listener of [Listener] over the goroutines of [Goroutines]. Each connection the
    accept loop hands over is a program of its own, [Serve] action by action; the
    shutdown of the sessions is the program of [CloseAll], run by whoever called
    [Close]; and all of them work on one world. A goroutine of the listener moves on
    when its program has returned. What the reader of a connection delivers is fixed
    from the start; when it delivers is not: a program may stand still, unless its
    connection has been closed. *)

From S2P Require Import Prelude Interleave Errors Version Constants Stream Header Writer Locks LockWait Config.
From S2P Require Import Device Session Server Initialize Handler Reader Serve Programs Frame Types.
From S2P Require Import TestDevice MessageId Codec Guarantee Connect Goroutines Worlds Ownership Listener.

#[export] Instance caller_countable : Countable caller.
Proof.
  apply (inj_countable' (fun x => match x with Watcher => true | User => false end)
    (fun b : bool => if b then Watcher else User)). by intros [].
Defined.

(** The programs that run: those of connections, and those of calls of [Close]. *)
Record System (S D : Type) : Type := MkSystem {
  sy_l : LState S D;
  sy_progs : gmap (nat + caller) (prog (World S D) (option (option error)));
}.
Arguments MkSystem {S D}.
Arguments sy_l {S D}.
Arguments sy_progs {S D}.

(** ** Programs come to an end *)
Section Programs.
Context {X A K : Type} `{Countable K}.
Implicit Types ps : gmap K (prog X A).

(** What an action leaves of a program. *)
Definition follows (p q : prog X A) : Prop :=
  match p with Ret _ => False | Act m k => exists b, q = k b end.

Definition progs_act ps ps' : Prop :=
  exists key p q, ps !! key = Some p /\ follows p q /\ ps' = <[key := q]> ps.

Lemma progs_insert_terminates ps key p :
  Acc (flip progs_act) ps -> ps !! key = None -> Acc (flip progs_act) (<[key := p]> ps).
Proof.
  intros Ha. revert p. induction Ha as [ps _ IH]. intros p Hn.
  induction p as [a | C m k IHp]; constructor; intros ps' (key' & p & q & Hl & Hf & ->).
  all: destruct (decide (key' = key)) as [-> | Hne]; [rewrite lookup_insert_eq in Hl; simplify_eq/= |].
  1: done.
  2: destruct Hf as [b ->]; rewrite insert_insert_eq; apply IHp.
  all: rewrite lookup_insert_ne in Hl by done; rewrite insert_insert_ne by done.
  all: apply IH; [by exists key', p, q | by rewrite lookup_insert_ne].
Qed.

Lemma progs_terminate ps : Acc (flip progs_act) ps.
Proof.
  revert ps. apply (map_ind (fun ps => Acc (flip progs_act) ps)).
  - constructor. intros ps' (key & p & q & Hl & _). by rewrite lookup_empty in Hl.
  - intros key p ps Hn IH. by apply progs_insert_terminates.
Qed.
End Programs.

Section System.
Context {S D : Type} `{Stream S} `{Device D}.
Context (fuel : nat) (stream_of : nat -> S) (inputs_of : nat -> list (message * list wait_choice * bool)).
Context (readable_inputs : forall c, Forall readable (inputs_of c)).
Implicit Types (l : LState S D) (sys : System S D) (w : World S D).

(** ** Steps *)

(** The context of the listener is the first one. *)
Definition listener_ctx : Context := [0%nat].

(** A program takes an action. *)
Definition sys_act (key : nat + caller) sys : option (System S D) :=
  match sys.(sy_progs) !! key with
  | Some (Act m k) =>
      let (b, w) := m sys.(sy_l).(ls_world) in
      Some (MkSystem (upd_world w sys.(sy_l)) (<[key := k b]> sys.(sy_progs)))
  | _ => None
  end.

(** [ctx] is cancelled: the listener and the goroutines see it. *)
Definition sys_cancel sys : System S D :=
  let l := upd_cancelled sys.(sy_l) in
  MkSystem (upd_world (wd_set_cancelled ({[0%nat]} ∪ l.(ls_world).(wd_cancelled)) l.(ls_world)) l) sys.(sy_progs).

(** The call of [CloseAll] in [Close]. *)
Definition p_shutdown (order : list nat -> list nat) : prog (World S D) (option (option error)) :=
  err ← p_CloseAll order; Ret (Some err).

(** What the goroutines do by themselves. *)
Inductive system_own : System S D -> System S D -> Prop :=
| so_accept_closed l l' ps err :
    l.(ls_open) = false -> Serve_accept_fails err l = Some l' -> system_own (MkSystem l ps) (MkSystem l' ps)
| so_serve l l' ps :
    Serve_next l = Some l' -> (forall c, l.(ls_accept) <> STracked c) -> system_own (MkSystem l ps) (MkSystem l' ps)
| so_go l l' ps c :
    l.(ls_accept) = STracked c -> Serve_next l = Some l' ->
    system_own (MkSystem l ps)
      (MkSystem l' (<[inl c := p_Serve fuel listener_ctx (stream_of c) (inputs_of c)]> ps))
| so_conn_closed sys c sys' :
    c ∈ sys.(sy_l).(ls_shut) -> sys_act (inl c) sys = Some sys' -> system_own sys sys'
| so_return l l' ps c err :
    ps !! inl c = Some (Ret (Some err)) -> conn_returns c err l = Some l' ->
    system_own (MkSystem l ps) (MkSystem l' (delete (inl c) ps))
| so_conn l l' ps c : conn_next c l = Some l' -> system_own (MkSystem l ps) (MkSystem l' ps)
| so_watcher l l' ps : Close_call Watcher l = Some l' -> system_own (MkSystem l ps) (MkSystem l' ps)
| so_close l l' ps x :
    Close_next x l = Some l' -> system_own (MkSystem l ps) (MkSystem l' ps)
| so_close_all l ps x order :
    l.(ls_closers) x = KSessions -> ps !! inr x = None -> (forall all, order all ≡ₚ all) ->
    system_own (MkSystem l ps) (MkSystem l (<[inr x := p_shutdown order]> ps))
| so_close_act sys x sys' : sys_act (inr x) sys = Some sys' -> system_own sys sys'
| so_closed l l' ps x r :
    ps !! inr x = Some (Ret r) -> Close_end x l = Some l' -> system_own (MkSystem l ps) (MkSystem l' ps).

(** What clients, the network and callers do. *)
Inductive system_env : System S D -> System S D -> Prop :=
| se_accept l l' ps c : Serve_accept c l = Some l' -> system_env (MkSystem l ps) (MkSystem l' ps)
| se_accept_fails l l' ps err :
    Serve_accept_fails err l = Some l' -> system_env (MkSystem l ps) (MkSystem l' ps)
| se_conn sys c sys' : sys_act (inl c) sys = Some sys' -> system_env sys sys'
| se_user l l' ps : Close_call User l = Some l' -> system_env (MkSystem l ps) (MkSystem l' ps)
| se_cancel sys : system_env sys (sys_cancel sys).

Definition system_step sys sys' : Prop := system_own sys sys' \/ system_env sys sys'.

(** [Serve(ctx)] has just been called. *)
Definition system_of (l : Listener) (s : Server D) : System S D := MkSystem (serving l (world_of s)) ∅.

(** ** What the goroutines do by themselves comes to an end *)

Definition pend (ps : gmap (nat + caller) (prog (World S D) (option (option error)))) (x : caller) : nat :=
  match ps !! inr x with None => 1 | Some _ => 0 end.
Definition rank sys : nat :=
  (measure sys.(sy_l) + pend sys.(sy_progs) Watcher + pend sys.(sy_progs) User)%nat.

Lemma pend_other ps ps' : (forall x, ps' !! inr x = ps !! inr x) -> forall x, pend ps' x = pend ps x.
Proof. intros E x. unfold pend. by rewrite E. Qed.

Lemma sys_act_inv key sys sys' :
  sys_act key sys = Some sys' ->
  exists C (m : M (World S D) C) k, sys.(sy_progs) !! key = Some (Act m k) /\
    sys' = MkSystem (upd_world (m sys.(sy_l).(ls_world)).2 sys.(sy_l))
             (<[key := k (m sys.(sy_l).(ls_world)).1]> sys.(sy_progs)).
Proof.
  unfold sys_act. destruct (sy_progs sys !! key) as [[a | C m k]|] eqn:E; [done | | done].
  intros Ea. exists C, m, k. split; [done |]. destruct (m _) as [b w]. by simplify_eq/=.
Qed.

Lemma sys_act_enabled key l ps {C} (m : M (World S D) C) k :
  ps !! key = Some (Act m k) -> exists sys', sys_act key (MkSystem l ps) = Some sys'.
Proof. intros E. unfold sys_act. simpl. rewrite E. destruct (m _). by eexists. Qed.

(** How an own step looks to the listener. *)
Inductive own_move : System S D -> System S D -> Prop :=
| om_internal l l' ps ps' :
    internal_step l l' -> (forall x, ps' !! inr x = ps !! inr x) -> own_move (MkSystem l ps) (MkSystem l' ps')
| om_return l l' ps ps' c err :
    conn_returns c err l = Some l' -> (forall x, ps' !! inr x = ps !! inr x) ->
    own_move (MkSystem l ps) (MkSystem l' ps')
| om_act l ps w ps' : progs_act ps ps' -> own_move (MkSystem l ps) (MkSystem (upd_world w l) ps')
| om_close_all l ps x p :
    ps !! inr x = None -> own_move (MkSystem l ps) (MkSystem l (<[inr x := p]> ps)).

Lemma own_moves sys sys' : system_own sys sys' -> own_move sys sys'.
Proof.
  assert (Hact : forall key sys sys', sys_act key sys = Some sys' -> own_move sys sys').
  { clear. intros key [l ps] sys' (C & m & k & Hl & ->)%sys_act_inv. simpl in *. apply om_act.
    exists key, (Act m k), (k (m (ls_world l)).1). split_and!; [done | by eexists | done]. }
  intros Hs. destruct Hs as [l l' ps err Ho E | l l' ps E _ | l l' ps c Ea E | sys c sys' _ E
    | l l' ps c err Hp E | l l' ps c E | l l' ps E | l l' ps x E | l ps x order Hk Hp _ | sys x sys' E
    | l l' ps x r _ E]; eauto.
  - apply om_internal; [by eapply in_accept_closed | done].
  - apply om_internal; [by apply in_serve | done].
  - apply om_internal; [by apply in_serve |]. intros x. by rewrite lookup_insert_ne.
  - eapply om_return; [done |]. intros x. by rewrite lookup_delete_ne.
  - apply om_internal; [by eapply in_conn | done].
  - apply om_internal; [by apply in_watcher | done].
  - apply om_internal; [by eapply in_close | done].
  - by apply om_close_all.
  - apply om_internal; [by eapply in_close_end | done].
Qed.

Lemma own_decreases sys sys' :
  system_own sys sys' ->
  (rank sys' < rank sys)%nat \/
  rank sys' = rank sys /\ progs_act sys.(sy_progs) sys'.(sy_progs) \/
  sys.(sy_l).(ls_l).(l_closed) = false /\ sys'.(sy_l).(ls_l).(l_closed) = true.
Proof.
  intros Hs%own_moves. unfold rank. destruct Hs as [l l' ps ps' Hs E | l l' ps ps' c err Hs E
    | l ps w ps' Ha | l ps x p Hn]; simpl.
  - rewrite !(pend_other ps ps' E). destruct (internal_decreases _ _ Hs) as [| ?]; [left; lia | auto].
  - rewrite !(pend_other ps ps' E). apply conn_returns_decreases in Hs. left. lia.
  - right. left. split; [| done]. destruct Ha as (key & p & q & Hl & Hf & ->).
    assert (Ep : forall x, pend (<[key := q]> ps) x = pend ps x).
    { intros x. unfold pend. destruct (decide (key = inr x)) as [-> |]; [by rewrite lookup_insert_eq, Hl |].
      by rewrite lookup_insert_ne. }
    rewrite !Ep. by open_state l.
  - left. unfold pend. destruct x; rewrite lookup_insert_eq, lookup_insert_ne, Hn by done; lia.
Qed.

Lemma own_closed sys sys' :
  system_own sys sys' -> sys.(sy_l).(ls_l).(l_closed) = true -> sys'.(sy_l).(ls_l).(l_closed) = true.
Proof.
  intros Hs%own_moves. destruct Hs as [l l' ps ps' Hs E | l l' ps ps' c err Hs E | l ps w ps' Ha |]; simpl; try done.
  - by eapply internal_closed.
  - unfold conn_returns in Hs. open_state l. by repeat case_match; simplify_eq/=.
  - by open_state l.
Qed.

Lemma own_acc (P : System S D -> Prop) :
  (forall sys sys', P sys -> system_own sys sys' -> Acc (flip system_own) sys' \/ P sys' /\
     ((rank sys' < rank sys)%nat \/ rank sys' = rank sys /\ progs_act sys.(sy_progs) sys'.(sy_progs))) ->
  forall sys, P sys -> Acc (flip system_own) sys.
Proof.
  intros Hstep sys. remember (rank sys) as n eqn:Hn. revert sys Hn. induction (lt_wf n) as [n _ IH]. intros sys Hn.
  remember (sy_progs sys) as ps eqn:Hps. revert sys Hn Hps. induction (progs_terminate ps) as [ps _ IHp].
  intros sys Hn Hps HP. constructor. intros sys' Hs.
  destruct (Hstep sys sys' HP Hs) as [| (HP' & [Hlt | [E Ha]])]; [done | |]; subst.
  - by eapply IH.
  - by eapply (IHp (sy_progs sys')).
Qed.

Lemma system_terminates sys : Acc (flip system_own) sys.
Proof.
  assert (Hc : forall sys, sys.(sy_l).(ls_l).(l_closed) = true -> Acc (flip system_own) sys).
  { apply own_acc. intros sys0 sys1 Hc Hs. right. split; [by eapply own_closed |].
    destruct (own_decreases _ _ Hs) as [|[| [? _]]]; [by left | by right | congruence]. }
  apply (own_acc (fun _ => True)); [| done]. intros sys0 sys1 _ Hs.
  destruct (own_decreases _ _ Hs) as [|[| [_ ?]]]; [right; auto .. | left; auto].
Qed.

(** ** The invariant *)

(** What runs for a key: a connection answers for the sessions it creates, and has an
    end unless it is one of a synchronous channel; a shutdown creates no session. *)
Definition ends_for (key : nat + caller) (r : option (option error)) : Prop :=
  r = None -> match key with inl c => opens_sync (stream_of c) | inr _ => True end.
Definition proper_prog (key : nat + caller) (p : prog (World S D) (option (option error))) w : Prop :=
  establishes p (fun r _ => ends_for key r) w /\
  match key with inl _ => tidy removes p | inr _ => tidy (fun _ _ _ => False) p end.

(** A goroutine answers for the session. *)
Definition owned (ps : gmap (nat + caller) (prog (World S D) (option (option error)))) (loc : nat)
    (w : World S D) : Prop :=
  exists c p, ps !! inl c = Some p /\ establishes p (removes loc) w.

Record system_inv sys : Prop := {
  si_listener : listener_inv sys.(sy_l);
  si_steady : steady sys.(sy_l).(ls_world);
  si_progs : map_Forall (fun key p => proper_prog key p sys.(sy_l).(ls_world)) sys.(sy_progs);
  si_conns : forall c, is_Some (sys.(sy_progs) !! inl c) <-> sys.(sy_l).(ls_goroutines) !! c = Some HServing;
  si_owned : forall id loc, Server_Session sys.(sy_l).(ls_world).(wd_srv) id = Some loc ->
    owned sys.(sy_progs) loc sys.(sy_l).(ls_world);
}.

Lemma establishes_absurd {A} (p : prog (World S D) A) w : establishes p (fun _ _ => False) w -> False.
Proof.
  revert w. induction p as [a | C m k IH]; intros w Hp; [by apply (Hp w) |].
  destruct (Hp w) as [_ Hk]; [done |]. by eapply IH.
Qed.

(** A session in the table after a step of the world was there before, or is new. *)
Lemma registered_before w w' id loc :
  steady w -> steady w' -> extends w w' -> Server_Session w'.(wd_srv) id = Some loc -> allocated loc w ->
  Server_Session w.(wd_srv) id = Some loc.
Proof.
  intros Hs Hs' He Hl [o Ho]. destruct (ex_obj _ _ He _ _ Ho) as (o' & Ho' & Eid & _).
  destruct (sw_reg _ Hs' _ _ Hl) as (o1 & Ho1 & E1 & _). rewrite Ho' in Ho1. injection Ho1 as <-.
  destruct (decide (Server_Session (wd_srv w) id = Some loc)) as [|Hn]; [done |]. exfalso.
  apply (ex_unreg _ _ He loc) with id; [by exists o | | done].
  intros id' Hl'. destruct (sw_reg _ Hs _ _ Hl') as (o2 & Ho2 & E2 & _). congruence.
Qed.

Lemma inv_upd_world w l : listener_inv l -> listener_inv (upd_world w l).
Proof. intros [C Se F B Co So Si Pa W Dn]. open_state l. by split. Qed.

Lemma upd_world_world w l : ls_world (upd_world w l) = w.
Proof. by open_state l. Qed.
Lemma upd_world_goroutines w l : ls_goroutines (upd_world w l) = ls_goroutines l.
Proof. by open_state l. Qed.

(** A step of the world that creates nothing. *)
Lemma system_inv_world l ps w :
  keeps_world l.(ls_world) w -> (forall loc, allocated loc w -> allocated loc l.(ls_world)) ->
  system_inv (MkSystem l ps) -> system_inv (MkSystem (upd_world w l) ps).
Proof.
  intros Hk Hold [Hl Hs Hp Hc Ho]. simpl in *. destruct (Hk Hs) as [Hs' He].
  assert (Hr : rtc keeps_world (ls_world l) w) by (by apply rtc_once).
  split; simpl; rewrite ?upd_world_world, ?upd_world_goroutines; try done.
  - by apply inv_upd_world.
  - intros key p Hl'. destruct (Hp key p Hl') as [H1 H2]. split; [by eapply wp_stable | done].
  - intros id loc Hl'. assert (Ha : allocated loc w) by (destruct (sw_reg _ Hs' _ _ Hl') as (o & Ho' & _); by exists o).
    destruct (Ho id loc) as (c & p & Hp' & Hr'); [by eapply registered_before; eauto |].
    exists c, p. split; [done | by eapply wp_stable].
Qed.

(** An action of a program. *)
Lemma system_inv_act key sys sys' : sys_act key sys = Some sys' -> system_inv sys -> system_inv sys'.
Proof.
  intros (C & m & k & Hkey & ->)%sys_act_inv [Hl Hs Hp Hc Ho]. destruct sys as [l ps]. simpl in *.
  destruct (Hp _ _ Hkey) as [Hest Htidy]. destruct (Hest (ls_world l)) as [Hk Hnext]; [done |].
  destruct (Hk Hs) as [Hs' He]. set (w := (m (ls_world l)).2) in *. set (q := k (m (ls_world l)).1) in *.
  assert (Hr : rtc keeps_world (ls_world l) w) by (by apply rtc_once).
  split; simpl; rewrite ?upd_world_world, ?upd_world_goroutines; try done.
  - by apply inv_upd_world.
  - intros key' p. destruct (decide (key' = key)) as [-> |].
    + rewrite lookup_insert_eq. intros [= <-]. split; [done |].
      destruct key; by apply (Htidy (ls_world l) Hs).
    + rewrite lookup_insert_ne by done. intros Hl'. destruct (Hp key' p Hl') as [H1 H2].
      split; [by eapply wp_stable | done].
  - intros c. rewrite <- Hc. destruct (decide (inl c = key)) as [<- |].
    + rewrite lookup_insert_eq, Hkey. split; intros _; by eexists.
    + by rewrite lookup_insert_ne.
  - intros id loc Hreg.
    assert (Ha : allocated loc w) by (destruct (sw_reg _ Hs' _ _ Hreg) as (o & Ho' & _); by exists o).
    destruct (decide (is_Some (wd_heap (ls_world l) !! loc))) as [Hold | Hnew].
    + destruct (Ho id loc) as (c & p & Hp' & Hr'); [by eapply registered_before; eauto |].
      destruct (decide (inl c = key)) as [<- |].
      * exists c, q. rewrite lookup_insert_eq. split; [done |]. rewrite Hkey in Hp'. injection Hp' as <-.
        by apply (Hr' (ls_world l)).
      * exists c, p. rewrite lookup_insert_ne by done. split; [done | by eapply wp_stable].
    + destruct key as [c | x].
      * exists c, q. rewrite lookup_insert_eq. split; [done |]. by apply (Htidy (ls_world l) Hs).
      * exfalso. destruct (Htidy (ls_world l) Hs) as [Hcr _]. exact (establishes_absurd _ _ (Hcr loc Ha Hnew)).
Qed.

(** Steps of the listener that neither touch the world nor concern a connection that is
    being served. *)
Definition apart l l' : Prop :=
  l'.(ls_world) = l.(ls_world) /\
  forall c, l'.(ls_goroutines) !! c = Some HServing <-> l.(ls_goroutines) !! c = Some HServing.

Lemma system_inv_apart l l' ps :
  apart l l' -> listener_inv l' -> system_inv (MkSystem l ps) -> system_inv (MkSystem l' ps).
Proof.
  intros [Ew Eg] Hl' [Hl Hs Hp Hc Ho]. simpl in *. split; simpl; rewrite ?Ew; try done.
  intros c. by rewrite Hc, Eg.
Qed.

Lemma apart_accept c l l' : Serve_accept c l = Some l' -> apart l l'.
Proof. unfold Serve_accept. intros E. open_state l. by repeat case_match; simplify_eq/=. Qed.
Lemma apart_accept_fails err l l' : Serve_accept_fails err l = Some l' -> apart l l'.
Proof. unfold Serve_accept_fails. intros E. open_state l. by repeat case_match; simplify_eq/=. Qed.
Lemma apart_serve l l' : Serve_next l = Some l' -> (forall c, l.(ls_accept) <> STracked c) -> apart l l'.
Proof.
  unfold Serve_next. intros E Hn. open_state l. repeat case_match; simplify_eq/=; try done.
  by destruct (Hn conn).
Qed.
Lemma apart_close_call x l l' : Close_call x l = Some l' -> apart l l'.
Proof. unfold Close_call. intros E. open_state l. by repeat case_match; simplify_eq/=. Qed.
Lemma apart_close x l l' : Close_next x l = Some l' \/ Close_end x l = Some l' -> apart l l'.
Proof.
  unfold Close_next, Close_end. intros E. open_state l. by destruct E as [E | E]; repeat case_match; simplify_eq/=.
Qed.
Lemma apart_conn c l l' : conn_next c l = Some l' -> apart l l'.
Proof.
  unfold conn_next. intros E. open_state l.
  destruct (g !! c) as [[| err |]|] eqn:Eg; simplify_eq/=; (split; [done |]); simpl; intros c'.
  - destruct (decide (c' = c)) as [-> |]; [by rewrite lookup_insert_eq, Eg | by rewrite lookup_insert_ne].
  - destruct (decide (c' = c)) as [-> |]; [by rewrite lookup_delete_eq, Eg | by rewrite lookup_delete_ne].
Qed.

(** A goroutine is started. *)
Lemma system_inv_go l l' ps c :
  l.(ls_accept) = STracked c -> Serve_next l = Some l' -> system_inv (MkSystem l ps) ->
  system_inv (MkSystem l' (<[inl c := p_Serve fuel listener_ctx (stream_of c) (inputs_of c)]> ps)).
Proof.
  intros Ea E [Hl Hs Hp Hc Ho]. simpl in *. pose proof (inv_serve _ _ E Hl) as Hl'.
  assert (Hfree : ps !! inl c = None).
  { apply eq_None_not_Some. intros Hi%Hc. rewrite (li_fresh _ Hl c) in Hi; [done | by right]. }
  unfold Serve_next in E. rewrite Ea in E. apply (inj Some) in E as <-.
  assert (Ew : ls_world (upd_accept SAccept (upd_go <[c := HServing]> l)) = ls_world l) by (by open_state l).
  assert (Eg : ls_goroutines (upd_accept SAccept (upd_go <[c := HServing]> l)) = <[c := HServing]> (ls_goroutines l))
    by (by open_state l).
  split; simpl; rewrite ?Ew, ?Eg; try done.
  - intros key p. destruct (decide (key = inl c)) as [-> |].
    + rewrite lookup_insert_eq. intros [= <-]. split; [| by apply tidy_Serve].
      eapply keeping_establishes; [by apply keeping_Serve | by intros r w _ Hr | done | done].
    + rewrite lookup_insert_ne by done. apply Hp.
  - intros c'. destruct (decide (c' = c)) as [-> |]; [rewrite !lookup_insert_eq; split; by eauto |].
    rewrite !lookup_insert_ne by congruence. apply Hc.
  - intros id loc Hreg. destruct (Ho id loc Hreg) as (c' & p & Hp' & Hr).
    exists c', p. rewrite lookup_insert_ne by congruence. done.
Qed.

(** A goroutine returns from [server.Serve]: its session has left the table. *)
Lemma system_inv_return l l' ps c err :
  ps !! inl c = Some (Ret (Some err)) -> conn_returns c err l = Some l' -> system_inv (MkSystem l ps) ->
  system_inv (MkSystem l' (delete (inl c) ps)).
Proof.
  intros Hret E [Hl Hs Hp Hc Ho]. simpl in *. pose proof (inv_conn_returns _ _ _ _ E Hl) as Hl'.
  assert (Ew : ls_world l' = ls_world l /\ exists h, h <> HServing /\ ls_goroutines l' = <[c := h]> (ls_goroutines l)).
  { unfold conn_returns in E. destruct (ls_goroutines l !! c) as [[]|]; try done. apply (inj Some) in E as <-.
    split; [by open_state l |]. eexists. split; [| by open_state l]. by destruct err. }
  destruct Ew as (Ew & h & Hh & Eg). split; simpl; rewrite ?Ew, ?Eg; try done.
  - by apply map_Forall_delete.
  - intros c'. destruct (decide (c' = c)) as [-> |].
    + rewrite lookup_delete_eq, lookup_insert_eq. split; [by intros [] | congruence].
    + rewrite lookup_delete_ne, lookup_insert_ne by congruence. apply Hc.
  - intros id loc Hreg. destruct (Ho id loc Hreg) as (c' & p & Hp' & Hr). exists c', p.
    destruct (decide (c' = c)) as [-> |]; [| by rewrite lookup_delete_ne by congruence].
    exfalso. rewrite Hret in Hp'. injection Hp' as <-. by apply (Hr (ls_world l)) with id.
Qed.

Lemma proper_shutdown x order w :
  (forall all, order all ≡ₚ all) -> steady w -> proper_prog (inr x) (p_shutdown order) w.
Proof.
  intros Ho Hw. split.
  - eapply (keeping_establishes (fun _ => True) _ (fun _ _ => True)); [| done | done | done].
    eapply keeping_bind; [by apply keeping_CloseAll |]. intros ?. by apply keeping_done.
  - apply childless_bind; [apply childless_CloseAll | intros ?; apply childless_ret].
Qed.

Lemma system_inv_own sys sys' :
  system_own sys sys' -> system_inv sys -> system_inv sys'.
Proof.
  intros Hs Hi. pose proof (si_listener _ Hi) as Hl.
  destruct Hs as [l l' ps err Ho E | l l' ps E Hn | l l' ps c Ea E | sys c sys' _ E
    | l l' ps c err Hp E | l l' ps c E | l l' ps E | l l' ps x E | l ps x order Hk Hp Hord | sys x sys' E
    | l l' ps x r _ E]; simpl in Hl.
  - eapply system_inv_apart; eauto using apart_accept_fails, inv_accept_fails.
  - eapply system_inv_apart; eauto using apart_serve, inv_serve.
  - by eapply system_inv_go.
  - by eapply system_inv_act.
  - by eapply system_inv_return.
  - eapply system_inv_apart; eauto using apart_conn, inv_conn.
  - eapply system_inv_apart; eauto using apart_close_call, inv_close_call.
  - eapply system_inv_apart; eauto using apart_close, inv_close_step.
  - destruct Hi as [_ Hs Hps Hc Ho]. simpl in *. split; simpl; try done.
    + apply map_Forall_insert_2; [by apply proper_shutdown | done].
    + intros c. by rewrite lookup_insert_ne.
    + intros id loc Hreg. destruct (Ho id loc Hreg) as (c & p & Hp' & ?). exists c, p. by rewrite lookup_insert_ne.
  - by eapply system_inv_act.
  - eapply system_inv_apart; eauto using apart_close, inv_close_step.
Qed.

Lemma system_inv_step sys sys' :
  system_step sys sys' -> system_inv sys -> system_inv sys'.
Proof.
  intros [Hs | Hs]; [by apply system_inv_own |]. intros Hi. pose proof (si_listener _ Hi) as Hl.
  destruct Hs as [l l' ps c E | l l' ps err E | sys c sys' E | l l' ps E | [l ps]]; simpl in Hl.
  - eapply system_inv_apart; eauto using apart_accept, inv_accept.
  - eapply system_inv_apart; eauto using apart_accept_fails, inv_accept_fails.
  - by eapply system_inv_act.
  - eapply system_inv_apart; eauto using apart_close_call, inv_close_call.
  - apply system_inv_world; [by apply keeps_same | done |].
    apply (system_inv_apart l); [by open_state l | by apply inv_cancelled | done].
Qed.

Lemma system_inv_of (l : Listener) (s : Server D) :
  l.(l_closed) = false -> l.(l_conns) = ∅ -> steady (world_of (S := S) s) -> (forall id, Server_Session s id = None) ->
  system_inv (system_of l s).
Proof.
  intros Hc He Hs Hn. split; simpl; try done.
  - by apply listener_inv_serving.
  - intros c. rewrite !lookup_empty. split; [by intros [] | done].
  - intros id loc Hreg. by rewrite Hn in Hreg.
Qed.

(** ** Winding down *)

Lemma own_settled sys sys' :
  system_own sys sys' ->
  (settled sys.(sy_l) -> settled sys'.(sy_l)) /\ (winding_down sys.(sy_l) -> winding_down sys'.(sy_l)).
Proof.
  intros Hs%own_moves. destruct Hs as [l l' ps ps' Hs E | l l' ps ps' c err Hs E | l ps w ps' Ha |]; simpl; try done.
  - by apply internal_settled.
  - unfold conn_returns in Hs. open_state l. by repeat case_match; simplify_eq/=.
  - by open_state l.
Qed.

Lemma own_run_inv sys sys' :
  rtc system_own sys sys' -> system_inv sys ->
  system_inv sys' /\ (settled sys.(sy_l) -> settled sys'.(sy_l)) /\ (winding_down sys.(sy_l) -> winding_down sys'.(sy_l)).
Proof.
  induction 1 as [sys | sys1 sys2 sys3 Hs _ IH]; intros Hi; [done |].
  destruct (own_settled _ _ Hs). destruct IH as (? & ? & ?); [by eapply system_inv_own |]. auto.
Qed.

Lemma system_stuck_quiescent l ps : (forall sys', ~ system_own (MkSystem l ps) sys') -> quiescent l.
Proof.
  intros Hstuck. split.
  - intros Ho err. destruct (Serve_accept_fails err l) eqn:E; [| done]. by destruct (Hstuck _ (so_accept_closed _ _ ps _ Ho E)).
  - destruct (Serve_next l) as [l'|] eqn:E; [| done]. exfalso.
    destruct (ls_accept l) as [|c|c|err| |] eqn:Ea;
      try (eapply Hstuck, so_serve; [exact E |]; intros ?; congruence). by eapply Hstuck, so_go.
  - intros c. destruct (conn_next c l) eqn:E; [| done]. by destruct (Hstuck _ (so_conn _ _ ps _ E)).
  - intros x. destruct (is_active (ls_closers l x)) eqn:Ha; [| done]. exfalso.
    destruct (decide (ls_closers l x = KSessions)) as [Hk | Hk].
    + destruct (ps !! inr x) as [[r | C m k]|] eqn:Ep.
      * eapply Hstuck, (so_closed l _ ps x r Ep). unfold Close_end. by rewrite Hk.
      * destruct (sys_act_enabled (inr x) l ps m k Ep) as [sys' E]. by eapply Hstuck, (so_close_act _ x).
      * by eapply Hstuck, (so_close_all l ps x id).
    + destruct (Close_next x l) as [l'|] eqn:E; [by eapply Hstuck, (so_close l l' ps x) |].
      unfold Close_next in E. by destruct (ls_closers l x) as [| |[]| |].
Qed.

(** Where the goroutines of a cancelled listener stop. *)
Lemma system_stuck sys :
  system_inv sys -> winding_down sys.(sy_l) -> (forall sys', ~ system_own sys sys') ->
  sys.(sy_l).(ls_open) = false /\
  (sys.(sy_l).(ls_accept) = SReturned None \/
   sys.(sy_l).(ls_accept) = SWait /\ sys.(sy_l).(ls_goroutines) <> ∅ /\
   forall c h, sys.(sy_l).(ls_goroutines) !! c = Some h -> h = HServing /\
     (c ∈ sys.(sy_l).(ls_late) /\ c ∉ sys.(sy_l).(ls_shut) \/
      sys.(sy_progs) !! inl c = Some (Ret None) /\ opens_sync (stream_of c))).
Proof.
  destruct sys as [l ps]. simpl. intros Hi [Hca Hok] Hstuck. pose proof (si_listener _ Hi) as Hl. simpl in Hl.
  assert (Hc : l_closed (ls_l l) = true).
  { destruct (l_closed (ls_l l)) eqn:E; [done |]. exfalso. destruct (li_before _ Hl E) as (_ & _ & Hk).
    eapply Hstuck, so_watcher. unfold Close_call, Close_begin. rewrite Hca, Hk, E. reflexivity. }
  destruct (quiescent_shape l Hl Hc (system_stuck_quiescent l ps Hstuck)) as [Ho [[[err|] Ea] | (Ea & Hne & Hall)]];
    (split; [done |]); [by destruct (Hok err) | by left | right].
  split_and!; [done | done |]. intros c h Hg. destruct (Hall c h Hg) as [-> Hcl]. split; [done |].
  destruct (decide (c ∈ ls_shut l)) as [Hs | Hs]; [right | by left; destruct Hcl].
  destruct (proj2 (si_conns _ Hi c) Hg) as [p Hp]. simpl in Hp. rewrite Hp.
  destruct p as [[err|] | C m k]; [exfalso | split; [done |] | exfalso].
  - eapply Hstuck, (so_return l _ ps c err Hp). unfold conn_returns. by rewrite Hg.
  - destruct (si_progs _ Hi _ _ Hp) as [He _]. exact (He _ (rtc_refl _ _) eq_refl).
  - destruct (sys_act_enabled (inl c) l ps m k Hp) as [sys' E]. by eapply Hstuck, (so_conn_closed _ c).
Qed.

(** A table whose sessions nobody answers for is empty. *)
Lemma no_sessions_left sys :
  system_inv sys -> sys.(sy_l).(ls_accept) = SReturned None ->
  Server_Sessions sys.(sy_l).(ls_world).(wd_srv) = 0 /\ sys.(sy_l).(ls_goroutines) = ∅.
Proof.
  intros Hi Ea. destruct (li_done _ (si_listener _ Hi) Ea) as [Eg _]. split; [| done].
  unfold Server_Sessions. apply (Nat2Z.inj_iff _ O), map_size_empty_iff, map_empty. intros id.
  destruct (srv_sessions _ !! id) as [loc|] eqn:Hreg; [| done]. exfalso.
  destruct (si_owned _ Hi id loc Hreg) as (c & p & Hp & _).
  assert (Hg : ls_goroutines (sy_l sys) !! c = Some HServing) by (apply (si_conns _ Hi); by eexists).
  by rewrite Eg, lookup_empty in Hg.
Qed.

(** ** A shutdown beside everything else *)

(** A step is one of the shutdown of [x], or leaves its program and keeps the world. *)
Lemma step_beside x sys sys' :
  system_step sys sys' -> system_inv sys ->
  sys_act (inr x) sys = Some sys' \/
  keeps_world sys.(sy_l).(ls_world) sys'.(sy_l).(ls_world) /\
  forall p, sys.(sy_progs) !! inr x = Some p -> sys'.(sy_progs) !! inr x = Some p.
Proof.
  intros Hs Hi.
  assert (Hapart : forall l l' (ps ps' : gmap (nat + caller) (prog (World S D) (option (option error)))), apart l l' -> (forall p, ps !! inr x = Some p -> ps' !! inr x = Some p) ->
    keeps_world (ls_world l) (ls_world l') /\ forall p, ps !! inr x = Some p -> ps' !! inr x = Some p).
  { intros l l' ps ps' [-> _] Hp. split; [apply keeps_world_refl | done]. }
  assert (Hact : forall key, sys_act key sys = Some sys' -> sys_act (inr x) sys = Some sys' \/
    keeps_world sys.(sy_l).(ls_world) sys'.(sy_l).(ls_world) /\
    forall p, sys.(sy_progs) !! inr x = Some p -> sys'.(sy_progs) !! inr x = Some p).
  { intros key E. destruct (decide (key = inr x)) as [<- | Hne]; [by left | right].
    apply sys_act_inv in E as (C & m & k & Hkey & ->). simpl. rewrite upd_world_world.
    destruct (si_progs _ Hi _ _ Hkey) as [He _]. split; [by apply (He _ (rtc_refl _ _)) |].
    intros p Hp. by rewrite lookup_insert_ne. }
  destruct Hs as [Hs | Hs].
  - destruct Hs as [l l' ps err Ho E | l l' ps E Hn | l l' ps c Ea E | sys c sys' _ E
      | l l' ps c err Hp E | l l' ps c E | l l' ps E | l l' ps y E | l ps y order Hk Hp Hord | sys y sys' E
      | l l' ps y r _ E]; simpl in *; try (by eapply Hact); right.
    + eauto using apart_accept_fails.
    + eauto using apart_serve.
    + unfold Serve_next in E. rewrite Ea in E. apply (inj Some) in E as <-. split.
      * by apply keeps_same; open_state l.
      * intros p Hp. by rewrite lookup_insert_ne.
    + unfold conn_returns in E. destruct (ls_goroutines l !! c) as [[]|]; try done. apply (inj Some) in E as <-. split.
      * by apply keeps_same; open_state l.
      * intros p Hp'. by rewrite lookup_delete_ne.
    + eauto using apart_conn.
    + eauto using apart_close_call.
    + eauto using apart_close.
    + split; [apply keeps_world_refl |]. intros p Hp'. rewrite lookup_insert_ne; [done | congruence].
    + eauto using apart_close.
  - destruct Hs as [l l' ps c E | l l' ps err E | sys c sys' E | l l' ps E | [l ps]]; simpl in *;
      try (by eapply Hact); right.
    + eauto using apart_accept.
    + eauto using apart_accept_fails.
    + eauto using apart_close_call.
    + split; [| done]. rewrite upd_world_world. open_state l. by apply keeps_same.
Qed.

(** What the shutdown of [x] establishes it has established when it has returned. *)
Lemma shutdown_establishes x Q sys sys' :
  rtc system_step sys sys' -> system_inv sys ->
  (exists p, sys.(sy_progs) !! inr x = Some p /\ establishes p Q sys.(sy_l).(ls_world)) ->
  rtc keeps_world sys.(sy_l).(ls_world) sys'.(sy_l).(ls_world) /\
  exists p, sys'.(sy_progs) !! inr x = Some p /\ establishes p Q sys'.(sy_l).(ls_world).
Proof.
  induction 1 as [sys | sys1 sys2 sys3 Hs _ IH]; intros Hi; [done |]. intros (p & Hp & He).
  pose proof (system_inv_step _ _ Hs Hi) as Hi2.
  assert (Hone : keeps_world sys1.(sy_l).(ls_world) sys2.(sy_l).(ls_world) /\
    exists p, sys2.(sy_progs) !! inr x = Some p /\ establishes p Q sys2.(sy_l).(ls_world)).
  { destruct (step_beside x _ _ Hs Hi) as [E | [Hk Hkeep]].
    - apply sys_act_inv in E as (C & m & k & Hkey & ->). simpl. rewrite upd_world_world.
      rewrite Hkey in Hp. injection Hp as <-. destruct (He _ (rtc_refl _ _)) as [Hk Hnext]. split; [done |].
      eexists. by rewrite lookup_insert_eq.
    - split; [done |]. exists p. split; [auto |]. eapply wp_stable; [by apply rtc_once | done]. }
  destruct Hone as [Hk Hone]. destruct (IH Hi2 Hone) as [Hr Hend]. split; [by eapply rtc_l | done].
Qed.

(** The shutdown has taken the table: its sessions are out of it, and will be closed. *)
Lemma shutdown_takes x order sys sys' :
  system_inv sys -> (forall all, order all ≡ₚ all) ->
  sys.(sy_progs) !! inr x = Some (p_shutdown order) -> sys_act (inr x) sys = Some sys' ->
  let w := sys.(sy_l).(ls_world) in
  Server_Sessions sys'.(sy_l).(ls_world).(wd_srv) = 0 /\
  (forall loc, allocated loc w -> allocated loc sys'.(sy_l).(ls_world)) /\
  exists p, sys'.(sy_progs) !! inr x = Some p /\
    establishes p (fun _ w' => forall id loc, Server_Session w.(wd_srv) id = Some loc -> gone loc w') sys'.(sy_l).(ls_world).
Proof.
  intros Hi Ho Hp E. cbv zeta. unfold sys_act in E. rewrite Hp in E.
  unfold p_shutdown, p_CloseAll in E. cbn in E. apply (inj Some) in E as <-. simpl. rewrite upd_world_world.
  split_and!; [done | done |]. eexists. rewrite lookup_insert_eq. split; [reflexivity |].
  set (w := ls_world (sy_l sys)). pose proof (si_steady _ Hi) as Hs. fold w in Hs.
  assert (Hs' : steady (wd_set_srv (srv_set_sessions ∅ (wd_srv w)) w))
    by (by apply (keeps_table ∅ w (map_empty_subseteq _))).
  apply wp_bind. eapply keeping_establishes; [apply (keeping_closeAll_loop (fun _ => True)); done | | done |].
  - intros err w1 Hs1 [_ Hall] w2 Hr id loc Hreg.
    assert (Hg : gone loc w1).
    { rewrite Ho in Hall. apply (proj1 (Forall_forall _ _) Hall).
      apply list_elem_of_fmap. exists (id, loc). split; [done | by apply elem_of_map_to_list]. }
    by destruct (stable_rtc _ _ _ (stable_gone loc) Hs1 Hr Hg).
  - split; [done |]. rewrite Ho. apply Forall_forall. intros loc Hin. split; [| by intros id; unfold Server_Session].
    apply list_elem_of_fmap in Hin as ([id l] & -> & Hin). apply elem_of_map_to_list in Hin.
    destruct (sw_reg w Hs id l Hin) as (o & Hl & _). by exists o.
Qed.
End System.

(** What the listener is like when a call of [Close] returns. *)
Lemma close_ended {S D} x (l l' : LState S D) :
  listener_inv l -> Close_end x l = Some l' ->
  l'.(ls_world) = l.(ls_world) /\ l'.(ls_closers) x = KReturned /\ l'.(ls_open) = false /\
  (forall c, c ∈ l'.(ls_l).(l_conns) -> c ∈ l'.(ls_shut) \/ c ∈ l'.(ls_late)) /\
  (forall y l'', Close_call y l' = Some l'' ->
     l''.(ls_closers) y = KReturned /\ l''.(ls_l) = l'.(ls_l) /\ l''.(ls_shut) = l'.(ls_shut) /\
     l''.(ls_world) = l'.(ls_world)).
Proof.
  intros Hi E. assert (Hk : l.(ls_closers) x = KSessions) by (unfold Close_end in E; by case_match).
  assert (Hc : l_closed (ls_l l) = true).
  { destruct (l_closed (ls_l l)) eqn:Ec; [done |]. destruct (li_before _ Hi Ec) as (_ & _ & Hx). by rewrite Hx in Hk. }
  assert (Ho : ls_open l = false) by (apply (li_past _ Hi x); by rewrite Hk).
  assert (Hcov : forall c, c ∈ l.(ls_l).(l_conns) -> c ∈ l.(ls_shut) \/ c ∈ l.(ls_late)).
  { intros c Hin. destruct (li_covered _ Hi Hc c Hin) as [|[|(y & cs & Hy & _)]]; auto. exfalso.
    assert (x = y) as <-; [| by rewrite Hk in Hy; destruct Hy].
    apply (li_single _ Hi); [by rewrite Hk | by destruct Hy as [-> | ->]]. }
  unfold Close_end in E. rewrite Hk in E. apply (inj Some) in E as <-. open_state l. subst.
  split_and!; try done; [by rewrite decide_True |]. intros y l'' Ec. unfold Close_call, Close_begin in Ec. simpl in Ec.
  destruct (negb _); [done |]. apply (inj Some) in Ec as <-. simpl. by rewrite decide_True.
Qed.

(** ** Theorems *)

Section Reach.
Context {S D : Type} `{Stream S} `{Device D} (dev : option D) (cfg : Config) (s : Server D) (l : Listener).
Context (fuel : nat) (stream_of : nat -> S) (inputs_of : nat -> list (message * list wait_choice * bool)).
Context (Hnew : New dev cfg = inr s) (Hcfg : proper_config cfg) (Hin : forall c, Forall readable (inputs_of c)).
Context (Hclosed : l.(l_closed) = false) (Hconns : l.(l_conns) = ∅).

Lemma system_reach_inv sys : rtc (system_step fuel stream_of inputs_of) (system_of l s) sys -> system_inv stream_of sys.
Proof.
  intros Hr. assert (Hi : system_inv stream_of (system_of (S := S) l s)).
  { apply system_inv_of; [done | done | by apply (New_steady dev cfg) |]. intros id.
    revert Hnew. unfold New. destruct dev; [| done]. destruct (Config_validate _); [done |]. by intros [= <-]. }
  revert Hi. induction Hr; eauto using system_inv_step.
Qed.
End Reach.

(** C5: No session is left behind. Run the whole server, the listener with a goroutine
    per connection and the goroutines of Close, every one of them action by action and
    in any order, with any messages from the clients and any failures of the
    transport. At every moment the table, the sessions and all integers are in order,
    and every session in the table has a goroutine in server.Serve that will have
    taken it out when it returns, whatever the others do; so when the listener's Serve
    returns nil, no session is registered and no goroutine of a connection is left. *)
Theorem serve_leaves_no_session {S D} `{Stream S} `{Device D} (dev : option D) cfg s l
    fuel (stream_of : nat -> S) inputs_of sys :
  New dev cfg = inr s -> proper_config cfg -> (forall c, Forall readable (inputs_of c)) ->
  l.(l_closed) = false -> l.(l_conns) = ∅ ->
  rtc (system_step fuel stream_of inputs_of) (system_of l s) sys ->
  let w := sys.(sy_l).(ls_world) in
  steady w /\
  (forall id loc, Server_Session w.(wd_srv) id = Some loc ->
     exists c p, sys.(sy_progs) !! inl c = Some p /\ sys.(sy_l).(ls_goroutines) !! c = Some HServing /\
       wp keeps_world keeps_world p (fun r w => r <> None -> unregistered loc w) w) /\
  (sys.(sy_l).(ls_accept) = SReturned None ->
     Server_Sessions w.(wd_srv) = 0 /\ sys.(sy_l).(ls_goroutines) = ∅ /\ forall c, sys.(sy_progs) !! inl c = None).
Proof.
  intros Hn Hc Hin Hl1 Hl2 Hr. cbv zeta.
  pose proof (system_reach_inv dev cfg s l fuel stream_of inputs_of Hn Hc Hin Hl1 Hl2 sys Hr) as Hi.
  split_and!; [apply (si_steady _ _ Hi) | |].
  - intros id loc Hreg. destruct (si_owned _ _ Hi id loc Hreg) as (c & p & Hp & Hw). exists c, p.
    split_and!; [done | apply (si_conns _ _ Hi); by eexists | done].
  - intros Ea. destruct (no_sessions_left _ sys Hi Ea) as [Hz Hg]. split_and!; [done | done |].
    intros c. apply eq_None_not_Some. intros Hp%(si_conns _ _ Hi). by rewrite Hg, lookup_empty in Hp.
Qed.

(** C16: The whole server comes to an end once its context is cancelled. From every
    state it can reach, unless Serve has failed before, what its goroutines do by
    themselves (the accept loop, the watcher, Close and its shutdown of the sessions,
    and the goroutines of connections that have been closed, action by action) cannot
    go on for ever; a lock request that waits ends with its timer at the latest, and
    the asynchronous channels always return. Where it stops the socket is closed and
    Serve has returned nil, with no session registered and no goroutine left, or it
    waits for goroutines whose connections were tracked after Close took its list, or
    for synchronous channels (their first message was Initialize) whose instrument has
    kept answering without an end for as many reads of one response as the model
    grants. If no connection was tracked late, and none is in the hands of the accept
    loop at the start, Serve has returned or there is such an instrument. *)
Theorem whole_server_winds_down {S D} `{Stream S} `{Device D} (dev : option D) cfg s l
    fuel (stream_of : nat -> S) inputs_of sys :
  New dev cfg = inr s -> proper_config cfg -> (forall c, Forall readable (inputs_of c)) ->
  l.(l_closed) = false -> l.(l_conns) = ∅ ->
  rtc (system_step fuel stream_of inputs_of) (system_of l s) sys -> winding_down sys.(sy_l) ->
  let own := system_own fuel stream_of inputs_of in
  Acc (flip own) sys /\
  forall sys', rtc own sys sys' -> (forall sys'', ~ own sys' sys'') ->
    let returned := sys'.(sy_l).(ls_accept) = SReturned None /\
      Server_Sessions sys'.(sy_l).(ls_world).(wd_srv) = 0 /\ sys'.(sy_l).(ls_goroutines) = ∅ in
    let late c := c ∈ sys'.(sy_l).(ls_late) /\ c ∉ sys'.(sy_l).(ls_shut) in
    let reading c := sys'.(sy_progs) !! inl c = Some (Ret None) /\ opens_sync (stream_of c) in
    sys'.(sy_l).(ls_open) = false /\
    (returned \/
     sys'.(sy_l).(ls_accept) = SWait /\ sys'.(sy_l).(ls_goroutines) <> ∅ /\
     forall c h, sys'.(sy_l).(ls_goroutines) !! c = Some h -> h = HServing /\ (late c \/ reading c)) /\
    (settled sys.(sy_l) -> returned \/ exists c, sys'.(sy_l).(ls_goroutines) !! c = Some HServing /\ reading c).
Proof.
  intros Hn Hc Hin Hl1 Hl2 Hr Hw own. split; [apply system_terminates |]. intros sys' Hr' Hstuck. cbv zeta.
  pose proof (system_reach_inv dev cfg s l fuel stream_of inputs_of Hn Hc Hin Hl1 Hl2 sys Hr) as Hi.
  destruct (own_run_inv _ _ _ Hin _ _ Hr' Hi) as (Hi' & Hset & Hwd).
  destruct (system_stuck _ _ _ _ Hi' (Hwd Hw) Hstuck) as [Ho Hcases]. split; [done |].
  pose proof (no_sessions_left _ sys' Hi') as Hleft. split.
  - destruct Hcases as [Ea | Hcases]; [left; destruct (Hleft Ea); by split_and! | by right].
  - intros [Hlate _]%Hset. destruct Hcases as [Ea | (_ & Hne & Hall)]; [left; destruct (Hleft Ea); by split_and! |].
    right. apply map_choose in Hne as (c & h & Eg). destruct (Hall c h Eg) as (-> & [[Hin' _] | Hp]);
      [rewrite Hlate in Hin'; set_solver | by exists c].
Qed.

(** C18: What holds when Close returns. In any run of the whole server, with every
    goroutine action by action, take the moment at which the CloseAll of a Close
    empties the session table, and the later moment at which that Close returns. Then
    the socket is closed; every session that was in the table at the first moment is
    out of it and closed; a session that is registered at the second moment was
    created after the first, so none that existed then is left; every tracked
    connection has been closed or was tracked after Close took its list; and a further
    call of Close returns at once and changes neither the listener, nor the
    connections, nor the server. *)
Theorem Close_closes_tracked {S D} `{Stream S} `{Device D} (dev : option D) cfg s l
    fuel (stream_of : nat -> S) inputs_of order x sys0 sys1 sys r l' :
  New dev cfg = inr s -> proper_config cfg -> (forall c, Forall readable (inputs_of c)) ->
  l.(l_closed) = false -> l.(l_conns) = ∅ -> (forall all, order all ≡ₚ all) ->
  let step := system_step fuel stream_of inputs_of in
  rtc step (system_of l s) sys0 ->
  sys0.(sy_progs) !! inr x = Some (p_shutdown order) -> sys_act (inr x) sys0 = Some sys1 ->
  rtc step sys1 sys -> sys.(sy_progs) !! inr x = Some (Ret r) -> Close_end x sys.(sy_l) = Some l' ->
  let w0 := sys0.(sy_l).(ls_world) in
  let w := l'.(ls_world) in
  l'.(ls_closers) x = KReturned /\ l'.(ls_open) = false /\
  Server_Sessions sys1.(sy_l).(ls_world).(wd_srv) = 0 /\
  (forall id loc, Server_Session w0.(wd_srv) id = Some loc -> unregistered loc w /\ closed_at loc w) /\
  (forall id loc, Server_Session w.(wd_srv) id = Some loc -> ~ allocated loc w0) /\
  (forall c, c ∈ l'.(ls_l).(l_conns) -> c ∈ l'.(ls_shut) \/ c ∈ l'.(ls_late)) /\
  (forall y l'', Close_call y l' = Some l'' ->
     l''.(ls_closers) y = KReturned /\ l''.(ls_l) = l'.(ls_l) /\ l''.(ls_shut) = l'.(ls_shut) /\ l''.(ls_world) = w).
Proof.
  intros Hn Hc Hin Hl1 Hl2 Ho step Hr Hp Ea Hr' Hret Ee w0 w.
  pose proof (system_reach_inv dev cfg s l fuel stream_of inputs_of Hn Hc Hin Hl1 Hl2 sys0 Hr) as Hi0.
  pose proof (system_inv_act _ _ _ _ Ea Hi0) as Hi1.
  destruct (shutdown_takes _ x order sys0 sys1 Hi0 Ho Hp Ea) as (Hz & Hold & Hest).
  destruct (shutdown_establishes _ _ _ Hin x _ sys1 sys Hr' Hi1 Hest) as (Hk & p & Hp' & He).
  rewrite Hret in Hp'. injection Hp' as <-. specialize (He _ (rtc_refl _ _)). simpl in He.
  assert (Hi : system_inv stream_of sys) by (clear -Hin Hr' Hi1; induction Hr'; eauto using system_inv_step).
  destruct (close_ended x sys.(sy_l) l' (si_listener _ _ Hi) Ee) as (Ew & H1 & H2 & H3 & H4). fold w0.
  subst w. rewrite Ew. split_and!; [done | done | done | | | done | rewrite <- Ew; exact H4].
  - intros id loc Hreg. destruct (He id loc Hreg) as [[_ ?] ?]. done.
  - intros id loc Hreg Ha. apply Hold in Ha.
    assert (Hu : retired loc (ls_world (sy_l sys1))).
    { split; [done |]. intros id' Hl. pose proof (map_size_empty_inv _ (Nat2Z.inj _ O Hz)) as E.
      unfold Server_Session in Hl. by rewrite E, lookup_empty in Hl. }
    destruct (stable_rtc _ _ _ (stable_retired loc) (si_steady _ _ Hi1) Hk Hu) as [_ [_ Hu']]. by apply (Hu' id).
Qed.

(** ** Concrete runs: one client, whose goroutine is scheduled for [n] actions *)

Definition demo_stream (_ : nat) : Canned := NewCanned (sent_bytes (MkSent demo_initialize [])).
Definition demo_inputs (_ : nat) : list (message * list wait_choice * bool) := [].
Definition demo_start : System Canned TestDevice := system_of (MkListener false ∅ None) (demo_server 1).
Local Abbreviation demo_step := (system_step 1 demo_stream demo_inputs).

Fixpoint client_acts (n : nat) (sys : System Canned TestDevice) : option (System Canned TestDevice) :=
  match n with
  | O => Some sys
  | Datatypes.S n => sys ← sys_act (inl 0%nat) sys; client_acts n sys
  end.

Definition demo_client (n : nat) : option (System Canned TestDevice) :=
  l ← Serve_accept 0 demo_start.(sy_l);
  l ← Serve_next l;
  l ← Serve_next l;
  client_acts n (MkSystem l {[inl 0%nat := p_Serve 1 listener_ctx (demo_stream 0) (demo_inputs 0)]}).

Lemma demo_client_reach n sys : demo_client n = Some sys -> rtc demo_step demo_start sys.
Proof.
  unfold demo_client. intros (l1 & E1 & (l2 & E2 & (l3 & E3 & E)%bind_Some)%bind_Some)%bind_Some.
  eapply rtc_l; [right; by eapply (se_accept _ l1 _ 0) |].
  assert (Ea1 : ls_accept <$> Serve_accept 0 demo_start.(sy_l) = Some (SGot 0)) by (vm_compute; reflexivity).
  rewrite E1 in Ea1. apply (inj Some) in Ea1.
  assert (Ea2 : ls_accept l2 = STracked 0).
  { unfold Serve_next in E2. rewrite Ea1 in E2. apply (inj Some) in E2 as <-.
    clear. open_state l1. by destruct lc. }
  eapply rtc_l; [left; eapply (so_serve _ _ _ l1 l2); [done | by rewrite Ea1] |].
  eapply rtc_l; [left; by eapply (so_go _ _ _ l2 l3 _ 0) |].
  rewrite insert_empty. generalize dependent (MkSystem l3 {[inl 0%nat := p_Serve 1 listener_ctx (demo_stream 0) (demo_inputs 0)]}).
  clear. induction n as [|n IH]; intros sys0 E; [simpl in E; by simplify_eq |].
  simpl in E. apply bind_Some in E as (sys1 & E1 & E). eapply rtc_l; [right; by eapply se_conn | by apply IH].
Qed.

(** The client goes away, the context is cancelled, and [Accept] fails. *)
Definition demo_returned : option (System Canned TestDevice) :=
  sys ← demo_client 11;
  l ← conn_returns 0 None sys.(sy_l);
  l ← conn_next 0 l;
  let sys := sys_cancel (MkSystem l (delete (inl 0%nat) sys.(sy_progs))) in
  l ← Serve_accept_fails (ioerr EOF) sys.(sy_l);
  l ← Serve_next l;
  l ← Serve_next l;
  Some (MkSystem l sys.(sy_progs)).

(** [Serve_next] is a step by itself where no goroutine is to be started. *)
Lemma demo_serve l l' ps :
  Serve_next l = Some l' -> match l.(ls_accept) with STracked _ => False | _ => True end ->
  demo_step (MkSystem l ps) (MkSystem l' ps).
Proof. intros E Ha. left. apply so_serve; [done |]. intros c Ec. by rewrite Ec in Ha. Qed.

Lemma after_failure {S D} err (l l1 l2 : LState S D) :
  Serve_accept_fails err l = Some l1 -> Serve_next l1 = Some l2 ->
  ls_accept l1 = SFailed err /\ (ls_accept l2 = SWait \/ ls_accept l2 = SReturned (Some err)).
Proof.
  unfold Serve_accept_fails. intros E1 E2. open_state l. destruct a; simplify_eq/=. split; [done |].
  unfold Serve_next in E2. simplify_eq/=. destruct (_ || _); auto.
Qed.

Lemma demo_returned_reach sys : demo_returned = Some sys -> rtc demo_step demo_start sys.
Proof.
  unfold demo_returned. intros ([l0 ps] & E0 & (l1 & E1 & (l2 & E2 & (l3 & E3 & (l4 & E4 & (l5 & E5 & E)%bind_Some)%bind_Some)%bind_Some)%bind_Some)%bind_Some)%bind_Some.
  simpl in *. apply (inj Some) in E as <-.
  assert (Hp : (fun sys => match sys.(sy_progs) !! inl 0%nat with Some (Ret r) => Some r | _ => None end) <$> demo_client 11
    = Some (Some (Some None))) by (vm_compute; reflexivity).
  rewrite E0 in Hp. simpl in Hp. destruct (ps !! inl 0%nat) as [[r|]|] eqn:Er; try discriminate Hp. injection Hp as ->.
  etrans; [by apply (demo_client_reach 11) |].
  eapply rtc_l; [left; by eapply (so_return _ _ _ l0 l1 ps 0 None) |].
  eapply rtc_l; [left; by eapply (so_conn _ _ _ l1 l2 _ 0) |].
  eapply rtc_l; [right; apply se_cancel |].
  eapply rtc_l; [right; eapply (se_accept_fails _ l3); exact E3 |].
  pose proof (after_failure _ _ _ _ E3 E4) as [Ha3 Ha4].
  eapply rtc_l; [apply demo_serve; [exact E4 | by rewrite Ha3] |].
  apply rtc_once, demo_serve; [exact E5 |]. by destruct Ha4 as [-> | ->].
Qed.

Lemma demo_new : New (Some (TestDevice_New [str "FLUKE,8846A"])) (demo_config 1) = inr (demo_server 1).
Proof. vm_compute. reflexivity. Qed.
Lemma demo_proper : proper_config (demo_config 1).
Proof. split; [by repeat split | done]. Qed.

Lemma serve_leaves_no_session_witness :
  exists sys sys', demo_client 2 = Some sys /\ Server_Sessions sys.(sy_l).(ls_world).(wd_srv) = 1 /\
    demo_returned = Some sys' /\ Server_Sessions sys'.(sy_l).(ls_world).(wd_srv) = 0 /\
    steady sys.(sy_l).(ls_world) /\ sys'.(sy_l).(ls_accept) = SReturned None.
Proof.
  assert (H1 : (fun sys => Server_Sessions sys.(sy_l).(ls_world).(wd_srv)) <$> demo_client 2 = Some 1) by (vm_compute; reflexivity).
  assert (H2 : (fun sys => sys.(sy_l).(ls_accept)) <$> demo_returned = Some (SReturned None)) by (vm_compute; reflexivity).
  apply fmap_Some in H1 as (sys & E & H1). apply fmap_Some in H2 as (sys' & E' & H2). exists sys, sys'.
  destruct (serve_leaves_no_session _ _ _ (MkListener false ∅ None) 1 demo_stream demo_inputs sys demo_new demo_proper
    (fun _ => Forall_nil_2 _) eq_refl eq_refl (demo_client_reach 2 sys E)) as (Hs & _).
  destruct (serve_leaves_no_session _ _ _ (MkListener false ∅ None) 1 demo_stream demo_inputs sys' demo_new demo_proper
    (fun _ => Forall_nil_2 _) eq_refl eq_refl (demo_returned_reach sys' E')) as (_ & _ & Hz).
  exact (conj E (conj (eq_sym H1) (conj E' (conj (proj1 (Hz (eq_sym H2))) (conj Hs (eq_sym H2)))))).
Defined.

Lemma whole_server_winds_down_witness :
  exists sys, demo_client 2 = Some sys /\ Server_Sessions sys.(sy_l).(ls_world).(wd_srv) = 1 /\
    Acc (flip (system_own 1 demo_stream demo_inputs)) (sys_cancel sys) /\
    forall sys', rtc (system_own 1 demo_stream demo_inputs) (sys_cancel sys) sys' ->
      (forall sys'', ~ system_own 1 demo_stream demo_inputs sys' sys'') ->
      sys'.(sy_l).(ls_accept) = SReturned None /\ Server_Sessions sys'.(sy_l).(ls_world).(wd_srv) = 0 \/
      exists c, sys'.(sy_progs) !! inl c = Some (Ret None).
Proof.
  assert (H1 : (fun sys => (Server_Sessions sys.(sy_l).(ls_world).(wd_srv), ls_accept (sy_l (sys_cancel sys)),
    ls_late (sy_l (sys_cancel sys)), ls_cancelled (sy_l (sys_cancel sys)))) <$> demo_client 2 = Some (1, SAccept, ∅, true))
    by (vm_compute; reflexivity).
  apply fmap_Some in H1 as (sys & E & H1). injection H1 as H1 H2 H3 H4. exists sys.
  assert (Hr : rtc demo_step demo_start (sys_cancel sys))
    by (eapply rtc_r; [by apply (demo_client_reach 2) | right; apply se_cancel]).
  assert (Hw : winding_down (sys_cancel sys).(sy_l)) by (split; [exact (eq_sym H4) | intros err Ea; discriminate (eq_trans H2 Ea)]).
  assert (Hs : settled (sys_cancel sys).(sy_l)) by (split; [exact (eq_sym H3) | intros c Ea; discriminate (eq_trans H2 Ea)]).
  destruct (whole_server_winds_down _ _ _ (MkListener false ∅ None) 1 demo_stream demo_inputs (sys_cancel sys) demo_new demo_proper
    (fun _ => Forall_nil_2 _) eq_refl eq_refl Hr Hw) as [Hacc Hend].
  refine (conj E (conj (eq_sym H1) (conj Hacc _))). intros sys' Hr' Hst.
  destruct (Hend sys' Hr' Hst) as (_ & _ & Hret). destruct (Hret Hs) as [(Ha & Hz & _) | (c & _ & Hf & _)];
    [exact (or_introl (conj Ha Hz)) | right; exists c; exact Hf].
Defined.

(** Somebody calls [Close] while the client's session is open. *)
Definition demo_closing : option (System Canned TestDevice) :=
  sys ← demo_client 2;
  l ← Close_call User sys.(sy_l);
  l ← Close_next User l;
  l ← Close_next User l;
  l ← Close_next User l;
  Some (MkSystem l (<[inr User := p_shutdown id]> sys.(sy_progs))).

Lemma demo_closing_reach sys : demo_closing = Some sys -> rtc demo_step demo_start sys.
Proof.
  unfold demo_closing. intros ([l0 ps] & E0 & (l1 & E1 & (l2 & E2 & (l3 & E3 & (l4 & E4 & E)%bind_Some)%bind_Some)%bind_Some)%bind_Some)%bind_Some.
  simpl in *. apply (inj Some) in E as <-.
  assert (Hp : (fun sys => sys.(sy_progs) !! inr User) <$> demo_client 2 = Some None) by (vm_compute; reflexivity).
  rewrite E0 in Hp. apply (inj Some) in Hp. simpl in Hp.
  assert (Hk : (fun sys => (fun sys => ls_closers (sy_l sys) User) <$> demo_closing) <$> demo_client 2
    = Some (Some KSessions)) by (vm_compute; reflexivity).
  unfold demo_closing in Hk. rewrite E0 in Hk. cbn -[Close_call Close_next] in Hk.
  rewrite E1 in Hk. cbn -[Close_next] in Hk. rewrite E2 in Hk. cbn -[Close_next] in Hk.
  rewrite E3 in Hk. cbn -[Close_next] in Hk. rewrite E4 in Hk. apply (inj Some), (inj Some) in Hk.
  etrans; [by apply (demo_client_reach 2) |].
  eapply rtc_l; [right; by eapply (se_user l0 l1) |].
  eapply rtc_l; [left; by eapply (so_close _ _ _ l1 l2) |].
  eapply rtc_l; [left; by eapply (so_close _ _ _ l2 l3) |].
  eapply rtc_l; [left; by eapply (so_close _ _ _ l3 l4) |].
  apply rtc_once. left. by apply so_close_all.
Qed.

(** The shutdown is run to its end. *)
Definition shutdown_acts : System Canned TestDevice -> option (System Canned TestDevice) :=
  fun sys => sys ← sys_act (inr User) sys; sys_act (inr User) sys.

Lemma shutdown_acts_reach sys sys' : shutdown_acts sys = Some sys' -> rtc demo_step sys sys'.
Proof.
  intros (sys1 & E1 & E2)%bind_Some. eapply rtc_l; [left; by eapply so_close_act |].
  apply rtc_once. left. by eapply so_close_act.
Qed.

Lemma Close_closes_tracked_witness :
  exists (sys0 : System Canned TestDevice) (l' : LState Canned TestDevice), demo_closing = Some sys0 /\ Server_Sessions sys0.(sy_l).(ls_world).(wd_srv) = 1 /\
    l'.(ls_closers) User = KReturned /\ l'.(ls_open) = false /\
    (forall c, c ∈ l'.(ls_l).(l_conns) -> c ∈ l'.(ls_shut) \/ c ∈ l'.(ls_late)) /\
    (forall id loc, Server_Session sys0.(sy_l).(ls_world).(wd_srv) id = Some loc ->
       unregistered loc l'.(ls_world) /\ closed_at loc l'.(ls_world)).
Proof.
  assert (Hf : (fun sys => (Server_Sessions sys.(sy_l).(ls_world).(wd_srv),
      (fun sys => (match sys.(sy_progs) !! inr User with Some (Ret (Some None)) => true | _ => false end,
                   bool_decide (ls_closers (sy_l sys) User = KSessions)))
        <$> (sys_act (inr User) sys ≫= shutdown_acts))) <$> demo_closing = Some (1, Some (true, true)))
    by (vm_compute; reflexivity).
  apply fmap_Some in Hf as (sys0 & E0 & Hf). injection Hf as Hz Hf. symmetry in Hf.
  apply fmap_Some in Hf as (sys & (sys1 & E1 & E2)%bind_Some & Hf). injection Hf as Hret Hk.
  destruct (sy_progs sys !! inr User) as [[[[]|]|]|] eqn:Ep; try discriminate Hret.
  symmetry in Hk. apply bool_decide_eq_true in Hk.
  assert (Hp : sy_progs sys0 !! inr User = Some (p_shutdown id)).
  { unfold demo_closing in E0. repeat (apply bind_Some in E0 as (? & _ & E0)). apply (inj Some) in E0 as <-.
    apply lookup_insert_eq. }
  assert (Ee : Close_end User (sy_l sys) = Some (upd_closer User KReturned (sy_l sys)))
    by (unfold Close_end; by rewrite Hk).
  destruct (Close_closes_tracked _ _ _ (MkListener false ∅ None) 1 demo_stream demo_inputs id User sys0 sys1 sys
    _ _ demo_new demo_proper (fun _ => Forall_nil_2 _) eq_refl eq_refl (fun all => reflexivity all)
    (demo_closing_reach sys0 E0) Hp E1 (shutdown_acts_reach sys1 sys E2) Ep Ee) as (H1 & H2 & _ & H3 & _ & H4 & _).
  exists sys0, (upd_closer User KReturned (sy_l sys)).
  exact (conj E0 (conj (eq_sym Hz) (conj H1 (conj H2 (conj H4 H3))))).
Defined.

(** ** A connection [Close] misses *)

(** A connection has been accepted when somebody calls [Close], and is tracked after it. *)
Definition demo_shut : option (System Canned TestDevice) :=
  l ← Serve_accept 0 demo_start.(sy_l);
  l ← Close_call User l;
  l ← Close_next User l;
  l ← Close_next User l;
  sys_act (inr User) (MkSystem l {[inr User := p_shutdown id]}).

Definition demo_missed : option (System Canned TestDevice) :=
  sys ← demo_shut;
  l ← Close_end User sys.(sy_l);
  l ← Serve_next l;
  l ← Serve_next l;
  l ← Serve_accept_fails (ioerr EOF) l;
  l ← Serve_next l;
  Some (MkSystem l (<[inl 0%nat := p_Serve 1 listener_ctx (demo_stream 0) (demo_inputs 0)]> sys.(sy_progs))).

Lemma demo_shut_reach sys : demo_shut = Some sys -> rtc demo_step demo_start sys.
Proof.
  unfold demo_shut. intros (l1 & E1 & (l2 & E2 & (l3 & E3 & (l4 & E4 & E5)%bind_Some)%bind_Some)%bind_Some)%bind_Some.
  assert (Hk : ls_closers l4 User = KSessions).
  { apply (inj Some) in E1 as <-. apply (inj Some) in E2 as <-. apply (inj Some) in E3 as <-.
    apply (inj Some) in E4 as <-. reflexivity. }
  eapply rtc_l; [right; by eapply (se_accept _ l1 _ 0) |].
  eapply rtc_l; [right; by eapply (se_user l1 l2) |].
  eapply rtc_l; [left; by eapply (so_close _ _ _ l2 l3) |].
  eapply rtc_l; [left; by eapply (so_close _ _ _ l3 l4) |].
  eapply rtc_l; [left; by apply (so_close_all _ _ _ l4 ∅ User id) |].
  apply rtc_once. left. eapply (so_close_act _ _ _ _ User). by rewrite insert_empty.
Qed.

(** Where the accept loop is after each of these steps. *)
Lemma got_tracked {S D} c (l l' : LState S D) :
  l.(ls_accept) = SGot c -> Serve_next l = Some l' -> l'.(ls_accept) = STracked c.
Proof. unfold Serve_next. intros -> E. apply (inj Some) in E as <-. open_state l. by destruct lc. Qed.
Lemma Close_end_accept {S D} x (l l' : LState S D) : Close_end x l = Some l' -> l'.(ls_accept) = l.(ls_accept).
Proof. unfold Close_end. intros E. open_state l. by repeat case_match; simplify_eq/=. Qed.

Lemma demo_missed_reach sys : demo_missed = Some sys -> rtc demo_step demo_start sys.
Proof.
  unfold demo_missed. intros ([l0 ps] & E0 & (l1 & E1 & (l2 & E2 & (l3 & E3 & (l4 & E4 & (l5 & E5 & E)%bind_Some)%bind_Some)%bind_Some)%bind_Some)%bind_Some)%bind_Some.
  simpl in *. apply (inj Some) in E as <-.
  assert (Hp : (fun sys => (ls_accept (sy_l sys), match sys.(sy_progs) !! inr User with Some (Ret r) => Some r | _ => None end))
    <$> demo_shut = Some (SGot 0, Some (Some None))) by (vm_compute; reflexivity).
  rewrite E0 in Hp. apply (inj Some) in Hp. injection Hp as Ha Hp. simpl in *.
  destruct (ps !! inr User) as [[r|]|] eqn:Er; try discriminate Hp.
  pose proof (Close_end_accept _ _ _ E1) as Ha1. rewrite Ha in Ha1. pose proof (got_tracked _ _ _ Ha1 E2) as Ha2.
  etrans; [by apply demo_shut_reach |].
  eapply rtc_l; [left; by eapply (so_closed _ _ _ l0 l1 ps User r) |].
  eapply rtc_l; [apply demo_serve; [exact E2 | by rewrite Ha1] |].
  eapply rtc_l; [left; by eapply (so_go _ _ _ l2 l3 _ 0) |].
  eapply rtc_l; [right; eapply (se_accept_fails l3 l4); exact E4 |].
  apply rtc_once, demo_serve; [exact E5 |]. by destruct (after_failure _ _ _ _ E4 E5) as [-> _].
Qed.

(** A listener that waits for a goroutine whose connection nobody has closed and whose
    client is silent. *)
Lemma waits_for_ever {S D} `{Stream S} `{Device D} fuel stream_of inputs_of (sys : System S D) c {C} (m : M (World S D) C) k :
  sys.(sy_l).(ls_closers) Watcher = KIdle -> sys.(sy_l).(ls_closers) User = KReturned ->
  sys.(sy_l).(ls_accept) = SWait -> sys.(sy_l).(ls_goroutines) = {[c := HServing]} -> sys.(sy_l).(ls_shut) = ∅ ->
  sys.(sy_l).(ls_cancelled) = false -> sys.(sy_progs) !! inl c = Some (Act m k) ->
  (forall x p, sys.(sy_progs) !! inr x = Some p -> exists r, p = Ret r) ->
  forall sys', ~ system_own fuel stream_of inputs_of sys sys'.
Proof.
  intros Hw Hu Ha Hg Hsh Hca Hp Hend sys' Hs. assert (Hk : forall x, ls_closers (sy_l sys) x <> KSessions) by (intros []; congruence).
  destruct Hs as [l l' ps err Ho E | l l' ps E Hn | l l' ps c' Ea E | sys c' sys' Hin E
      | l l' ps c' err Hp' E | l l' ps c' E | l l' ps E | l l' ps y E | l ps y order Hy _ _ | sys y sys' E
      | l l' ps y r _ E]; simpl in *.
  - unfold Serve_accept_fails in E. by rewrite Ha in E.
  - unfold Serve_next in E. rewrite Ha, Hg, map_size_singleton in E. done.
  - congruence.
  - rewrite Hsh in Hin. set_solver.
  - unfold conn_returns in E. rewrite Hg in E. destruct (decide (c = c')) as [<- | Hne]; [congruence |].
    by rewrite lookup_singleton_ne in E.
  - unfold conn_next in E. rewrite Hg in E. destruct (decide (c = c')) as [<- | Hne].
    + by rewrite lookup_singleton_eq in E.
    + by rewrite lookup_singleton_ne in E.
  - unfold Close_call in E. by rewrite Hca in E.
  - unfold Close_next in E. destruct y; [by rewrite Hw in E | by rewrite Hu in E].
  - by apply (Hk y).
  - apply sys_act_inv in E as (C' & m' & k' & Hy & _). by destruct (Hend _ _ Hy).
  - unfold Close_end in E. destruct (ls_closers l y) eqn:Ey; try done. by destruct (Hk y).
Qed.

(** C40: Close can miss a connection. In some state the whole server can reach Close
    has returned and Serve waits for the goroutine of a connection that is tracked and
    was never closed, because it had been accepted before and was tracked after Close
    took its list; as long as its client is silent no goroutine of the server can
    move. *)
Theorem close_can_miss_a_connection :
  exists sys, rtc (system_step 1 demo_stream demo_inputs) demo_start sys /\
    let st := sys.(sy_l) in
    ls_closers st User = KReturned /\ ls_accept st = SWait /\
    ls_goroutines st = {[0%nat := HServing]} /\ l_conns (ls_l st) = {[0%nat]} /\ ls_shut st = ∅ /\
    (forall sys', ~ system_own 1 demo_stream demo_inputs sys sys').
Proof.
  assert (Hf : (fun sys => (ls_closers (sy_l sys) Watcher, ls_closers (sy_l sys) User, ls_accept (sy_l sys),
      ls_goroutines (sy_l sys), l_conns (ls_l (sy_l sys)), ls_shut (sy_l sys), ls_cancelled (sy_l sys),
      match sy_progs sys !! inl 0%nat with Some (Act _ _) => true | _ => false end,
      match sy_progs sys !! inr Watcher with None => true | _ => false end,
      match sy_progs sys !! inr User with Some (Ret _) => true | _ => false end))
      <$> demo_missed
    = Some (KIdle, KReturned, SWait, {[0%nat := HServing]}, {[0%nat]}, ∅, false, true, true, true))
    by (vm_compute; reflexivity).
  apply fmap_Some in Hf as (sys & E & Hf). injection Hf as E1 E2 E3 E4 E5 E6 E7 E8 E9 E10.
  exists sys. split; [by apply demo_missed_reach |]. cbv zeta.
  destruct (sy_progs sys !! inl 0%nat) as [[|C m k]|] eqn:Ep; try discriminate E8.
  refine (conj (eq_sym E2) (conj (eq_sym E3) (conj (eq_sym E4) (conj (eq_sym E5) (conj (eq_sym E6) _))))).
  eapply (waits_for_ever _ _ _ sys 0 m k); try done.
  intros x p Hx. destruct x; [by rewrite Hx in E9 | rewrite Hx in E10].
  destruct p as [r |]; [by exists r | discriminate E10].
Qed.
