(* ===== verification/Example.v ===== *)
(** * The programs

    [src/examples/server/main.go]: the simulated instrument behind the server. What
    the instrument answers to a program message is what the client of a session
    receives, and nothing is left over for the next query. And
    [src/cmd/tinygocheck/main.go], a server over a device that does nothing. *)

From S2P Require Import Prelude Errors Version Constants MessageId Stream Header Codec.
From S2P Require Import WireErrors Writer Rmt Status Transaction Policy Locks LockWait Config.
From S2P Require Import Device TestDevice GoStrings Instrument Session Server Initialize Handler.
From S2P Require Import Dispatch Data Clear Async Reader Serve Query Connect Listener.

Section Example.
Context {F : Type} `{Runtime F}.
Implicit Types d : instrument F.

(** The state after a program message delivered in pieces. *)
Definition after_program d (ps : list bytes) : instrument F :=
  execute (TrimRight (d.(in_input) ++ concat ps) crlf) (set_input [] d).

(** How a program message is cut into writes is irrelevant. *)
Lemma instrument_accepts c ps d :
  ps <> [] -> device_accepts c d ps (after_program d ps).
Proof.
  revert d. induction ps as [|p ps IH]; intros d Hps; [done |]. unfold after_program.
  destruct ps as [|p' ps].
  - cbn [concat]. rewrite app_nil_r. by apply accepts_last.
  - eapply accepts_more; [reflexivity |].
    pose proof (IH (set_input (in_input d ++ p) d) ltac:(done)) as Ha. unfold after_program in Ha.
    cbn [concat] in *. cbn [in_input set_input] in Ha. rewrite <- app_assoc in Ha. exact Ha.
Qed.

(** Reading a response that is there: full buffers, then the rest. *)
Lemma instrument_script c n d :
  0 < n -> d.(in_response) <> [] ->
  exists bs b, response_script c n d bs (Ends b) (set_response [] d) /\
    concat bs ++ b = d.(in_response) /\ Forall (fun x => len x = n) bs /\ 0 < len b <= n.
Proof.
  intros Hn. remember (length d.(in_response)) as k eqn:Hk. revert d Hk.
  induction (lt_wf k) as [k _ IH]. intros d Hk Hr.
  assert (Hl : 0 < len (in_response d)).
  { destruct (in_response d); [done |]. unfold len. simpl. lia. }
  assert (Er : dev_Read d c n = (take (Z.to_nat n) (in_response d),
    bool_decide (len (drop (Z.to_nat n) (in_response d)) = 0), None,
    set_response (drop (Z.to_nat n) (in_response d)) d)).
  { simpl. unfold instrument_Read. by rewrite bool_decide_eq_false_2 by lia. }
  unfold len in Hl. case_bool_decide as Hz.
  - apply len_nil_iff in Hz. rewrite Hz in Er. exists [], (in_response d).
    assert (Et : take (Z.to_nat n) (in_response d) = in_response d).
    { rewrite <- (take_drop (Z.to_nat n) (in_response d)) at 2. by rewrite Hz, app_nil_r. }
    rewrite Et in Er. apply (f_equal length) in Et. rewrite length_take in Et.
    split_and!; [by apply script_ends | done | done | |]; unfold len; lia.
  - set (d1 := set_response (drop (Z.to_nat n) (in_response d)) d) in *.
    assert (H1 : (length (in_response d1) < k)%nat) by (simpl; rewrite length_drop; lia).
    destruct (IH _ H1 d1 eq_refl) as (bs & b & Hs & Hc & Hf & Hb).
    { simpl. intros E. by rewrite E in Hz. }
    exists (take (Z.to_nat n) (in_response d) :: bs), b. split_and!; try apply Hb.
    + by eapply script_more.
    + cbn [concat]. rewrite <- app_assoc, Hc. apply take_drop.
    + constructor; [| done]. unfold len in *. rewrite length_take. rewrite length_drop in Hz. lia.
Qed.

Lemma instrument_script_empty c n d :
  d.(in_response) = [] -> response_script c n d [] (Fails [] false errNoResponse) d.
Proof. intros Hr. apply script_fails. simpl. unfold instrument_Read. by rewrite Hr. Qed.

(** A program message leaves no input, and one line for each answered command. *)
Lemma after_program_lines d ps :
  exists rs, in_response (after_program d ps) = in_response d ++ concat rs /\
    in_input (after_program d ps) = [] /\
    length rs = length (List.filter is_answered
      (commands (TrimRight (d.(in_input) ++ concat ps) crlf))) /\
    Forall (fun r => exists l, r = l ++ [newline]) rs.
Proof.
  destruct (execute_response (TrimRight (d.(in_input) ++ concat ps) crlf) (set_input [] d))
    as (rs & ? & ? & ? & ?). by exists rs.
Qed.
End Example.

(** C15: A query to the example server is answered with what its instrument replies.
    For a paired session over the simulated instrument, any program message the policy
    takes for a query, however it is cut into messages, is executed once, one line
    being queued for each command that is answered. If something was queued and no
    further input waits when the last of it has been read, the client is sent exactly
    the queued bytes, in Data messages of full buffers and a DataEnd with the rest; if
    further input waits then, the full buffers are sent, the last chunk is dropped,
    and Interrupted and AsyncInterrupted are sent with the query's MessageID. If
    nothing was queued, the Error and the empty DataEnd of an absent response are
    sent, whether input waits or not. Afterwards the instrument holds no input and no
    response, so nothing leaks into the next query. *)
Theorem instrument_query_answered {S F} `{StreamModel S} `{Runtime F}
    fuel ctx buf inputs rest id q (srv : Server (instrument F)) sess (ch : Chans S) e pol :
  let scratch := responseScratch buf sess.(ss_maxTx) in
  let d1 := after_program srv.(srv_dev) (payloads inputs) in
  chans_up ch -> takes_input sess pol -> program_input sess.(ss_maxRx) inputs id q -> 0 < buf ->
  ctx_done e.(e_cancelled) ctx = false -> e.(e_nextctx) ∉ e.(e_cancelled) ->
  Policy_Disposition (Policy_Feed pol (concat (payloads inputs))) = ResponseExpected ->
  len d1.(in_response) < 2 ^ 64 -> (length d1.(in_response) < fuel)%nat ->
  exists srv' sess' ch' e' bytesS bytesA,
    sync_loop fuel ctx buf (inputs ++ rest) (live srv sess ch e)
      = sync_loop fuel ctx buf rest (live srv' sess' ch' e') /\
    sends ch ch' bytesS bytesA /\
    srv'.(srv_dev) = set_response [] d1 /\ d1.(in_input) = [] /\
    takes_input sess' (Policy_Reset pol) /\
    (exists rs, d1.(in_response) = srv.(srv_dev).(in_response) ++ concat rs /\
      length rs = length (List.filter is_answered (commands
        (TrimRight (srv.(srv_dev).(in_input) ++ concat (payloads inputs)) crlf)))) /\
    (d1.(in_response) <> [] ->
      exists bs b, concat bs ++ b = d1.(in_response) /\
        Forall (fun x => len x = scratch) bs /\ 0 < len b <= scratch /\
        if q then bytesS = data_messages id bs ++ plain_message Interrupted 0 id /\
                  bytesA = plain_message AsyncInterrupted 0 id
        else bytesS = data_messages id bs ++ data_end id b /\ bytesA = []) /\
    (d1.(in_response) = [] ->
      bytesS = error_message CodeResponseTimeout (str "no response from instrument")
        ++ data_end id [] /\ bytesA = []).
Proof.
  intros scratch d1 Hc Hti Hpi Hbuf Hd Hn Hdisp Hsz Hfuel.
  destruct (after_program_lines srv.(srv_dev) (payloads inputs)) as (rs & Hrs & Hin & Hlen & _).
  fold d1 in Hrs, Hin.
  assert (Hne : payloads inputs <> []) by (by destruct Hpi).
  pose proof (instrument_accepts false (payloads inputs) srv.(srv_dev) Hne) as Ha. fold d1 in Ha.
  assert (Hscr : 0 < scratch).
  { subst scratch. unfold responseScratch. pose proof (ti_maxTx _ _ Hti).
    repeat case_bool_decide; simpl; lia. }
  destruct (decide (d1.(in_response) = [])) as [Hr | Hr].
  - pose proof (instrument_script_empty false scratch d1 Hr) as Hs.
    pose proof (query_live fuel ctx buf inputs rest id q srv sess ch e pol d1 _ _ _
      Hc Hti Hpi Hbuf Hd Hn Ha Hdisp Hs ltac:(done) ltac:(simpl; lia)) as Hq.
    destruct Hq as (srv' & sess' & ch' & e' & El & Hse & Hdv & _ & Ht & _).
    eexists srv', sess', ch', e', _, _. split_and!; [exact El | exact Hse | | done | done | by exists rs | done | done].
    rewrite Hdv. clear -Hr. destruct d1. simpl in Hr. by subst.
  - destruct (instrument_script false scratch d1 Hscr Hr) as (bs & b & Hs & Hcc & Hf & Hb).
    assert (Hsz' : script_size bs (Ends b) < 2 ^ 64).
    { unfold script_size. by rewrite <- len_app, Hcc. }
    assert (Hfu : (length bs < fuel)%nat).
    { apply (f_equal length) in Hcc. rewrite length_app in Hcc.
      assert (length bs <= length (concat bs))%nat; [| lia].
      clear -Hf Hscr. induction Hf as [|x bs Hx Hf IH]; simpl; [lia |].
      rewrite length_app. unfold len in Hx. lia. }
    pose proof (query_live fuel ctx buf inputs rest id q srv sess ch e pol d1 _ _ _
      Hc Hti Hpi Hbuf Hd Hn Ha Hdisp Hs Hsz' Hfu) as Hq.
    destruct (expected_response id bs (Ends b) q) as [[[out x] xa] dl] eqn:Ex.
    destruct Hq as (srv' & sess' & ch' & e' & El & Hse & Hdv & _ & Ht & _).
    eexists srv', sess', ch', e', x, xa. split_and!; [exact El | exact Hse | done | done | done | by exists rs | | done].
    intros _. exists bs, b. destruct Hb. destruct q; cbn in Ex; by simplify_eq.
Qed.

(** ** A concrete run: the query of the documentation, over a 16-byte buffer *)

Definition example_server : Server (instrument Z) :=
  MkServer (demo_config 1) (instrument_zero false) ∅ 1 LockManager_zero
    (PolicySCPI NewSCPIQueryPolicy) Counters_zero.

Lemma instrument_query_answered_witness :
  exists srv' sess' ch' e' bytesS bs b,
    sync_loop 100 [0%nat] 16 (demo_query ++ []) (live example_server demo_session demo_chans demo_env)
      = sync_loop 100 [0%nat] 16 [] (live srv' sess' ch' e') /\
    sends demo_chans ch' bytesS [] /\
    bytesS = data_messages 0xffffff02 bs ++ data_end 0xffffff02 b /\
    concat bs ++ b = str "GoTMC,HiSLIP Simulated Instrument,0,0.1.0" ++ [newline].
Proof.
  destruct (instrument_query_answered 100 [0%nat] 16 demo_query [] 0xffffff02 false example_server
    demo_session demo_chans demo_env (PolicySCPI NewSCPIQueryPolicy) demo_chans_up demo_takes_input
    demo_query_input eq_refl eq_refl (not_elem_of_empty _) eq_refl eq_refl ltac:(vm_compute; lia))
    as (srv' & sess' & ch' & e' & bS & bA & El & Hs & _ & _ & _ & _ & Ha & _).
  destruct (Ha ltac:(vm_compute; discriminate)) as (bs & b & Ec & _ & _ & Eb & EA). subst bA.
  exists srv', sess', ch', e', bS, bs, b. exact (conj El (conj Hs (conj Eb Ec))).
Defined.

(** ** [tinygocheck] *)

Inductive stubDevice : Type := StubDevice.

Definition stub_Write (d : stubDevice) (cancelled : bool) (p : bytes) (fin : bool)
  : option error * stubDevice := (None, d).
Definition stub_Read (d : stubDevice) (cancelled : bool) (n : Z)
  : bytes * bool * option error * stubDevice := ([], true, None, d).
Definition stub_Clear (d : stubDevice) (cancelled : bool) : option error * stubDevice := (None, d).
Definition stub_Trigger (d : stubDevice) (cancelled : bool) : option error * stubDevice := (None, d).
Definition stub_ReadStatusByte (d : stubDevice) (cancelled : bool) : Z * option error * stubDevice :=
  (0, None, d).
Definition stub_RemoteLocal (d : stubDevice) (cancelled : bool) (mode : RemoteLocalMode)
  : option error * stubDevice := (None, d).

#[export] Program Instance stubDevice_Device : Device stubDevice := {|
  dev_Write := stub_Write;
  dev_Read := stub_Read;
  dev_Clear := stub_Clear;
  dev_Trigger := stub_Trigger;
  dev_ReadStatusByte := stub_ReadStatusByte;
  dev_RemoteLocal := stub_RemoteLocal;
|}.
Next Obligation. done. Qed.
Next Obligation. done. Qed.

(** [main] panics with the error, if there is one. *)
Definition tinygocheck_main : error + Server stubDevice := New (Some StubDevice) Config_zero.

Lemma tinygocheck_does_not_panic : exists s, tinygocheck_main = inr s.
Proof. eexists. reflexivity. Qed.
