(* ===== verification/Process.v ===== *)
(** * The example server as a process

    [main] of [src/examples/server/main.go], from its arguments to its exit code: the
    flags, the server over the simulated instrument, the listener with its callback,
    the signal that cancels the context, and everything that is logged. The flags are
    [Flags], the instrument and its log [InstrumentLog], the listener with all its
    goroutines [System]. Of the network there are [net.Listen] and the text of the
    bound address. The log is that of package [log], to which [main], the callback and
    the instrument write: a line is a text, or an entry of the instrument with the
    arguments of its format, without the time stamp. *)

From S2P Require Import Prelude Interleave Errors GoStrings Flags Constants Stream Header Locks LockWait Config Device.
From S2P Require Import Instrument InstrumentLog Session Server Initialize Reader Serve Programs Types Goroutines.
From S2P Require Import DeviceUse Worlds Listener System.

Inductive line : Type :=
| Text (t : bytes)
| Entry (e : log_entry).

(** The process is serving, with its log so far, or has exited with a code. *)
Inductive process (S D : Type) : Type :=
| Listening (log : list line) (sys : System S D)
| Exited (code : Z) (log : list line).
Arguments Listening {S D}.
Arguments Exited {S D}.

(** [log.Fatalf] *)
Definition Fatal {S D} (log : list line) (t : bytes) : process S D := Exited 1 (log ++ [Text t]).

Section Process.
Context {S F : Type} `{Stream S} `{Runtime F}.
Context (net_Listen : bytes -> option error) (net_Addr : bytes -> bytes).
Context (fuel : nat) (stream_of : nat -> S) (inputs_of : nat -> list (message * list wait_choice * bool)).
Implicit Types (sys : System S (logger F)) (p : process S (logger F)).

(** ** [main] *)

(** The server of [main], before it listens. *)
Definition main_server (verbose : bool) : error + Server (logger F) :=
  New (Some (instrument_zero verbose, [])) Config_zero.

(** The callback of [main]: what is logged of a connection error. *)
Definition main_onError (err : error) : option bytes :=
  if errors_Is err Canceled then None
  else Some (str "connection: " ++ error_text err).

Definition greeting (addr : bytes) : list bytes :=
  [str "hislip server listening on " ++ net_Addr addr;
   str "resource: TCPIP0::127.0.0.1::hislip0::INSTR"].

(** The line of counters logged at the end. *)
Definition counters_line (c : Counters) : bytes :=
  str "sessions=" ++ Itoa c.(SessionsOpened) ++ str " refused=" ++ Itoa c.(SessionsRefused)
  ++ str " fatal=" ++ Itoa c.(FatalErrors) ++ str " nonfatal=" ++ Itoa c.(NonFatalErrors)
  ++ str " silent-interrupted=" ++ Itoa c.(SilentInterrupted)
  ++ str " interrupted-sent=" ++ Itoa c.(InterruptedSent)
  ++ str " no-answer=" ++ Itoa c.(QueriesWithoutAnswer) ++ str " clears=" ++ Itoa c.(DeviceClears)
  ++ str " triggers=" ++ Itoa c.(Triggers) ++ str " polls=" ++ Itoa c.(SerialPolls).

(** [main] up to its call of [Serve]; [args] are the arguments after the program name. *)
Definition main (args : list bytes) : process S (logger F) :=
  match flag_Parse args with
  | inl e => Exited (flag_exit e) []
  | inr (opts, _) =>
      match main_server opts.(opt_verbose) with
      | inl err => Fatal [] (str "creating server: " ++ error_text err)
      | inr srv =>
          match Listen net_Listen opts.(opt_addr) (Some srv) with
          | inl err => Fatal [] (str "listening on " ++ opts.(opt_addr) ++ str ": " ++ error_text err)
          | inr (l, srv) =>
              Listening (Text <$> greeting opts.(opt_addr)) (system_of (OnError (Some main_onError) l) srv)
          end
      end
  end.

(** The rest of [main], when [Serve] has returned. *)
Definition main_return (log : list line) sys : option (process S (logger F)) :=
  match sys.(sy_l).(ls_accept) with
  | SReturned (Some err) => Some (Fatal log (str "serve: " ++ error_text err))
  | SReturned None =>
      Some (Exited 0 (log ++ [Text (counters_line (Server_Counters sys.(sy_l).(ls_world).(wd_srv)))]))
  | _ => None
  end.

(** ** Steps *)

(** What the instrument has logged. *)
Definition sys_entries sys : list log_entry := (wd_dev sys.(sy_l).(ls_world)).2.

(** What a step adds to the log: lines of the callback or of the instrument. *)
Definition logged sys sys' : list line :=
  (Text <$> drop (length sys.(sy_l).(ls_log)) sys'.(sy_l).(ls_log))
  ++ (Entry <$> drop (length (sys_entries sys)) (sys_entries sys')).

(** What the process does by itself, and what can happen to it: connections, messages,
    and the signal that cancels the context of [signal.NotifyContext]. Nothing happens
    to a process that has exited. *)
Inductive own_step : process S (logger F) -> process S (logger F) -> Prop :=
| own_system log sys sys' :
    system_own fuel stream_of inputs_of sys sys' ->
    own_step (Listening log sys) (Listening (log ++ logged sys sys') sys')
| own_return log sys p : main_return log sys = Some p -> own_step (Listening log sys) p.

Inductive process_step : process S (logger F) -> process S (logger F) -> Prop :=
| process_own p p' : own_step p p' -> process_step p p'
| process_happens log sys sys' :
    system_env sys sys' -> process_step (Listening log sys) (Listening (log ++ logged sys sys') sys').

(** ** The log *)

(** A line [main_onError] writes. *)
Definition is_report (t : bytes) : Prop := exists err, main_onError err = Some t.

Definition texts (log : list line) : list bytes := omap (fun x => match x with Text t => Some t | Entry _ => None end) log.
Definition entries (log : list line) : list log_entry :=
  omap (fun x => match x with Text _ => None | Entry e => Some e end) log.

Lemma texts_app l1 l2 : texts (l1 ++ l2) = texts l1 ++ texts l2.
Proof. apply omap_app. Qed.
Lemma entries_app l1 l2 : entries (l1 ++ l2) = entries l1 ++ entries l2.
Proof. apply omap_app. Qed.
Lemma texts_lines ts es : texts ((Text <$> ts) ++ (Entry <$> es)) = ts.
Proof.
  rewrite texts_app. replace (texts (Entry <$> es)) with (@nil bytes) by (induction es; [done | simpl; done]).
  rewrite app_nil_r. induction ts as [|t ts IH]; [done |]. by simpl; f_equal.
Qed.
Lemma entries_lines ts es : entries ((Text <$> ts) ++ (Entry <$> es)) = es.
Proof.
  rewrite entries_app. replace (entries (Text <$> ts)) with (@nil log_entry) by (induction ts; [done | simpl; done]).
  simpl. induction es as [|e es IH]; [done |]. by simpl; f_equal.
Qed.

(** The methods of the instrument add to its log, and nothing if it is not verbose. *)
Definition grows (d d' : logger F) : Prop :=
  d'.1.(in_verbose) = d.1.(in_verbose) /\
  exists more, d'.2 = d.2 ++ more /\ (d.1.(in_verbose) = false -> more = []).

Lemma verbose_execute program (d : instrument F) : in_verbose (execute program d) = in_verbose d.
Proof.
  rewrite execute_commands. revert d. induction (commands program) as [|cmd cmds IH]; intros d; [done |].
  simpl. by rewrite IH, verbose_executeOne.
Qed.

Lemma logf_quiet (d : instrument F) fmt args : in_verbose d = false -> logf d fmt args = [].
Proof. unfold logf. by intros ->. Qed.

Lemma call_grows (d d' : logger F) : dev_call d d' -> grows d d'.
Proof.
  destruct d as [d log]. intros Hc. unfold grows. destruct Hc as [c p fin | c n | c | c | c | c mode];
    cbn [dev_Write dev_Read dev_Clear dev_Trigger dev_ReadStatusByte dev_RemoteLocal logger_Device add_log fst snd].
  - destruct (instrument_log_is_faithful d) as (E & _ & _ & _ & _ & _ & El). rewrite (E p fin). split.
    + unfold instrument_Write. destruct fin; cbn [negb fst snd]; [by rewrite verbose_execute | done].
    + exists (Write_logged d p fin).1. split; [done |]. intros Hv. destruct fin; [rewrite El; by rewrite Hv | done].
  - unfold Read_logged. case_bool_decide; (split; [done |]); eexists; (split; [reflexivity |]); [done |].
    intros Hv. by apply logf_quiet.
  - split; [done |]. eexists. split; [reflexivity | by apply logf_quiet].
  - split; [done |]. eexists. split; [reflexivity |]. intros Hv. by apply logf_quiet.
  - split; [done |]. eexists. split; [reflexivity | by apply logf_quiet].
  - split; [done |]. eexists. split; [reflexivity | by apply logf_quiet].
Qed.

(** What a step of the listener reports. *)
Lemma report_lines err l : l.(l_onError) = Some main_onError -> Forall is_report (report err l).
Proof.
  intros E. unfold report. rewrite E. destruct (main_onError err) as [t|] eqn:Er; [| done].
  apply Forall_singleton. by exists err.
Qed.

Definition reports (l l' : LState S (logger F)) : Prop :=
  l'.(ls_l).(l_onError) = l.(ls_l).(l_onError) /\
  exists new, l'.(ls_log) = l.(ls_log) ++ new /\ (l.(ls_l).(l_onError) = Some main_onError -> Forall is_report new).

Lemma reports_nothing l l' : l'.(ls_l).(l_onError) = l.(ls_l).(l_onError) -> l'.(ls_log) = l.(ls_log) -> reports l l'.
Proof. intros E1 E2. split; [done |]. exists []. by rewrite app_nil_r. Qed.

Lemma step_reports sys sys' : system_step fuel stream_of inputs_of sys sys' -> reports sys.(sy_l) sys'.(sy_l).
Proof.
  assert (Hact : forall key sys sys', sys_act key sys = Some sys' -> reports sys.(sy_l) sys'.(sy_l)).
  { clear. intros key [l ps] sys' (C & m & next & _ & ->)%sys_act_inv. apply reports_nothing; by open_state l. }
  intros [Hs | Hs].
  - destruct Hs as [l l' ps err Ho E | l l' ps E Hn | l l' ps c Ea E | sys c sys' _ E
      | l l' ps c err Hp E | l l' ps c E | l l' ps E | l l' ps y E | l ps y order Hk Hp Hord | sys y sys' E
      | l l' ps y r _ E]; cbn [sy_l]; try (by eapply Hact); try (by apply reports_nothing).
    5: { unfold conn_next in E. open_state l. destruct (g !! c) as [[| err |]|]; try done; apply (inj Some) in E as <-;
        [split; [done |]; eexists; split; [reflexivity | apply report_lines] | by apply reports_nothing]. }
    all: unfold Serve_accept_fails, Serve_next, conn_returns, Close_call, Close_begin, Close_next, Close_end in E;
      open_state l; repeat case_match; simplify_eq/=; by apply reports_nothing.
  - destruct Hs as [l l' ps c E | l l' ps err E | sys c sys' E | l l' ps E | [l ps]]; cbn [sy_l]; try (by eapply Hact).
    4: apply reports_nothing; by open_state l.
    all: unfold Serve_accept, Serve_accept_fails, Close_call, Close_begin in E;
      open_state l; repeat case_match; simplify_eq/=; by apply reports_nothing.
Qed.

(** What a step does with the instrument. *)
Definition careful_progs sys : Prop := map_Forall (fun _ prg => careful wd_dev prg) sys.(sy_progs).

Lemma step_dev sys sys' :
  system_step fuel stream_of inputs_of sys sys' -> careful_progs sys ->
  careful_progs sys' /\ dev_move (wd_dev sys.(sy_l).(ls_world)) (wd_dev sys'.(sy_l).(ls_world)).
Proof.
  assert (Hact : forall key sys sys', sys_act key sys = Some sys' -> careful_progs sys ->
    careful_progs sys' /\ dev_move (wd_dev sys.(sy_l).(ls_world)) (wd_dev sys'.(sy_l).(ls_world))).
  { clear. intros key [l ps] sys' (C & m & k & Hk & ->)%sys_act_inv Hc. simpl in *. rewrite upd_world_world.
    destruct (Hc _ _ Hk (ls_world l)) as [Hm Hnext]. split; [| done]. by apply map_Forall_insert_2. }
  assert (Hapart : forall l l' ps ps', apart l l' -> careful_progs (MkSystem l' ps') ->
    careful_progs (MkSystem l' ps') /\ dev_move (wd_dev (sy_l (MkSystem l ps)).(ls_world)) (wd_dev (sy_l (MkSystem l' ps')).(ls_world))).
  { intros l l' ps ps' [E _] Hc. split; [done |]. left. simpl. by rewrite E. }
  intros [Hs | Hs] Hc.
  - destruct Hs as [l l' ps err Ho E | l l' ps E Hn | l l' ps c Ea E | sys c sys' _ E
      | l l' ps c err Hp E | l l' ps c E | l l' ps E | l l' ps y E | l ps y order Hk Hp Hord | sys y sys' E
      | l l' ps y r _ E]; try (by eapply Hact).
    + apply Hapart; [by eapply apart_accept_fails | done].
    + apply Hapart; [by apply apart_serve | done].
    + split; [apply map_Forall_insert_2; [apply careful_Serve | done] |]. left. unfold Serve_next in E. rewrite Ea in E.
      apply (inj Some) in E as <-. by open_state l.
    + split; [by apply map_Forall_delete |]. left. unfold conn_returns in E.
      destruct (ls_goroutines l !! c) as [[]|]; try done. apply (inj Some) in E as <-. by open_state l.
    + apply Hapart; [by eapply apart_conn | done].
    + apply Hapart; [by eapply apart_close_call | done].
    + apply Hapart; [eapply apart_close; by left | done].
    + split; [| by left]. apply map_Forall_insert_2; [| done].
      apply careful_bind; [apply careful_CloseAll | intros ?; exact I].
    + apply Hapart; [eapply apart_close; by right | done].
  - destruct Hs as [l l' ps c E | l l' ps err E | sys c sys' E | l l' ps E | [l ps]]; try (by eapply Hact).
    + apply Hapart; [by eapply apart_accept | done].
    + apply Hapart; [by eapply apart_accept_fails | done].
    + apply Hapart; [by eapply apart_close_call | done].
    + split; [done |]. left. by open_state l.
Qed.

(** The log of a process that is serving: the greeting, then the reports of the listener
    and the entries of the instrument, each in their order. *)
Record logging (opts : options) (log : list line) sys : Prop := {
  lg_callback : sys.(sy_l).(ls_l).(l_onError) = Some main_onError;
  lg_reports : Forall is_report sys.(sy_l).(ls_log);
  lg_careful : careful_progs sys;
  lg_verbose : (wd_dev sys.(sy_l).(ls_world)).1.(in_verbose) = opts.(opt_verbose);
  lg_quiet : opts.(opt_verbose) = false -> sys_entries sys = [];
  lg_body : exists body, log = (Text <$> greeting opts.(opt_addr)) ++ body /\
    texts body = sys.(sy_l).(ls_log) /\ entries body = sys_entries sys;
}.

Lemma logging_step opts log sys sys' :
  system_step fuel stream_of inputs_of sys sys' -> logging opts log sys -> logging opts (log ++ logged sys sys') sys'.
Proof.
  intros Hs [Hc Hr Hp Hv Hq (body & -> & Ht & He)]. destruct (step_reports _ _ Hs) as (Ec & new & Enew & Hnew).
  destruct (step_dev _ _ Hs Hp) as [Hp' Hd].
  assert (Hg : grows (wd_dev sys.(sy_l).(ls_world)) (wd_dev sys'.(sy_l).(ls_world))).
  { destruct Hd as [-> | Hd]; [| by apply call_grows]. split; [done |]. exists []. by rewrite app_nil_r. }
  destruct Hg as (Ev & more & Em & Hmore).
  assert (E : logged sys sys' = (Text <$> new) ++ (Entry <$> more)).
  { unfold logged, sys_entries. by rewrite Enew, Em, !drop_app_length. }
  split; [congruence | rewrite Enew; by apply Forall_app; auto | done | congruence | |].
  - intros Hv'. unfold sys_entries in *. rewrite Em, Hq, Hmore; [done | congruence | done].
  - exists (body ++ logged sys sys'). split; [by rewrite <- app_assoc |].
    rewrite E, texts_app, entries_app, texts_lines, entries_lines, Ht, He, Enew. unfold sys_entries. by rewrite Em.
Qed.

(** ** What a process can reach *)

Lemma main_return_exits log sys p : main_return log sys = Some p -> exists code log', p = Exited code log'.
Proof. unfold main_return, Fatal. intros E. repeat case_match; simplify_eq; eauto. Qed.

(** A process that is serving has taken steps of the system only. *)
Definition running (opts : options) (start : System S (logger F)) p : Prop :=
  match p with
  | Listening log sys => rtc (system_step fuel stream_of inputs_of) start sys /\ logging opts log sys
  | Exited _ _ => True
  end.

Lemma running_step opts start p p' : process_step p p' -> running opts start p -> running opts start p'.
Proof.
  intros Hs. destruct Hs as [? ? [log sys sys' Ho | log sys p' Hm] | log sys sys' He]; simpl.
  - intros [Hr Hl]. split; [eapply rtc_r; [done | by left] | apply logging_step; [by left | done]].
  - destruct (main_return_exits _ _ _ Hm) as (code & log' & ->). done.
  - intros [Hr Hl]. split; [eapply rtc_r; [done | by right] | apply logging_step; [by right | done]].
Qed.

Lemma reach_listening args log sys :
  rtc process_step (main args) (Listening log sys) ->
  exists opts rest srv, flag_Parse args = inr (opts, rest) /\ main_server opts.(opt_verbose) = inr srv /\
    rtc (system_step fuel stream_of inputs_of) (system_of (MkListener false ∅ (Some main_onError)) srv) sys /\
    logging opts log sys.
Proof.
  intros Hr. assert (Hrun : forall opts start p q, rtc process_step p q -> running opts start p -> running opts start q).
  { clear. intros opts start p q. induction 1; eauto using running_step. }
  assert (Hexit : forall code l q, rtc process_step (Exited code l) q -> q = Exited code l).
  { clear. intros code l q Hr. inversion Hr as [| ? p1 ? Hs]; subst; [done |]. inversion Hs as [? ? Ho |]; subst. inversion Ho. }
  unfold main, Listen, Fatal in Hr. destruct (flag_Parse args) as [|[opts rest]]; [by apply Hexit in Hr |].
  destruct (main_server (opt_verbose opts)) as [|srv] eqn:Es; [by apply Hexit in Hr |].
  destruct (net_Listen _); [by apply Hexit in Hr |].
  exists opts, rest, srv. split; [done |]. split; [done |].
  refine (Hrun opts _ _ _ Hr _). split; [done |].
  assert (Ed : srv_dev srv = (instrument_zero (opt_verbose opts), [])).
  { unfold main_server, New in Es. destruct (Config_validate _); [done |]. by injection Es as <-. }
  split; simpl; try done.
  - unfold wd_dev. simpl. by rewrite Ed.
  - unfold sys_entries, wd_dev. simpl. by rewrite Ed.
  - exists []. unfold sys_entries, wd_dev. simpl. by rewrite Ed.
Qed.

Lemma own_run opts log sys p :
  rtc own_step (Listening log sys) p -> logging opts log sys ->
  exists log' sys', rtc (system_own fuel stream_of inputs_of) sys sys' /\ logging opts log' sys' /\
    (p = Listening log' sys' \/ main_return log' sys' = Some p).
Proof.
  remember (Listening log sys) as q eqn:Eq. intros Hr. revert log sys Eq.
  induction Hr as [q | q q1 p Hs Hr IH]; intros log sys -> Hl; [exists log, sys; by auto using rtc_refl |].
  inversion Hs as [? ? sys1 Ho | ? ? ? Hm]; subst.
  - destruct (IH _ sys1 eq_refl) as (log' & sys' & ? & ? & ?); [apply logging_step; [by left | done] |].
    exists log', sys'. split; [by eapply rtc_l | done].
  - exists log, sys. split; [done |]. split; [done |]. right. destruct Hr as [| q1 q2 q3 Hs' _]; [done |].
    destruct (main_return_exits _ _ _ Hm) as (code & log' & ->). inversion Hs'.
Qed.

Lemma own_terminates log sys : Acc (flip own_step) (Listening log sys).
Proof.
  revert log. induction (system_terminates fuel stream_of inputs_of sys) as [sys _ IH]. intros log. constructor. intros p Hs.
  inversion Hs as [? ? ? Ho | ? ? ? Hm]; subst; [by apply IH |].
  destruct (main_return_exits _ _ _ Hm) as (code & log' & ->). constructor. intros p' Hs'. inversion Hs'.
Qed.
End Process.

(** ** Shutting down *)

(** A line of the log between the greeting and the counters: a report, or an entry of a
    verbose instrument. *)
Definition is_line (opts : options) (x : line) : Prop :=
  match x with Text t => is_report t | Entry _ => opts.(opt_verbose) = true end.

Lemma logging_lines {S F} `{Stream S} `{Runtime F} net_Addr opts log (sys : System S (logger F)) :
  logging net_Addr opts log sys -> exists body, log = (Text <$> greeting net_Addr opts.(opt_addr)) ++ body /\
    Forall (is_line opts) body /\ entries body = sys_entries sys.
Proof.
  intros [_ Hr _ _ Hq (body & -> & Ht & He)]. exists body. split_and!; [done | | done].
  rewrite <- Ht in Hr. rewrite <- He in Hq. clear -Hr Hq. induction body as [|[t | e] body IH]; constructor.
  - simpl in Hr. by apply Forall_cons in Hr as [? _].
  - simpl in Hr. apply Forall_cons in Hr as [_ ?]. by apply IH.
  - simpl in *. destruct (opt_verbose opts); [done |]. by specialize (Hq eq_refl).
  - apply IH; [done |]. intros Hv. simpl in Hq. by specialize (Hq Hv).
Qed.


(** How a process starts: it exits with 0 for a request of help, with 2 for other bad
    flags, with 1 and the reason if the network refuses the address, and serves
    otherwise; the server is always created, and a cancelled connection is not reported,
    however its error is wrapped. *)
Lemma main_outcome {S F} `{Stream S} `{Runtime F} net_Listen net_Addr args :
  match flag_Parse args with
  | inl e => main (S := S) (F := F) net_Listen net_Addr args = Exited (flag_exit e) []
  | inr (opts, _) =>
      let addr := if bool_decide (opts.(opt_addr) = []) then str ":4880" else opts.(opt_addr) in
      match net_Listen addr with
      | Some err => main (S := S) (F := F) net_Listen net_Addr args
          = Exited 1 [Text (str "listening on " ++ opts.(opt_addr) ++ str ": " ++ error_text err)]
      | None => exists sys : System S (logger F),
          main net_Listen net_Addr args = Listening (Text <$> greeting net_Addr opts.(opt_addr)) sys /\
          sys.(sy_l).(ls_accept) = SAccept /\
          (forall err, errors_Is err Canceled = true -> report err sys.(sy_l).(ls_l) = []) /\
          wd_dev sys.(sy_l).(ls_world) = (instrument_zero opts.(opt_verbose), [])
      end
  end.
Proof.
  unfold main, Listen. destruct (flag_Parse args) as [e|[opts rest]]; [done |].
  replace (str ":" ++ Itoa DefaultPort) with (str ":4880") by (vm_compute; reflexivity).
  destruct (main_server (opt_verbose opts)) as [err|srv] eqn:Em; [by vm_compute in Em |]. cbv zeta.
  destruct (net_Listen _); [done |]. eexists. split; [reflexivity |]. split; [done |]. split.
  - intros err E. unfold report, main_onError. simpl. by rewrite E.
  - unfold main_server, New in Em. destruct (Config_validate _); [done |]. by injection Em as <-.
Qed.

(** ** A concrete run: the server is started with [-v], has a client, and is interrupted *)

Definition demo_args : list bytes := [str "-v"; str "--addr=127.0.0.1:0"].
Definition demo_address : bytes := str "127.0.0.1:4711".
Definition demo_main : process Canned (logger Z) := main (fun _ => None) (fun _ => demo_address) demo_args.
Local Abbreviation demo_process_step := (process_step (F := Z) 1 demo_stream demo_inputs).

Definition interrupted : option (list line * System Canned (logger Z)) :=
  match demo_main with
  | Listening log sys =>
      l ← Serve_accept 5 sys.(sy_l);
      l ← Serve_next l;
      l ← Serve_next l;
      Some (log, sys_cancel (MkSystem l {[inl 5%nat := p_Serve 1 listener_ctx (demo_stream 5) (demo_inputs 5)]}))
  | Exited _ _ => None
  end.

Lemma interrupted_reach log sys :
  interrupted = Some (log, sys) ->
  exists log', rtc demo_process_step demo_main (Listening log' sys).
Proof.
  unfold interrupted. destruct demo_main as [log0 [l0 ps] | code log0] eqn:Em; [| done].
  assert (Hp : ps = ∅ /\ ls_accept l0 = SAccept).
  { unfold demo_main, main in Em. cbn [main_server New] in Em. by injection Em as _ <- <-. }
  destruct Hp as [-> Ha].
  intros (l1 & E1 & (l2 & E2 & (l3 & E3 & E)%bind_Some)%bind_Some)%bind_Some. apply (inj Some), pair_equal_spec in E as [_ <-].
  assert (Ha1 : ls_accept l1 = SGot 5).
  { unfold Serve_accept in E1. cbn [sy_l] in E1. rewrite Ha in E1. destruct (_ && _); [| done].
    apply (inj Some) in E1 as <-. by open_state l0. }
  pose proof (got_tracked _ _ _ Ha1 E2) as Ha2. eexists.
  eapply rtc_l; [by eapply process_happens, (se_accept l0 l1) |].
  eapply rtc_l; [eapply process_own, own_system, (so_serve _ _ _ l1 l2); [exact E2 | by rewrite Ha1] |].
  eapply rtc_l; [by eapply process_own, own_system, (so_go _ _ _ l2 l3 _ 5) |].
  rewrite insert_empty. apply rtc_once. eapply process_happens, se_cancel.
Qed.

